(* ===== verification/_CoqProject ===== *)
-Q . S2P
Prelude.v
Text.v
Json.v
Frame.v
Udp.v
Window.v
WriteQueue.v
Stream.v
Mux.v
MuxInv.v
MuxOps.v
MuxOrder.v
MuxView.v
Link.v
MuxWire.v
PingPong.v
MuxRace.v
MuxWitness.v
Float.v
AuditLog.v
Auth.v
TestCerts.v
Config.v
Registry.v
RateLimit.v
Router.v
Pump.v
MuxSim.v
RouteCopy.v
ClientListener.v
Store.v
Net.v
Admin.v
Reload.v
RelayServer.v
AdminHttp.v
Expiry.v
AdminText.v
RelayMain.v
Shutdown.v
RelayRestart.v
RelayLife.v
RelayWitness.v
Backoff.v
Forwarder.v
Path.v
PathWitness.v
AgentClient.v
Tunnel.v
AgentWitness.v
AgentMain.v
AgentLife.v
MainWitness.v
LoadStats.v
LoadTest.v
LoadTrip.v
