(* ===== verification/Prelude.v ===== *)
(** * A verification of atlax, the reverse TLS tunnel

    ** The program

    An atlax relay listens for agents on one TLS port and for clients on many
    TCP ports. An agent dials the relay; the common name of its certificate
    names its customer. Over that one connection the two ends multiplex
    streams: the relay opens a stream for every client, the agent forwards it
    to a local service. The relay's port mappings come from relay.yaml, from a
    sidecar file in which the admin API keeps what was changed at run time, and
    from hot reloads.

    On the relay, main checks the configuration and the certificates, builds
    the port index from relay.yaml and the sidecar, and Relay.Start maps the
    ports and starts the listeners; the agent listener authenticates, builds a
    mux session and registers it; the client listener asks the rate limiter and
    the router; the router asks the registry for the customer's connection,
    opens a stream on its mux session and copies bytes in both directions; the
    session turns calls into frames in its write queue and frames into changes
    of its streams; the codec puts frames on the wire. The admin API and the
    reload change router, listeners, limiters and sidecar while all this runs,
    and the certificate watcher changes what the TLS handshake serves.

    On the agent, main checks the same way, connects, and starts the tunnel:
    the tunnel accepts the streams of the session its client holds, resolves
    the service each one names, and hands it to the forwarder, which dials the
    local service and copies; the client keeps a heartbeat and reconnects with
    a growing delay.

    Beside the two programs there are the tools they are tested with: the
    generator of a certificate hierarchy, a load test that drives two sessions
    or a live relay, and an echo server.

    ** Files

    The protocol:
    - Prelude: results of fallible functions, bytes and machine integers, and
      the lemmas, hints and tactics that the rest shares.
    - Text: what the programs use of strconv (decimal integers) and of UTF-8.
      Json: what they use of encoding/json, a printer and a parser of JSON text
      and the decoding of a value into a struct.
    - Frame: pkg/protocol/frame.go, frame_codec.go, errors.go. Frames, the
      header, ReadFrame over a reader that can end or fail anywhere, WriteFrame
      over a writer that can fail anywhere.
    - Udp: pkg/protocol/udp.go.
    - Window: pkg/protocol/window.go. FlowWindow with int32 arithmetic; Consume
      and its watcher as a step relation.
    - WriteQueue: pkg/protocol/write_queue.go.
    - Stream: pkg/protocol/stream.go, stream_impl.go. StreamSession with its
      state, buffers, channels and the once-guards.
    - Mux: pkg/protocol/mux.go, mux_session.go. MuxSession with a heap of stream
      objects, every operation, frame handler and goroutine, and the relation
      [mstep] of their interleavings. MuxInv has the invariants, MuxOps what
      the operations do, MuxOrder the order of the output, MuxView the effect
      of a step on streams and queue, Link two sessions joined by a transport,
      MuxWire what goes out on the transport for a stream, PingPong the
      heartbeat over such a connection, MuxRace the inside of Close, Write,
      OpenStream and the handling of STREAM_DATA, MuxWitness concrete sessions.
      MuxSim relates a session to its streams: each object of the heap follows
      the machine of a single stream.

    The relay:
    - Float: binary64 arithmetic, as Go's float64, and bounds on its rounding.
    - AuditLog: pkg/audit/audit.go, emitter.go. Auth: pkg/auth/identity.go,
      mtls.go, certs_impl.go.
    - Config: pkg/config/config.go, loader.go.
    - Registry: pkg/relay/connection.go, registry.go, registry_impl.go,
      metrics.go. LiveConnection and MemoryRegistry over a heap of connections.
    - RateLimit: pkg/relay/ratelimit.go.
    - Router: pkg/relay/router.go, router_impl.go, against the class
      AgentRegistry, of which MemoryRegistry is the instance. Pump: a socket, a
      stream and the two io.Copy loops between them, as steps; RouteCopy:
      copyBidirectional on a pump.
    - ClientListener: pkg/relay/client_listener.go.
    - Store: pkg/relay/store.go, the sidecar over a file system with faults.
    - Net: the part of net.ParseIP that the relay relies on.
    - Admin: the handlers of pkg/relay/admin.go that work on ports and agents.
      Reload: admin_reload.go. AdminHttp: the dispatch of requests, the other
      handlers, and admin_status.go. Expiry: the days left on a certificate.
      AdminText: the replies of admin.go as JSON text.
    - RelayServer: pkg/relay/server_impl.go, listener.go and the sidecar merge
      of main. RelayMain: cmd/relay/main.go, and the life of the process;
      Shutdown: the steps of Relay.Stop among what goes on while it runs;
      RelayRestart: one process after another on the same sidecar, and two
      requests that save it at a time; RelayLife: the process to its exit, its
      audit events handed to the emitter.
      RelayWitness has concrete relays.

    The agent:
    - Backoff: pkg/agent/backoff.go. Forwarder: forwarder.go, forwarder_impl.go,
      idleconn.go, on a pump. AgentClient: client.go, client_impl.go. Tunnel:
      tunnel.go, tunnel_impl.go. AgentMain: the start of cmd/agent/main.go;
      AgentLife: its run from there to the exit, over tunnel, watcher and
      emitter. AgentWitness and MainWitness have concrete agents and processes.

    Both together:
    - Path: a client's socket, copyBidirectional, the relay's session, the
      transport, the agent's session, Forward and the service's socket as one
      system. What the two copies promise to the path is the class StreamUser
      with its laws, of which the relay's and the agent's copies are instances.
      PathWitness runs it.

    The tools:
    - TestCerts: internal/testcerts/testcerts.go.
    - LoadStats, LoadTest, LoadTrip: scripts/loadtest/main.go, its figures, its
      batches, and its round trips with the test's forwarder; the echo server of
      scripts/echoserver/main.go is in LoadTrip.

    ** What the theorems show

    - Wire (Frame, Udp): what is written is what is read; ReadFrame accepts
      exactly the wire images of frames, reports where a truncated one stops,
      and WriteFrame never writes anything but a prefix of the image.
    - Flow control and queue (Window, WriteQueue): the 32-bit window behaves as
      an integer counter kept in its bounds and never hands out more credit
      than was granted; each priority class is a FIFO, drained after a close.
    - Stream: the six states implement two half-closes and a reset, both
      directions are FIFO, the channels agree with the state.
    - Session (MuxInv, MuxOps, MuxOrder, MuxWire): the table holds exactly the live
      streams; IDs are neither lost nor shared; a frame touches only the stream
      it names; opens by either side on every branch; Close releases
      everything; on the wire the data of a stream is in the order written,
      with its FIN behind it; the flush ends; the
      service list survives its round trip.
    - Connection (Link): over every interleaving of the steps of both sessions,
      for an ID that is used once, what is read from a stream on one side is an
      initial part of what was written on the other, and all of it at the end
      of a stream that was not reset.
    - Heartbeat (PingPong): the PONG frames that come back answer the PING
      frames sent, one for one and in order; a call of Ping returns with the
      next PONG, and with no earlier one.
    - Streams (MuxSim): a session is the product of its streams.
    - Path (Path): over every interleaving of steps and every failure, for an ID
      that is used once, the bytes that reach the service are an initial part of
      those the client sent and vice versa; the end of the client's data does
      not travel.
    - Races (MuxRace, Window, AuditLog, AgentClient, Shutdown, RelayRestart):
      what can happen inside the operations that give up their mutex half way,
      and the paths on which the code and its comments part.
    - Relay (Registry, Router, RouteCopy, ClientListener, RateLimit,
      RelayServer): one live connection per customer, admission by certificate
      only, a client reaches only the customer its port is mapped to, a bucket
      per IP, bytes passed on in order, the copy ends with either direction,
      the accept loop returns exactly on cancellation.
    - Text (Json, Store, AdminText): what is printed as JSON is what is parsed,
      with or without indentation; decoded strings are valid UTF-8; the sidecar
      and a port of the API survive their way through text.
    - Management (Config, Store, Admin, AdminHttp, Reload): the port index,
      loading, an atomic save, which requests can change what and that each
      change is audited, the handlers on every branch, what a reload does to
      each port in every iteration order, the status report, and that its days
      left, computed in floating point, are the whole days but for rounding in
      the last hour of a day (Expiry).
    - Certificates and audit (Auth, AuditLog): the check of the chain file, that
      the served certificate follows the file, and a complete ordered log.
    - Agent (Backoff, Forwarder, AgentClient, Tunnel): bounds on the delay in
      floating point, faithful forwarding that releases what it holds and ends
      when aborted, one connection and one heartbeat, reconnection on every
      branch, routing by service name, exact counters.
    - Processes (RelayMain, RelayRestart, AgentMain): a start comes to a result
      that says why; over any history of requests, reloads, agents and sessions
      the sidecar follows the mappings, as long as no request answers 409, and
      the relay started next restores them; a started agent serves what it is
      configured for, and a shutdown ends it.
    - Shutdown (Shutdown): whatever goes on meanwhile, Stop closes every
      connection it listed, and every listener is closed by its goroutine or by
      Stop; an agent admitted after the listing can survive.
    - Lives of the processes (AgentLife, RelayLife): the agent never panics,
      logs both its audit events in order and has everything closed at its
      exit; the relay loses no audit event before its last deferred call, and
      at its exit has logged all that were accepted; both have a bounded way to
      the exit from every moment.
    - Tools (TestCerts, LoadStats, LoadTest, LoadTrip): generated certificates
      pass the checks of the programs; the percentiles and verdicts computed in
      floating point are those of integer arithmetic; a batch reports the same
      in every order of its goroutines; a round trip that reports success is
      one; the echo server echoes; the throughput benchmark ends.

    ** Conventions and bounds

    - A function that returns an error returns [result E A]. A call that blocks
      is split where it blocks, or says so in its result; no definition stands
      for an unbounded wait.
    - uint32, int32 and int64 values are integers with their wrap-around
      written out, float64 values are SpecFloat numbers of format (53, 1024).
      [fits_ids] asks that the start ID plus twice MaxConcurrentStreams is
      below 2^32; MuxInv proves that nextStreamID then never wraps.
    - A step of [mstep] is one call, one handled frame or one case of a
      goroutine's select. The write loop may go on sending what is queued after
      Close of the session, as it can when it had already passed its test: the
      relation has more behaviours than the code, never fewer at that grain.
      The operations that unlock in the middle (Close and Write of a stream,
      handleStreamData between its lookup and Deliver, a canceled OpenStream)
      are taken apart in MuxRace: split_delivery shows that the two parts of
      handleStreamData amount to one step while the stream is in the table, and
      deliver_after_reset what happens when it was reset in between. In Link a session that was closed has closed its
      transport: it sends and handles no frame after that.
    - AuditLog, AgentClient, Tunnel, RouteCopy, Forwarder, AgentLife, RelayLife
      and LoadTrip are step relations of the same grain: a goroutine's
      statements between two blocking points are one step. Connect (its check,
      the dial, the installation) is one step, and so is each attempt of
      Reconnect; connect_close_race shows Close coming during the dial.
    - A request to the admin API is one step of the process; stale_snapshot_saved
      shows two of them interleaved. [run_stop] is Stop with nothing in between,
      and Shutdown has its steps one by one.
    - Fuel: the loop of flushAndFIN runs at most 65 times (the capacity of
      writeOut, plus one), which flush_terminates proves; acceptLoop takes the
      results of Accept, and accept_loop_returns says when it returns; the
      check of the chain file takes one unit more than the file has bytes, which
      chain_file_checked proves to be enough, as each PEM block is shorter than
      what is left; reconnect_loop recurs on the number of attempts; the stress
      benchmark has at most ten batches, and the throughput benchmark needs no
      more turns than it has bytes to receive, which throughput_ends proves; the
      JSON parser takes twice as much as the text has bytes, and one, and
      parse_fuel proves that it reads every text alike with any more.
    - Loops over Go maps take their order as an argument, any permutation.
    - Parameters: the YAML codec, RFC 3339 times and floats as text, PEM and
      X.509, key generation and signatures, SHA-256, math.Pow and the random
      number of the backoff, the file system's contents and faults, the
      operating system's answers to Listen and Dial, the token bucket of
      golang.org/x/time/rate, and the clock.
    - The mode of a generated file is the one asked for, before the umask.
    - A request is its method, its decoded path and the bytes of its body; a
      reply is its status code and a value, which AdminText encodes.
    - The payload of a queued PING is a slice of the session's pingData: it is
      read when the frame is sent, not when it is queued. At the grain of
      [mstep] the write loop reads it at once.

    ** Not modelled

    TLS handshakes, net/http below a request, the text of RFC 3339 times and of
    floats, the JSON text of GET /status and GET /config and the text of GET
    /metrics, log output, flag parsing, the mode and removal of the admin socket's file, a
    write of the PING payload that a concurrent Ping tears; pkg/config/version.go
    (a build-time string). The deadlines and pauses of the load test are choices
    of its steps, not times. *)

From Stdlib Require Import ZArith Lia Strings.String.
From Stdlib Require Export Strings.Byte.
From stdpp Require Export prelude gmap strings list.

#[global] Open Scope Z_scope.

(** ** Hint databases and tactics *)

Create HintDb atlax discriminated.

(** The rewriting base of the byte and machine-integer conversions. *)
Create Rewrite HintDb gobytes.

(** Split every [match] and [if] of the goal and close what is immediate. *)
Ltac case_all := repeat case_match; simplify_eq/=; try done.

(** Unfold, split, and finish with arithmetic: the shape of most proofs about
    one operation's branches. *)
Ltac branches := repeat (case_match || case_bool_decide); simplify_eq/=; try (done || lia).

(** ** Results of fallible Go functions

    A Go function that returns [(T, error)] is a function into [result E T]:
    [Ok v] for a nil error, [Err e] otherwise. *)

Inductive result (E A : Type) : Type :=
| Ok (a : A)
| Err (e : E).

Arguments Ok {E A} a.
Arguments Err {E A} e.

#[export] Instance result_ret E : MRet (result E) := fun A a => Ok a.
#[export] Instance result_bind E : MBind (result E) := fun A B f r =>
  match r with Ok a => f a | Err e => Err e end.

Definition is_ok {E A} (r : result E A) : bool :=
  match r with Ok _ => true | Err _ => false end.

#[export] Instance result_eq_dec E A `{!EqDecision E, !EqDecision A} : EqDecision (result E A).
Proof. solve_decision. Defined.

(** ** Machine integers

    A Go integer is a [Z] in its range; the conversions below are Go's
    conversions between widths, which wrap around. *)

Definition u32 (z : Z) : Z := z mod 2 ^ 32.

(** The signed value of the low [w] bits of [z]. *)
Definition swrap (w z : Z) : Z := (z + 2 ^ (w - 1)) mod 2 ^ w - 2 ^ (w - 1).

Definition int32 (z : Z) : Z := swrap 32 z.
Definition int64 (z : Z) : Z := swrap 64 z.

Definition is_u32 (z : Z) : Prop := 0 <= z < 2 ^ 32.
Definition is_i32 (z : Z) : Prop := - 2 ^ 31 <= z < 2 ^ 31.
Definition is_i64 (z : Z) : Prop := - 2 ^ 63 <= z < 2 ^ 63.

Definition max_i32 : Z := 2 ^ 31 - 1.

#[export] Instance is_u32_dec z : Decision (is_u32 z).
Proof. unfold is_u32. apply _. Defined.
#[export] Instance is_i32_dec z : Decision (is_i32 z).
Proof. unfold is_i32. apply _. Defined.

Lemma u32_id z : is_u32 z → u32 z = z.
Proof. unfold is_u32, u32. intros. by apply Z.mod_small. Qed.

Lemma u32_range z : is_u32 (u32 z).
Proof. unfold is_u32, u32. apply Z.mod_pos_bound. lia. Qed.

Lemma int32_id z : is_i32 z → int32 z = z.
Proof.
  unfold is_i32, int32, swrap. change (32 - 1) with 31. intros.
  rewrite Z.mod_small; lia.
Qed.

Lemma int64_id z : is_i64 z → int64 z = z.
Proof.
  unfold is_i64, int64, swrap. change (64 - 1) with 63. intros.
  rewrite Z.mod_small; lia.
Qed.

Lemma int32_range z : is_i32 (int32 z).
Proof.
  unfold is_i32, int32, swrap. change (32 - 1) with 31.
  pose proof (Z.mod_pos_bound (z + 2 ^ 31) (2 ^ 32)). lia.
Qed.

(** ** Bytes *)

#[export] Instance byte_eq_dec : EqDecision byte := Byte.byte_eq_dec.

#[export, program] Instance byte_countable : Countable byte :=
  inj_countable Byte.to_N Byte.of_N _.
Next Obligation. apply Byte.of_to_N. Qed.

#[export] Instance byte_inhabited : Inhabited byte := populate x00.

(** [byteZ b] is Go's [int(b)]; [Zbyte z] is Go's [byte(z)]. *)
Definition byteZ (b : byte) : Z := Z.of_N (Byte.to_N b).
Definition Zbyte (z : Z) : byte := default x00 (Byte.of_N (Z.to_N (z mod 256))).

Lemma byteZ_range b : 0 <= byteZ b < 256.
Proof. unfold byteZ. pose proof (Byte.to_N_bounded b). lia. Qed.

Lemma byteZ_Zbyte z : byteZ (Zbyte z) = z mod 256.
Proof.
  unfold byteZ, Zbyte. pose proof (Z.mod_pos_bound z 256 ltac:(lia)).
  destruct (Byte.of_N _) as [b|] eqn:E; simpl.
  - apply Byte.to_of_N in E. rewrite E. lia.
  - apply Byte.of_N_None_iff in E. lia.
Qed.

Lemma Zbyte_byteZ b : Zbyte (byteZ b) = b.
Proof.
  unfold Zbyte. pose proof (byteZ_range b). rewrite Z.mod_small by lia.
  unfold byteZ. by rewrite N2Z.id, Byte.of_to_N.
Qed.

Lemma byteZ_inj b1 b2 : byteZ b1 = byteZ b2 → b1 = b2.
Proof. intros E. by rewrite <-(Zbyte_byteZ b1), <-(Zbyte_byteZ b2), E. Qed.

#[export] Hint Rewrite byteZ_Zbyte Zbyte_byteZ : gobytes.

(** ** [encoding/binary.BigEndian]

    [PutUint32] and [Uint32] on a four-byte slice, written with the shifts of
    the Go library. *)

Definition PutUint32 (v : Z) : list byte :=
  [Zbyte (v ≫ 24); Zbyte (v ≫ 16); Zbyte (v ≫ 8); Zbyte v].

Definition Uint32 (b : list byte) : Z :=
  match b with
  | b0 :: b1 :: b2 :: b3 :: _ =>
      Z.lor (byteZ b3) (Z.lor (byteZ b2 ≪ 8) (Z.lor (byteZ b1 ≪ 16) (byteZ b0 ≪ 24)))
  | _ => 0
  end.

#[global] Arguments PutUint32 : simpl never.
#[global] Arguments Uint32 : simpl never.

(** A disjoint [lor] is an addition. *)
Lemma lor_shiftl_add a b k : 0 <= k → 0 <= a < 2 ^ k → Z.lor a (b ≪ k) = a + b * 2 ^ k.
Proof.
  intros Hk Ha. rewrite Z.shiftl_mul_pow2 by done.
  assert (Z.land a (b * 2 ^ k) = 0) as Hdisj.
  { apply Z.bits_inj_0. intros n. rewrite Z.land_spec.
    destruct (decide (n < k)).
    - rewrite Z.mul_pow2_bits_low by done. apply andb_false_r.
    - destruct (decide (a = 0)) as [->|]; [by rewrite Z.bits_0|].
      rewrite (Z.bits_above_log2 a n); [done|lia|].
      apply Z.log2_lt_pow2; [lia|]. eapply Z.lt_le_trans; [apply Ha|].
      apply Z.pow_le_mono_r; lia. }
  rewrite <-Z.lxor_lor by done. symmetry. by apply Z.add_nocarry_lxor.
Qed.

Lemma Uint32_cons4 b0 b1 b2 b3 rest :
  Uint32 (b0 :: b1 :: b2 :: b3 :: rest)
  = byteZ b3 + 256 * byteZ b2 + 65536 * byteZ b1 + 16777216 * byteZ b0.
Proof.
  pose proof (byteZ_range b0). pose proof (byteZ_range b1).
  pose proof (byteZ_range b2). pose proof (byteZ_range b3).
  unfold Uint32.
  assert (byteZ b1 ≪ 16 = (byteZ b1 ≪ 8) ≪ 8) as -> by (by rewrite Z.shiftl_shiftl by lia).
  assert (byteZ b0 ≪ 24 = ((byteZ b0 ≪ 8) ≪ 8) ≪ 8) as -> by (by rewrite !Z.shiftl_shiftl by lia).
  rewrite <-!Z.shiftl_lor, !lor_shiftl_add by lia. lia.
Qed.

Lemma Uint32_range b : is_u32 (Uint32 b).
Proof.
  unfold is_u32. destruct b as [|b0 [|b1 [|b2 [|b3 rest]]]]; try (unfold Uint32; lia).
  rewrite Uint32_cons4.
  pose proof (byteZ_range b0). pose proof (byteZ_range b1).
  pose proof (byteZ_range b2). pose proof (byteZ_range b3). lia.
Qed.

(** Decoding inverts encoding, up to the 32-bit wrap-around. *)
Lemma Uint32_PutUint32 v rest : Uint32 (PutUint32 v ++ rest) = u32 v.
Proof.
  unfold PutUint32. simpl app. rewrite Uint32_cons4. autorewrite with gobytes.
  rewrite !Z.shiftr_div_pow2 by lia. unfold u32.
  change (2 ^ 8) with 256. change (2 ^ 16) with 65536.
  change (2 ^ 24) with 16777216. change (2 ^ 32) with 4294967296.
  Z.to_euclidean_division_equations. lia.
Qed.

(** Encoding inverts decoding on four bytes. *)
Lemma PutUint32_Uint32 b0 b1 b2 b3 rest :
  PutUint32 (Uint32 (b0 :: b1 :: b2 :: b3 :: rest)) = [b0; b1; b2; b3].
Proof.
  rewrite Uint32_cons4. unfold PutUint32.
  pose proof (byteZ_range b0). pose proof (byteZ_range b1).
  pose proof (byteZ_range b2). pose proof (byteZ_range b3).
  rewrite !Z.shiftr_div_pow2 by lia.
  change (2 ^ 8) with 256. change (2 ^ 16) with 65536. change (2 ^ 24) with 16777216.
  repeat f_equal; apply byteZ_inj; rewrite byteZ_Zbyte;
    Z.to_euclidean_division_equations; lia.
Qed.

Lemma length_PutUint32 v : length (PutUint32 v) = 4%nat.
Proof. done. Qed.

#[export] Hint Rewrite Uint32_PutUint32 length_PutUint32 : gobytes.
#[export] Hint Resolve Uint32_range u32_range int32_range : atlax.

(** ** Go strings

    A Go [string] is a byte sequence, and so is [String.string]; the
    conversions [[]byte(s)] and [string(b)] are the library's. *)

Definition bytes_of_string (s : string) : list byte := String.list_byte_of_string s.
Definition string_of_bytes (b : list byte) : string := String.string_of_list_byte b.

Lemma string_of_bytes_of_string s : string_of_bytes (bytes_of_string s) = s.
Proof. apply String.string_of_list_byte_of_string. Qed.

Lemma bytes_of_string_of_bytes b : bytes_of_string (string_of_bytes b) = b.
Proof. apply String.list_byte_of_string_of_list_byte. Qed.

#[export] Hint Rewrite string_of_bytes_of_string bytes_of_string_of_bytes : gobytes.

(** strings.Split with a separator of one byte: never empty, one part more than
    there are separators. *)
Fixpoint split_on (sep : byte) (l : list byte) : list (list byte) :=
  match l with
  | [] => [[]]
  | b :: l' =>
      if decide (b = sep) then [] :: split_on sep l'
      else match split_on sep l' with
           | w :: ws => (b :: w) :: ws
           | [] => [[b]]
           end
  end.

Lemma split_on_cons sep b l : b ≠ sep →
  split_on sep (b :: l) = match split_on sep l with w :: ws => (b :: w) :: ws | [] => [[b]] end.
Proof. intros Hb. cbn. by rewrite decide_False. Qed.

Lemma split_on_word sep w : sep ∉ w → split_on sep w = [w].
Proof.
  induction w as [|b w IH]; [done|]. intros [Hb Hw]%not_elem_of_cons.
  rewrite split_on_cons, IH by congruence. done.
Qed.

Lemma split_on_app sep w l : sep ∉ w → split_on sep (w ++ [sep] ++ l) = w :: split_on sep l.
Proof.
  induction w as [|b w IH]; [intros _; cbn; by rewrite decide_True|]. intros [Hb Hw]%not_elem_of_cons.
  rewrite <-app_comm_cons, split_on_cons, IH by congruence. done.
Qed.

(** Go's [len] is an [int]. *)
Abbreviation zlen l := (Z.of_nat (length l)).

(** What no turn of a loop changes, the loop does not change. *)
Lemma foldl_keeps {S A B} (f : S → A → S) (g : S → B) (l : list A) (s : S) :
  (∀ s x, g (f s x) = g s) → g (foldl f s l) = g s.
Proof. intros Hf. revert s. induction l as [|x l IH]; intros s; cbn; [done|]. by rewrite IH. Qed.

(** Filtering with what holds of all, and of none. *)
Lemma filter_all {A} (P : A → Prop) `{!∀ x, Decision (P x)} (l : list A) : Forall P l → filter P l = l.
Proof. induction 1; [done|]. rewrite filter_cons_True by done. by f_equal. Qed.
Lemma filter_none {A} (P : A → Prop) `{!∀ x, Decision (P x)} (l : list A) : Forall (λ x, ¬ P x) l → filter P l = [].
Proof. induction 1; [done|]. by rewrite filter_cons_False. Qed.
