(* ===== verification/Text.v ===== *)
(** * Text of the Go standard library: strconv and unicode/utf8

    Decimal numbers as strconv.Itoa writes and strconv.Atoi reads them, and
    UTF-8 as unicode/utf8 decodes it, on lists of bytes. *)

From Stdlib Require Import ZArith Lia.
From stdpp Require Import pretty.
From S2P Require Import Prelude.

Definition is_digit (b : byte) : bool := bool_decide (48 <= byteZ b <= 57).

Definition hex_value (b : byte) : option Z :=
  let c := byteZ b in
  if bool_decide (48 <= c <= 57) then Some (c - 48)
  else if bool_decide (97 <= c <= 102) then Some (c - 87)
  else if bool_decide (65 <= c <= 70) then Some (c - 55)
  else None.

(** ** strconv *)

(** [strconv.Itoa(z)] *)
Definition Itoa (z : Z) : list byte := bytes_of_string (pretty z).

Fixpoint atoi_digits (s : list byte) (acc : Z) : option Z :=
  match s with
  | [] => Some acc
  | b :: s' => if is_digit b then atoi_digits s' (acc * 10 + (byteZ b - 48)) else None
  end.

(** [strconv.Atoi(s)]: an optional sign, at least one digit, nothing else, and
    a value in the range of an int. *)
Definition Atoi (s : list byte) : option Z :=
  let '(neg, digits) :=
    match s with
    | b :: s' => if bool_decide (b = x2d) then (true, s') else if bool_decide (b = x2b) then (false, s') else (false, s)
    | [] => (false, s)
    end in
  match digits with
  | [] => None
  | _ => match atoi_digits digits 0 with
         | Some n => let z := if neg then - n else n in if bool_decide (is_i64 z) then Some z else None
         | None => None
         end
  end.

(** ** UTF-8 *)

Definition between (lo hi : Z) (b : byte) : bool := bool_decide (lo <= byteZ b <= hi).
Definition is_cont (b : byte) : bool := between 128 191 b.

(** The first two bytes of a sequence of three, and of four: overlong forms,
    surrogates and runes above U+10FFFF are excluded. *)
Definition lead3 (b0 b1 : byte) : bool :=
  between 224 224 b0 && between 160 191 b1 || between 237 237 b0 && between 128 159 b1 ||
  (between 225 236 b0 || between 238 239 b0) && is_cont b1.
Definition lead4 (b0 b1 : byte) : bool :=
  between 240 240 b0 && between 144 191 b1 || between 244 244 b0 && between 128 143 b1 ||
  between 241 243 b0 && is_cont b1.

(** How many bytes the rune at the head of [s] takes; 0 when there is none, where
    utf8.DecodeRune returns RuneError and the width 1 (or 0 at the end). *)
Definition rune_len (s : list byte) : nat :=
  match s with
  | [] => 0
  | b0 :: s1 =>
      if between 0 127 b0 then 1
      else match s1 with
           | [] => 0
           | b1 :: s2 =>
               if between 194 223 b0 && is_cont b1 then 2
               else match s2 with
                    | [] => 0
                    | b2 :: s3 =>
                        if lead3 b0 b1 && is_cont b2 then 3
                        else match s3 with
                             | [] => 0
                             | b3 :: _ => if lead4 b0 b1 && is_cont b2 && is_cont b3 then 4 else 0
                             end
                    end
           end
  end.

(** [utf8.AppendRune]: a surrogate or a number out of range gives U+FFFD. *)
Definition rune_error : list byte := [xef; xbf; xbd].
Definition is_surrogate (r : Z) : bool := bool_decide (55296 <= r <= 57343).
Definition encode_rune (r : Z) : list byte :=
  if bool_decide (r < 0 ∨ 1114111 < r) then rune_error
  else if bool_decide (r < 128) then [Zbyte r]
  else if bool_decide (r < 2048) then [Zbyte (192 + r / 64); Zbyte (128 + r mod 64)]
  else if is_surrogate r then rune_error
  else if bool_decide (r < 65536)
  then [Zbyte (224 + r / 4096); Zbyte (128 + r / 64 mod 64); Zbyte (128 + r mod 64)]
  else [Zbyte (240 + r / 262144); Zbyte (128 + r / 4096 mod 64); Zbyte (128 + r / 64 mod 64); Zbyte (128 + r mod 64)].

(** One rune, and valid UTF-8: a sequence of runes. *)
Definition is_rune (c : list byte) : Prop := c ≠ [] ∧ rune_len c = length c.

Inductive utf8 : list byte → Prop :=
| utf8_nil : utf8 []
| utf8_cons c s : is_rune c → utf8 s → utf8 (c ++ s).

(** [utf8.Valid], for a string of at most [n] bytes. *)
Fixpoint utf8_check (n : nat) (s : list byte) : bool :=
  match n, s with
  | _, [] => true
  | O, _ => false
  | S n', _ => match rune_len s with O => false | k => utf8_check n' (drop k s) end
  end.

(** ** Decimals *)

Lemma digit_char n :
  (n < 10)%N → is_digit (Strings.Ascii.byte_of_ascii (pretty_N_char n)) = true ∧
  byteZ (Strings.Ascii.byte_of_ascii (pretty_N_char n)) - 48 = Z.of_N n.
Proof.
  intros Hn. assert (n ∈ [0;1;2;3;4;5;6;7;8;9]%N) as Hin by (set_unfold; lia).
  set_unfold in Hin. by destruct_or! Hin; subst.
Qed.

Definition digits (s : list byte) : Prop := s ≠ [] ∧ Forall (λ b, is_digit b = true) s.

Lemma pretty_N_go_digits n s :
  (n = 0%N → s ≠ ""%string) → Forall (λ b, is_digit b = true) (bytes_of_string s) →
  digits (bytes_of_string (pretty_N_go n s)) ∧
  atoi_digits (bytes_of_string (pretty_N_go n s)) 0 = atoi_digits (bytes_of_string s) (Z.of_N n).
Proof.
  revert s. induction (N.lt_wf_0 n) as [n _ IH]; intros s Hne Hs.
  destruct (decide (n = 0%N)) as [->|Hn].
  - rewrite pretty_N_go_0. split; [|done]. split; [|done]. destruct s; [by destruct (Hne eq_refl)|done].
  - rewrite pretty_N_go_step by lia.
    destruct (digit_char (n `mod` 10)%N) as [Hd Hv]; [by apply N.mod_lt|].
    destruct (IH (n `div` 10)%N ltac:(apply N.div_lt; lia) (String (pretty_N_char (n `mod` 10)) s))
      as [Hdig ->]; [done|by constructor|].
    split; [done|]. cbn. rewrite Hd, Hv. f_equal. pose proof (N.div_mod n 10 ltac:(done)). lia.
Qed.

Lemma pretty_pos_digits p :
  digits (bytes_of_string (pretty (Z.pos p))) ∧
  atoi_digits (bytes_of_string (pretty (Z.pos p))) 0 = Some (Z.pos p).
Proof. apply (pretty_N_go_digits (N.pos p) ""); [done|constructor]. Qed.

Lemma digit_not b c : is_digit b = true → is_digit c = false → b ≠ c.
Proof. congruence. Qed.

(** The decimal of a number: a sign and digits, and Atoi reads it back. *)
Lemma pretty_Z_bytes z :
  ∃ ds, bytes_of_string (pretty z) = (if bool_decide (z < 0) then [x2d] else []) ++ ds ∧
    digits ds ∧ atoi_digits ds 0 = Some (Z.abs z).
Proof.
  destruct z as [|p|p].
  - exists [x30]. split_and!; [done| |done]. split; [done|]. by constructor.
  - exists (bytes_of_string (pretty (Z.pos p))). rewrite bool_decide_eq_false_2 by lia. split; [done|].
    apply pretty_pos_digits.
  - exists (bytes_of_string (pretty (Z.pos p))). rewrite bool_decide_eq_true_2 by lia. split; [done|].
    apply pretty_pos_digits.
Qed.

Lemma Atoi_pretty z : is_i64 z → Atoi (bytes_of_string (pretty z)) = Some z.
Proof.
  intros Hz. destruct (pretty_Z_bytes z) as (ds & -> & [Hne Hds] & Hv).
  destruct ds as [|d ds]; [done|]. apply Forall_cons in Hds as [Hd _].
  unfold Atoi. destruct (bool_decide_reflect (z < 0)) as [Hneg|Hpos]; cbn -[atoi_digits].
  - rewrite (bool_decide_eq_true_2 (x2d = x2d)) by done.
    rewrite Hv, bool_decide_eq_true_2 by (by replace (- Z.abs z) with z by lia). f_equal. lia.
  - rewrite !bool_decide_eq_false_2 by (by apply digit_not). rewrite Hv.
    rewrite bool_decide_eq_true_2 by (by replace (Z.abs z) with z by lia). f_equal. lia.
Qed.

(** It has no leading zero. *)
Lemma pretty_N_go_head n s :
  (0 < n)%N → ∃ b l, bytes_of_string (pretty_N_go n s) = b :: l ∧ b ≠ x30.
Proof.
  revert s. induction (N.lt_wf_0 n) as [n _ IH]; intros s Hn. rewrite pretty_N_go_step by done.
  destruct (decide (n `div` 10 = 0)%N) as [E|E].
  - rewrite E, pretty_N_go_0. eexists _, _. split; [done|].
    assert (n < 10)%N as Hlt by (apply N.div_small_iff in E; [done|lia]). rewrite N.mod_small by done.
    destruct (digit_char n Hlt) as [_ Hv]. intros E0. rewrite E0 in Hv. change (byteZ x30 - 48) with 0 in Hv. lia.
  - apply IH; [apply N.div_lt; lia|by apply N.neq_0_lt_0].
Qed.

Lemma Itoa_head z :
  Itoa z = [x30] ∨
  ∃ b l, Itoa z = (if bool_decide (z < 0) then [x2d] else []) ++ b :: l ∧
    b ≠ x30 ∧ is_digit b = true ∧ Forall (λ b, is_digit b = true) l.
Proof.
  destruct (pretty_Z_bytes z) as (ds & E & [_ Hd] & _).
  assert (∀ p, ∃ b l, bytes_of_string (pretty (Z.pos p)) = b :: l ∧ b ≠ x30) as Hh
    by (intros p; by apply (pretty_N_go_head (N.pos p) "")).
  destruct z as [|p|p]; [by left|right..]; destruct (Hh p) as (b & l & El & Hb).
  - exists b, l. unfold Itoa in *. rewrite bool_decide_eq_false_2 in * by lia. cbn [app] in *.
    rewrite <-E, El in Hd. apply Forall_cons in Hd as [? ?]. done.
  - exists b, l. unfold Itoa in *. rewrite bool_decide_eq_true_2 in * by lia.
    change (bytes_of_string (pretty (Z.neg p))) with (x2d :: bytes_of_string (pretty (Z.pos p))) in *.
    rewrite El in *. injection E as <-. by apply Forall_cons in Hd as [? ?].
Qed.

(** ** Runes *)

Lemma rune_len_app c s : is_rune c → rune_len (c ++ s) = length c.
Proof.
  intros [Hne E]. destruct c as [|b0 [|b1 [|b2 [|b3 c]]]]; [done|..]; cbn [app rune_len length] in *;
    repeat case_match; done.
Qed.

Lemma rune_len_take s k : rune_len s = S k → is_rune (take (S k) s) ∧ (S k ≤ length s)%nat.
Proof.
  unfold is_rune. destruct s as [|b0 [|b1 [|b2 [|b3 s]]]]; cbn [rune_len]; try done; intros E;
    repeat case_match; simplify_eq; cbn [take rune_len length]; rewrite ?take_0;
    repeat match goal with H : ?b = _ |- context [if ?b then _ else _] => rewrite H end;
    (split; [split; [done|]; repeat case_match; first [done|congruence]|lia]).
Qed.

Lemma is_rune_pos c : is_rune c → ∃ k, length c = S k.
Proof. intros [Hne _]. destruct c; [done|]. by eexists. Qed.

Lemma is_rune_ascii b : between 0 127 b = true → is_rune [b].
Proof. intros E. split; [done|]. cbn [rune_len]. by rewrite E. Qed.

Lemma utf8_rune c : is_rune c → utf8 c.
Proof. intros Hc. rewrite <-(app_nil_r c). by constructor; [|constructor]. Qed.

Lemma utf8_app s s' : utf8 s → utf8 s' → utf8 (s ++ s').
Proof. induction 1; intros ?; [done|]. rewrite <-(assoc_L (++)). constructor; auto. Qed.

Lemma utf8_check_sound n s : utf8_check n s = true → utf8 s.
Proof.
  revert s. induction n as [|n IH]; intros [|b s]; cbn [utf8_check]; try done; try constructor.
  destruct (rune_len (b :: s)) as [|k] eqn:E; [done|]. intros Hn%IH.
  rewrite <-(take_drop (S k) (b :: s)). constructor; [|done]. by apply rune_len_take.
Qed.

Lemma between_spec lo hi b : between lo hi b = true ↔ lo <= byteZ b <= hi.
Proof. apply bool_decide_eq_true. Qed.

Lemma byteZ_small z : 0 <= z < 256 → byteZ (Zbyte z) = z.
Proof. intros Hz. rewrite byteZ_Zbyte. by apply Z.mod_small. Qed.

Lemma between_out lo hi b : byteZ b < lo ∨ hi < byteZ b → between lo hi b = false.
Proof. intros H. apply bool_decide_eq_false. lia. Qed.

Lemma is_rune2 b0 b1 : 194 <= byteZ b0 <= 223 → 128 <= byteZ b1 <= 191 → is_rune [b0; b1].
Proof.
  intros H0 H1. split; [done|]. cbn [rune_len]. rewrite between_out by lia. unfold is_cont.
  by rewrite !(proj2 (between_spec _ _ _)) by lia.
Qed.

Lemma is_rune3 b0 b1 b2 :
  byteZ b0 = 224 ∧ 160 <= byteZ b1 ∨ byteZ b0 = 237 ∧ byteZ b1 <= 159 ∨
    225 <= byteZ b0 <= 236 ∨ 238 <= byteZ b0 <= 239 →
  128 <= byteZ b1 <= 191 → 128 <= byteZ b2 <= 191 → is_rune [b0; b1; b2].
Proof.
  intros H0 H1 H2. split; [done|]. cbn [rune_len]. rewrite between_out by lia.
  rewrite (between_out 194 223) by lia. cbn [andb].
  assert (lead3 b0 b1 && is_cont b2 = true) as ->; [|done]. unfold lead3, is_cont.
  rewrite !andb_true_iff, !orb_true_iff, !andb_true_iff, !orb_true_iff, !between_spec. lia.
Qed.

Lemma is_rune4 b0 b1 b2 b3 :
  byteZ b0 = 240 ∧ 144 <= byteZ b1 ∨ byteZ b0 = 244 ∧ byteZ b1 <= 143 ∨ 241 <= byteZ b0 <= 243 →
  128 <= byteZ b1 <= 191 → 128 <= byteZ b2 <= 191 → 128 <= byteZ b3 <= 191 → is_rune [b0; b1; b2; b3].
Proof.
  intros H0 H1 H2 H3. split; [done|]. cbn [rune_len]. rewrite between_out by lia.
  rewrite (between_out 194 223) by lia. cbn [andb].
  assert (lead3 b0 b1 = false) as ->.
  { unfold lead3. by rewrite (between_out 224 224), (between_out 237 237), (between_out 225 236), (between_out 238 239) by lia. }
  assert (lead4 b0 b1 && is_cont b2 && is_cont b3 = true) as ->; [|done]. unfold lead4, is_cont.
  rewrite !andb_true_iff, !orb_true_iff, !andb_true_iff, !between_spec. lia.
Qed.

(** Whatever the number, one rune is written. *)
Lemma encode_rune_valid r : is_rune (encode_rune r).
Proof.
  unfold encode_rune. case_bool_decide; [done|].
  case_bool_decide; [apply is_rune_ascii, between_spec; rewrite byteZ_small; lia|].
  case_bool_decide; [apply is_rune2; rewrite byteZ_small; Z.to_euclidean_division_equations; lia|].
  destruct (is_surrogate r) eqn:Es; [done|]. apply bool_decide_eq_false in Es.
  pose proof (Z.div_mod (r / 64) 64 ltac:(done)) as E1. pose proof (Z.div_mod r 64 ltac:(done)) as E0.
  pose proof (Z.mod_pos_bound r 64 ltac:(done)). pose proof (Z.mod_pos_bound (r / 64) 64 ltac:(done)).
  rewrite Z.div_div in E1 by done. change (64 * 64) with 4096 in E1.
  case_bool_decide.
  - apply is_rune3; rewrite !byteZ_small by lia; lia.
  - pose proof (Z.div_mod (r / 4096) 64 ltac:(done)) as E2. pose proof (Z.mod_pos_bound (r / 4096) 64 ltac:(done)).
    rewrite Z.div_div in E2 by done. change (4096 * 64) with 262144 in E2.
    apply is_rune4; rewrite !byteZ_small by lia; lia.
Qed.
