(* ===== verification/Json.v ===== *)
(** * encoding/json of the Go standard library

    What the sources use of encoding/json: Marshal, MarshalIndent and
    Encoder.Encode on the values they encode, and Unmarshal and Decoder.Decode
    into structs. A value is encoded as [print] of a tree [json]; a text is
    read as a tree by [parse_value], and the fields of a struct are then set
    from the members of an object. The text that is printed is read back as the
    same tree. *)

From Stdlib Require Import ZArith Lia.
From stdpp Require Import pretty.
From S2P Require Import Prelude Text.

(** A number is kept as it is written. *)
Inductive json :=
| JNull
| JBool (b : bool)
| JNum (lit : list byte)
| JStr (s : list byte)
| JArr (l : list json)
| JObj (l : list (list byte * json)).

(** ** Printing *)

Definition hex_digit (z : Z) : byte := Zbyte (if bool_decide (z < 10) then 48 + z else 87 + z).

(** The escape of an ASCII character, with the characters of HTML escaped too. *)
Definition quote_ascii (b : byte) : list byte :=
  if bool_decide (b = x22 ∨ b = x5c) then [x5c; b]
  else if bool_decide (b = x08) then [x5c; x62]
  else if bool_decide (b = x0c) then [x5c; x66]
  else if bool_decide (b = x0a) then [x5c; x6e]
  else if bool_decide (b = x0d) then [x5c; x72]
  else if bool_decide (b = x09) then [x5c; x74]
  else if bool_decide (byteZ b < 32 ∨ b = x3c ∨ b = x3e ∨ b = x26)
  then [x5c; x75; x30; x30; hex_digit (byteZ b / 16); hex_digit (byteZ b mod 16)]
  else [b].

Definition esc_fffd : list byte := bytes_of_string "\ufffd".
Definition esc_2028 : list byte := bytes_of_string "\u2028".
Definition esc_2029 : list byte := bytes_of_string "\u2029".

(** A longer rune: the two line separators are escaped. *)
Definition quote_rune (c : list byte) : list byte :=
  if bool_decide (c = [xe2; x80; xa8]) then esc_2028
  else if bool_decide (c = [xe2; x80; xa9]) then esc_2029
  else c.

(** A string of at most [n] bytes; a byte that is not UTF-8 becomes U+FFFD. *)
Fixpoint quote_body (n : nat) (s : list byte) : list byte :=
  match n, s with
  | S n', b :: s' =>
      match rune_len s with
      | O => esc_fffd ++ quote_body n' s'
      | 1%nat => quote_ascii b ++ quote_body n' s'
      | k => quote_rune (take k s) ++ quote_body n' (drop k s)
      end
  | _, _ => []
  end.

Definition quote (s : list byte) : list byte := [x22] ++ quote_body (length s) s ++ [x22].

(** What MarshalIndent puts before a member at some depth and after the colon;
    Marshal and Encode put nothing. *)
Record style := mkStyle { st_newline : nat → list byte; st_colon : list byte }.
Definition compact : style := mkStyle (λ _, []) [x3a].
Definition indent2 : style := mkStyle (λ d, x0a :: replicate (2 * d) x20) [x3a; x20].

Fixpoint join_comma (l : list (list byte)) : list byte :=
  match l with
  | [] => []
  | [w] => w
  | w :: ws => w ++ [x2c] ++ join_comma ws
  end.

(** The members between two delimiters. *)
Definition enclose (st : style) (d : nat) (o c : byte) (l : list (list byte)) : list byte :=
  match l with
  | [] => [o; c]
  | _ => [o] ++ join_comma ((λ w, st_newline st (S d) ++ w) <$> l) ++ st_newline st d ++ [c]
  end.

Fixpoint print (st : style) (d : nat) (v : json) : list byte :=
  match v with
  | JNull => bytes_of_string "null"
  | JBool b => bytes_of_string (if b then "true" else "false")
  | JNum lit => lit
  | JStr s => quote s
  | JArr l => enclose st d x5b x5d (print st (S d) <$> l)
  | JObj l => enclose st d x7b x7d ((λ kv, quote kv.1 ++ st_colon st ++ print st (S d) kv.2) <$> l)
  end.

Definition json_Marshal (v : json) : list byte := print compact 0 v.
Definition json_MarshalIndent (v : json) : list byte := print indent2 0 v.

(** ** Parsing *)

Definition is_space (b : byte) : bool := bool_decide (b ∈ [x20; x09; x0d; x0a]).

Fixpoint skip_ws (s : list byte) : list byte :=
  match s with b :: s' => if is_space b then skip_ws s' else s | [] => [] end.

(** The text after the byte [c]. *)
Definition eat (c : byte) (s : list byte) : option (list byte) :=
  match s with b :: s' => if bool_decide (b = c) then Some s' else None | [] => None end.

(** Four hexadecimal digits, and the escape with them. *)
Definition hex4 (s : list byte) : option (Z * list byte) :=
  match s with
  | a :: b :: c :: d :: s' =>
      match hex_value a, hex_value b, hex_value c, hex_value d with
      | Some a, Some b, Some c, Some d => Some (a * 4096 + b * 256 + c * 16 + d, s')
      | _, _, _, _ => None
      end
  | _ => None
  end.
Definition hex4_escape (s : list byte) : option (Z * list byte) :=
  match eat x5c s ≫= eat x75 with Some s' => hex4 s' | None => None end.

(** The rune of a pair of surrogates. *)
Definition surrogate_pair (r1 r2 : Z) : option Z :=
  if bool_decide (55296 <= r1 <= 56319 ∧ 56320 <= r2 <= 57343)
  then Some ((r1 - 55296) * 1024 + (r2 - 56320) + 65536) else None.

Definition simple_escape (e : byte) : option byte :=
  match e with
  | x22 | x5c | x2f => Some e
  | x62 => Some x08
  | x66 => Some x0c
  | x6e => Some x0a
  | x72 => Some x0d
  | x74 => Some x09
  | _ => None
  end.

Definition push (c : list byte) (r : option (list byte * list byte)) : option (list byte * list byte) :=
  match r with Some (s, rest) => Some (c ++ s, rest) | None => None end.

(** The rest of a string after its opening quote: the bytes it stands for, and
    what follows the closing quote. *)
Fixpoint parse_str (n : nat) (s : list byte) : option (list byte * list byte) :=
  match n, s with
  | S n', b :: s' =>
      if bool_decide (b = x22) then Some ([], s')
      else if bool_decide (b = x5c) then
        match s' with
        | [] => None
        | e :: s2 =>
            if bool_decide (e = x75) then
              match hex4 s2 with
              | None => None
              | Some (r, s3) =>
                  if is_surrogate r then
                    match hex4_escape s3 with
                    | Some (r2, s4) =>
                        match surrogate_pair r r2 with
                        | Some r' => push (encode_rune r') (parse_str n' s4)
                        | None => push rune_error (parse_str n' s3)
                        end
                    | None => push rune_error (parse_str n' s3)
                    end
                  else push (encode_rune r) (parse_str n' s3)
              end
            else match simple_escape e with
                 | Some c => push [c] (parse_str n' s2)
                 | None => None
                 end
        end
      else if bool_decide (byteZ b < 32) then None
      else match rune_len s with
           | O => push rune_error (parse_str n' s')
           | k => push (take k s) (parse_str n' (drop k s))
           end
  | _, _ => None
  end.

Fixpoint take_digits (s : list byte) : list byte * list byte :=
  match s with
  | b :: s' => if is_digit b then let '(ds, rest) := take_digits s' in (b :: ds, rest) else ([], s)
  | [] => ([], [])
  end.

(** One digit or more. *)
Definition digits1 (s : list byte) : option (list byte * list byte) :=
  let '(ds, rest) := take_digits s in match ds with [] => None | _ => Some (ds, rest) end.

Definition parse_sign (s : list byte) : list byte * list byte :=
  match eat x2d s with Some s' => ([x2d], s') | None => ([], s) end.
Definition parse_int (s : list byte) : option (list byte * list byte) :=
  match eat x30 s with Some s' => Some ([x30], s') | None => digits1 s end.
Definition parse_frac (s : list byte) : option (list byte * list byte) :=
  match eat x2e s with Some s' => push [x2e] (digits1 s') | None => Some ([], s) end.
Definition parse_exp (s : list byte) : option (list byte * list byte) :=
  match s with
  | e :: s' =>
      if bool_decide (e = x65 ∨ e = x45) then
        match s' with
        | g :: s2 => if bool_decide (g = x2b ∨ g = x2d) then push [e; g] (digits1 s2) else push [e] (digits1 s')
        | [] => None
        end
      else Some ([], s)
  | [] => Some ([], s)
  end.

(** A number: sign, integer, fraction, exponent. *)
Definition parse_num (s : list byte) : option (list byte * list byte) :=
  let '(sign, s1) := parse_sign s in
  match parse_int s1 with
  | Some (i, s2) =>
      match parse_frac s2 with
      | Some (f, s3) =>
          match parse_exp s3 with
          | Some (e, s4) => Some (sign ++ i ++ f ++ e, s4)
          | None => None
          end
      | None => None
      end
  | None => None
  end.

Fixpoint strip (prefix s : list byte) : option (list byte) :=
  match prefix, s with
  | [], _ => Some s
  | b :: prefix', c :: s' => if bool_decide (b = c) then strip prefix' s' else None
  | _ :: _, [] => None
  end.

Definition maxNestingDepth : Z := 10000.

(** A value, inside [d] open arrays and objects; the members of an array up to
    its bracket, and those of an object up to its brace. *)
Fixpoint parse_value (n : nat) (d : Z) (s : list byte) : option (json * list byte) :=
  match n with
  | O => None
  | S n' =>
      match skip_ws s with
      | [] => None
      | b :: s1 =>
          if bool_decide (b = x22) then
            match parse_str (length s1) s1 with Some (str, rest) => Some (JStr str, rest) | None => None end
          else if bool_decide (b = x5b) then
            if bool_decide (maxNestingDepth < d + 1) then None
            else match eat x5d (skip_ws s1) with
                 | Some rest => Some (JArr [], rest)
                 | None => match parse_elems n' (d + 1) s1 with
                           | Some (l, rest) => Some (JArr l, rest)
                           | None => None
                           end
                 end
          else if bool_decide (b = x7b) then
            if bool_decide (maxNestingDepth < d + 1) then None
            else match eat x7d (skip_ws s1) with
                 | Some rest => Some (JObj [], rest)
                 | None => match parse_fields n' (d + 1) s1 with
                           | Some (l, rest) => Some (JObj l, rest)
                           | None => None
                           end
                 end
          else if bool_decide (b = x6e) then (λ rest, (JNull, rest)) <$> strip (bytes_of_string "ull") s1
          else if bool_decide (b = x74) then (λ rest, (JBool true, rest)) <$> strip (bytes_of_string "rue") s1
          else if bool_decide (b = x66) then (λ rest, (JBool false, rest)) <$> strip (bytes_of_string "alse") s1
          else match parse_num (b :: s1) with Some (lit, rest) => Some (JNum lit, rest) | None => None end
      end
  end
with parse_elems (n : nat) (d : Z) (s : list byte) : option (list json * list byte) :=
  match n with
  | O => None
  | S n' =>
      match parse_value n' d s with
      | None => None
      | Some (v, s1) =>
          match eat x2c (skip_ws s1) with
          | Some s2 => match parse_elems n' d s2 with Some (l, rest) => Some (v :: l, rest) | None => None end
          | None => (λ rest, ([v], rest)) <$> eat x5d (skip_ws s1)
          end
      end
  end
with parse_fields (n : nat) (d : Z) (s : list byte) : option (list (list byte * json) * list byte) :=
  match n with
  | O => None
  | S n' =>
      match eat x22 (skip_ws s) with
      | None => None
      | Some s1 =>
          match parse_str (length s1) s1 with
          | None => None
          | Some (k, s2) =>
              match eat x3a (skip_ws s2) with
              | None => None
              | Some s3 =>
                  match parse_value n' d s3 with
                  | None => None
                  | Some (v, s4) =>
                      match eat x2c (skip_ws s4) with
                      | Some s5 =>
                          match parse_fields n' d s5 with Some (l, rest) => Some ((k, v) :: l, rest) | None => None end
                      | None => (λ rest, ([(k, v)], rest)) <$> eat x7d (skip_ws s4)
                      end
                  end
              end
          end
      end
  end.

(** Fuel for the parser: at most two calls are nested per byte of the text, so that
    more would change nothing ([parse_fuel]). *)
Definition json_fuel (s : list byte) : nat := S (2 * length s).

(** Decoder.Decode reads the first value; Unmarshal wants nothing after it. *)
Definition json_Decode (s : list byte) : option json :=
  fst <$> parse_value (json_fuel s) 0 s.
Definition json_Unmarshal (s : list byte) : option json :=
  match parse_value (json_fuel s) 0 s with
  | Some (v, rest) => match skip_ws rest with [] => Some v | _ => None end
  | None => None
  end.

Lemma eat_eq c s : eat c (c :: s) = Some s.
Proof. cbn. by rewrite bool_decide_eq_true_2. Qed.
Lemma eat_ne c b s : b ≠ c → eat c (b :: s) = None.
Proof. intros H. cbn. by rewrite bool_decide_eq_false_2. Qed.

(** ** Strings are read back *)

Lemma parse_quote_ascii b t n :
  between 0 127 b = true → parse_str (S n) (quote_ascii b ++ t) = push [b] (parse_str n t).
Proof. intros H. destruct b; try discriminate H; reflexivity. Qed.

Lemma is_rune_long c : is_rune c → (1 < length c)%nat → ∃ b c', c = b :: c' ∧ 128 <= byteZ b.
Proof.
  intros [_ E] Hl. destruct c as [|b c']; [cbn in Hl; lia|]. exists b, c'. split; [done|].
  cbn [rune_len] in E. destruct (between 0 127 b) eqn:Eb; [cbn in *; lia|].
  apply bool_decide_eq_false in Eb. pose proof (byteZ_range b). lia.
Qed.

Lemma parse_rune c t n :
  is_rune c → (1 < length c)%nat → parse_str (S n) (c ++ t) = push c (parse_str n t).
Proof.
  intros Hc Hl. destruct (is_rune_long c Hc Hl) as (b & c' & -> & Hb). cbn [parse_str app].
  assert (b ≠ x22 ∧ b ≠ x5c) as [? ?] by (split; intros ->; by vm_compute in Hb).
  rewrite (bool_decide_eq_false_2 (b = x22)), (bool_decide_eq_false_2 (b = x5c)), bool_decide_eq_false_2 by (done || lia).
  pose proof (rune_len_app _ t Hc) as E. cbn [app] in E. rewrite E. cbn [length].
  cbn [take drop]. by rewrite take_app_length, drop_app_length.
Qed.

Lemma parse_quote_rune c t n :
  is_rune c → (1 < length c)%nat → parse_str (S n) (quote_rune c ++ t) = push c (parse_str n t).
Proof.
  intros Hc Hl. unfold quote_rune. case_bool_decide; [by subst|]. case_bool_decide; [by subst|].
  by apply parse_rune.
Qed.

Lemma quote_rune_nonempty c : c ≠ [] → quote_rune c ≠ [].
Proof. intros Hc. unfold quote_rune. repeat case_bool_decide; [discriminate..|done]. Qed.
Lemma quote_ascii_nonempty b : quote_ascii b ≠ [].
Proof. unfold quote_ascii. repeat case_bool_decide; discriminate. Qed.

Lemma length_nonempty {A} (l : list A) : l ≠ [] → (0 < length l)%nat.
Proof. destruct l; [done|cbn; lia]. Qed.

Lemma parse_str_body s k n rest :
  utf8 s → (length s ≤ k)%nat → (length (quote_body k s) < n)%nat →
  parse_str n (quote_body k s ++ x22 :: rest) = Some (s, rest).
Proof.
  intros Hs. revert k n. induction Hs as [|c s Hc Hs IH]; intros k n Hk Hn.
  { destruct n; [lia|]. by destruct k. }
  destruct k as [|k]; [destruct Hc as [Hne _]; destruct c; [done|cbn in Hk; lia]|].
  pose proof (rune_len_app c s Hc) as Hlen. destruct Hc as [Hne Hc'].
  assert (quote_body (S k) (c ++ s) =
    (if decide (length c = 1%nat) then quote_ascii (default x00 (head c)) else quote_rune c) ++ quote_body k s) as E.
  { destruct c as [|b c]; [done|]. cbn [quote_body app]. cbn [app] in Hlen. rewrite Hlen. cbn [length].
    destruct (length c) as [|j] eqn:Ej; [apply nil_length_inv in Ej; by subst|]. cbn [decide].
    destruct (decide _); [lia|]. by rewrite <-Ej, app_comm_cons, (take_app_length (b :: c)), (drop_app_length (b :: c)). }
  rewrite E in Hn |- *. rewrite <-(assoc_L (++)). rewrite length_app in Hk, Hn.
  destruct n as [|n]; [lia|]. destruct (decide (length c = 1%nat)) as [E1|E1].
  - destruct c as [|b []]; try done. cbn [head default from_option] in *. unfold id in *.
    pose proof (length_nonempty _ (quote_ascii_nonempty b)). rewrite parse_quote_ascii.
    + rewrite IH; [done|cbn in *; lia..].
    + cbn [rune_len length] in Hc'. destruct (between 0 127 b); [done|]. discriminate Hc'.
  - pose proof (length_nonempty _ (quote_rune_nonempty c Hne)). pose proof (length_nonempty _ Hne). rewrite parse_quote_rune; [|done|lia].
    rewrite IH; [done|cbn in *; lia..].
Qed.

Lemma parse_str_quote s rest :
  utf8 s → let q := quote_body (length s) s ++ x22 :: rest in parse_str (length q) q = Some (s, rest).
Proof. intros Hs q. apply parse_str_body; [done..|]. unfold q. rewrite length_app. cbn. lia. Qed.

(** ** Numbers are read back *)

(** What may follow a value: not something a number could go on with. *)
Definition delim (rest : list byte) : Prop :=
  match rest with
  | [] => True
  | b :: _ => is_digit b = false ∧ b ≠ x2e ∧ b ≠ x65 ∧ b ≠ x45
  end.

Lemma take_digits_app l rest :
  Forall (λ b, is_digit b = true) l → delim rest → take_digits (l ++ rest) = (l, rest).
Proof.
  intros Hl Hr. induction Hl as [|b l Hb _ IH]; cbn.
  - destruct rest as [|b rest]; [done|]. destruct Hr as [Hb _]. cbn. by rewrite Hb.
  - by rewrite Hb, IH.
Qed.

Lemma parse_rest_delim rest : delim rest → parse_frac rest = Some ([], rest) ∧ parse_exp rest = Some ([], rest).
Proof.
  destruct rest as [|b rest]; [done|]. intros (_ & H1 & H2 & H3). unfold parse_frac. rewrite eat_ne by done.
  split; [done|]. cbn. by rewrite bool_decide_eq_false_2 by naive_solver.
Qed.

Lemma parse_int_digits b l rest :
  is_digit b = true → b ≠ x30 → Forall (λ b, is_digit b = true) l → delim rest →
  parse_int (b :: l ++ rest) = Some (b :: l, rest).
Proof.
  intros Hb H0 Hl Hr. unfold parse_int. rewrite eat_ne by done. unfold digits1. cbn. by rewrite Hb, take_digits_app.
Qed.

Lemma parse_num_Itoa z rest : delim rest → parse_num (Itoa z ++ rest) = Some (Itoa z, rest).
Proof.
  intros Hr. destruct (parse_rest_delim rest Hr) as [Ef Ee]. unfold parse_num.
  destruct (Itoa_head z) as [-> |(b & l & -> & Hb & Hd & Hl)].
  { change (parse_sign _) with (@nil byte, x30 :: rest). cbn iota.
    change (parse_int _) with (Some ([x30], rest)). cbv beta iota. by rewrite Ef, Ee. }
  assert (parse_sign (((if bool_decide (z < 0) then [x2d] else []) ++ b :: l) ++ rest) =
          (if bool_decide (z < 0) then [x2d] else [], b :: l ++ rest)) as ->.
  { unfold parse_sign. case_bool_decide; cbn [app]; [by rewrite eat_eq|].
    rewrite eat_ne; [done|]. by intros ->. }
  rewrite parse_int_digits, Ef, Ee by done. by rewrite !app_nil_r.
Qed.

Lemma Itoa_first z : ∃ b l, Itoa z = b :: l ∧ (b = x2d ∨ is_digit b = true).
Proof.
  destruct (Itoa_head z) as [-> |(b & l & -> & _ & Hd & _)]; [by eexists _, _; split; [|right]|].
  case_bool_decide; eexists _, _; split; [done|by left|done|by right].
Qed.

(** ** Values are read back *)

Lemma skip_ws_app ws s : Forall (λ b, is_space b = true) ws → skip_ws (ws ++ s) = skip_ws s.
Proof. induction 1 as [|b ws Hb _ IH]; [done|]. cbn. by rewrite Hb. Qed.
Lemma skip_ws_head b s : is_space b = false → skip_ws (b :: s) = b :: s.
Proof. intros E. cbn. by rewrite E. Qed.

Lemma parse_value_ws n d ws s :
  Forall (λ b, is_space b = true) ws → parse_value n d (ws ++ s) = parse_value n d s.
Proof. intros Hw. destruct n; [done|]. cbn [parse_value]. by rewrite skip_ws_app. Qed.
Lemma parse_fields_ws n d ws s :
  Forall (λ b, is_space b = true) ws → parse_fields n d (ws ++ s) = parse_fields n d s.
Proof. intros Hw. destruct n; [done|]. cbn [parse_fields]. by rewrite skip_ws_app. Qed.

Lemma delim_ws ws s :
  Forall (λ b, is_space b = true) ws → delim s → delim (ws ++ s).
Proof.
  intros Hw Hs. destruct ws as [|b ws]; [done|]. apply Forall_cons in Hw as [Hb _]. cbn.
  unfold is_space in Hb. apply bool_decide_eq_true in Hb.
  repeat (apply elem_of_cons in Hb as [->|Hb]; [done|]). by apply not_elem_of_nil in Hb.
Qed.

(** The trees that are printed: numbers that are integers and valid UTF-8. *)
Fixpoint json_wf (v : json) : Prop :=
  match v with
  | JNum lit => ∃ z, lit = Itoa z
  | JStr s => utf8 s
  | JArr l => foldr (λ x P, json_wf x ∧ P) True l
  | JObj l => foldr (λ kv P, (utf8 kv.1 ∧ json_wf kv.2) ∧ P) True l
  | _ => True
  end.

(** How deep arrays and objects are nested. *)
Fixpoint height (v : json) : Z :=
  match v with
  | JArr l => 1 + foldr (λ x h, Z.max (height x) h) 0 l
  | JObj l => 1 + foldr (λ kv h, Z.max (height kv.2) h) 0 l
  | _ => 0
  end.

Lemma max_nonneg {A} (f : A → Z) l : 0 <= foldr (λ x h, Z.max (f x) h) 0 l.
Proof. induction l; cbn; lia. Qed.

Record style_ok (st : style) : Prop := {
  so_newline : ∀ d, Forall (λ b, is_space b = true) (st_newline st d);
  so_colon : ∃ ws, st_colon st = x3a :: ws ∧ Forall (λ b, is_space b = true) ws
}.

Lemma compact_ok : style_ok compact.
Proof. split; [constructor|by exists []]. Qed.
Lemma indent2_ok : style_ok indent2.
Proof.
  split; [|exists [x20]; split; [done|by constructor]]. intros d. constructor; [done|].
  by apply Forall_replicate.
Qed.

Section json_ind.
Context (P : json → Prop) (Hnull : P JNull) (Hbool : ∀ b, P (JBool b)) (Hnum : ∀ l, P (JNum l))
  (Hstr : ∀ s, P (JStr s)) (Harr : ∀ l, Forall P l → P (JArr l))
  (Hobj : ∀ l, Forall (λ kv, P kv.2) l → P (JObj l)).

Fixpoint json_nested_ind (v : json) : P v :=
  match v with
  | JNull => Hnull
  | JBool b => Hbool b
  | JNum l => Hnum l
  | JStr s => Hstr s
  | JArr l => Harr l ((fix go l : Forall P l :=
      match l with [] => Forall_nil_2 _ | x :: l' => Forall_cons_2 _ _ _ (json_nested_ind x) (go l') end) l)
  | JObj l => Hobj l ((fix go l : Forall (λ kv, P kv.2) l :=
      match l with [] => Forall_nil_2 _ | kv :: l' => Forall_cons_2 _ _ _ (json_nested_ind kv.2) (go l') end) l)
  end.
End json_ind.

Section roundtrip.
Context (st : style) (Hst : style_ok st).

(** The first byte of a printed value. *)
Lemma print_head d v :
  json_wf v → ∃ b t, print st d v = b :: t ∧ is_space b = false ∧ b ≠ x5d.
Proof.
  destruct v as [|[]|lit|s|l|l]; cbn [json_wf print].
  - eexists _, _. done.
  - eexists _, _. done.
  - eexists _, _. done.
  - intros [z ->]. destruct (Itoa_first z) as (b & t & -> & Hb). exists b, t. split; [done|].
    destruct Hb as [->|Hb]; [done|]. destruct b; done.
  - intros _. eexists _, _. done.
  - intros _. unfold enclose. case_match; eexists _, _; done.
  - intros _. unfold enclose. case_match; eexists _, _; done.
Qed.

Definition reads_back (v : json) : Prop :=
  ∀ d dep n rest, json_wf v → dep + height v <= maxNestingDepth → delim rest →
    (length (print st d v) ≤ n)%nat → parse_value n dep (print st d v ++ rest) = Some (v, rest).

(** The members of an array. *)
Lemma parse_elems_print l d dep n e rest :
  l ≠ [] → Forall reads_back l → foldr (λ x P, json_wf x ∧ P) True l →
  dep + foldr (λ x h, Z.max (height x) h) 0 l <= maxNestingDepth →
  let body := join_comma ((λ w, st_newline st (S d) ++ w) <$> (print st (S d) <$> l)) in
  (length body < n)%nat →
  parse_elems n dep (body ++ st_newline st e ++ x5d :: rest) = Some (l, rest).
Proof using Hst.
  intros Hne Hl. revert n Hne. induction Hl as [|v l Hv Hl IH]; intros n Hne Hwf Hdep body Hn; [done|].
  destruct Hwf as [Hwv Hwl]. cbn [foldr] in Hdep. destruct n as [|n]; [lia|]. unfold body. cbn [parse_elems].
  assert (∀ r, delim r → parse_value n dep ((st_newline st (S d) ++ print st (S d) v) ++ r) = Some (v, r)) as Hpv.
  { intros r Hr. rewrite <-(assoc_L (++)), parse_value_ws by apply Hst. apply Hv; [done|lia|done|].
    unfold body in Hn. destruct l; cbn [fmap list_fmap join_comma] in Hn; rewrite ?length_app in Hn; lia. }
  destruct l as [|v2 l].
  - cbn [fmap list_fmap join_comma]. rewrite Hpv by (by apply delim_ws; [apply Hst|]).
    by rewrite skip_ws_app, skip_ws_head, eat_ne, eat_eq by (done || apply Hst).
  - change (join_comma _) with ((st_newline st (S d) ++ print st (S d) v) ++ [x2c] ++
      join_comma ((λ w, st_newline st (S d) ++ w) <$> (print st (S d) <$> (v2 :: l)))).
    change (length body) with (length ((st_newline st (S d) ++ print st (S d) v) ++ [x2c] ++
      join_comma ((λ w, st_newline st (S d) ++ w) <$> (print st (S d) <$> (v2 :: l))))) in Hn.
    rewrite !length_app in Hn. cbn [length] in Hn.
    rewrite <-(assoc_L (++)), Hpv by done. rewrite <-(assoc_L (++)). cbn [app]. rewrite skip_ws_head, eat_eq by done.
    rewrite IH; [done|done|done|lia|lia].
Qed.

(** The members of an object. *)
Lemma parse_fields_print l d dep n e rest :
  l ≠ [] → Forall (λ kv, reads_back kv.2) l → foldr (λ kv P, (utf8 kv.1 ∧ json_wf kv.2) ∧ P) True l →
  dep + foldr (λ kv h, Z.max (height kv.2) h) 0 l <= maxNestingDepth →
  let member := λ kv : list byte * json, quote kv.1 ++ st_colon st ++ print st (S d) kv.2 in
  let body := join_comma ((λ w, st_newline st (S d) ++ w) <$> (member <$> l)) in
  (length body < n)%nat →
  parse_fields n dep (body ++ st_newline st e ++ x7d :: rest) = Some (l, rest).
Proof using Hst.
  intros Hne Hl. revert n Hne. induction Hl as [|[k v] l Hv Hl IH]; intros n Hne Hwf Hdep member body Hn; [done|].
  destruct Hwf as [[Hk Hwv] Hwl]. cbn [foldr snd fst] in *. destruct n as [|n]; [lia|].
  destruct (so_colon _ Hst) as (ws & Ec & Hws).
  assert (∀ r, delim r → parse_fields (S n) dep ((st_newline st (S d) ++ member (k, v)) ++ r) =
     match eat x2c (skip_ws r) with
     | Some s5 => match parse_fields n dep s5 with Some (l, rest) => Some ((k, v) :: l, rest) | None => None end
     | None => (λ rest, ([(k, v)], rest)) <$> eat x7d (skip_ws r)
     end) as Hpv.
  { intros r Hr. rewrite <-(assoc_L (++)), parse_fields_ws by apply Hst. unfold member, quote. cbn [fst snd].
    rewrite <-!(assoc_L (++)). cbn [app parse_fields]. rewrite skip_ws_head, eat_eq by done.
    rewrite (parse_str_quote k) by done. rewrite Ec. cbn [app]. rewrite skip_ws_head, eat_eq by done.
    rewrite parse_value_ws by done. rewrite Hv; [done|done|lia|done|].
    unfold body in Hn. destruct l; cbn [fmap list_fmap join_comma] in Hn; unfold member in Hn; cbn [fst snd] in Hn;
      rewrite ?length_app in Hn; lia. }
  unfold body. destruct l as [|kv2 l].
  - cbn [fmap list_fmap join_comma]. rewrite Hpv by (by apply delim_ws; [apply Hst|]).
    by rewrite skip_ws_app, skip_ws_head, eat_ne, eat_eq by (done || apply Hst).
  - change (join_comma _) with ((st_newline st (S d) ++ member (k, v)) ++ [x2c] ++
      join_comma ((λ w, st_newline st (S d) ++ w) <$> (member <$> (kv2 :: l)))).
    change (length body) with (length ((st_newline st (S d) ++ member (k, v)) ++ [x2c] ++
      join_comma ((λ w, st_newline st (S d) ++ w) <$> (member <$> (kv2 :: l))))) in Hn.
    rewrite !length_app in Hn. cbn [length] in Hn.
    rewrite <-(assoc_L (++)), Hpv by done. rewrite <-(assoc_L (++)). cbn [app]. rewrite skip_ws_head, eat_eq by done.
    rewrite IH; [done|done|done|lia|unfold member in Hn; lia].
Qed.

Lemma parse_value_arr n dep s b t :
  dep + 1 <= maxNestingDepth → skip_ws s = b :: t → b ≠ x5d →
  parse_value (S n) dep (x5b :: s) =
  match parse_elems n (dep + 1) s with Some (l, rest) => Some (JArr l, rest) | None => None end.
Proof.
  intros Hd Hs Hb.
  assert (parse_value (S n) dep (x5b :: s) =
    if bool_decide (maxNestingDepth < dep + 1) then None
    else match eat x5d (skip_ws s) with
         | Some rest => Some (JArr [], rest)
         | None => match parse_elems n (dep + 1) s with Some (l, rest) => Some (JArr l, rest) | None => None end
         end) as -> by reflexivity.
  by rewrite bool_decide_eq_false_2, Hs, eat_ne by (done || lia).
Qed.

Lemma parse_value_obj n dep s t :
  dep + 1 <= maxNestingDepth → skip_ws s = x22 :: t →
  parse_value (S n) dep (x7b :: s) =
  match parse_fields n (dep + 1) s with Some (l, rest) => Some (JObj l, rest) | None => None end.
Proof.
  intros Hd Hs.
  assert (parse_value (S n) dep (x7b :: s) =
    if bool_decide (maxNestingDepth < dep + 1) then None
    else match eat x7d (skip_ws s) with
         | Some rest => Some (JObj [], rest)
         | None => match parse_fields n (dep + 1) s with Some (l, rest) => Some (JObj l, rest) | None => None end
         end) as -> by reflexivity.
  by rewrite bool_decide_eq_false_2, Hs, eat_ne by (done || lia).
Qed.

Lemma parse_value_empty n dep rest :
  dep + 1 <= maxNestingDepth →
  parse_value (S n) dep (x5b :: x5d :: rest) = Some (JArr [], rest) ∧
  parse_value (S n) dep (x7b :: x7d :: rest) = Some (JObj [], rest).
Proof.
  intros Hd. assert (bool_decide (maxNestingDepth < dep + 1) = false) as E by (apply bool_decide_eq_false_2; lia).
  split; cbn [parse_value]; rewrite skip_ws_head by done; cbn; by rewrite E.
Qed.

Lemma join_first d w ws t :
  ∃ r, join_comma ((λ w, st_newline st (S d) ++ w) <$> (w :: ws)) ++ t = st_newline st (S d) ++ w ++ r.
Proof. destruct ws; cbn [fmap list_fmap join_comma]; rewrite <-!(assoc_L (++)); by eexists. Qed.

Lemma enclose_cons d o c w ws rest :
  enclose st d o c (w :: ws) ++ rest =
  o :: join_comma ((λ w, st_newline st (S d) ++ w) <$> (w :: ws)) ++ st_newline st d ++ c :: rest.
Proof. unfold enclose. by rewrite <-!(assoc_L (++)). Qed.

Lemma length_enclose d o c w ws :
  (length (join_comma ((λ w, st_newline st (S d) ++ w) <$> (w :: ws))) + 2 ≤ length (enclose st d o c (w :: ws)))%nat.
Proof. unfold enclose. rewrite !length_app. cbn [length]. lia. Qed.

Lemma value_reads_back v : reads_back v.
Proof using Hst.
  induction v as [|[]|lit|s|l IH|l IH] using json_nested_ind; intros d dep n rest Hwf Hdep Hr Hn;
    (destruct n as [|n]; [exfalso; destruct (print_head d _ Hwf) as (b & t & E & _); rewrite E in Hn; cbn in Hn; lia|]).
  1-3: done.
  - destruct Hwf as [z ->].
    cbn [print parse_value]. pose proof (parse_num_Itoa z rest Hr) as Hp.
    destruct (Itoa_first z) as (b & t & E & Hb). rewrite E in *. cbn [app] in *.
    rewrite skip_ws_head by (destruct Hb as [->|?]; [done|]; by destruct b).
    rewrite Hp. by destruct Hb as [->|?]; [|destruct b].
  - cbn [print parse_value]. unfold quote. rewrite <-!(assoc_L (++)).
    cbn [app]. rewrite skip_ws_head by done. rewrite bool_decide_eq_true_2 by done. by rewrite parse_str_quote.
  - cbn [height json_wf print] in *. destruct l as [|v l]; [cbn in Hdep; apply parse_value_empty; lia|].
    change (print st (S d) <$> v :: l) with (print st (S d) v :: (print st (S d) <$> l)) in *.
    pose proof (length_enclose d x5b x5d (print st (S d) v) (print st (S d) <$> l)). rewrite enclose_cons.
    destruct (join_first d (print st (S d) v) (print st (S d) <$> l) (st_newline st d ++ x5d :: rest)) as [r Er].
    destruct (print_head (S d) v) as (b & t & Eb & Hb & Hb'); [by apply Hwf|].
    pose proof (max_nonneg height (v :: l)).
    erewrite parse_value_arr; [|lia|rewrite Er, skip_ws_app by apply Hst; rewrite Eb; cbn [app]; by apply skip_ws_head|done].
    rewrite (parse_elems_print (v :: l) d _ n d rest); [done|done|done|done|lia|cbn [fmap list_fmap] in *; lia].
  - cbn [height json_wf print] in *. destruct l as [|[k v] l]; [cbn in Hdep; apply parse_value_empty; lia|].
    set (member := λ kv : list byte * json, quote kv.1 ++ st_colon st ++ print st (S d) kv.2) in *.
    change (member <$> (k, v) :: l) with (member (k, v) :: (member <$> l)) in *.
    pose proof (length_enclose d x7b x7d (member (k, v)) (member <$> l)). rewrite enclose_cons.
    destruct (join_first d (member (k, v)) (member <$> l) (st_newline st d ++ x7d :: rest)) as [r Er].
    pose proof (max_nonneg (λ kv : list byte * json, height kv.2) ((k, v) :: l)).
    erewrite parse_value_obj; [|lia|rewrite Er, skip_ws_app by apply Hst; by apply skip_ws_head].
    rewrite (parse_fields_print ((k, v) :: l) d _ n d rest); [done|done|done|done|lia|fold member; cbn [fmap list_fmap] in *; lia].
Qed.
End roundtrip.

(** What is printed, in either style, is read back as the same tree, by
    Unmarshal, and by Decode whatever follows that could not belong to it. *)
Lemma json_roundtrip st v :
  style_ok st → json_wf v → height v <= maxNestingDepth → json_Unmarshal (print st 0 v) = Some v.
Proof.
  intros Hst Hwf Hh. unfold json_Unmarshal, json_fuel.
  pose proof (value_reads_back st Hst v 0%nat 0 (S (2 * length (print st 0 v))) [] Hwf) as E.
  rewrite app_nil_r in E. rewrite E; [done|lia|done|lia].
Qed.

Lemma json_decode_print st v rest :
  style_ok st → json_wf v → height v <= maxNestingDepth → delim rest → json_Decode (print st 0 v ++ rest) = Some v.
Proof.
  intros Hst Hwf Hh Hr. unfold json_Decode, json_fuel. rewrite value_reads_back; [done..|]. rewrite length_app. lia.
Qed.

(** ** The fuel is enough *)

Definition shrinks {A} (s : list byte) (r : option (A * list byte)) : Prop :=
  match r with Some (_, rest) => (length rest < length s)%nat | None => True end.

Lemma shrinks_push s s' c r : shrinks s' r → (length s' ≤ length s)%nat → shrinks s (push c r).
Proof. destruct r as [[? ?]|]; cbn; [lia|done]. Qed.

Lemma skip_ws_length s : (length (skip_ws s) ≤ length s)%nat.
Proof. induction s as [|b s IH]; cbn; [done|]. case_match; cbn; lia. Qed.

Lemma hex4_shrinks s : shrinks s (hex4 s).
Proof. unfold hex4. repeat case_match; cbn; try done. simplify_eq. lia. Qed.

Lemma eat_length c s s' : eat c s = Some s' → length s = S (length s').
Proof. destruct s as [|b s]; cbn; [done|]. case_bool_decide; [by intros [= ->]|done]. Qed.

Lemma hex4_escape_shrinks s : shrinks s (hex4_escape s).
Proof.
  unfold hex4_escape. destruct (eat x5c s) as [s1|] eqn:E1; cbn; [|done]. destruct (eat x75 s1) as [s2|] eqn:E2; [|done].
  apply eat_length in E1, E2. pose proof (hex4_shrinks s2) as H. destruct (hex4 s2) as [[? ?]|]; cbn in *; [lia|done].
Qed.

Lemma parse_str_shrinks n s : shrinks s (parse_str n s).
Proof.
  revert s. induction n as [|n IH]; intros [|b s]; try done. cbn [parse_str].
  case_bool_decide; [cbn; lia|]. case_bool_decide.
  - destruct s as [|e s]; [done|]. case_bool_decide.
    + pose proof (hex4_shrinks s) as H4. destruct (hex4 s) as [[r s3]|]; [|done]. cbn in H4.
      assert (∀ c, shrinks (b :: e :: s) (push c (parse_str n s3))) as H3
        by (intros c; eapply shrinks_push; [apply IH|cbn; lia]).
      case_match; [|done]. pose proof (hex4_escape_shrinks s3) as H5. destruct (hex4_escape s3) as [[r2 s4]|]; [|done].
      cbn in H5. case_match; [|done]. eapply shrinks_push; [apply IH|cbn; lia].
    + case_match; [|done]. eapply shrinks_push; [apply IH|cbn; lia].
  - case_bool_decide; [done|]. destruct (rune_len (b :: s)) as [|k] eqn:E; (eapply shrinks_push; [apply IH|]); [cbn; lia|].
    rewrite length_drop. cbn. lia.
Qed.

Lemma digits1_shrinks s : shrinks s (digits1 s).
Proof.
  unfold digits1. assert (∀ s, match take_digits s with (ds, rest) => length s = (length ds + length rest)%nat end) as H.
  { clear s. induction s as [|b s IH]; cbn; [done|]. destruct (is_digit b); [|done]. destruct (take_digits s). cbn. lia. }
  specialize (H s). destruct (take_digits s) as [[|b ds] rest]; cbn in *; [done|lia].
Qed.

Lemma parse_num_shrinks s : shrinks s (parse_num s).
Proof.
  unfold parse_num. assert (∃ sign s1, parse_sign s = (sign, s1) ∧ (length s1 ≤ length s)%nat) as (sign & s1 & -> & H1).
  { unfold parse_sign. destruct (eat x2d s) as [s1|] eqn:E; [apply eat_length in E; exists [x2d], s1|exists [], s]; (split; [done|lia]). }
  assert (shrinks s1 (parse_int s1)) as H2.
  { unfold parse_int. destruct (eat x30 s1) eqn:E; [apply eat_length in E; cbn; lia|apply digits1_shrinks]. }
  destruct (parse_int s1) as [[i s2]|]; [|done]. cbn in H2.
  assert (match parse_frac s2 with Some (_, r) => length r ≤ length s2 | None => True end)%nat as H3.
  { unfold parse_frac. destruct (eat x2e s2) as [s'|] eqn:E; [|done]. apply eat_length in E.
    pose proof (digits1_shrinks s') as H. destruct (digits1 s') as [[? ?]|]; cbn in *; [lia|done]. }
  destruct (parse_frac s2) as [[f s3]|]; [|done].
  assert (match parse_exp s3 with Some (_, r) => length r ≤ length s3 | None => True end)%nat as H4.
  { unfold parse_exp. destruct s3 as [|e s3]; [done|]. case_bool_decide; [|done]. destruct s3 as [|g s3]; [done|].
    case_bool_decide; match goal with |- context [digits1 ?l] => pose proof (digits1_shrinks l) as Hd; destruct (digits1 l) as [[? ?]|] end;
      cbn in *; done || lia. }
  destruct (parse_exp s3) as [[e s4]|]; [|done]. cbn. lia.
Qed.

Lemma strip_length p s s' : strip p s = Some s' → (length s' ≤ length s)%nat.
Proof.
  revert s. induction p as [|b p IH]; intros s; [by intros [= ->]|]. destruct s as [|c s]; [done|].
  cbn. case_bool_decide; [|done]. intros ?%IH. lia.
Qed.

Ltac shrink :=
  repeat match goal with
  | H : eat _ (skip_ws ?s) = Some _ |- _ => apply eat_length in H; pose proof (skip_ws_length s)
  | H : strip _ _ = Some _ |- _ => apply strip_length in H
  | H : shrinks _ (Some _) |- _ => cbn in H
  end; cbn in *; lia.

Lemma parse_shrinks n :
  (∀ d s, shrinks s (parse_value n d s)) ∧ (∀ d s, shrinks s (parse_elems n d s)) ∧
  (∀ d s, shrinks s (parse_fields n d s)).
Proof.
  induction n as [|n (IHv & IHe & IHf)]; [done|]. split_and!; intros d s.
  - cbn [parse_value]. pose proof (skip_ws_length s) as Hs. destruct (skip_ws s) as [|b s1]; [done|]. cbn in Hs.
    case_bool_decide.
    { pose proof (parse_str_shrinks (length s1) s1) as H'. destruct (parse_str _ s1) as [[? ?]|]; [shrink|done]. }
    case_bool_decide.
    { case_bool_decide; [done|]. destruct (eat x5d (skip_ws s1)) eqn:E; [shrink|].
      specialize (IHe (d + 1) s1). destruct (parse_elems n (d + 1) s1) as [[? ?]|]; [shrink|done]. }
    case_bool_decide.
    { case_bool_decide; [done|]. destruct (eat x7d (skip_ws s1)) eqn:E; [shrink|].
      specialize (IHf (d + 1) s1). destruct (parse_fields n (d + 1) s1) as [[? ?]|]; [shrink|done]. }
    do 3 (case_bool_decide; [match goal with |- context [strip ?p s1] => destruct (strip p s1) eqn:E end; [shrink|done]|]).
    pose proof (parse_num_shrinks (b :: s1)) as H'. destruct (parse_num (b :: s1)) as [[? ?]|]; [shrink|done].
  - cbn [parse_elems]. specialize (IHv d s). destruct (parse_value n d s) as [[v s1]|]; [|done]. cbn in IHv.
    destruct (eat x2c (skip_ws s1)) as [s2|] eqn:E; [|destruct (eat x5d (skip_ws s1)) eqn:E2; [shrink|done]].
    specialize (IHe d s2). destruct (parse_elems n d s2) as [[? ?]|]; [shrink|done].
  - cbn [parse_fields]. destruct (eat x22 (skip_ws s)) as [s1|] eqn:E1; [|done].
    pose proof (parse_str_shrinks (length s1) s1) as H1. destruct (parse_str _ s1) as [[k s2]|]; [|done].
    destruct (eat x3a (skip_ws s2)) as [s3|] eqn:E3; [|done].
    specialize (IHv d s3). destruct (parse_value n d s3) as [[v s4]|]; [|done].
    destruct (eat x2c (skip_ws s4)) as [s5|] eqn:E; [|destruct (eat x7d (skip_ws s4)) eqn:E2; [shrink|done]].
    specialize (IHf d s5). destruct (parse_fields n d s5) as [[? ?]|]; [shrink|done].
Qed.

(** With this much fuel, more changes nothing. *)
Lemma parse_more n :
  (∀ m d s, (2 * length s < n)%nat → (2 * length s < m)%nat → parse_value n d s = parse_value m d s) ∧
  (∀ m d s, (2 * length s + 1 < n)%nat → (2 * length s + 1 < m)%nat → parse_elems n d s = parse_elems m d s) ∧
  (∀ m d s, (2 * length s + 1 < n)%nat → (2 * length s + 1 < m)%nat → parse_fields n d s = parse_fields m d s).
Proof.
  induction n as [|n (IHv & IHe & IHf)]; [split_and!; intros; lia|].
  split_and!; intros [|m] d s Hn Hm; try lia.
  - cbn [parse_value]. pose proof (skip_ws_length s) as Hs. destruct (skip_ws s) as [|b s1]; [done|]. cbn in Hs.
    by rewrite (IHe m (d + 1) s1), (IHf m (d + 1) s1) by lia.
  - cbn [parse_elems]. rewrite (IHv m d s) by lia. destruct (parse_shrinks m) as (Hv & _).
    specialize (Hv d s). destruct (parse_value m d s) as [[v s1]|]; [|done].
    destruct (eat x2c (skip_ws s1)) as [s2|] eqn:E; [|done].
    by rewrite (IHe m d s2) by shrink.
  - cbn [parse_fields]. destruct (eat x22 (skip_ws s)) as [s1|] eqn:E1; [|done].
    pose proof (parse_str_shrinks (length s1) s1) as H1. destruct (parse_str _ s1) as [[k s2]|]; [|done].
    destruct (eat x3a (skip_ws s2)) as [s3|] eqn:E3; [|done]. destruct (parse_shrinks m) as (Hv & _).
    rewrite (IHv m d s3) by shrink. specialize (Hv d s3). destruct (parse_value m d s3) as [[v s4]|]; [|done].
    destruct (eat x2c (skip_ws s4)) as [s5|] eqn:E; [|done].
    by rewrite (IHf m d s5) by shrink.
Qed.

(** The decoders read a text the same way with any more fuel. *)
Lemma parse_fuel n d s : (json_fuel s ≤ n)%nat → parse_value n d s = parse_value (json_fuel s) d s.
Proof. unfold json_fuel. intros Hn. apply parse_more; lia. Qed.

(** ** Strings that were read are UTF-8 *)

Definition push_utf8 (r : option (list byte * list byte)) : Prop :=
  match r with Some (s, _) => utf8 s | None => True end.

Lemma push_rune c r : is_rune c → push_utf8 r → push_utf8 (push c r).
Proof. destruct r as [[? ?]|]; [|done]. cbn. by constructor. Qed.

Lemma parse_str_utf8 n s : push_utf8 (parse_str n s).
Proof.
  assert (is_rune rune_error) as He by done.
  revert s. induction n as [|n IH]; intros [|b s]; try done. cbn [parse_str].
  case_bool_decide; [constructor|]. case_bool_decide.
  - destruct s as [|e s]; [done|]. case_bool_decide.
    + repeat case_match; try done; apply push_rune; auto using encode_rune_valid.
    + destruct (simple_escape e) as [c|] eqn:E; [|done]. apply push_rune; [|done].
      apply is_rune_ascii. destruct e; simplify_eq E; intros; by subst.
  - case_bool_decide; [done|]. destruct (rune_len (b :: s)) as [|k] eqn:E; (apply push_rune; [|done]); [done|].
    by apply rune_len_take.
Qed.

Fixpoint json_text (v : json) : Prop :=
  match v with
  | JStr s => utf8 s
  | JArr l => foldr (λ x P, json_text x ∧ P) True l
  | JObj l => foldr (λ kv P, json_text kv.2 ∧ P) True l
  | _ => True
  end.

Lemma parse_text n :
  (∀ d s v r, parse_value n d s = Some (v, r) → json_text v) ∧
  (∀ d s l r, parse_elems n d s = Some (l, r) → json_text (JArr l)) ∧
  (∀ d s l r, parse_fields n d s = Some (l, r) → json_text (JObj l)).
Proof.
  induction n as [|n (IHv & IHe & IHf)]; [done|]. split_and!; intros d s v r.
  - cbn [parse_value]. destruct (skip_ws s) as [|b s1]; [done|]. case_bool_decide.
    { pose proof (parse_str_utf8 (length s1) s1) as H'. destruct (parse_str _ s1) as [[? ?]|]; [by intros [= <- <-]|done]. }
    case_bool_decide.
    { case_bool_decide; [done|]. case_match; [by intros [= <- <-]|].
      destruct (parse_elems n (d + 1) s1) as [[? ?]|] eqn:E; [intros [= <- <-]; by eapply IHe|done]. }
    case_bool_decide.
    { case_bool_decide; [done|]. case_match; [by intros [= <- <-]|].
      destruct (parse_fields n (d + 1) s1) as [[? ?]|] eqn:E; [intros [= <- <-]; by eapply IHf|done]. }
    do 3 (case_bool_decide; [match goal with |- context [strip ?p s1] => destruct (strip p s1) end; [by intros [= <- <-]|done]|]).
    destruct (parse_num (b :: s1)) as [[? ?]|]; [by intros [= <- <-]|done].
  - cbn [parse_elems]. destruct (parse_value n d s) as [[v1 s1]|] eqn:Ev; [|done].
    destruct (eat x2c (skip_ws s1)) as [s2|]; [|destruct (eat x5d (skip_ws s1)); [intros [= <- <-]; split; [by eapply IHv|done]|done]].
    destruct (parse_elems n d s2) as [[? ?]|] eqn:Ee; [intros [= <- <-]; split; [by eapply IHv|by eapply IHe]|done].
  - cbn [parse_fields]. destruct (eat x22 (skip_ws s)) as [s1|]; [|done].
    destruct (parse_str _ s1) as [[k s2]|]; [|done]. destruct (eat x3a (skip_ws s2)) as [s3|]; [|done].
    destruct (parse_value n d s3) as [[v1 s4]|] eqn:Ev; [|done].
    destruct (eat x2c (skip_ws s4)) as [s5|]; [|destruct (eat x7d (skip_ws s4)); [intros [= <- <-]; split; [by eapply IHv|done]|done]].
    destruct (parse_fields n d s5) as [[? ?]|] eqn:Ee; [intros [= <- <-]; split; [by eapply IHv|by eapply IHf]|done].
Qed.

Lemma json_Decode_text s v : json_Decode s = Some v → json_text v.
Proof.
  unfold json_Decode. destruct (parse_value _ _ _) as [[v' r]|] eqn:E; [|done]. intros [= <-]. by eapply parse_text.
Qed.
Lemma json_Unmarshal_text s v : json_Unmarshal s = Some v → json_text v.
Proof.
  unfold json_Unmarshal. destruct (parse_value _ _ _) as [[v' r]|] eqn:E; [|done].
  case_match; [|done]. intros [= <-]. by eapply parse_text.
Qed.

(** ** Structs *)

(** Folding of a key: letters are compared without case, which for ASCII letters
    includes the long s (U+017F) and the Kelvin sign (U+212A). *)
Fixpoint fold_key (s : list byte) : list byte :=
  match s with
  | [] => []
  | b :: s1 =>
      match s1 with
      | c :: s2 =>
          if bool_decide (b = xc5 ∧ c = xbf) then x53 :: fold_key s2
          else match s2 with
               | e :: s3 =>
                   if bool_decide (b = xe2 ∧ c = x84 ∧ e = xaa) then x4b :: fold_key s3
                   else (if between 97 122 b then Zbyte (byteZ b - 32) else b) :: fold_key s1
               | [] => (if between 97 122 b then Zbyte (byteZ b - 32) else b) :: fold_key s1
               end
      | [] => [if between 97 122 b then Zbyte (byteZ b - 32) else b]
      end
  end.

(** The fields of a struct: their names, and how a value sets them; [None] is an
    error of type. *)
Abbreviation setters S := (list (string * (S → json → option S))) (only parsing).

(** A member sets the field its key names, or nothing. *)
Definition set_member {S} (fields : setters S) (st : option S) (kv : list byte * json) : option S :=
  match st with
  | None => None
  | Some x =>
      match list_find (λ f, fold_key (bytes_of_string f.1) = fold_key kv.1) fields with
      | Some (_, (_, set)) => set x kv.2
      | None => Some x
      end
  end.

(** A value is decoded into the struct [x]; null leaves it as it is. *)
Definition decode_struct {S} (fields : setters S) (x : S) (v : json) : option S :=
  match v with
  | JNull => Some x
  | JObj l => foldl (set_member fields) (Some x) l
  | _ => None
  end.

(** A field of type int and one of type string, which null leaves as they are. *)
Definition int_field (old : Z) (v : json) : option Z :=
  match v with JNull => Some old | JNum lit => Atoi lit | _ => None end.
Definition string_field (old : string) (v : json) : option string :=
  match v with JNull => Some old | JStr s => Some (string_of_bytes s) | _ => None end.

(** The elements of an array are decoded into those of the slice that is there,
    [old] being all that its array holds. *)
Fixpoint decode_elems {S} (dec : S → json → option S) (zero : S) (old : list S) (l : list json) : option (list S) :=
  match l with
  | [] => Some []
  | v :: l' =>
      match dec (default zero (head old)) v, decode_elems dec zero (tail old) l' with
      | Some x, Some xs => Some (x :: xs)
      | _, _ => None
      end
  end.

Definition jstr (s : string) : json := JStr (bytes_of_string s).
Definition jint (z : Z) : json := JNum (Itoa z).
Definition jobj (l : list (string * json)) : json := JObj ((λ kv, (bytes_of_string kv.1, kv.2)) <$> l).

(** Valid UTF-8, of a string. *)
Definition text (s : string) : Prop := utf8 (bytes_of_string s).

Lemma text_check s : utf8_check (String.length s) (bytes_of_string s) = true → text s.
Proof. apply utf8_check_sound. Qed.

Lemma int_field_jint old z : is_i64 z → int_field old (jint z) = Some z.
Proof. apply Atoi_pretty. Qed.
Lemma string_field_jstr old s : string_field old (jstr s) = Some s.
Proof. cbn. by rewrite string_of_bytes_of_string. Qed.

Lemma Atoi_range lit z : Atoi lit = Some z → is_i64 z.
Proof. unfold Atoi. repeat case_match; try done; intros [= <-]; by eapply bool_decide_eq_true. Qed.
Lemma int_field_range old v z : is_i64 old → int_field old v = Some z → is_i64 z.
Proof. destruct v; cbn; try done; [by intros ? [= <-]|]. intros _. apply Atoi_range. Qed.
Lemma string_field_text old v s : text old → json_text v → string_field old v = Some s → text s.
Proof. destruct v; cbn; try done; intros H1 H2 [= <-]; [done|]. unfold text. by rewrite bytes_of_string_of_bytes. Qed.

(** Whatever every setter keeps, the struct keeps. *)
Lemma decode_struct_keeps {S} (fields : setters S) (P : S → Prop) x v y :
  Forall (λ f, ∀ x v y, P x → json_text v → f.2 x v = Some y → P y) fields →
  P x → json_text v → decode_struct fields x v = Some y → P y.
Proof.
  intros Hf Hx Hv. destruct v as [| | | | |l]; cbn; try done; [by intros [= <-]|].
  cbn [json_text] in Hv. revert x Hx. induction l as [|kv l IH]; intros x Hx; cbn [foldl]; [by intros [= <-]|].
  destruct Hv as [Hkv Hv].
  assert (∀ y', foldl (set_member fields) None l = Some y' → False) as Hnone.
  { clear. intros y'. induction l; cbn; [done|]. done. }
  destruct (set_member fields (Some x) kv) as [x'|] eqn:E; [|by intros ?%Hnone]. apply IH; [done|].
  revert E. unfold set_member. case_match eqn:Ef; [|by intros [= <-]]. destruct p as [i [name set]]. intros Es.
  apply list_find_Some in Ef as (Hi & _). rewrite Forall_lookup in Hf. exact (Hf _ _ Hi _ _ _ Hx Hkv Es).
Qed.

(** A key that is the name of a field sets that field. *)
Lemma set_member_field {S} (fields : setters S) i name set x v :
  fields !! i = Some (name, set) →
  bool_decide (NoDup ((λ f, fold_key (bytes_of_string f.1)) <$> fields)) = true →
  set_member fields (Some x) (bytes_of_string name, v) = set x v.
Proof.
  intros Hi Hn%bool_decide_eq_true. unfold set_member. cbn [fst snd].
  destruct (list_find _ fields) as [[j f]|] eqn:E.
  - apply list_find_Some in E as (Hj & He & _). assert (j = i) as ->; [|by simplify_eq].
    eapply NoDup_lookup; [exact Hn|by rewrite list_lookup_fmap, Hj|by rewrite list_lookup_fmap, Hi; cbn; rewrite He].
  - apply list_find_None in E. rewrite Forall_lookup in E. by destruct (E _ _ Hi).
Qed.
