(* ===== verification/Frame.v ===== *)
(** * The wire format: [pkg/protocol/frame.go], [frame_codec.go], [errors.go]

    Frames, commands and flags, the sentinel errors of the protocol package,
    and the codec that reads and writes a 12-byte header followed by the
    payload. A Go [[]byte] is a [list byte]; a nil and an empty slice are the
    same list, because the code only ever asks for their length. *)

From Stdlib Require Import ZArith Lia.
From S2P Require Import Prelude.

(** ** Errors *)

(** The sentinel errors of errors.go. *)
Inductive ProtoErr :=
| ErrStreamClosed
| ErrWindowExhausted
| ErrMaxStreamsExceeded
| ErrInvalidFrame
| ErrGoAway
| ErrZeroWindowIncrement
| ErrWindowOverflow.

#[export] Instance ProtoErr_eq_dec : EqDecision ProtoErr.
Proof. solve_decision. Defined.

(** The [io] errors the codec sees: end of input, input that ends inside a
    value, and a failure of the underlying transport. *)
Inductive IOErr :=
| EOF
| UnexpectedEOF
| IOFault (n : nat).

#[export] Instance IOErr_eq_dec : EqDecision IOErr.
Proof. solve_decision. Defined.

(** The errors the codec returns; each constructor is one [fmt.Errorf]. *)
Inductive FrameErr :=
| FReadHeader (e : IOErr)
| FReadPayload (e : IOErr)
| FUnsupportedVersion (v : byte)
| FPayloadTooLong (n : Z)
| FNilFrame
| FWriteTooLong (n : Z)
| FWriteHeader (e : IOErr)
| FWritePayload (e : IOErr).

#[export] Instance FrameErr_eq_dec : EqDecision FrameErr.
Proof. solve_decision. Defined.

(** [errors.Is(err, ErrInvalidFrame)]: which of them wrap the sentinel. *)
Definition is_invalid_frame (e : FrameErr) : bool :=
  match e with
  | FUnsupportedVersion _ | FPayloadTooLong _ | FNilFrame | FWriteTooLong _ => true
  | _ => false
  end.

(** ** Constants, commands and flags *)

Definition ProtocolVersion : byte := x01.
Definition HeaderSize : Z := 12.
Definition MaxPayloadSize : Z := 16 * 1024 * 1024.

Abbreviation Command := byte (only parsing).

Definition CmdStreamOpen : Command := x01.
Definition CmdStreamData : Command := x02.
Definition CmdStreamClose : Command := x03.
Definition CmdStreamReset : Command := x04.
Definition CmdPing : Command := x05.
Definition CmdPong : Command := x06.
Definition CmdWindowUpdate : Command := x07.
Definition CmdGoAway : Command := x08.
Definition CmdUDPBind : Command := x09.
Definition CmdUDPData : Command := x0a.
Definition CmdUDPUnbind : Command := x0b.
Definition CmdUpdateManifest : Command := x0c.
Definition CmdUpdateBinary : Command := x0d.
Definition CmdServiceList : Command := x0e.

Definition commandNames : gmap byte string :=
  list_to_map
    [(CmdStreamOpen, "STREAM_OPEN"); (CmdStreamData, "STREAM_DATA");
     (CmdStreamClose, "STREAM_CLOSE"); (CmdStreamReset, "STREAM_RESET");
     (CmdPing, "PING"); (CmdPong, "PONG"); (CmdWindowUpdate, "WINDOW_UPDATE");
     (CmdGoAway, "GOAWAY"); (CmdUDPBind, "UDP_BIND"); (CmdUDPData, "UDP_DATA");
     (CmdUDPUnbind, "UDP_UNBIND"); (CmdUpdateManifest, "UPDATE_MANIFEST");
     (CmdUpdateBinary, "UPDATE_BINARY"); (CmdServiceList, "SERVICE_LIST")]%string.

(** Go's [%02x] of a byte. *)
Definition hex_digit (n : Z) : string :=
  default EmptyString
    (["0"; "1"; "2"; "3"; "4"; "5"; "6"; "7"; "8"; "9"; "a"; "b"; "c"; "d"; "e"; "f"]%string
       !! Z.to_nat n).
Definition hex02 (b : byte) : string :=
  (hex_digit (byteZ b / 16) +:+ hex_digit (byteZ b mod 16))%string.

(** [func (c Command) String() string] *)
Definition Command_String (c : Command) : string :=
  match commandNames !! c with
  | Some name => name
  | None => ("UNKNOWN(0x" +:+ hex02 c +:+ ")")%string
  end.

(** [func (c Command) IsValid() bool] *)
Definition IsValid (c : Command) : bool :=
  match commandNames !! c with Some _ => true | None => false end.

Abbreviation Flag := byte (only parsing).

Definition FlagFIN : Flag := x01.
Definition FlagACK : Flag := x02.

(** [func (f Flag) String() string] *)
Definition Flag_String (f : Flag) : string :=
  if decide (f = x00) then "0x00"
  else if decide (f = FlagFIN) then "FIN"
  else if decide (f = FlagACK) then "ACK"
  else if decide (f = Zbyte (Z.lor (byteZ FlagFIN) (byteZ FlagACK))) then "FIN|ACK"
  else ("0x" +:+ hex02 f)%string.

(** [f.Flags&flag != 0] *)
Definition has_flag (f flag : Flag) : bool :=
  bool_decide (Z.land (byteZ f) (byteZ flag) ≠ 0).

Definition ResetCodeProtocolError : Z := 2.

(** ** Frames *)

Record Frame := mkFrame {
  Version : byte;
  FCommand : Command;
  Flags : Flag;
  StreamID : Z;      (* uint32 *)
  Payload : list byte
}.

#[export] Instance Frame_eq_dec : EqDecision Frame.
Proof. solve_decision. Defined.

(** A frame as the Go type system allows it: the stream ID is a uint32. *)
Definition frame_typed (f : Frame) : Prop := is_u32 (StreamID f).

(** ** Readers and writers

    An [io.Reader] is the bytes that will still arrive and the error it
    reports after them. An [io.Writer] is the bytes it has accepted and,
    when it is going to fail, how many more it takes first. *)

Record reader := mkReader { r_data : list byte; r_end : IOErr }.
Record writer := mkWriter { w_out : list byte; w_room : option Z }.

(** [io.ReadFull]: exactly [n] bytes, or the error that stopped it;
    end of input inside the value is [io.ErrUnexpectedEOF]. *)
Definition ReadFull (r : reader) (n : Z) : result IOErr (list byte) * reader :=
  if bool_decide (n <= zlen (r_data r))
  then (Ok (take (Z.to_nat n) (r_data r)),
        mkReader (drop (Z.to_nat n) (r_data r)) (r_end r))
  else (Err match r_data r, r_end r with
            | _ :: _, EOF => UnexpectedEOF
            | _, e => e
            end,
        mkReader [] (r_end r)).

(** [w.Write(p)]: a writer that fails has taken the bytes that fitted. *)
Definition Write (w : writer) (p : list byte) : writer * option IOErr :=
  match w_room w with
  | None => (mkWriter (w_out w ++ p) None, None)
  | Some k =>
      if bool_decide (zlen p <= k)
      then (mkWriter (w_out w ++ p) (Some (k - zlen p)), None)
      else (mkWriter (w_out w ++ take (Z.to_nat k) p) (Some 0), Some (IOFault 0))
  end.

(** ** The codec *)

(** [hdr[i:j]] *)
Definition slice (i j : nat) (l : list byte) : list byte := take (j - i) (drop i l).

(** [func (c *FrameCodec) validateHeader(hdr [HeaderSize]byte) error] *)
Definition validateHeader (hdr : list byte) : result FrameErr unit :=
  if decide (hdr !!! 0%nat ≠ ProtocolVersion)
  then Err (FUnsupportedVersion (hdr !!! 0%nat))
  else
    let payloadLen := Uint32 (slice 8 12 hdr) in
    if bool_decide (payloadLen > MaxPayloadSize)
    then Err (FPayloadTooLong payloadLen)
    else Ok tt.

(** [func (c *FrameCodec) ReadFrame(r io.Reader) ( *Frame, error)] *)
Definition ReadFrame (r : reader) : result FrameErr Frame * reader :=
  match ReadFull r HeaderSize with
  | (Err e, r1) => (Err (FReadHeader e), r1)
  | (Ok hdr, r1) =>
      match validateHeader hdr with
      | Err e => (Err e, r1)
      | Ok _ =>
          let payloadLen := Uint32 (slice 8 12 hdr) in
          let frame p :=
            {| Version := hdr !!! 0%nat; FCommand := hdr !!! 1%nat;
               Flags := hdr !!! 2%nat; StreamID := Uint32 (slice 4 8 hdr);
               Payload := p |} in
          if bool_decide (payloadLen > 0) then
            match ReadFull r1 payloadLen with
            | (Err e, r2) => (Err (FReadPayload e), r2)
            | (Ok p, r2) => (Ok (frame p), r2)
            end
          else (Ok (frame []), r1)
      end
  end.

(** The 12 header bytes WriteFrame builds. *)
Definition header (f : Frame) (payloadLen : Z) : list byte :=
  [Version f; FCommand f; Flags f; x00]
    ++ PutUint32 (StreamID f) ++ PutUint32 payloadLen.

(** [func (c *FrameCodec) WriteFrame(w io.Writer, f *Frame) error]; a nil
    [*Frame] is [None]. *)
Definition WriteFrame (w : writer) (f : option Frame) : writer * result FrameErr unit :=
  match f with
  | None => (w, Err FNilFrame)
  | Some f =>
      let n := zlen (Payload f) in
      if bool_decide (n > MaxPayloadSize) then (w, Err (FWriteTooLong n))
      else
        let payloadLen := u32 n in
        match Write w (header f payloadLen) with
        | (w1, Some e) => (w1, Err (FWriteHeader e))
        | (w1, None) =>
            if bool_decide (payloadLen > 0) then
              match Write w1 (Payload f) with
              | (w2, Some e) => (w2, Err (FWritePayload e))
              | (w2, None) => (w2, Ok tt)
              end
            else (w1, Ok tt)
        end
  end.

#[global] Arguments ReadFrame : simpl never.
#[global] Arguments WriteFrame : simpl never.

(** Reading frames until the reader reports an error: the frames read, the
    error that ended it, and the unread input. *)
Fixpoint ReadFrames (fuel : nat) (r : reader) : list Frame * option FrameErr * reader :=
  match fuel with
  | O => ([], None, r)
  | S k =>
      match ReadFrame r with
      | (Err e, r1) => ([], Some e, r1)
      | (Ok f, r1) => let '(fs, e, r2) := ReadFrames k r1 in (f :: fs, e, r2)
      end
  end.

(** Writing frames in order until one fails. *)
Fixpoint WriteFrames (w : writer) (fs : list Frame) : writer * result FrameErr unit :=
  match fs with
  | [] => (w, Ok tt)
  | f :: fs' =>
      match WriteFrame w (Some f) with
      | (w1, Err e) => (w1, Err e)
      | (w1, Ok _) => WriteFrames w1 fs'
      end
  end.

(** ** What the codec promises

    [frame_ok] are the frames the codec transports; [frame_bytes] is the wire
    image it gives them. *)

Definition frame_ok (f : Frame) : Prop :=
  frame_typed f ∧ Version f = ProtocolVersion ∧ zlen (Payload f) <= MaxPayloadSize.

#[export] Instance frame_ok_dec f : Decision (frame_ok f).
Proof. unfold frame_ok, frame_typed. apply _. Defined.

Definition frame_bytes (f : Frame) : list byte :=
  header f (u32 (zlen (Payload f))) ++ Payload f.

#[global] Arguments header : simpl never.
#[global] Arguments frame_bytes : simpl never.

Lemma length_header f n : length (header f n) = 12%nat.
Proof. done. Qed.

Lemma length_frame_bytes f : length (frame_bytes f) = (12 + length (Payload f))%nat.
Proof. unfold frame_bytes. by rewrite length_app, length_header. Qed.

Lemma payload_u32 f : zlen (Payload f) <= MaxPayloadSize → u32 (zlen (Payload f)) = zlen (Payload f).
Proof. unfold MaxPayloadSize. intros. apply u32_id. unfold is_u32. lia. Qed.

(** [ReadFull] on input that holds the [n] bytes asked for. *)
Lemma ReadFull_app n (l rest : list byte) e :
  zlen l = n → ReadFull (mkReader (l ++ rest) e) n = (Ok l, mkReader rest e).
Proof.
  intros <-. unfold ReadFull. simpl. rewrite bool_decide_eq_true_2.
  - by rewrite Nat2Z.id, take_app_length, drop_app_length.
  - rewrite length_app. lia.
Qed.

Lemma ReadFull_Ok r n l r' :
  0 <= n → ReadFull r n = (Ok l, r') → r_data r = l ++ r_data r' ∧ zlen l = n ∧ r_end r' = r_end r.
Proof.
  unfold ReadFull. intros Hn. case_bool_decide as Hlen; intros; simplify_eq/=.
  rewrite take_drop, length_take. split_and!; [done|lia|done].
Qed.

Lemma ReadFull_short l n e :
  zlen l < n →
  ReadFull (mkReader l e) n
  = (Err (match l, e with _ :: _, EOF => UnexpectedEOF | _, e => e end), mkReader [] e).
Proof. intros. unfold ReadFull. rewrite bool_decide_eq_false_2 by (simpl; lia). by destruct l, e. Qed.

(** A 12-byte header, field by field. *)
Lemma header_inv (hdr : list byte) :
  length hdr = 12%nat →
  ∃ v c fl rsv i0 i1 i2 i3 n0 n1 n2 n3,
    hdr = [v; c; fl; rsv; i0; i1; i2; i3; n0; n1; n2; n3].
Proof.
  intros H. do 12 (destruct hdr as [|? hdr]; [done|]). destruct hdr; [|done]. eauto 13.
Qed.

Lemma validateHeader_header f n :
  Version f = ProtocolVersion → is_u32 n → n <= MaxPayloadSize →
  validateHeader (header f n) = Ok tt.
Proof.
  intros HV Hn Hmax. unfold validateHeader.
  change (header f n !!! 0%nat) with (Version f). rewrite decide_False by (by intros []).
  change (slice 8 12 (header f n)) with (PutUint32 n ++ []).
  rewrite Uint32_PutUint32, u32_id by done. by rewrite bool_decide_eq_false_2 by lia.
Qed.

(** The codec reads back the image of a frame and leaves the rest unread. *)
Lemma ReadFrame_frame_bytes f rest e :
  frame_ok f → ReadFrame (mkReader (frame_bytes f ++ rest) e) = (Ok f, mkReader rest e).
Proof.
  intros (HT & HV & HL). pose proof (payload_u32 f HL) as Hn.
  assert (is_u32 (zlen (Payload f))) as Hu by (rewrite <-Hn; apply u32_range).
  unfold ReadFrame, frame_bytes. rewrite Hn, <-app_assoc.
  rewrite ReadFull_app by done. rewrite validateHeader_header by done.
  change (slice 8 12 (header f ?n)) with (PutUint32 n ++ []).
  change (slice 4 8 (header f ?n)) with (PutUint32 (StreamID f) ++ []).
  rewrite !Uint32_PutUint32, !u32_id by done.
  destruct f as [v c fl id p]; simpl in *. case_bool_decide.
  - by rewrite ReadFull_app.
  - destruct p; [done|simpl in *; lia].
Qed.

(** Writing to a transport that accepts everything appends the frame's image. *)
Lemma WriteFrame_unbounded f out :
  zlen (Payload f) <= MaxPayloadSize →
  WriteFrame (mkWriter out None) (Some f) = (mkWriter (out ++ frame_bytes f) None, Ok tt).
Proof.
  intros HL. unfold WriteFrame, frame_bytes. rewrite bool_decide_eq_false_2 by lia.
  rewrite payload_u32 by done. unfold Write; simpl. case_bool_decide.
  - by rewrite <-app_assoc.
  - destruct (Payload f); [done|simpl in *; lia].
Qed.

Lemma WriteFrames_unbounded fs out :
  Forall frame_ok fs →
  WriteFrames (mkWriter out None) fs = (mkWriter (out ++ (fs ≫= frame_bytes)) None, Ok tt).
Proof.
  intros Hok. revert out. induction Hok as [|f fs (_ & _ & HL) _ IH]; intros out; cbn [WriteFrames].
  - by rewrite app_nil_r.
  - rewrite WriteFrame_unbounded, IH by done. by rewrite bind_cons, <-app_assoc.
Qed.

Lemma ReadFrames_bytes fs rest e :
  Forall frame_ok fs →
  ReadFrames (length fs) (mkReader ((fs ≫= frame_bytes) ++ rest) e)
  = (fs, None, mkReader rest e).
Proof.
  induction 1 as [|f fs Hf _ IH]; [done|]. cbn [ReadFrames length].
  rewrite bind_cons, <-app_assoc, ReadFrame_frame_bytes by done. by rewrite IH.
Qed.

#[export] Hint Resolve ReadFrame_frame_bytes : atlax.

(** C3. The codec transports any sequence of well-formed frames: what
    WriteFrame put on the transport, ReadFrame reads back frame for frame and
    byte for byte, whatever follows on the wire. *)
Theorem codec_roundtrip fs rest e :
  Forall frame_ok fs →
  ∃ out, WriteFrames (mkWriter [] None) fs = (mkWriter out None, Ok tt) ∧
         ReadFrames (length fs) (mkReader (out ++ rest) e) = (fs, None, mkReader rest e).
Proof.
  intros Hok. eexists. split; [by apply WriteFrames_unbounded|]. by apply ReadFrames_bytes.
Qed.

Lemma codec_roundtrip_witness :
  ∃ out, WriteFrames (mkWriter [] None)
           [mkFrame x01 CmdStreamOpen x00 7 [x68; x69]; mkFrame x01 CmdPing FlagACK 0 []]
         = (mkWriter out None, Ok tt) ∧
         ReadFrames 2 (mkReader (out ++ [xff]) EOF)
         = ([mkFrame x01 CmdStreamOpen x00 7 [x68; x69]; mkFrame x01 CmdPing FlagACK 0 []],
            None, mkReader [xff] EOF).
Proof. apply (codec_roundtrip [_; _]). apply (bool_decide_unpack _). by vm_compute. Defined.

(** The bytes of a decoded frame on the wire: the header with whatever the
    peer put in the reserved byte, then the payload. *)
Definition wire_image (rsv : byte) (f : Frame) : list byte :=
  [Version f; FCommand f; Flags f; rsv]
    ++ PutUint32 (StreamID f) ++ PutUint32 (zlen (Payload f)) ++ Payload f.

Lemma wire_image_bytes rsv v c fl i0 i1 i2 i3 n0 n1 n2 n3 p :
  zlen p = Uint32 [n0; n1; n2; n3] →
  wire_image rsv (mkFrame v c fl (Uint32 [i0; i1; i2; i3]) p)
  = [v; c; fl; rsv; i0; i1; i2; i3; n0; n1; n2; n3] ++ p.
Proof.
  intros E. unfold wire_image. cbn [Version FCommand Flags StreamID Payload].
  by rewrite E, !PutUint32_Uint32.
Qed.

(** Decoding is exact: when ReadFrame succeeds, the frame has version 1,
    a payload of at most 16 MB and a uint32 stream ID, and the reader has
    consumed exactly the frame's header and payload, nothing more. *)
Theorem ReadFrame_exact r f r' :
  ReadFrame r = (Ok f, r') →
  frame_ok f ∧ r_end r' = r_end r ∧
  ∃ rsv, r_data r = wire_image rsv f ++ r_data r'.
Proof.
  unfold ReadFrame. destruct (ReadFull r HeaderSize) as [[hdr|] r1] eqn:Eh; [|done].
  apply ReadFull_Ok in Eh as (Hd & Hl & He); [|done].
  destruct (header_inv hdr) as (v&c&fl&rsv&i0&i1&i2&i3&n0&n1&n2&n3&->);
    [unfold HeaderSize in Hl; lia|].
  unfold validateHeader. cbn -[Uint32 ReadFull wire_image]. destruct (decide _) as [|HV]; [done|].
  apply dec_stable in HV. subst v. case_bool_decide as HM; [done|].
  pose proof (Uint32_range [n0; n1; n2; n3]) as Hr. unfold is_u32 in Hr.
  assert (∀ p, zlen p = Uint32 [n0; n1; n2; n3] →
    frame_ok (mkFrame ProtocolVersion c fl (Uint32 [i0; i1; i2; i3]) p)) as Hok.
  { intros p Hp. split_and!; [apply Uint32_range|done|simpl; lia]. }
  case_bool_decide; [destruct (ReadFull r1 _) as [[p|] r2] eqn:Ep; [|done]|];
    intros; simplify_eq.
  - apply ReadFull_Ok in Ep as (Hd2 & Hl2 & He2); [|lia].
    split; [by apply Hok|]. split; [congruence|]. exists rsv.
    by rewrite (wire_image_bytes _ _ _ _ _ _ _ _ _ _ _ _ _ Hl2), Hd, Hd2.
  - split; [apply Hok; simpl; lia|]. split; [done|]. exists rsv.
    rewrite (wire_image_bytes _ _ _ _ _ _ _ _ n0 n1 n2 n3) by (simpl; lia). by rewrite Hd.
Qed.

Lemma ReadFrame_exact_witness :
  frame_ok (mkFrame x01 CmdStreamData FlagFIN 3 [x48]) ∧ EOF = EOF ∧
  ∃ rsv, [x01; x02; x01; x99; x00; x00; x00; x03; x00; x00; x00; x01; x48; x07]
         = wire_image rsv (mkFrame x01 CmdStreamData FlagFIN 3 [x48]) ++ [x07].
Proof.
  apply (ReadFrame_exact
    (mkReader [x01; x02; x01; x99; x00; x00; x00; x03; x00; x00; x00; x01; x48; x07] EOF)
    (mkFrame x01 CmdStreamData FlagFIN 3 [x48]) (mkReader [x07] EOF)).
  vm_compute. reflexivity.
Defined.

(** The error a connection cut after [k] bytes of a frame gives. *)
Definition cut_error (k : nat) : FrameErr :=
  if decide (k = 0)%nat then FReadHeader EOF
  else if decide (k < 12)%nat then FReadHeader UnexpectedEOF
  else if decide (k = 12)%nat then FReadPayload EOF
  else FReadPayload UnexpectedEOF.

(** A truncated frame is never accepted: a connection that ends inside a
    frame makes ReadFrame fail, with [io.EOF] on the header or payload boundary
    and [io.ErrUnexpectedEOF] inside them. *)
Theorem ReadFrame_truncated f k :
  frame_ok f → (k < length (frame_bytes f))%nat →
  ReadFrame (mkReader (take k (frame_bytes f)) EOF) = (Err (cut_error k), mkReader [] EOF).
Proof.
  intros (HT & HV & HL) Hk. rewrite length_frame_bytes in Hk.
  assert (is_u32 (zlen (Payload f))) as Hu by (rewrite <-payload_u32 by done; apply u32_range).
  unfold cut_error, frame_bytes, ReadFrame. rewrite payload_u32 by done.
  destruct (decide (k < 12)%nat) as [Hh|Hh].
  - rewrite take_app_le by (rewrite length_header; lia).
    rewrite ReadFull_short by (rewrite length_take, length_header; unfold HeaderSize; lia).
    by destruct (decide (k = 0)%nat) as [->|]; [|destruct k].
  - rewrite (decide_False (P := k = 0%nat)) by lia.
    rewrite take_app_ge, length_header by (rewrite length_header; lia).
    rewrite ReadFull_app by done. rewrite validateHeader_header by done.
    change (slice 8 12 (header f ?n)) with (PutUint32 n ++ []).
    rewrite Uint32_PutUint32, u32_id by done. rewrite bool_decide_eq_true_2 by lia.
    rewrite ReadFull_short by (rewrite length_take; lia).
    destruct (decide (k = 12)%nat) as [->|]; [done|].
    destruct (Payload f) as [|b p]; [simpl in *; lia|].
    by destruct (k - 12)%nat eqn:E; [lia|].
Qed.

Lemma ReadFrame_truncated_witness :
  ReadFrame (mkReader (take 13 (frame_bytes (mkFrame x01 CmdStreamData x00 3 [x48; x49]))) EOF)
  = (Err (FReadPayload UnexpectedEOF), mkReader [] EOF).
Proof.
  apply (ReadFrame_truncated (mkFrame x01 CmdStreamData x00 3 [x48; x49]) 13).
  - apply (bool_decide_unpack _). by vm_compute.
  - apply (bool_decide_unpack _). by vm_compute.
Defined.

Lemma Write_prefix w p w' e :
  (∀ k, w_room w = Some k → 0 <= k) → Write w p = (w', e) →
  (∀ k, w_room w' = Some k → 0 <= k) ∧
  ∃ q, w_out w' = w_out w ++ q ∧ q `prefix_of` p ∧ (e = None → q = p).
Proof.
  unfold Write. intros Hk Hw. destruct (w_room w) as [k|] eqn:E; [case_bool_decide|];
    simplify_eq/=.
  - split; [|by eauto]. intros ? [= <-]. lia.
  - split; [by intros ? [= <-]|]. eexists. split_and!; [done|apply prefix_take|done].
  - split; [done|by eauto].
Qed.

(** WriteFrame on every branch: a nil or oversized frame is refused with
    ErrInvalidFrame and nothing is written; otherwise the transport receives a
    prefix of the frame's wire image, the whole of it exactly when no error is
    returned. *)
Theorem WriteFrame_branches w f w' res :
  (∀ k, w_room w = Some k → 0 <= k) → WriteFrame w f = (w', res) →
  match f with
  | Some f =>
      if bool_decide (zlen (Payload f) <= MaxPayloadSize)
      then ∃ q, w_out w' = w_out w ++ q ∧ q `prefix_of` frame_bytes f ∧
                (res = Ok tt → q = frame_bytes f)
      else w' = w ∧ ∃ e, res = Err e ∧ is_invalid_frame e
  | None => w' = w ∧ ∃ e, res = Err e ∧ is_invalid_frame e
  end.
Proof.
  intros Hk Hw. unfold WriteFrame in Hw. destruct f as [f|]; [|naive_solver].
  destruct (decide (zlen (Payload f) <= MaxPayloadSize)) as [HL|HL].
  2:{ rewrite bool_decide_eq_true_2 in Hw by lia. rewrite bool_decide_eq_false_2 by done.
      naive_solver. }
  rewrite bool_decide_eq_false_2 in Hw by lia. rewrite bool_decide_eq_true_2 by done.
  unfold frame_bytes. rewrite payload_u32 in * by done.
  destruct (Write w _) as [w1 e1] eqn:E1.
  apply Write_prefix in E1 as (Hk1 & q1 & Hq1 & Hp1 & Hf1); [|done].
  destruct e1 as [e1|].
  { simplify_eq. exists q1. split_and!; [done|by apply prefix_app_r|done]. }
  rewrite (Hf1 eq_refl) in Hq1. case_bool_decide as Hn.
  - destruct (Write w1 _) as [w2 e2] eqn:E2.
    apply Write_prefix in E2 as (_ & q2 & Hq2 & Hp2 & Hf2); [|done].
    exists (header f (zlen (Payload f)) ++ q2). rewrite app_assoc, <-Hq1.
    destruct e2; simplify_eq; (split_and!; [done|by apply prefix_app|]); [done|].
    intros _. by rewrite Hf2.
  - simplify_eq. destruct (Payload f); [|simpl in *; lia].
    exists (header f 0). split_and!; [done|by apply prefix_app_r|by rewrite app_nil_r].
Qed.

Lemma WriteFrame_branches_witness :
  (∃ q, take 5 (frame_bytes (mkFrame x01 CmdPing x00 0 [])) = [] ++ q ∧
        q `prefix_of` frame_bytes (mkFrame x01 CmdPing x00 0 []) ∧
        (@Err FrameErr unit (FWriteHeader (IOFault 0)) = Ok tt →
         q = frame_bytes (mkFrame x01 CmdPing x00 0 []))).
Proof.
  apply (WriteFrame_branches (mkWriter [] (Some 5)) (Some (mkFrame x01 CmdPing x00 0 []))
    (mkWriter (take 5 (frame_bytes (mkFrame x01 CmdPing x00 0 []))) (Some 0))
    (Err (FWriteHeader (IOFault 0)))).
  - intros k [= <-]. done.
  - vm_compute. reflexivity.
Defined.

(** Every byte value, for the finite checks on commands. *)
Definition all_bytes : list byte := Zbyte ∘ Z.of_nat <$> seq 0 256.

Lemma elem_of_all_bytes b : b ∈ all_bytes.
Proof.
  unfold all_bytes. apply list_elem_of_fmap. exists (Z.to_nat (byteZ b)).
  pose proof (byteZ_range b). split.
  - simpl. by rewrite Z2Nat.id, Zbyte_byteZ by lia.
  - apply elem_of_seq. lia.
Qed.

Lemma Command_String_NoDup : NoDup (Command_String <$> all_bytes).
Proof. apply (bool_decide_unpack _). by vm_compute. Qed.

(** The defined commands are exactly the bytes 0x01 to 0x0E, and no two
    command bytes, defined or not, print the same name in a log. *)
Theorem Command_names :
  (∀ c, IsValid c = true ↔ 1 <= byteZ c <= 14) ∧
  (∀ c1 c2, Command_String c1 = Command_String c2 → c1 = c2).
Proof.
  split.
  - intros c. destruct c; vm_compute; intuition congruence.
  - intros c1 c2 E.
    destruct (list_elem_of_lookup_1 _ _ (elem_of_all_bytes c1)) as [i Hi].
    destruct (list_elem_of_lookup_1 _ _ (elem_of_all_bytes c2)) as [j Hj].
    assert (i = j) as ->.
    { apply (NoDup_lookup _ i j (Command_String c1) Command_String_NoDup);
        rewrite list_lookup_fmap; [by rewrite Hi|by rewrite Hj, E]. }
    congruence.
Qed.
