(* ===== verification/Udp.v ===== *)
(** * UDP framing: [pkg/protocol/udp.go]

    The UDP_DATA payload (one length byte, the source address, the datagram)
    and the constructors of the UDP frames. *)

From Stdlib Require Import ZArith Lia.
From S2P Require Import Prelude Frame.

(** The two ways ErrInvalidUDPPayload is returned, and ErrUDPAddrTooLong. *)
Inductive UDPErr :=
| UDPEmpty
| UDPShort (addrLen remain : Z)
| UDPAddrTooLong (n : Z).

#[export] Instance UDPErr_eq_dec : EqDecision UDPErr.
Proof. solve_decision. Defined.

Record UDPDatagram := mkUDP { SourceAddr : string; UPayload : list byte }.

#[export] Instance UDPDatagram_eq_dec : EqDecision UDPDatagram.
Proof. solve_decision. Defined.

(** [func ParseUDPDataPayload(payload []byte) ( *UDPDatagram, error)]. The
    datagram's bytes are [payload[1+addrLen:]]; an empty slice and nil are
    the same list. *)
Definition ParseUDPDataPayload (payload : list byte) : result UDPErr UDPDatagram :=
  match payload with
  | [] => Err UDPEmpty
  | b :: _ =>
      let addrLen := byteZ b in
      if bool_decide (zlen payload < 1 + addrLen)
      then Err (UDPShort addrLen (zlen payload - 1))
      else
        let k := Z.to_nat addrLen in
        Ok (mkUDP (string_of_bytes (take k (drop 1 payload))) (drop (1 + k) payload))
  end.

(** [func BuildUDPDataPayload(sourceAddr string, data []byte) ([]byte, error)] *)
Definition BuildUDPDataPayload (sourceAddr : string) (data : list byte)
    : result UDPErr (list byte) :=
  let addr := bytes_of_string sourceAddr in
  if bool_decide (zlen addr > 255)
  then Err (UDPAddrTooLong (zlen addr))
  else Ok ([Zbyte (zlen addr)] ++ addr ++ data).

(** [func NewUDPBindFrame(bindAddr string) *Frame] *)
Definition NewUDPBindFrame (bindAddr : string) : Frame :=
  {| Version := ProtocolVersion; FCommand := CmdUDPBind; Flags := x00;
     StreamID := 0; Payload := bytes_of_string bindAddr |}.

(** [func NewUDPUnbindFrame(bindAddr string) *Frame] *)
Definition NewUDPUnbindFrame (bindAddr : string) : Frame :=
  {| Version := ProtocolVersion; FCommand := CmdUDPUnbind; Flags := x00;
     StreamID := 0; Payload := bytes_of_string bindAddr |}.

(** [func NewUDPDataFrame(streamID uint32, sourceAddr string, data []byte) ( *Frame, error)] *)
Definition NewUDPDataFrame (streamID : Z) (sourceAddr : string) (data : list byte)
    : result UDPErr Frame :=
  match BuildUDPDataPayload sourceAddr data with
  | Err e => Err e
  | Ok payload =>
      Ok {| Version := ProtocolVersion; FCommand := CmdUDPData; Flags := x00;
            StreamID := streamID; Payload := payload |}
  end.

(** ** Properties *)

Lemma string_of_bytes_inj b1 b2 : string_of_bytes b1 = string_of_bytes b2 → b1 = b2.
Proof.
  intros E. by rewrite <-(bytes_of_string_of_bytes b1), E, bytes_of_string_of_bytes.
Qed.

(** Parsing what was built. *)
Lemma Parse_Build addr data payload :
  BuildUDPDataPayload addr data = Ok payload →
  ParseUDPDataPayload payload = Ok (mkUDP addr data).
Proof.
  unfold BuildUDPDataPayload. case_bool_decide; intros; simplify_eq.
  unfold ParseUDPDataPayload. cbn [app]. rewrite byteZ_Zbyte, Z.mod_small by lia.
  rewrite bool_decide_eq_false_2 by (cbn [length]; rewrite length_app; lia).
  rewrite Nat2Z.id. cbn [drop Nat.add]. rewrite drop_0.
  by rewrite take_app_length, drop_app_length, string_of_bytes_of_string.
Qed.

(** Building what was parsed. *)
Lemma Build_Parse payload d :
  ParseUDPDataPayload payload = Ok d →
  BuildUDPDataPayload (SourceAddr d) (UPayload d) = Ok payload.
Proof.
  unfold ParseUDPDataPayload. destruct payload as [|b p]; [done|].
  pose proof (byteZ_range b). case_bool_decide as Hl; intros; simplify_eq. simpl in Hl.
  unfold BuildUDPDataPayload. cbn [SourceAddr UPayload drop Nat.add]. rewrite drop_0.
  rewrite bytes_of_string_of_bytes, length_take. rewrite Nat.min_l by lia.
  rewrite Z2Nat.id by lia. rewrite bool_decide_eq_false_2 by lia.
  by rewrite Zbyte_byteZ, take_drop.
Qed.

(** The UDP_DATA payload format is a bijection between datagrams with an
    address of at most 255 bytes and the payloads the parser accepts: parsing a
    built payload gives back the address and the data, and a payload that
    parses is the one that would be built from its parts. *)
Theorem udp_payload_bijection addr data payload :
  BuildUDPDataPayload addr data = Ok payload ↔
  ParseUDPDataPayload payload = Ok (mkUDP addr data).
Proof. split; [apply Parse_Build|apply (Build_Parse _ (mkUDP addr data))]. Qed.

(** Address bounds and framing: building fails exactly on addresses over
    255 bytes and otherwise the frame carries one length byte plus both parts;
    a payload is refused exactly when it is empty or shorter than its length
    byte announces. *)
Theorem udp_errors :
  (∀ id addr data,
     match NewUDPDataFrame id addr data with
     | Ok f => zlen (bytes_of_string addr) <= 255 ∧ StreamID f = id ∧
               zlen (Payload f) = 1 + zlen (bytes_of_string addr) + zlen data
     | Err e => e = UDPAddrTooLong (zlen (bytes_of_string addr)) ∧
                255 < zlen (bytes_of_string addr)
     end) ∧
  (∀ payload,
     is_ok (ParseUDPDataPayload payload) = false ↔
     payload = [] ∨ ∃ b p, payload = b :: p ∧ zlen p < byteZ b).
Proof.
  split.
  - intros id addr data. unfold NewUDPDataFrame, BuildUDPDataPayload. case_bool_decide; simpl.
    + split; [done|lia].
    + rewrite length_app. split_and!; [lia|done|lia].
  - intros [|b p]; simpl; [naive_solver|].
    case_bool_decide as Hl; simpl in *; split; intros H; try done.
    + right. exists b, p. split; [done|lia].
    + destruct H as [|(? & ? & ? & ?)]; simplify_eq; lia.
Qed.
