(* ===== verification/Window.v ===== *)
(** * Flow-control windows: [pkg/protocol/window.go]

    FlowWindow with its int32 arithmetic written out, the effect of a whole
    history of operations on it, and the interplay of a blocked Consume with
    the goroutine that watches its context. *)

From Stdlib Require Import ZArith Lia.
From S2P Require Import Prelude Frame.

(** ** The window and its operations *)

Record FlowWindow := mkWindow {
  available : Z;    (* int32 *)
  initialSize : Z   (* int32 *)
}.

Definition maxWindowSize : Z := max_i32.

(** [func NewFlowWindow(initialSize int32) *FlowWindow] *)
Definition NewFlowWindow (initialSize : Z) : FlowWindow := mkWindow initialSize initialSize.

(** What one pass of Consume's loop decides, holding the lock: go on to
    [cond.Wait], give up with the context's error, or take the capacity. *)
Inductive ConsumeResult :=
| ConsumeWait
| ConsumeErr
| ConsumeOk (w : FlowWindow).

(** [func (w *FlowWindow) Consume(ctx context.Context, n int32) error]: the
    test the loop repeats after every wake-up. [ctxErr] is [ctx.Err() != nil]. *)
Definition Consume (w : FlowWindow) (ctxErr : bool) (n : Z) : ConsumeResult :=
  if bool_decide (available w < n)
  then if ctxErr then ConsumeErr else ConsumeWait
  else ConsumeOk (mkWindow (int32 (available w - n)) (initialSize w)).

(** [func (w *FlowWindow) Update(increment int32) error] *)
Definition Update (w : FlowWindow) (increment : Z) : FlowWindow * result ProtoErr unit :=
  if bool_decide (increment <= 0) then (w, Err ErrZeroWindowIncrement)
  else
    let newSize := int64 (int64 (available w) + int64 increment) in
    if bool_decide (newSize > maxWindowSize) then (w, Err ErrWindowOverflow)
    else (mkWindow (int32 newSize) (initialSize w), Ok tt).

(** [func (w *FlowWindow) Available() int32] *)
Definition Available (w : FlowWindow) : Z := available w.

(** [func (w *FlowWindow) Reset()] *)
Definition Reset (w : FlowWindow) : FlowWindow := mkWindow (initialSize w) (initialSize w).

(** ** Histories

    One event of a window's life; a Consume appears when it takes its
    capacity, an Update whether or not it is accepted. *)

Inductive wevent :=
| WConsume (n : Z)
| WUpdate (inc : Z)
| WReset.

Inductive wstep : FlowWindow → wevent → FlowWindow → Prop :=
| wstep_consume w ctxErr n w' :
    Consume w ctxErr n = ConsumeOk w' → wstep w (WConsume n) w'
| wstep_update w inc w' r :
    Update w inc = (w', r) → wstep w (WUpdate inc) w'
| wstep_reset w : wstep w WReset (Reset w).

Inductive wsteps : FlowWindow → list wevent → FlowWindow → Prop :=
| wsteps_nil w : wsteps w [] w
| wsteps_cons w e w' es w'' : wstep w e w' → wsteps w' es w'' → wsteps w (e :: es) w''.

(** The senders take a non-negative number of bytes. *)
Definition wevent_ok (e : wevent) : Prop :=
  match e with WConsume n => 0 <= n <= max_i32 | WUpdate inc => is_i32 inc | WReset => True end.

(** ** A blocked Consume and its context watcher

    Consume starts a goroutine that waits for the context and then broadcasts
    on the condition variable, without taking the lock. The three parties:
    the consumer (holding the lock before its test, holding it after a test
    that found neither capacity nor an error, parked in [cond.Wait], or
    returned), the watcher (waiting, or exited), and the context. *)

Inductive consumer_pc := CTest | CEnterWait | CParked | CReturned (ok : bool).
Inductive watcher_pc := GWaiting | GExited.

#[export] Instance consumer_pc_eq_dec : EqDecision consumer_pc.
Proof. solve_decision. Defined.

Record wait_state := mkWait {
  ws_window : FlowWindow;
  ws_n : Z;
  ws_ctxDone : bool;
  ws_pc : consumer_pc;
  ws_watcher : watcher_pc
}.

(** [Broadcast] moves a parked consumer back to its test and does nothing for
    one that is not parked yet. *)
Definition broadcast (pc : consumer_pc) : consumer_pc :=
  match pc with CParked => CTest | pc => pc end.

Inductive wait_step : wait_state → wait_state → Prop :=
| ws_test_ok w n c g w' :
    Consume w c n = ConsumeOk w' →
    wait_step (mkWait w n c CTest g) (mkWait w' n c (CReturned true) g)
| ws_test_err w n c g :
    Consume w c n = ConsumeErr →
    wait_step (mkWait w n c CTest g) (mkWait w n c (CReturned false) g)
| ws_test_wait w n c g :
    Consume w c n = ConsumeWait →
    wait_step (mkWait w n c CTest g) (mkWait w n c CEnterWait g)
| ws_park w n c g :
    wait_step (mkWait w n c CEnterWait g) (mkWait w n c CParked g)
| ws_cancel w n pc g :
    wait_step (mkWait w n false pc g) (mkWait w n true pc g)
| ws_watch w n pc :
    wait_step (mkWait w n true pc GWaiting) (mkWait w n true (broadcast pc) GExited).

Definition wait_init (w : FlowWindow) (n : Z) : wait_state := mkWait w n false CTest GWaiting.

(** ** Properties *)

Definition window_ok (w : FlowWindow) : Prop :=
  0 <= available w <= maxWindowSize ∧ 0 <= initialSize w <= maxWindowSize.

#[export] Instance window_ok_dec w : Decision (window_ok w).
Proof. unfold window_ok. apply _. Defined.

(** The window as unbounded integers: what each event does to the capacity. *)
Definition spec_event (init a : Z) (e : wevent) : Z :=
  match e with
  | WConsume n => a - n
  | WUpdate inc => if decide (0 < inc ∧ a + inc <= maxWindowSize) then a + inc else a
  | WReset => init
  end.

(** Bytes taken, and credit offered by the peer, over a history. *)
Fixpoint consumed (es : list wevent) : Z :=
  match es with
  | [] => 0
  | WConsume n :: es' => n + consumed es'
  | _ :: es' => consumed es'
  end.

Fixpoint granted (es : list wevent) : Z :=
  match es with
  | [] => 0
  | WUpdate inc :: es' => Z.max 0 inc + granted es'
  | _ :: es' => granted es'
  end.

Lemma Update_spec w inc :
  window_ok w → is_i32 inc →
  Update w inc =
    if decide (inc <= 0) then (w, Err ErrZeroWindowIncrement)
    else if decide (available w + inc > maxWindowSize) then (w, Err ErrWindowOverflow)
    else (mkWindow (available w + inc) (initialSize w), Ok tt).
Proof.
  unfold window_ok, is_i32, Update, maxWindowSize, max_i32. intros Hw Hi.
  rewrite !int64_id by (unfold is_i64; rewrite ?int64_id by (unfold is_i64; lia); lia).
  rewrite <-!decide_bool_decide. do 2 (case_decide; [done|]).
  by rewrite int32_id by (unfold is_i32; lia).
Qed.

Lemma wstep_exact w e w' :
  window_ok w → wevent_ok e → wstep w e w' →
  window_ok w' ∧ available w' = spec_event (initialSize w) (available w) e ∧
  initialSize w' = initialSize w.
Proof.
  intros Hw He. inversion 1; subst; simpl in *.
  - unfold Consume in *. case_bool_decide; [by case_match|]. simplify_eq/=.
    unfold window_ok, maxWindowSize, max_i32 in *. simpl.
    rewrite int32_id by (unfold is_i32; lia). lia.
  - rewrite Update_spec in * by done. unfold window_ok in *.
    repeat case_decide; simplify_eq/=; lia.
  - unfold window_ok in *. simpl. lia.
Qed.

Lemma wsteps_exact w es w' :
  window_ok w → Forall wevent_ok es → wsteps w es w' →
  window_ok w' ∧ available w' = foldl (spec_event (initialSize w)) (available w) es.
Proof.
  intros Hw Hes Hrun. induction Hrun as [|w e w1 es w2 Hs _ IH]; [done|].
  apply Forall_cons in Hes as [He Hes].
  destruct (wstep_exact _ _ _ Hw He Hs) as (Hw1 & Ha & Hi).
  destruct (IH Hw1 Hes) as [? ?]. simpl. by rewrite <-Ha, <-Hi.
Qed.

Lemma spec_credit init a es :
  WReset ∉ es → foldl (spec_event init) a es + consumed es <= a + granted es.
Proof.
  revert a. induction es as [|[n|inc|] es IH]; intros a Hr; simpl; [lia|..|set_solver].
  - specialize (IH (a - n) ltac:(set_solver)). lia.
  - case_decide; [specialize (IH (a + inc) ltac:(set_solver))
                 |specialize (IH a ltac:(set_solver))]; lia.
Qed.

(** The int32 window implements the unbounded one over any history: any
    sequence of granted reservations, updates (accepted or refused) and resets
    keeps 0 <= available <= 2^31-1 without ever wrapping around, and the
    capacity is what plain integer accounting gives. *)
Theorem window_refines_integers w es w' :
  window_ok w → Forall wevent_ok es → wsteps w es w' →
  window_ok w' ∧ available w' = foldl (spec_event (initialSize w)) (available w) es.
Proof. apply wsteps_exact. Qed.

Lemma window_refines_integers_witness :
  window_ok (mkWindow 5 10) ∧
  5 = foldl (spec_event 10) 10 [WConsume 7; WUpdate 2; WUpdate 0; WUpdate max_i32].
Proof.
  apply (window_refines_integers (NewFlowWindow 10)
           [WConsume 7; WUpdate 2; WUpdate 0; WUpdate max_i32] (mkWindow 5 10)).
  - apply (bool_decide_unpack _). by vm_compute.
  - repeat constructor; vm_compute; congruence.
  - repeat (eapply wsteps_cons; [(by eapply (wstep_consume _ false)) || by econstructor|]).
    apply wsteps_nil.
Defined.

(** Credit safety: between resets, the bytes senders have taken never
    exceed the window they started from plus the increments the peer granted. *)
Theorem window_credit w es w' :
  window_ok w → Forall wevent_ok es → WReset ∉ es → wsteps w es w' →
  consumed es <= available w + granted es.
Proof.
  intros Hw Hes Hr Hrun. destruct (wsteps_exact _ _ _ Hw Hes Hrun) as [[Ha _] Heq].
  pose proof (spec_credit (initialSize w) (available w) es Hr). lia.
Qed.

Lemma window_credit_witness : consumed [WConsume 7; WUpdate 2; WConsume 5] <= 10 + 2.
Proof.
  apply (window_credit (NewFlowWindow 10) [WConsume 7; WUpdate 2; WConsume 5] (mkWindow 0 10)).
  - apply (bool_decide_unpack _). by vm_compute.
  - repeat constructor; vm_compute; congruence.
  - set_solver.
  - repeat (eapply wsteps_cons; [(by eapply (wstep_consume _ false)) || by econstructor|]).
    apply wsteps_nil.
Defined.

(** The watcher's broadcast can be lost: because it is sent without the
    lock, it may arrive between a consumer's test and its [cond.Wait]. The
    consumer is then parked with its context canceled and the watcher gone, and
    nothing but another window event can ever return it. *)
Theorem consume_cancel_lost w n :
  available w < n →
  ∃ s, rtc wait_step (wait_init w n) s ∧
       ws_pc s = CParked ∧ ws_ctxDone s = true ∧ (∀ s', ¬ wait_step s s').
Proof.
  intros Hn. exists (mkWait w n true CParked GExited). split_and!; [|done|done|].
  - eapply rtc_l; [apply ws_test_wait; unfold Consume; by rewrite bool_decide_eq_true_2|].
    eapply rtc_l; [apply ws_cancel|]. eapply rtc_l; [apply ws_watch|].
    eapply rtc_l; [apply ws_park|]. apply rtc_refl.
  - intros s' Hs. inversion Hs.
Qed.

Lemma consume_cancel_lost_witness :
  ∃ s, rtc wait_step (wait_init (NewFlowWindow 3) 4) s ∧
       ws_pc s = CParked ∧ ws_ctxDone s = true ∧ (∀ s', ¬ wait_step s s').
Proof. apply (consume_cancel_lost (NewFlowWindow 3) 4). simpl. lia. Defined.
