(* ===== verification/WriteQueue.v ===== *)
(** * The outgoing priority queue: [pkg/protocol/write_queue.go]

    WriteQueue with its two FIFO lists, and what a whole history of enqueues
    and dequeues gives the transport. *)

From Stdlib Require Import ZArith Lia.
From S2P Require Import Prelude Frame.

(** ** The queue and its operations *)

Definition PriorityControl : Z := 0.
Definition PriorityData : Z := 1.

Record WriteQueue := mkQueue {
  control : list Frame;
  data : list Frame;
  closed : bool
}.

(** [func NewWriteQueue() *WriteQueue] *)
Definition NewWriteQueue : WriteQueue := mkQueue [] [] false.

(** [func (q *WriteQueue) Enqueue(f *Frame, priority int)] *)
Definition Enqueue (q : WriteQueue) (f : Frame) (priority : Z) : WriteQueue :=
  if closed q then q
  else if bool_decide (priority = PriorityControl)
  then mkQueue (control q ++ [f]) (data q) (closed q)
  else mkQueue (control q) (data q ++ [f]) (closed q).

Inductive DequeueResult :=
| DqWait                              (* parks in cond.Wait *)
| DqCtxErr                            (* returns ctx.Err() *)
| DqGoAway                            (* returns ErrGoAway *)
| DqFrame (f : Frame) (q : WriteQueue).

(** [func (q *WriteQueue) Dequeue(ctx context.Context) ( *Frame, error)]: what
    it does each time it holds the lock; [ctxErr] is [ctx.Err() != nil]. *)
Definition Dequeue (q : WriteQueue) (ctxErr : bool) : DequeueResult :=
  match control q, data q, closed q with
  | [], [], false => if ctxErr then DqCtxErr else DqWait
  | f :: control', _, _ => DqFrame f (mkQueue control' (data q) (closed q))
  | [], f :: data', _ => DqFrame f (mkQueue [] data' (closed q))
  | [], [], true => if ctxErr then DqCtxErr else DqGoAway
  end.

(** [func (q *WriteQueue) Close()] *)
Definition Close (q : WriteQueue) : WriteQueue := mkQueue (control q) (data q) true.

(** ** Histories *)

(** [true] marks the control class. *)
Inductive qevent :=
| QEnqueue (ctl : bool) (f : Frame)
| QDequeue (ctl : bool) (f : Frame)
| QClose.

Definition priority_of (ctl : bool) : Z := if ctl then PriorityControl else PriorityData.

Inductive qstep : WriteQueue → qevent → WriteQueue → Prop :=
| qstep_enqueue q ctl f :
    closed q = false → qstep q (QEnqueue ctl f) (Enqueue q f (priority_of ctl))
| qstep_dequeue q ctxErr f q' :
    Dequeue q ctxErr = DqFrame f q' →
    qstep q (QDequeue (bool_decide (control q ≠ [])) f) q'
| qstep_close q : qstep q QClose (Close q).

Inductive qsteps : WriteQueue → list qevent → WriteQueue → Prop :=
| qsteps_nil q : qsteps q [] q
| qsteps_cons q e q1 es q2 : qstep q e q1 → qsteps q1 es q2 → qsteps q (e :: es) q2.

(** The frames of one class that entered and left the queue. *)
Definition enqueued (ctl : bool) (es : list qevent) : list Frame :=
  omap (λ e, match e with QEnqueue c f => if bool_decide (c = ctl) then Some f else None
                        | _ => None end) es.
Definition dequeued (ctl : bool) (es : list qevent) : list Frame :=
  omap (λ e, match e with QDequeue c f => if bool_decide (c = ctl) then Some f else None
                        | _ => None end) es.
Definition pending (ctl : bool) (q : WriteQueue) : list Frame :=
  if ctl then control q else data q.

(** ** Properties *)

(** One step moves frames between the history and the queue, class by class. *)
Lemma qstep_balance q e q' ctl :
  qstep q e q' → dequeued ctl [e] ++ pending ctl q' = pending ctl q ++ enqueued ctl [e].
Proof.
  inversion 1 as [? c f Hc|? b f ? Hd|]; subst; simpl.
  - unfold Enqueue, priority_of. rewrite Hc. destruct c, ctl; simpl; by rewrite ?app_nil_r.
  - unfold Dequeue in Hd. destruct q as [[|c cs] [|d ds] []]; destruct b, ctl;
      simplify_eq/=; by rewrite ?app_nil_r.
  - destruct ctl; simpl; by rewrite app_nil_r.
Qed.

Lemma enqueued_cons ctl e es : enqueued ctl (e :: es) = enqueued ctl [e] ++ enqueued ctl es.
Proof. unfold enqueued. by rewrite <-omap_app. Qed.
Lemma dequeued_cons ctl e es : dequeued ctl (e :: es) = dequeued ctl [e] ++ dequeued ctl es.
Proof. unfold dequeued. by rewrite <-omap_app. Qed.

Lemma qsteps_balance q es q' ctl :
  qsteps q es q' → dequeued ctl es ++ pending ctl q' = pending ctl q ++ enqueued ctl es.
Proof.
  induction 1 as [|q e q1 es q2 Hs _ IH]; [by rewrite app_nil_r|].
  rewrite enqueued_cons, dequeued_cons, <-app_assoc, IH, !app_assoc.
  by rewrite (qstep_balance _ _ _ _ Hs).
Qed.

(** Nothing is lost, duplicated or reordered within a class: over any
    history, the control frames dequeued so far followed by those still queued
    are the control frames enqueued, in order, and likewise for data frames. *)
Theorem queue_fifo es q ctl :
  qsteps NewWriteQueue es q → dequeued ctl es ++ pending ctl q = enqueued ctl es.
Proof. intros H. rewrite (qsteps_balance _ _ _ ctl H). by destruct ctl. Qed.

Lemma queue_fifo_witness :
  [mkFrame x01 CmdPing x00 0 []] ++ [] = enqueued true
    [QEnqueue false (mkFrame x01 CmdStreamData x00 1 []);
     QEnqueue true (mkFrame x01 CmdPing x00 0 []);
     QDequeue true (mkFrame x01 CmdPing x00 0 [])].
Proof.
  apply (queue_fifo
    [QEnqueue false (mkFrame x01 CmdStreamData x00 1 []);
     QEnqueue true (mkFrame x01 CmdPing x00 0 []);
     QDequeue true (mkFrame x01 CmdPing x00 0 [])]
    (mkQueue [] [mkFrame x01 CmdStreamData x00 1 []] false) true).
  eapply qsteps_cons; [by apply qstep_enqueue|]. eapply qsteps_cons; [by apply qstep_enqueue|].
  exact (qsteps_cons _ _ _ _ _
    (qstep_dequeue (mkQueue [mkFrame x01 CmdPing x00 0 []]
                            [mkFrame x01 CmdStreamData x00 1 []] false) false _ _ eq_refl)
    (qsteps_nil _)).
Defined.

(** Dequeue on every branch: a control frame is returned whenever one is
    queued, a data frame only when none is, the caller parks only on an open
    empty queue with a live context, and ErrGoAway is returned only once a
    closed queue has been emptied. *)
Theorem Dequeue_branches q ctxErr :
  match Dequeue q ctxErr with
  | DqFrame f q' =>
      closed q' = closed q ∧
      ((control q = f :: control q' ∧ data q' = data q) ∨
       (control q = [] ∧ control q' = [] ∧ data q = f :: data q'))
  | DqWait => control q = [] ∧ data q = [] ∧ closed q = false ∧ ctxErr = false
  | DqCtxErr => control q = [] ∧ data q = [] ∧ ctxErr = true
  | DqGoAway => control q = [] ∧ data q = [] ∧ closed q = true ∧ ctxErr = false
  end.
Proof. destruct q as [[|c cs] [|d ds] []], ctxErr; simpl; naive_solver. Qed.

(** Repeated Dequeue by the write loop: the frames it gets before the first
    call that returns no frame. *)
Fixpoint drain (fuel : nat) (q : WriteQueue) : list Frame * DequeueResult :=
  match fuel with
  | O => ([], Dequeue q false)
  | S k =>
      match Dequeue q false with
      | DqFrame f q' => let '(fs, r) := drain k q' in (f :: fs, r)
      | r => ([], r)
      end
  end.

Lemma drain_closed cs ds :
  drain (length cs + length ds) (mkQueue cs ds true) = (cs ++ ds, DqGoAway).
Proof.
  induction cs as [|c cs IH]; simpl.
  - induction ds as [|d ds IH]; simpl; [done|]. by rewrite IH.
  - by rewrite IH.
Qed.

(** Close does not discard what is queued: after Close, later enqueues
    change nothing, and a reader obtains every queued control frame, then every
    queued data frame, then ErrGoAway, without ever parking. *)
Theorem queue_close_drains q :
  (∀ f p, Enqueue (Close q) f p = Close q) ∧
  drain (length (control q) + length (data q)) (Close q) = (control q ++ data q, DqGoAway).
Proof. split; [done|]. apply drain_closed. Qed.
