(* ===== verification/Stream.v ===== *)
(** * One multiplexed stream: [pkg/protocol/stream.go], [stream_impl.go]

    StreamSession with its lifecycle state, its read buffer, and its channels:
    [writeOut] (capacity 64) towards the drain loop, [finCh] (capacity 1) and
    [closedCh]. Operations that block in the code say so in their result.
    Close and Reset release the mutex before they run their callbacks, so each
    is also given as its two critical parts. *)

From Stdlib Require Import ZArith Lia.
From S2P Require Import Prelude Frame.

(** ** Data *)

Inductive StreamState :=
| StateIdle
| StateOpen
| StateHalfClosedLocal
| StateHalfClosedRemote
| StateClosed
| StateReset.

#[export] Instance StreamState_eq_dec : EqDecision StreamState.
Proof. solve_decision. Defined.

Record StreamConfig := mkStreamConfig { InitialWindowSize : Z; MaxFrameSize : Z }.

(** [closeOnce] is not a field of its own: it has run exactly when [closedCh]
    is closed. The callbacks belong to the mux (Mux.v); here it is only known
    whether one is registered. *)
Record StreamSession := mkStream {
  s_id : Z;
  s_config : StreamConfig;
  s_state : StreamState;
  readBuf : list byte;
  recvWindow : Z;               (* int *)
  writeOut : list (list byte);  (* chan []byte, 64 *)
  finCh : bool;                 (* chan struct{}, 1: a token is buffered *)
  closedCh : bool;              (* closed *)
  openPayload : list byte;
  hasOnLocalClose : bool;
  localCloseOnce : bool;        (* has run *)
  hasOnReset : bool;
  resetOnce : bool              (* has run *)
}.

Definition writeOutCap : nat := 64.

(** Field updates. *)
Definition set_state st s :=
  mkStream (s_id s) (s_config s) st (readBuf s) (recvWindow s) (writeOut s) (finCh s)
    (closedCh s) (openPayload s) (hasOnLocalClose s) (localCloseOnce s) (hasOnReset s) (resetOnce s).
Definition set_readBuf b s :=
  mkStream (s_id s) (s_config s) (s_state s) b (recvWindow s) (writeOut s) (finCh s)
    (closedCh s) (openPayload s) (hasOnLocalClose s) (localCloseOnce s) (hasOnReset s) (resetOnce s).
Definition set_recvWindow n s :=
  mkStream (s_id s) (s_config s) (s_state s) (readBuf s) n (writeOut s) (finCh s)
    (closedCh s) (openPayload s) (hasOnLocalClose s) (localCloseOnce s) (hasOnReset s) (resetOnce s).
Definition set_writeOut l s :=
  mkStream (s_id s) (s_config s) (s_state s) (readBuf s) (recvWindow s) l (finCh s)
    (closedCh s) (openPayload s) (hasOnLocalClose s) (localCloseOnce s) (hasOnReset s) (resetOnce s).
Definition set_finCh b s :=
  mkStream (s_id s) (s_config s) (s_state s) (readBuf s) (recvWindow s) (writeOut s) b
    (closedCh s) (openPayload s) (hasOnLocalClose s) (localCloseOnce s) (hasOnReset s) (resetOnce s).

(** ** Construction and accessors *)

(** [func NewStreamSession(id uint32, config StreamConfig) *StreamSession] *)
Definition NewStreamSession (id : Z) (config : StreamConfig) : StreamSession :=
  mkStream id config StateIdle [] (InitialWindowSize config) [] false false [] false false false false.

(** [SetOpenPayload], [SetOnLocalClose] and [SetOnReset] *)
Definition SetOpenPayload (p : list byte) s :=
  mkStream (s_id s) (s_config s) (s_state s) (readBuf s) (recvWindow s) (writeOut s) (finCh s)
    (closedCh s) p (hasOnLocalClose s) (localCloseOnce s) (hasOnReset s) (resetOnce s).
Definition SetOnLocalClose s :=
  mkStream (s_id s) (s_config s) (s_state s) (readBuf s) (recvWindow s) (writeOut s) (finCh s)
    (closedCh s) (openPayload s) true (localCloseOnce s) (hasOnReset s) (resetOnce s).
Definition SetOnReset s :=
  mkStream (s_id s) (s_config s) (s_state s) (readBuf s) (recvWindow s) (writeOut s) (finCh s)
    (closedCh s) (openPayload s) (hasOnLocalClose s) (localCloseOnce s) true (resetOnce s).

Definition ReceiveWindow (s : StreamSession) : Z := recvWindow s.

(** [func (s *StreamSession) isReadClosed() bool] *)
Definition isReadClosed (s : StreamSession) : bool :=
  match s_state s with
  | StateHalfClosedRemote | StateClosed | StateReset => true
  | _ => false
  end.

(** [func (s *StreamSession) isWriteClosed() bool] *)
Definition isWriteClosed (s : StreamSession) : bool :=
  match s_state s with
  | StateHalfClosedLocal | StateClosed | StateReset => true
  | _ => false
  end.

(** [func (s *StreamSession) signalClosed()] *)
Definition signalClosed s :=
  mkStream (s_id s) (s_config s) (s_state s) (readBuf s) (recvWindow s) (writeOut s) (finCh s)
    true (openPayload s) (hasOnLocalClose s) (localCloseOnce s) (hasOnReset s) (resetOnce s).

(** ** Reading and writing *)

Inductive ReadResult :=
| ReadWait
| ReadEOF
| ReadData (bytes : list byte) (s : StreamSession).

(** [func (s *StreamSession) Read(p []byte) (int, error)], [n] being
    [len(p)]: a pass of its loop, and [bytes.Buffer.Read] once there is data. *)
Definition Read (s : StreamSession) (n : nat) : ReadResult :=
  match readBuf s with
  | [] => if isReadClosed s then ReadEOF else ReadWait
  | _ :: _ => ReadData (take n (readBuf s)) (set_readBuf (drop n (readBuf s)) s)
  end.

Inductive WriteResult :=
| WriteBlocked
| WriteErr
| WriteOk (s : StreamSession).

(** [func (s *StreamSession) Write(p []byte) (int, error)]: the state test,
    then the select on a full channel and on [closedCh]. *)
Definition Write (s : StreamSession) (p : list byte) : WriteResult :=
  if isWriteClosed s then WriteErr
  else if bool_decide (length (writeOut s) < writeOutCap)%nat
  then WriteOk (set_writeOut (writeOut s ++ [p]) s)
  else if closedCh s then WriteErr
  else WriteBlocked.

(** ** Closing *)

(** The locked part of [Close]: the new state and [shouldNotify]. *)
Definition Close_locked (s : StreamSession) : StreamSession * bool :=
  match s_state s with
  | StateOpen => (set_state StateHalfClosedLocal s, true)
  | StateHalfClosedRemote => (signalClosed (set_state StateClosed s), true)
  | _ => (s, false)
  end.

(** [localCloseOnce.Do(...)]: the FIN token, and whether [onLocalClose] is
    called with the stream's ID. *)
Definition Close_notify (s : StreamSession) : StreamSession * bool :=
  if localCloseOnce s then (s, false)
  else
    (mkStream (s_id s) (s_config s) (s_state s) (readBuf s) (recvWindow s) (writeOut s) true
       (closedCh s) (openPayload s) (hasOnLocalClose s) true (hasOnReset s) (resetOnce s),
     hasOnLocalClose s).

(** [func (s *StreamSession) Close() error]; the boolean says the callback runs. *)
Definition Close (s : StreamSession) : StreamSession * bool :=
  let '(s1, shouldNotify) := Close_locked s in
  if shouldNotify then Close_notify s1 else (s1, false).

(** [func (s *StreamSession) Open()] *)
Definition Open (s : StreamSession) : StreamSession := set_state StateOpen s.

(** [func (s *StreamSession) Deliver(data []byte)] *)
Definition Deliver (s : StreamSession) (data : list byte) : StreamSession :=
  set_recvWindow (int64 (recvWindow s - zlen data)) (set_readBuf (readBuf s ++ data) s).

(** [func (s *StreamSession) RemoteClose()] *)
Definition RemoteClose (s : StreamSession) : StreamSession :=
  match s_state s with
  | StateOpen => set_state StateHalfClosedRemote s
  | StateHalfClosedLocal => signalClosed (set_state StateClosed s)
  | _ => s
  end.

(** The locked part of [Reset]; the boolean says it did not return early. *)
Definition Reset_locked (s : StreamSession) : StreamSession * bool :=
  match s_state s with
  | StateReset | StateClosed => (s, false)
  | _ => (signalClosed (set_readBuf [] (set_state StateReset s)), true)
  end.

(** [resetOnce.Do(...)]; the boolean says [onReset] is called. *)
Definition Reset_notify (s : StreamSession) : StreamSession * bool :=
  if resetOnce s then (s, false)
  else
    (mkStream (s_id s) (s_config s) (s_state s) (readBuf s) (recvWindow s) (writeOut s) (finCh s)
       (closedCh s) (openPayload s) (hasOnLocalClose s) (localCloseOnce s) (hasOnReset s) true,
     hasOnReset s).

(** [func (s *StreamSession) Reset(code uint32)]; the boolean says the
    callback runs (the code is only its argument). *)
Definition Reset (s : StreamSession) : StreamSession * bool :=
  let '(s1, go) := Reset_locked s in
  if go then Reset_notify s1 else (s1, false).

(** ** Histories of one stream

    The stream is used by its owner (Read, Write, Close, Reset), by the mux
    read loop (Deliver, RemoteClose, and Reset again) and by its drain loop,
    which takes chunks and the FIN token. *)

Inductive sevent :=
| SRead (bytes : list byte)
| SWrite (p : list byte)
| SDeliver (bytes : list byte)
| SClose
| SRemoteClose
| SReset
| STakeChunk (p : list byte)
| STakeFIN.

#[export] Instance sevent_eq_dec : EqDecision sevent.
Proof. solve_decision. Defined.

Inductive sstep : StreamSession → sevent → StreamSession → Prop :=
| sstep_read s n bytes s' : Read s n = ReadData bytes s' → sstep s (SRead bytes) s'
| sstep_write s p s' : Write s p = WriteOk s' → sstep s (SWrite p) s'
| sstep_deliver s bytes s' : s' = Deliver s bytes → sstep s (SDeliver bytes) s'
| sstep_close s s' : s' = (Close s).1 → sstep s SClose s'
| sstep_remote_close s s' : s' = RemoteClose s → sstep s SRemoteClose s'
| sstep_reset s s' : s' = (Reset s).1 → sstep s SReset s'
| sstep_take_chunk s p rest s' :
    writeOut s = p :: rest → s' = set_writeOut rest s → sstep s (STakeChunk p) s'
| sstep_take_fin s s' : finCh s = true → s' = set_finCh false s → sstep s STakeFIN s'.

Inductive ssteps : StreamSession → list sevent → StreamSession → Prop :=
| ssteps_nil s : ssteps s [] s
| ssteps_cons s e s1 es s2 : sstep s e s1 → ssteps s1 es s2 → ssteps s (e :: es) s2.

(** An open stream as the mux creates it. *)
Definition opened (id : Z) (config : StreamConfig) (payload : list byte) : StreamSession :=
  Open (SetOpenPayload payload (SetOnReset (SetOnLocalClose (NewStreamSession id config)))).

(** Projections of a history. *)
Fixpoint bytes_read (es : list sevent) : list byte :=
  match es with [] => [] | SRead b :: es' => b ++ bytes_read es' | _ :: es' => bytes_read es' end.
Fixpoint bytes_delivered (es : list sevent) : list byte :=
  match es with
  | [] => [] | SDeliver b :: es' => b ++ bytes_delivered es' | _ :: es' => bytes_delivered es'
  end.
Fixpoint chunks_written (es : list sevent) : list (list byte) :=
  match es with [] => [] | SWrite p :: es' => p :: chunks_written es' | _ :: es' => chunks_written es' end.
Fixpoint chunks_taken (es : list sevent) : list (list byte) :=
  match es with [] => [] | STakeChunk p :: es' => p :: chunks_taken es' | _ :: es' => chunks_taken es' end.
Definition fins_taken (es : list sevent) : nat :=
  length (filter (λ e, e = STakeFIN) es).

(** ** The lifecycle, abstractly

    Two independent half-closes and a reset: what the six states stand for. *)

Inductive lifecycle :=
| LIdle
| LActive (localClosed remoteClosed : bool)
| LReset.

Definition abs (st : StreamState) : lifecycle :=
  match st with
  | StateIdle => LIdle
  | StateOpen => LActive false false
  | StateHalfClosedLocal => LActive true false
  | StateHalfClosedRemote => LActive false true
  | StateClosed => LActive true true
  | StateReset => LReset
  end.

Definition spec_close l := match l with LActive _ r => LActive true r | l => l end.
Definition spec_remote_close l := match l with LActive lo _ => LActive lo true | l => l end.
Definition spec_reset l := match l with LActive true true => l | _ => LReset end.

Definition spec_sevent (l : lifecycle) (e : sevent) : lifecycle :=
  match e with
  | SClose => spec_close l
  | SRemoteClose => spec_remote_close l
  | SReset => spec_reset l
  | _ => l
  end.

(** ** The invariant *)

Record stream_inv (s : StreamSession) : Prop := {
  si_closed : closedCh s = true ↔ s_state s = StateClosed ∨ s_state s = StateReset;
  si_fin : finCh s = true → localCloseOnce s = true;
  si_local : s_state s = StateHalfClosedLocal ∨ s_state s = StateClosed → localCloseOnce s = true;
  si_once : localCloseOnce s = true →
            s_state s = StateHalfClosedLocal ∨ s_state s = StateClosed ∨ s_state s = StateReset;
  si_reset : resetOnce s = true ↔ s_state s = StateReset;
  si_cap : (length (writeOut s) <= writeOutCap)%nat;
  si_live : s_state s ≠ StateIdle
}.

Lemma opened_inv id cfg p : stream_inv (opened id cfg p).
Proof. split; simpl; naive_solver lia. Qed.

Lemma sstep_inv s e s' : stream_inv s → sstep s e s' → stream_inv s'.
Proof.
  intros [H1 H2 H3 H4 H5 H6 H7] Hs. destruct s as [id cfg st rb rw wo fin cl op ol lc orr rc].
  inversion Hs as [? n ? ? Hr|? ? ? Hw| | | | |? ? rest ? Ht|]; subst; simpl in *.
  - unfold Read in Hr; simpl in *. destruct rb; [by destruct (isReadClosed _)|]. simplify_eq.
    by split.
  - unfold Write in Hw; simpl in *. repeat case_match; simplify_eq.
    case_bool_decide; [|done]. split; simpl; try done.
    rewrite length_app; simpl. unfold writeOutCap in *. lia.
  - by split.
  - unfold Close, Close_locked, Close_notify; destruct st, lc; simpl; split; simpl; naive_solver.
  - unfold RemoteClose; destruct st; simpl; split; simpl; naive_solver.
  - unfold Reset, Reset_locked, Reset_notify; destruct st, rc; simpl; split; simpl; naive_solver.
  - split; simpl; try done. subst; simpl in *. lia.
  - split; simpl; naive_solver.
Qed.

Lemma ssteps_inv s es s' : stream_inv s → ssteps s es s' → stream_inv s'.
Proof. intros Hi. induction 1; eauto using sstep_inv. Qed.

#[export] Hint Resolve opened_inv sstep_inv ssteps_inv : atlax.

(** One step moves bytes and chunks between the history and the buffers. *)
Lemma sstep_read_balance s e s' :
  e ≠ SReset → sstep s e s' →
  bytes_read [e] ++ readBuf s' = readBuf s ++ bytes_delivered [e].
Proof.
  intros He Hs. inversion Hs as [? n ? ? Hr|? ? ? Hw| | | | | |]; subst; simpl;
    rewrite ?app_nil_r; try done.
  - unfold Read in Hr. destruct (readBuf s) eqn:E; [by destruct (isReadClosed s)|].
    simplify_eq/=. by rewrite take_drop.
  - unfold Write in Hw. repeat case_match; by simplify_eq.
  - unfold Close, Close_locked, Close_notify. by destruct (s_state s); simpl; repeat case_match.
  - unfold RemoteClose. by destruct (s_state s).
Qed.

Lemma sstep_write_balance s e s' :
  sstep s e s' → chunks_taken [e] ++ writeOut s' = writeOut s ++ chunks_written [e].
Proof.
  intros Hs. inversion Hs as [? n ? ? Hr|? ? ? Hw| | | | |? ? rest ? Ht|]; subst; simpl;
    rewrite ?app_nil_r; try done.
  - unfold Read in Hr. repeat case_match; by simplify_eq.
  - unfold Write in Hw. repeat case_match; by simplify_eq.
  - unfold Close, Close_locked, Close_notify. by destruct (s_state s); simpl; repeat case_match.
  - unfold RemoteClose. by destruct (s_state s).
  - unfold Reset, Reset_locked, Reset_notify. by destruct (s_state s); simpl; repeat case_match.
Qed.

Lemma ssteps_read_balance s es s' :
  SReset ∉ es → ssteps s es s' →
  bytes_read es ++ readBuf s' = readBuf s ++ bytes_delivered es.
Proof.
  intros Hr Hs. induction Hs as [|s e s1 es s2 Hs _ IH]; simpl; [by rewrite app_nil_r|].
  apply not_elem_of_cons in Hr as [He Hr]. specialize (IH Hr).
  apply sstep_read_balance in Hs; [|done].
  assert (bytes_read (e :: es) = bytes_read [e] ++ bytes_read es) as E1
    by (destruct e; simpl; by rewrite ?app_nil_r).
  assert (bytes_delivered (e :: es) = bytes_delivered [e] ++ bytes_delivered es) as E2
    by (destruct e; simpl; by rewrite ?app_nil_r).
  change (bytes_read (e :: es) ++ readBuf s2 = readBuf s ++ bytes_delivered (e :: es)).
  by rewrite E1, E2, <-app_assoc, IH, !app_assoc, Hs.
Qed.

Lemma ssteps_write_balance s es s' :
  ssteps s es s' → chunks_taken es ++ writeOut s' = writeOut s ++ chunks_written es.
Proof.
  intros Hs. induction Hs as [|s e s1 es s2 Hs _ IH]; simpl; [by rewrite app_nil_r|].
  apply sstep_write_balance in Hs.
  assert (chunks_taken (e :: es) = chunks_taken [e] ++ chunks_taken es) as E1 by by destruct e.
  assert (chunks_written (e :: es) = chunks_written [e] ++ chunks_written es) as E2
    by by destruct e.
  change (chunks_taken (e :: es) ++ writeOut s2 = writeOut s ++ chunks_written (e :: es)).
  by rewrite E1, E2, <-app_assoc, IH, !app_assoc, Hs.
Qed.

Lemma ssteps_abs s es s' :
  s_state s ≠ StateIdle → ssteps s es s' →
  abs (s_state s') = foldl spec_sevent (abs (s_state s)) es.
Proof.
  intros Hi Hs. induction Hs as [|s e s1 es s2 Hs _ IH]; [done|]. simpl.
  assert (abs (s_state s1) = spec_sevent (abs (s_state s)) e ∧ s_state s1 ≠ StateIdle) as [<- ?].
  { inversion Hs as [? n ? ? Hr|? ? ? Hw| | | | | |]; subst; simpl; try done.
    - unfold Read in Hr. repeat case_match; by simplify_eq.
    - unfold Write in Hw. repeat case_match; by simplify_eq.
    - unfold Close, Close_locked, Close_notify.
      destruct (s_state s) eqn:E; simpl; repeat case_match; simpl; by rewrite ?E.
    - unfold RemoteClose. by destruct (s_state s) eqn:E; simpl; rewrite ?E.
    - unfold Reset, Reset_locked, Reset_notify.
      destruct (s_state s) eqn:E; simpl; repeat case_match; simpl; by rewrite ?E. }
  by apply IH.
Qed.

(** FIN tokens: one is put on [finCh] when the local side closes, never twice. *)
Lemma sstep_fin s e s' :
  stream_inv s → sstep s e s' →
  (fins_taken [e] + Nat.b2n (finCh s') + Nat.b2n (localCloseOnce s)
   = Nat.b2n (finCh s) + Nat.b2n (localCloseOnce s'))%nat.
Proof.
  intros Hi Hs. pose proof (si_fin s Hi) as Hf.
  inversion Hs as [? n ? ? Hr|? ? ? Hw| | | | | |? ? E]; subst; simpl; try done.
  - unfold Read in Hr. repeat case_match; by simplify_eq.
  - unfold Write in Hw. repeat case_match; by simplify_eq.
  - unfold Close, Close_locked, Close_notify.
    destruct (s_state s); simpl; try done; destruct (localCloseOnce s) eqn:El; simpl;
      rewrite ?El; try done; destruct (finCh s) eqn:Ef; rewrite ?Ef; simpl; naive_solver.
  - unfold RemoteClose. by destruct (s_state s).
  - unfold Reset, Reset_locked, Reset_notify. by destruct (s_state s); simpl; repeat case_match.
  - by rewrite E.
Qed.

Lemma ssteps_fin s es s' :
  stream_inv s → ssteps s es s' →
  (fins_taken es + Nat.b2n (finCh s') + Nat.b2n (localCloseOnce s)
   = Nat.b2n (finCh s) + Nat.b2n (localCloseOnce s'))%nat.
Proof.
  intros Hi Hs. induction Hs as [|s e s1 es s2 Hs _ IH]; [simpl; lia|].
  specialize (IH (sstep_inv _ _ _ Hi Hs)). apply sstep_fin in Hs; [|done].
  assert (fins_taken (e :: es) = fins_taken [e] + fins_taken es)%nat as ->; [|lia].
  unfold fins_taken. change (e :: es) with ([e] ++ es). by rewrite filter_app, length_app.
Qed.

(** An end of file comes after the peer's close, when all it sent was read. *)
Lemma read_eof_complete id cfg p es s n :
  SReset ∉ es → ssteps (opened id cfg p) es s → Read s n = ReadEOF →
  bytes_read es = bytes_delivered es ∧ SRemoteClose ∈ es.
Proof.
  intros Hr Hs. pose proof (ssteps_read_balance _ _ _ Hr Hs) as Hb. simpl in Hb.
  unfold Read. destruct (readBuf s) eqn:E; [|done].
  rewrite app_nil_r in Hb. destruct (isReadClosed s) eqn:Ec; [|done]. intros _. split; [done|].
  destruct (decide (SRemoteClose ∈ es)) as [|Hn]; [done|]. exfalso.
  pose proof (ssteps_abs (opened id cfg p) _ _ ltac:(done) Hs) as Ha. simpl in Ha.
  assert (∀ l, foldl spec_sevent (LActive l false) es = LActive false false ∨
               foldl spec_sevent (LActive l false) es = LActive true false) as Hl.
  { clear -Hr Hn. induction es as [|[] es IH]; intros []; simpl; try (by auto); set_solver. }
  unfold isReadClosed in Ec. destruct (Hl false) as [E2|E2]; rewrite E2 in Ha;
    by destruct (s_state s).
Qed.

(** ** Theorems *)

(** The read side is a faithful pipe: over any history without a reset,
    the bytes returned by Read followed by those still buffered are the bytes
    delivered by the mux, in order, and Read reports EOF only when the peer has
    closed its side and every delivered byte has been returned. *)
Theorem stream_read_fifo id cfg p es s n :
  SReset ∉ es → ssteps (opened id cfg p) es s →
  bytes_read es ++ readBuf s = bytes_delivered es ∧
  (Read s n = ReadEOF → bytes_read es = bytes_delivered es ∧ SRemoteClose ∈ es).
Proof.
  intros Hr Hs. split; [|by eapply read_eof_complete].
  by rewrite (ssteps_read_balance _ _ _ Hr Hs).
Qed.

(** A step of a concrete history, evaluated. *)
Tactic Notation "srun" uconstr(c) := eapply ssteps_cons; [eapply c; vm_compute; reflexivity|].

Definition demo : StreamSession := opened 1 (mkStreamConfig 262144 0) [].
Definition demo_eof : StreamSession := Eval vm_compute in
  set_readBuf [] (RemoteClose (Deliver (Deliver demo [x61]) [x62])).
Definition demo_closed : StreamSession := Eval vm_compute in
  (Close (set_writeOut [[x62]] demo)).1.
Definition demo_done : StreamSession := Eval vm_compute in (Close (RemoteClose demo)).1.
Definition demo_fin : StreamSession := Eval vm_compute in
  RemoteClose (set_finCh false (Close demo).1).

Lemma stream_read_fifo_witness :
  Read demo_eof 5 = ReadEOF ∧
  [x61; x62] ++ readBuf demo_eof = [x61; x62] ∧
  (Read demo_eof 5 = ReadEOF → [x61; x62] = [x61; x62] ∧ SRemoteClose ∈
     [SDeliver [x61]; SDeliver [x62]; SRemoteClose; SRead [x61; x62]]).
Proof.
  split; [done|].
  apply (stream_read_fifo 1 (mkStreamConfig 262144 0) []
           [SDeliver [x61]; SDeliver [x62]; SRemoteClose; SRead [x61; x62]] demo_eof 5).
  - set_solver.
  - srun sstep_deliver. srun sstep_deliver. srun sstep_remote_close.
    srun (sstep_read _ 9). apply ssteps_nil.
Defined.

(** The write side hands over every accepted chunk once and in order: over
    any history, the chunks the drain loop took followed by those still queued
    are the chunks Write accepted; a stream closed locally or reset accepts no
    further chunk. *)
Theorem stream_write_fifo id cfg p es s :
  ssteps (opened id cfg p) es s →
  chunks_taken es ++ writeOut s = chunks_written es ∧
  (length (writeOut s) <= 64)%nat ∧
  (localCloseOnce s = true ∨ resetOnce s = true → ∀ q, Write s q = WriteErr).
Proof.
  intros Hs. pose proof (ssteps_inv _ _ _ (opened_inv _ _ _) Hs) as [_ _ _ Hl Hr Hc _].
  split; [by rewrite (ssteps_write_balance _ _ _ Hs)|]. split; [done|].
  intros H q. unfold Write, isWriteClosed.
  by destruct H as [[E|[E|E]]%Hl|E%Hr]; rewrite E.
Qed.

Lemma stream_write_fifo_witness :
  localCloseOnce demo_closed = true ∧ [[x61]] ++ writeOut demo_closed = [[x61]; [x62]] ∧
  (length (writeOut demo_closed) <= 64)%nat ∧
  (localCloseOnce demo_closed = true ∨ resetOnce demo_closed = true →
   ∀ q, Write demo_closed q = WriteErr).
Proof.
  split; [done|].
  apply (stream_write_fifo 1 (mkStreamConfig 262144 0) []
           [SWrite [x61]; SWrite [x62]; STakeChunk [x61]; SClose] demo_closed).
  srun sstep_write. srun sstep_write. srun sstep_take_chunk. srun sstep_close.
  apply ssteps_nil.
Defined.

(** C29. The six states implement two independent half-closes and a reset: over
    any history the state is the one the abstract lifecycle reaches, so Close
    and RemoteClose commute, are idempotent, and a reset is final. *)
Theorem stream_lifecycle id cfg p es s :
  ssteps (opened id cfg p) es s →
  abs (s_state s) = foldl spec_sevent (LActive false false) es.
Proof. intros Hs. by rewrite (ssteps_abs (opened id cfg p) _ _ ltac:(done) Hs). Qed.

Lemma stream_lifecycle_witness :
  abs (s_state demo_done) = foldl spec_sevent (LActive false false) [SRemoteClose; SClose; SReset].
Proof.
  apply (stream_lifecycle 1 (mkStreamConfig 262144 0) [] [SRemoteClose; SClose; SReset] demo_done).
  srun sstep_remote_close. srun sstep_close. srun sstep_reset. apply ssteps_nil.
Defined.

(** C30. The channels agree with the state in every reachable stream:
    [closedCh] is closed exactly in the two terminal states; a local close puts
    exactly one token on [finCh], which the drain loop takes at most once, and
    it does so while the channel is empty, so the send never blocks; [writeOut]
    never holds more than the 64 chunks it has room for. *)
Theorem stream_channels id cfg p es s :
  ssteps (opened id cfg p) es s →
  (closedCh s = true ↔ s_state s = StateClosed ∨ s_state s = StateReset) ∧
  (localCloseOnce s = false → finCh s = false) ∧
  (fins_taken es + Nat.b2n (finCh s) = Nat.b2n (localCloseOnce s))%nat ∧
  (length (writeOut s) <= 64)%nat.
Proof.
  intros Hs. pose proof (ssteps_inv _ _ _ (opened_inv _ _ _) Hs) as [Hc Hf _ _ _ Hcap _].
  pose proof (ssteps_fin _ _ _ (opened_inv _ _ _) Hs) as Hn. simpl in Hn.
  split; [done|]. split; [destruct (finCh s); naive_solver|]. split; [lia|done].
Qed.

Lemma stream_channels_witness :
  (closedCh demo_fin = true ↔ s_state demo_fin = StateClosed ∨ s_state demo_fin = StateReset) ∧
  (localCloseOnce demo_fin = false → finCh demo_fin = false) ∧
  (fins_taken [SClose; STakeFIN; SRemoteClose] + Nat.b2n (finCh demo_fin)
   = Nat.b2n (localCloseOnce demo_fin))%nat ∧
  (length (writeOut demo_fin) <= 64)%nat.
Proof.
  apply (stream_channels 1 (mkStreamConfig 262144 0) []
           [SClose; STakeFIN; SRemoteClose] demo_fin).
  srun sstep_close. srun sstep_take_fin. srun sstep_remote_close. apply ssteps_nil.
Defined.
