(* ===== verification/Mux.v ===== *)
(** * The multiplexer: [pkg/protocol/mux.go], [mux_session.go]

    MuxSession with every operation, frame handler and goroutine of the code.
    The stream objects live in a heap, because the map [streams], the accept
    queue, the owners of streams and the drain goroutines all hold pointers to
    them, and a stream outlives its entry in the map. An operation that the
    code runs to completion is a function on the session; one that blocks is
    split where it blocks. The goroutines are program counters. [mstep] gives
    the interleavings. *)

From Stdlib Require Import ZArith Lia.
From S2P Require Import Prelude Frame Window WriteQueue Stream.

(** ** Data *)

Record MuxConfig := mkMuxConfig {
  MaxConcurrentStreams : Z;
  InitialStreamWindow : Z;
  ConnectionWindow : Z;
  PingInterval : Z;
  PingTimeout : Z;
  IdleTimeout : Z
}.

Definition MaxServiceListCount : nat := 1024.

Inductive MuxRole := RoleRelay | RoleAgent.

#[export] Instance MuxRole_eq_dec : EqDecision MuxRole.
Proof. solve_decision. Defined.

(** A pointer to a stream object. The channel that acknowledges a pending
    OpenStream is made for exactly one stream, and named by it. *)
Abbreviation ref := nat (only parsing).

(** Where the drain goroutine of a stream is: the select of drainStream, the
    select of awaitFIN, the loop of flushAndFIN, or returned. *)
Inductive DrainPC := DrainLoop | DrainAwaitFIN | DrainFlush | DrainDone.

#[export] Instance DrainPC_eq_dec : EqDecision DrainPC.
Proof. solve_decision. Defined.

(** Where the read goroutine is: about to read a frame, blocked handing an
    accepted stream to AcceptStream, or returned. *)
Inductive ReadPC := ReadRunning | ReadDelivering (r : ref) | ReadStopped.

#[export] Instance ReadPC_eq_dec : EqDecision ReadPC.
Proof. solve_decision. Defined.

Record MuxSession := mkMux {
  m_config : MuxConfig;
  m_role : MuxRole;
  m_streams : gmap Z ref;                   (* map[uint32]*StreamSession *)
  m_nextStreamID : Z;                       (* uint32 *)
  m_freeIDs : list Z;                       (* []uint32, last is top *)
  m_acceptCh : list ref;                    (* chan, MaxConcurrentStreams *)
  m_closeCh : bool;                         (* closed *)
  m_goingAway : bool;                       (* atomic.Bool *)
  m_writeQueue : WriteQueue;
  m_pendingOpen : gmap Z ref;               (* id -> ackCh *)
  m_pingCh : option nat;                    (* nil or a channel *)
  m_pingData : list byte;                   (* [8]byte *)
  m_connSendWindow : FlowWindow;
  m_serviceListCh : option (list string);   (* chan []string, 1 *)
  m_heap : gmap ref StreamSession;          (* the stream objects *)
  m_fresh : nat;                            (* next unused object *)
  m_acks : gset ref;                        (* ackCh tokens *)
  m_openers : gset ref;                     (* OpenStream calls waiting *)
  m_pongs : gset nat;                       (* ping channels holding a token *)
  m_drain : gmap ref DrainPC;               (* drainStream goroutines *)
  m_reader : ReadPC                         (* the readLoop goroutine *)
}.

(** Field updates. *)
Definition set_streams (x : gmap Z ref) (m : MuxSession) : MuxSession :=
    mkMux (m_config m) (m_role m) x (m_nextStreamID m) (m_freeIDs m) (m_acceptCh m)
    (m_closeCh m) (m_goingAway m) (m_writeQueue m) (m_pendingOpen m) (m_pingCh m)
    (m_pingData m) (m_connSendWindow m) (m_serviceListCh m) (m_heap m) (m_fresh m) (m_acks
    m) (m_openers m) (m_pongs m) (m_drain m) (m_reader m).
Definition set_nextStreamID (x : Z) (m : MuxSession) : MuxSession :=
    mkMux (m_config m) (m_role m) (m_streams m) x (m_freeIDs m) (m_acceptCh m) (m_closeCh m)
    (m_goingAway m) (m_writeQueue m) (m_pendingOpen m) (m_pingCh m) (m_pingData m)
    (m_connSendWindow m) (m_serviceListCh m) (m_heap m) (m_fresh m) (m_acks m) (m_openers m)
    (m_pongs m) (m_drain m) (m_reader m).
Definition set_freeIDs (x : list Z) (m : MuxSession) : MuxSession :=
    mkMux (m_config m) (m_role m) (m_streams m) (m_nextStreamID m) x (m_acceptCh m)
    (m_closeCh m) (m_goingAway m) (m_writeQueue m) (m_pendingOpen m) (m_pingCh m)
    (m_pingData m) (m_connSendWindow m) (m_serviceListCh m) (m_heap m) (m_fresh m) (m_acks
    m) (m_openers m) (m_pongs m) (m_drain m) (m_reader m).
Definition set_acceptCh (x : list ref) (m : MuxSession) : MuxSession :=
    mkMux (m_config m) (m_role m) (m_streams m) (m_nextStreamID m) (m_freeIDs m) x
    (m_closeCh m) (m_goingAway m) (m_writeQueue m) (m_pendingOpen m) (m_pingCh m)
    (m_pingData m) (m_connSendWindow m) (m_serviceListCh m) (m_heap m) (m_fresh m) (m_acks
    m) (m_openers m) (m_pongs m) (m_drain m) (m_reader m).
Definition set_closeCh (x : bool) (m : MuxSession) : MuxSession :=
    mkMux (m_config m) (m_role m) (m_streams m) (m_nextStreamID m) (m_freeIDs m) (m_acceptCh
    m) x (m_goingAway m) (m_writeQueue m) (m_pendingOpen m) (m_pingCh m) (m_pingData m)
    (m_connSendWindow m) (m_serviceListCh m) (m_heap m) (m_fresh m) (m_acks m) (m_openers m)
    (m_pongs m) (m_drain m) (m_reader m).
Definition set_goingAway (x : bool) (m : MuxSession) : MuxSession :=
    mkMux (m_config m) (m_role m) (m_streams m) (m_nextStreamID m) (m_freeIDs m) (m_acceptCh
    m) (m_closeCh m) x (m_writeQueue m) (m_pendingOpen m) (m_pingCh m) (m_pingData m)
    (m_connSendWindow m) (m_serviceListCh m) (m_heap m) (m_fresh m) (m_acks m) (m_openers m)
    (m_pongs m) (m_drain m) (m_reader m).
Definition set_writeQueue (x : WriteQueue) (m : MuxSession) : MuxSession :=
    mkMux (m_config m) (m_role m) (m_streams m) (m_nextStreamID m) (m_freeIDs m) (m_acceptCh
    m) (m_closeCh m) (m_goingAway m) x (m_pendingOpen m) (m_pingCh m) (m_pingData m)
    (m_connSendWindow m) (m_serviceListCh m) (m_heap m) (m_fresh m) (m_acks m) (m_openers m)
    (m_pongs m) (m_drain m) (m_reader m).
Definition set_pendingOpen (x : gmap Z ref) (m : MuxSession) : MuxSession :=
    mkMux (m_config m) (m_role m) (m_streams m) (m_nextStreamID m) (m_freeIDs m) (m_acceptCh
    m) (m_closeCh m) (m_goingAway m) (m_writeQueue m) x (m_pingCh m) (m_pingData m)
    (m_connSendWindow m) (m_serviceListCh m) (m_heap m) (m_fresh m) (m_acks m) (m_openers m)
    (m_pongs m) (m_drain m) (m_reader m).
Definition set_pingCh (x : option nat) (m : MuxSession) : MuxSession :=
    mkMux (m_config m) (m_role m) (m_streams m) (m_nextStreamID m) (m_freeIDs m) (m_acceptCh
    m) (m_closeCh m) (m_goingAway m) (m_writeQueue m) (m_pendingOpen m) x (m_pingData m)
    (m_connSendWindow m) (m_serviceListCh m) (m_heap m) (m_fresh m) (m_acks m) (m_openers m)
    (m_pongs m) (m_drain m) (m_reader m).
Definition set_pingData (x : list byte) (m : MuxSession) : MuxSession :=
    mkMux (m_config m) (m_role m) (m_streams m) (m_nextStreamID m) (m_freeIDs m) (m_acceptCh
    m) (m_closeCh m) (m_goingAway m) (m_writeQueue m) (m_pendingOpen m) (m_pingCh m) x
    (m_connSendWindow m) (m_serviceListCh m) (m_heap m) (m_fresh m) (m_acks m) (m_openers m)
    (m_pongs m) (m_drain m) (m_reader m).
Definition set_connSendWindow (x : FlowWindow) (m : MuxSession) : MuxSession :=
    mkMux (m_config m) (m_role m) (m_streams m) (m_nextStreamID m) (m_freeIDs m) (m_acceptCh
    m) (m_closeCh m) (m_goingAway m) (m_writeQueue m) (m_pendingOpen m) (m_pingCh m)
    (m_pingData m) x (m_serviceListCh m) (m_heap m) (m_fresh m) (m_acks m) (m_openers m)
    (m_pongs m) (m_drain m) (m_reader m).
Definition set_serviceListCh (x : option (list string)) (m : MuxSession) : MuxSession :=
    mkMux (m_config m) (m_role m) (m_streams m) (m_nextStreamID m) (m_freeIDs m) (m_acceptCh
    m) (m_closeCh m) (m_goingAway m) (m_writeQueue m) (m_pendingOpen m) (m_pingCh m)
    (m_pingData m) (m_connSendWindow m) x (m_heap m) (m_fresh m) (m_acks m) (m_openers m)
    (m_pongs m) (m_drain m) (m_reader m).
Definition set_heap (x : gmap ref StreamSession) (m : MuxSession) : MuxSession :=
    mkMux (m_config m) (m_role m) (m_streams m) (m_nextStreamID m) (m_freeIDs m) (m_acceptCh
    m) (m_closeCh m) (m_goingAway m) (m_writeQueue m) (m_pendingOpen m) (m_pingCh m)
    (m_pingData m) (m_connSendWindow m) (m_serviceListCh m) x (m_fresh m) (m_acks m)
    (m_openers m) (m_pongs m) (m_drain m) (m_reader m).
Definition set_fresh (x : nat) (m : MuxSession) : MuxSession :=
    mkMux (m_config m) (m_role m) (m_streams m) (m_nextStreamID m) (m_freeIDs m) (m_acceptCh
    m) (m_closeCh m) (m_goingAway m) (m_writeQueue m) (m_pendingOpen m) (m_pingCh m)
    (m_pingData m) (m_connSendWindow m) (m_serviceListCh m) (m_heap m) x (m_acks m)
    (m_openers m) (m_pongs m) (m_drain m) (m_reader m).
Definition set_acks (x : gset ref) (m : MuxSession) : MuxSession :=
    mkMux (m_config m) (m_role m) (m_streams m) (m_nextStreamID m) (m_freeIDs m) (m_acceptCh
    m) (m_closeCh m) (m_goingAway m) (m_writeQueue m) (m_pendingOpen m) (m_pingCh m)
    (m_pingData m) (m_connSendWindow m) (m_serviceListCh m) (m_heap m) (m_fresh m) x
    (m_openers m) (m_pongs m) (m_drain m) (m_reader m).
Definition set_openers (x : gset ref) (m : MuxSession) : MuxSession :=
    mkMux (m_config m) (m_role m) (m_streams m) (m_nextStreamID m) (m_freeIDs m) (m_acceptCh
    m) (m_closeCh m) (m_goingAway m) (m_writeQueue m) (m_pendingOpen m) (m_pingCh m)
    (m_pingData m) (m_connSendWindow m) (m_serviceListCh m) (m_heap m) (m_fresh m) (m_acks
    m) x (m_pongs m) (m_drain m) (m_reader m).
Definition set_pongs (x : gset nat) (m : MuxSession) : MuxSession :=
    mkMux (m_config m) (m_role m) (m_streams m) (m_nextStreamID m) (m_freeIDs m) (m_acceptCh
    m) (m_closeCh m) (m_goingAway m) (m_writeQueue m) (m_pendingOpen m) (m_pingCh m)
    (m_pingData m) (m_connSendWindow m) (m_serviceListCh m) (m_heap m) (m_fresh m) (m_acks
    m) (m_openers m) x (m_drain m) (m_reader m).
Definition set_drain (x : gmap ref DrainPC) (m : MuxSession) : MuxSession :=
    mkMux (m_config m) (m_role m) (m_streams m) (m_nextStreamID m) (m_freeIDs m) (m_acceptCh
    m) (m_closeCh m) (m_goingAway m) (m_writeQueue m) (m_pendingOpen m) (m_pingCh m)
    (m_pingData m) (m_connSendWindow m) (m_serviceListCh m) (m_heap m) (m_fresh m) (m_acks
    m) (m_openers m) (m_pongs m) x (m_reader m).
Definition set_reader (x : ReadPC) (m : MuxSession) : MuxSession :=
    mkMux (m_config m) (m_role m) (m_streams m) (m_nextStreamID m) (m_freeIDs m) (m_acceptCh
    m) (m_closeCh m) (m_goingAway m) (m_writeQueue m) (m_pendingOpen m) (m_pingCh m)
    (m_pingData m) (m_connSendWindow m) (m_serviceListCh m) (m_heap m) (m_fresh m) (m_acks
    m) (m_openers m) (m_pongs m) (m_drain m) x.

(** Update the object [r] in place. *)
Definition upd_stream (r : ref) (f : StreamSession → StreamSession) (m : MuxSession) : MuxSession :=
  set_heap (alter f r (m_heap m)) m.

Definition enqueue (m : MuxSession) (f : Frame) (priority : Z) : MuxSession :=
  set_writeQueue (Enqueue (m_writeQueue m) f priority) m.

(** ** Construction *)

(** [func NewMuxSession(transport, role, config) *MuxSession] *)
Definition NewMuxSession (role : MuxRole) (config : MuxConfig) : MuxSession :=
  {| m_config := config; m_role := role; m_streams := ∅;
     m_nextStreamID := match role with RoleAgent => 2 | RoleRelay => 1 end;
     m_freeIDs := []; m_acceptCh := []; m_closeCh := false; m_goingAway := false;
     m_writeQueue := NewWriteQueue; m_pendingOpen := ∅; m_pingCh := None;
     m_pingData := replicate 8 x00;
     m_connSendWindow := NewFlowWindow (int32 (ConnectionWindow config));
     m_serviceListCh := None;
     m_heap := ∅; m_fresh := 0; m_acks := ∅; m_openers := ∅; m_pongs := ∅;
     m_drain := ∅; m_reader := ReadRunning |}.

(** [func (m *MuxSession) NumStreams() int] *)
Definition NumStreams (m : MuxSession) : Z := Z.of_nat (size (m_streams m)).

(** ** Stream IDs *)

(** [func (m *MuxSession) ownsID(id uint32) bool] *)
Definition ownsID (m : MuxSession) (id : Z) : bool :=
  bool_decide (id mod 2 = m_nextStreamID m mod 2).

(** [func (m *MuxSession) freeID(id uint32)] *)
Definition freeID (m : MuxSession) (id : Z) : MuxSession :=
  if bool_decide (id mod 2 = m_nextStreamID m mod 2)
  then set_freeIDs (m_freeIDs m ++ [id]) m
  else m.

(** [delete(m.streams, id); m.freeID(id)], under [m.mu] *)
Definition deleteStream (m : MuxSession) (id : Z) : MuxSession :=
  freeID (set_streams (delete id (m_streams m)) m) id.

(** The allocation of a stream ID in OpenStreamWithPayload: the last recycled
    one, or the next new one. *)
Definition allocID (m : MuxSession) : Z * MuxSession :=
  match last (m_freeIDs m) with
  | Some id => (id, set_freeIDs (take (length (m_freeIDs m) - 1) (m_freeIDs m)) m)
  | None => (m_nextStreamID m, set_nextStreamID (u32 (m_nextStreamID m + 2)) m)
  end.

(** ** Removing streams, and the callbacks of setupStreamClose and
    setupStreamReset *)

Definition is_terminal (s : StreamSession) : bool :=
  match s_state s with StateClosed | StateReset => true | _ => false end.

(** [func (m *MuxSession) maybeRemoveStream(id uint32, s *StreamSession)] *)
Definition maybeRemoveStream (m : MuxSession) (id : Z) (r : ref) : MuxSession :=
  match m_heap m !! r with
  | Some s => if is_terminal s then deleteStream m id else m
  | None => m
  end.

(** The onLocalClose callback that setupStreamClose registers for [r]. *)
Definition onLocalClose (m : MuxSession) (r : ref) (streamID : Z) : MuxSession :=
  maybeRemoveStream m streamID r.

Definition reset_frame (id code : Z) : Frame :=
  {| Version := ProtocolVersion; FCommand := CmdStreamReset; Flags := x00;
     StreamID := id; Payload := PutUint32 code |}.

(** The onReset callback that setupStreamReset registers. *)
Definition onReset (m : MuxSession) (streamID code : Z) : MuxSession :=
  if m_closeCh m then m
  else
    match m_streams m !! streamID with
    | None => m
    | Some _ => enqueue (deleteStream m streamID) (reset_frame streamID code) PriorityControl
    end.

(** ** What the owner of a stream calls, with the callbacks it runs *)

(** [s.Close()] *)
Definition StreamClose (m : MuxSession) (r : ref) : MuxSession :=
  match m_heap m !! r with
  | None => m
  | Some s =>
      let '(s', notify) := Stream.Close s in
      let m1 := set_heap (<[r := s']> (m_heap m)) m in
      if notify then onLocalClose m1 r (s_id s) else m1
  end.

(** [s.Reset(code)] *)
Definition StreamReset (m : MuxSession) (r : ref) (code : Z) : MuxSession :=
  match m_heap m !! r with
  | None => m
  | Some s =>
      let '(s', notify) := Stream.Reset s in
      let m1 := set_heap (<[r := s']> (m_heap m)) m in
      if notify then onReset m1 (s_id s) code else m1
  end.

(** [func (m *MuxSession) removeStream(id uint32)] *)
Definition removeStream (m : MuxSession) (id : Z) : MuxSession :=
  match m_streams m !! id with
  | Some r => StreamReset (deleteStream m id) r 0
  | None => m
  end.

(** [func (m *MuxSession) cleanupPendingOpen(id uint32)] *)
Definition cleanupPendingOpen (m : MuxSession) (id : Z) : MuxSession :=
  set_pendingOpen (delete id (m_pendingOpen m)) m.

(** Allocate the object of a new stream, enter it in the map and start its
    drain goroutine. *)
Definition newStream (m : MuxSession) (id : Z) (payload : list byte) : ref * MuxSession :=
  let r := m_fresh m in
  let s := opened id (mkStreamConfig (InitialStreamWindow (m_config m)) 0) payload in
  (r, set_drain (<[r := DrainLoop]> (m_drain m))
        (set_streams (<[id := r]> (m_streams m))
          (set_heap (<[r := s]> (m_heap m)) (set_fresh (S r) m)))).

(** ** Opening and accepting *)

Definition open_frame (id : Z) (payload : list byte) : Frame :=
  {| Version := ProtocolVersion; FCommand := CmdStreamOpen; Flags := x00;
     StreamID := id; Payload := payload |}.

(** [func (m *MuxSession) OpenStreamWithPayload(ctx, payload) (Stream, error)],
    up to the select that waits for the acknowledgement. *)
Definition OpenStream_begin (m : MuxSession) (payload : list byte)
    : result ProtoErr (ref * MuxSession) :=
  if m_goingAway m then Err ErrGoAway
  else if bool_decide (NumStreams m >= MaxConcurrentStreams (m_config m))
  then Err ErrMaxStreamsExceeded
  else
    let '(id, m1) := allocID m in
    let '(r, m2) := newStream m1 id [] in
    let m3 := set_pendingOpen (<[id := r]> (m_pendingOpen m2)) m2 in
    let m4 := enqueue m3 (open_frame id payload) PriorityData in
    Ok (r, set_openers ({[r]} ∪ m_openers m4) m4).

Definition stream_id (m : MuxSession) (r : ref) : Z :=
  match m_heap m !! r with Some s => s_id s | None => 0 end.

(** The three ways that select ends: the acknowledgement arrived, the context
    was canceled, the session closed. *)
Definition OpenStream_acked (m : MuxSession) (r : ref) : MuxSession :=
  set_openers (m_openers m ∖ {[r]}) (set_acks (m_acks m ∖ {[r]}) m).
Definition OpenStream_canceled (m : MuxSession) (r : ref) : MuxSession :=
  let id := stream_id m r in
  set_openers (m_openers m ∖ {[r]}) (removeStream (cleanupPendingOpen m id) id).
Definition OpenStream_closed (m : MuxSession) (r : ref) : MuxSession :=
  set_openers (m_openers m ∖ {[r]}) (cleanupPendingOpen m (stream_id m r)).

(** [func (m *MuxSession) AcceptStream(ctx) (Stream, error)], when a stream is
    waiting. *)
Definition AcceptStream (m : MuxSession) : option (ref * MuxSession) :=
  match m_acceptCh m with
  | r :: rest => Some (r, set_acceptCh rest m)
  | [] => None
  end.

(** ** Closing the session, GOAWAY, ping *)

(** [func (m *MuxSession) Close() error], which closes the transport last. *)
Definition Close (m : MuxSession) : MuxSession :=
  if m_closeCh m then m
  else
    let m1 := set_writeQueue (WriteQueue.Close (m_writeQueue m)) (set_closeCh true m) in
    let m2 := foldr (λ r acc, StreamReset acc r 0) m1 (map_to_list (m_streams m1)).*2 in
    set_streams ∅ m2.

Definition goaway_frame (lastID code : Z) : Frame :=
  {| Version := ProtocolVersion; FCommand := CmdGoAway; Flags := x00; StreamID := 0;
     Payload := PutUint32 lastID ++ PutUint32 code |}.

(** [func (m *MuxSession) GoAway(code uint32) error] *)
Definition GoAway (m : MuxSession) (code : Z) : MuxSession :=
  let m1 := set_goingAway true m in
  let lastID := map_fold (λ id _ acc, Z.max id acc) 0 (m_streams m1) in
  enqueue m1 (goaway_frame lastID code) PriorityControl.

(** [binary.BigEndian.PutUint64] *)
Definition PutUint64 (v : Z) : list byte := PutUint32 (v ≫ 32) ++ PutUint32 v.

Definition ping_frame (data : list byte) : Frame :=
  {| Version := ProtocolVersion; FCommand := CmdPing; Flags := x00; StreamID := 0;
     Payload := data |}.

(** [func (m *MuxSession) Ping(ctx) (time.Duration, error)], up to its select:
    a new ping channel, the time stamp, the frame. *)
Definition Ping_begin (m : MuxSession) (unixNano : Z) : MuxSession :=
  let m1 := set_pingData (PutUint64 unixNano)
              (set_pingCh (Some (m_fresh m)) (set_fresh (S (m_fresh m)) m)) in
  enqueue m1 (ping_frame (m_pingData m1)) PriorityControl.

(** What [WriteFrame] finds in a queued frame when the write loop comes to send
    it: the payload of a PING is a slice of the array pingData, which a later
    call of Ping overwrites; every other payload is the frame's own. *)
Definition wire (m : MuxSession) (f : Frame) : Frame :=
  if bool_decide (FCommand f = CmdPing)
  then {| Version := Version f; FCommand := CmdPing; Flags := Flags f; StreamID := StreamID f;
          Payload := m_pingData m |}
  else f.

(** The select of Ping on the channel it read: [Some] when a PONG has come. *)
Definition Ping_end (m : MuxSession) (ch : nat) : option MuxSession :=
  if bool_decide (ch ∈ m_pongs m) then Some (set_pongs (m_pongs m ∖ {[ch]}) m) else None.

(** ** Frame handlers, run by the read goroutine *)

(** [func (m *MuxSession) acceptPeerOpen(id uint32) bool] *)
Definition acceptPeerOpen (m : MuxSession) (id : Z) : MuxSession * bool :=
  match m_streams m !! id with
  | Some _ => (m, false)
  | None =>
      if ownsID m id
      then (enqueue m (reset_frame id ResetCodeProtocolError) PriorityControl, false)
      else (m, true)
  end.

Definition ack_frame (id : Z) : Frame :=
  {| Version := ProtocolVersion; FCommand := CmdStreamOpen; Flags := FlagACK;
     StreamID := id; Payload := [] |}.

(** [func (m *MuxSession) handleStreamOpen(f *Frame)], up to the select that
    hands the new stream to AcceptStream. *)
Definition handleStreamOpen (m : MuxSession) (f : Frame) : MuxSession :=
  if has_flag (Flags f) FlagACK then
    match m_pendingOpen m !! StreamID f with
    | Some r =>
        set_acks ({[r]} ∪ m_acks m) (set_pendingOpen (delete (StreamID f) (m_pendingOpen m)) m)
    | None => m
    end
  else
    let '(m1, ok) := acceptPeerOpen m (StreamID f) in
    if ok then
      let '(r, m2) := newStream m1 (StreamID f) (Payload f) in
      set_reader (ReadDelivering r) (enqueue m2 (ack_frame (StreamID f)) PriorityData)
    else m1.

(** The send of that select, possible while [acceptCh] has room. *)
Definition deliverAccept (m : MuxSession) : option MuxSession :=
  match m_reader m with
  | ReadDelivering r =>
      if bool_decide (zlen (m_acceptCh m) < MaxConcurrentStreams (m_config m))
      then Some (set_reader ReadRunning (set_acceptCh (m_acceptCh m ++ [r]) m))
      else None
  | _ => None
  end.

(** What handleStreamData does with the stream it has found, after it has
    released the mutex of the session. *)
Definition deliverData (m : MuxSession) (f : Frame) (r : ref) : MuxSession :=
  let m1 := if bool_decide (zlen (Payload f) > 0)
            then upd_stream r (λ s, Stream.Deliver s (Payload f)) m else m in
  if has_flag (Flags f) FlagFIN
  then maybeRemoveStream (upd_stream r Stream.RemoteClose m1) (StreamID f) r
  else m1.

(** [func (m *MuxSession) handleStreamData(f *Frame)], run without another
    operation between its two parts; MuxRace.v has them apart. *)
Definition handleStreamData (m : MuxSession) (f : Frame) : MuxSession :=
  match m_streams m !! StreamID f with
  | None => m
  | Some r => deliverData m f r
  end.

(** [func (m *MuxSession) handleStreamClose(f *Frame)] *)
Definition handleStreamClose (m : MuxSession) (f : Frame) : MuxSession :=
  match m_streams m !! StreamID f with
  | None => m
  | Some r => maybeRemoveStream (upd_stream r Stream.RemoteClose m) (StreamID f) r
  end.

(** [func (m *MuxSession) handleStreamReset(f *Frame)] *)
Definition handleStreamReset (m : MuxSession) (f : Frame) : MuxSession :=
  match m_streams m !! StreamID f with
  | None => m
  | Some r =>
      let code := if bool_decide (zlen (Payload f) >= 4)
                  then Uint32 (take 4 (Payload f)) else 0 in
      let m1 := StreamReset m r code in
      match m_streams m1 !! StreamID f with
      | Some _ => deleteStream m1 (StreamID f)
      | None => m1
      end
  end.

(** [func (m *MuxSession) handlePing(f *Frame)] *)
Definition handlePing (m : MuxSession) (f : Frame) : MuxSession :=
  enqueue m {| Version := ProtocolVersion; FCommand := CmdPong; Flags := x00;
               StreamID := 0; Payload := Payload f |} PriorityControl.

(** [func (m *MuxSession) handlePong(_ *Frame)]: a non-blocking send on the
    current ping channel. *)
Definition handlePong (m : MuxSession) : MuxSession :=
  match m_pingCh m with
  | Some ch => set_pongs ({[ch]} ∪ m_pongs m) m
  | None => m
  end.

(** [func (m *MuxSession) handleWindowUpdate(f *Frame)] *)
Definition handleWindowUpdate (m : MuxSession) (f : Frame) : MuxSession :=
  if bool_decide (zlen (Payload f) < 4) then m
  else
    let increment := int32 (Uint32 (take 4 (Payload f))) in
    if bool_decide (StreamID f = 0)
    then set_connSendWindow (Update (m_connSendWindow m) increment).1 m
    else
      match m_streams m !! StreamID f with
      | None => m
      | Some r => upd_stream r (λ s, set_recvWindow (int64 (recvWindow s + increment)) s) m
      end.

(** [func (m *MuxSession) handleGoAway(_ *Frame)] *)
Definition handleGoAway (m : MuxSession) : MuxSession := set_goingAway true m.

(** The list handleServiceList extracts from a payload. *)
Definition parseServiceList (payload : list byte) : list string :=
  match payload with
  | [] => []
  | _ =>
      let raw := split_on x0a payload in
      let raw := if bool_decide (MaxServiceListCount < length raw)%nat
                 then take MaxServiceListCount raw else raw in
      string_of_bytes <$> filter (λ s, s ≠ []) raw
  end.

(** [func (m *MuxSession) handleServiceList(f *Frame)] *)
Definition handleServiceList (m : MuxSession) (f : Frame) : MuxSession :=
  match m_serviceListCh m with
  | None => set_serviceListCh (Some (parseServiceList (Payload f))) m
  | Some _ => m
  end.

(** [strings.Join(l, "\n")] on bytes. *)
Fixpoint join_nl (l : list (list byte)) : list byte :=
  match l with
  | [] => []
  | [w] => w
  | w :: ws => w ++ [x0a] ++ join_nl ws
  end.

Inductive ServiceListErr := SLNewline (name : string) | SLTooLong (n : Z).

(** [func (m *MuxSession) SendServiceList(services []string) error] *)
Definition SendServiceList (m : MuxSession) (services : list string)
    : MuxSession * result ServiceListErr unit :=
  match list_find (λ name, x0a ∈ bytes_of_string name ∨ x0d ∈ bytes_of_string name) services with
  | Some (_, name) => (m, Err (SLNewline name))
  | None =>
      let payload := join_nl (bytes_of_string <$> services) in
      if bool_decide (zlen payload > MaxPayloadSize) then (m, Err (SLTooLong (zlen payload)))
      else
        (enqueue m {| Version := ProtocolVersion; FCommand := CmdServiceList; Flags := x00;
                      StreamID := 0; Payload := payload |} PriorityControl, Ok tt)
  end.

(** [func (m *MuxSession) handleFrame(f *Frame)] *)
Definition handleFrame (m : MuxSession) (f : Frame) : MuxSession :=
  if decide (FCommand f = CmdStreamOpen) then handleStreamOpen m f
  else if decide (FCommand f = CmdStreamData) then handleStreamData m f
  else if decide (FCommand f = CmdStreamClose) then handleStreamClose m f
  else if decide (FCommand f = CmdStreamReset) then handleStreamReset m f
  else if decide (FCommand f = CmdPing) then handlePing m f
  else if decide (FCommand f = CmdPong) then handlePong m
  else if decide (FCommand f = CmdWindowUpdate) then handleWindowUpdate m f
  else if decide (FCommand f = CmdGoAway) then handleGoAway m
  else if decide (FCommand f = CmdServiceList) then handleServiceList m f
  else m.

(** [readLoop] when ReadFrame fails: it closes the session unless that has
    been done, and returns. *)
Definition readLoop_error (m : MuxSession) : MuxSession := set_reader ReadStopped (Close m).

(** ** The drain goroutine of a stream *)

Definition data_frame (id : Z) (p : list byte) : Frame :=
  {| Version := ProtocolVersion; FCommand := CmdStreamData; Flags := x00;
     StreamID := id; Payload := p |}.
Definition fin_frame (id : Z) : Frame :=
  {| Version := ProtocolVersion; FCommand := CmdStreamClose; Flags := FlagFIN;
     StreamID := id; Payload := [] |}.

(** [func (m *MuxSession) enqueueStreamData(s *StreamSession, data []byte)] *)
Definition enqueueStreamData (m : MuxSession) (s : StreamSession) (p : list byte) : MuxSession :=
  enqueue m (data_frame (s_id s) p) PriorityData.

Definition set_drain_pc (r : ref) (pc : DrainPC) (m : MuxSession) : MuxSession :=
  set_drain (<[r := pc]> (m_drain m)) m.

(** [func (m *MuxSession) flushAndFIN(s *StreamSession)], run to its end. *)
Definition flushAndFIN (m : MuxSession) (r : ref) : MuxSession :=
  match m_heap m !! r with
  | None => m
  | Some s =>
      let m1 := foldl (λ acc p, enqueueStreamData acc s p) m (writeOut s) in
      enqueue (set_heap (<[r := set_writeOut [] s]> (m_heap m1)) m1)
        (fin_frame (s_id s)) PriorityData
  end.

(** The cases of the selects of drainStream, awaitFIN and flushAndFIN. *)
Inductive drain_case :=
| DrainChunk     (* data := <-s.writeOut *)
| DrainFIN       (* <-s.finCh *)
| DrainClosed    (* <-s.closedCh *)
| DrainMuxClosed (* <-m.closeCh *)
| DrainFlushed.  (* default of flushAndFIN: writeOut is empty *)

(** One step of the goroutine of [r], when that case is ready. *)
Definition drainStream (m : MuxSession) (r : ref) (c : drain_case) : option MuxSession :=
  match m_heap m !! r, m_drain m !! r with
  | Some s, Some pc =>
      match c, pc with
      | DrainChunk, DrainLoop | DrainChunk, DrainFlush =>
          match writeOut s with
          | p :: rest =>
              Some (enqueueStreamData (set_heap (<[r := set_writeOut rest s]> (m_heap m)) m) s p)
          | [] => None
          end
      | DrainFIN, DrainLoop | DrainFIN, DrainAwaitFIN =>
          if finCh s
          then Some (set_drain_pc r DrainFlush
                       (set_heap (<[r := set_finCh false s]> (m_heap m)) m))
          else None
      | DrainClosed, DrainLoop =>
          if closedCh s
          then Some (set_drain_pc r
                       (if decide (s_state s = StateReset) then DrainDone else DrainAwaitFIN) m)
          else None
      | DrainMuxClosed, DrainLoop | DrainMuxClosed, DrainAwaitFIN =>
          if m_closeCh m then Some (set_drain_pc r DrainDone m) else None
      | DrainFlushed, DrainFlush =>
          match writeOut s with
          | [] => Some (set_drain_pc r DrainDone (enqueue m (fin_frame (s_id s)) PriorityData))
          | _ :: _ => None
          end
      | _, _ => None
      end
  | _, _ => None
  end.

(** The frame that step enqueues. *)
Definition drain_output (m : MuxSession) (r : ref) (c : drain_case) : option Frame :=
  match m_heap m !! r, c with
  | Some s, DrainChunk => data_frame (s_id s) <$> head (writeOut s)
  | Some s, DrainFlushed => Some (fin_frame (s_id s))
  | _, _ => None
  end.

(** ** Interleavings

    A step is one call, one frame handled, or one case of a goroutine's
    select, run without another operation of the same session in between;
    MuxRace.v looks inside the two operations for which that matters. The
    label records what the step exchanges with the owner of the streams or
    with the transport. *)

Inductive mlabel :=
| LOpen (r : ref)                     (* OpenStream has sent its STREAM_OPEN *)
| LOpened (r : ref)                   (* OpenStream returned the stream *)
| LOpenFailed (r : ref)               (* OpenStream returned an error *)
| LAccept (r : ref)                   (* AcceptStream returned the stream *)
| LFrame (f : Frame)                  (* the read loop handled a frame *)
| LDeliver                            (* it handed over, or gave up on, a stream *)
| LReadError                          (* ReadFrame failed *)
| LWrite (r : ref) (p : list byte)    (* Write accepted a chunk *)
| LRead (r : ref) (p : list byte)     (* Read returned bytes *)
| LClose (r : ref)
| LReset (r : ref) (code : Z)
| LDrain (r : ref) (out : option Frame) (* its drain goroutine enqueued out *)
| LSend (f : Frame)                   (* the write loop sent a frame *)
| LSendError                          (* WriteFrame failed *)
| LGoAway (code : Z)
| LPing
| LPong
| LServices                           (* SendServiceList *)
| LServicesRead                       (* a receive from ServiceListCh *)
| LMuxClose.

Inductive mstep : MuxSession → mlabel → MuxSession → Prop :=
| mstep_open m payload r m' :
    OpenStream_begin m payload = Ok (r, m') → mstep m (LOpen r) m'
| mstep_opened m r m' :
    r ∈ m_openers m → r ∈ m_acks m → m' = OpenStream_acked m r → mstep m (LOpened r) m'
| mstep_open_canceled m r m' :
    r ∈ m_openers m → m' = OpenStream_canceled m r → mstep m (LOpenFailed r) m'
| mstep_open_closed m r m' :
    r ∈ m_openers m → m_closeCh m = true → m' = OpenStream_closed m r →
    mstep m (LOpenFailed r) m'
| mstep_accept m r m' : AcceptStream m = Some (r, m') → mstep m (LAccept r) m'
| mstep_frame m f m' :
    m_reader m = ReadRunning → frame_typed f → m' = handleFrame m f → mstep m (LFrame f) m'
| mstep_deliver m m' : deliverAccept m = Some m' → mstep m LDeliver m'
| mstep_abandon m r m' :
    m_reader m = ReadDelivering r → m_closeCh m = true → m' = set_reader ReadRunning m →
    mstep m LDeliver m'
| mstep_read_error m m' :
    m_reader m = ReadRunning → m' = readLoop_error m → mstep m LReadError m'
| mstep_write m r s p s' m' :
    m_heap m !! r = Some s → Stream.Write s p = WriteOk s' →
    m' = set_heap (<[r := s']> (m_heap m)) m → mstep m (LWrite r p) m'
| mstep_read m r s n p s' m' :
    m_heap m !! r = Some s → Stream.Read s n = ReadData p s' →
    m' = set_heap (<[r := s']> (m_heap m)) m → mstep m (LRead r p) m'
| mstep_close m r m' : is_Some (m_heap m !! r) → m' = StreamClose m r → mstep m (LClose r) m'
| mstep_reset m r code m' : is_Some (m_heap m !! r) → m' = StreamReset m r code → mstep m (LReset r code) m'
| mstep_drain m r c out m' :
    drainStream m r c = Some m' → out = drain_output m r c → mstep m (LDrain r out) m'
| mstep_send m f g q m' :
    Dequeue (m_writeQueue m) false = DqFrame f q → g = wire m f → m' = set_writeQueue q m →
    mstep m (LSend g) m'
| mstep_send_error m f q m' :
    Dequeue (m_writeQueue m) false = DqFrame f q → m' = Close (set_writeQueue q m) →
    mstep m LSendError m'
| mstep_goaway m code m' : m' = GoAway m code → mstep m (LGoAway code) m'
| mstep_ping m now m' : m' = Ping_begin m now → mstep m LPing m'
| mstep_pong m ch m' : Ping_end m ch = Some m' → mstep m LPong m'
| mstep_services m services m' :
    m' = (SendServiceList m services).1 → mstep m LServices m'
| mstep_services_read m l m' :
    m_serviceListCh m = Some l → m' = set_serviceListCh None m → mstep m LServicesRead m'
| mstep_mux_close m m' : m' = Close m → mstep m LMuxClose m'.

Inductive msteps : MuxSession → list mlabel → MuxSession → Prop :=
| msteps_nil m : msteps m [] m
| msteps_snoc m es m1 e m2 : msteps m es m1 → mstep m1 e m2 → msteps m (es ++ [e]) m2.

(** A session made by NewMuxSession and run for some steps. *)
Definition reachable (role : MuxRole) (config : MuxConfig) (es : list mlabel) (m : MuxSession) : Prop :=
  msteps (NewMuxSession role config) es m.
