(* ===== verification/MuxInv.v ===== *)
(** * Invariants of the multiplexer

    What holds in every state of [mstep]: the stream map and the stream
    objects agree, every object satisfies the stream invariant, and the IDs of
    the local parity that were ever allocated are exactly the active ones and
    the recycled ones. *)

From Stdlib Require Import ZArith Lia.
From S2P Require Import Prelude Frame Window WriteQueue Stream Mux.

(** The first ID of a role, and the parity it allocates. *)
Definition start_id (role : MuxRole) : Z := match role with RoleAgent => 2 | RoleRelay => 1 end.

(** ** The invariant

    It is stated over the fields it is about, so that it is untouched, by
    computation, by an operation that changes only other fields. *)

(** A stream object of a session has both callbacks registered. *)
Definition obj_inv (s : StreamSession) : Prop :=
  stream_inv s ∧ hasOnLocalClose s = true ∧ hasOnReset s = true ∧ is_u32 (s_id s).

Record ids_inv (max start : Z) (streams : gmap Z nat) (next : Z) (free : list Z) : Prop := {
  ids_nodup : NoDup free;
  ids_parity : next mod 2 = start mod 2;
  ids_start : start <= next;
  ids_bound : next <= start + 2 * Z.max 0 max;
  ids_free : ∀ id, id ∈ free → id mod 2 = start mod 2 ∧ streams !! id = None;
  ids_alloc : ∀ id, id mod 2 = start mod 2 →
              (start <= id < next ↔ id ∈ free ∨ is_Some (streams !! id))
}.

Record core_inv (max start : Z) (streams : gmap Z nat) (next : Z) (free : list Z)
    (closed : bool) (heap : gmap nat StreamSession) (fresh : nat) : Prop := {
  ci_fresh : ∀ r s, heap !! r = Some s → (r < fresh)%nat;
  ci_obj : ∀ r s, heap !! r = Some s → obj_inv s;
  ci_streams : ∀ id r, streams !! id = Some r → ∃ s, heap !! r = Some s ∧ s_id s = id;
  ci_live : closed = false →
            ∀ id r s, streams !! id = Some r → heap !! r = Some s → is_terminal s = false;
  ci_map : closed = false →
           ∀ r s, heap !! r = Some s → is_terminal s = false → streams !! s_id s = Some r;
  ci_ids : closed = false → ids_inv max start streams next free;
  ci_u32 : is_u32 next ∧ ∀ id, id ∈ free → is_u32 id
}.

Definition mux_inv (m : MuxSession) : Prop :=
  core_inv (MaxConcurrentStreams (m_config m)) (start_id (m_role m)) (m_streams m)
    (m_nextStreamID m) (m_freeIDs m) (m_closeCh m) (m_heap m) (m_fresh m).

(** ** Updates of one object *)

Section core.
Context {max start : Z} {streams : gmap Z nat} {next : Z} {free : list Z}.
Context {closed : bool} {heap : gmap nat StreamSession} {fresh : nat}.
Context (I : core_inv max start streams next free closed heap fresh).

(** An update that keeps the ID, and the liveness unless the session is closed. *)
Lemma core_update r s s' :
  heap !! r = Some s → s_id s' = s_id s → obj_inv s' →
  (closed = false → is_terminal s' = is_terminal s) →
  core_inv max start streams next free closed (<[r := s']> heap) fresh.
Proof.
  intros Hr Hid Ho Ht. destruct I as [H1 H2 H3 H4 H5 H6 H7]. split; try done.
  - intros r' s0. rewrite lookup_insert. case_decide; naive_solver.
  - intros r' s0. rewrite lookup_insert. case_decide; naive_solver.
  - intros id r' Hs. destruct (H3 _ _ Hs) as (s0 & Hs0 & <-).
    destruct (decide (r = r')) as [->|]; [rewrite lookup_insert_eq; naive_solver|].
    rewrite lookup_insert_ne by done. eauto.
  - intros Hc id r' s0 Hs. rewrite lookup_insert. case_decide; [|by eapply H4].
    intros [= <-]. subst. rewrite Ht by done. by eapply H4.
  - intros Hc r' s0. rewrite lookup_insert. case_decide; [|by apply H5].
    intros [= <-] Htm. subst. rewrite Hid. apply H5; [done..|]. by rewrite <-Ht.
Qed.

(** The object of an active stream reaches a terminal state and the stream is
    removed from the map, its ID recycled if it is a local one. *)
Lemma core_kill r s s' :
  closed = false → heap !! r = Some s → is_terminal s = false →
  s_id s' = s_id s → obj_inv s' → is_terminal s' = true →
  core_inv max start (delete (s_id s) streams) next
    (if bool_decide (s_id s mod 2 = next mod 2) then free ++ [s_id s] else free)
    closed (<[r := s']> heap) fresh.
Proof.
  intros Hc Hr Hl Hid Ho Ht. destruct I as [H1 H2 H3 H4 H5 H6 H7].
  specialize (H4 Hc). specialize (H5 Hc). specialize (H6 Hc).
  pose proof (H5 _ _ Hr Hl) as Hmap. split.
  - intros r' s0. rewrite lookup_insert. case_decide; naive_solver.
  - intros r' s0. rewrite lookup_insert. case_decide; naive_solver.
  - intros id r' [Hne Hs]%lookup_delete_Some. destruct (H3 _ _ Hs) as (s0 & Hs0 & <-).
    exists s0. split; [|done]. rewrite lookup_insert_ne; [done|]. intros ->. by simplify_eq.
  - intros _ id r' s0 [Hne Hs]%lookup_delete_Some. rewrite lookup_insert. case_decide as E.
    + subst. intros [= <-]. destruct (H3 _ _ Hs) as (s1 & ? & <-). by simplify_eq.
    + by apply (H4 id).
  - intros _ r' s0. rewrite lookup_insert. case_decide as E; [intros [= <-] ?; congruence|].
    intros Hs0 Hl0. rewrite lookup_delete_ne; [by apply H5|].
    intros Heq. pose proof (H5 _ _ Hs0 Hl0) as Hm. rewrite <-Heq in Hm. by simplify_eq.
  - intros _. destruct H6 as [N1 N2 N3 N4 N5 N6].
    assert (s_id s ∉ free) as Hnf by (intros [_ ?]%N5; naive_solver).
    case_bool_decide as Ep; split; try done.
    + apply NoDup_app. split_and!; [done| |apply NoDup_singleton]. set_solver.
    + intros id [Hf| ->%list_elem_of_singleton]%elem_of_app.
      * destruct (N5 _ Hf). split; [done|]. apply lookup_delete_None. by right.
      * split; [congruence|]. apply lookup_delete_eq.
    + intros id Hp. rewrite N6 by done. rewrite elem_of_app, list_elem_of_singleton.
      destruct (decide (id = s_id s)) as [->|];
        [rewrite lookup_delete_eq; naive_solver|rewrite lookup_delete_ne by done; naive_solver].
    + intros id Hf. destruct (N5 _ Hf). split; [done|]. apply lookup_delete_None. by right.
    + intros id Hp. rewrite N6 by done. rewrite lookup_delete_ne by congruence. done.
  - destruct H7 as [Hn Hf]. destruct (H2 _ _ Hr) as (_ & _ & _ & Hu).
    split; [done|]. case_bool_decide; set_solver.
Qed.

(** A fresh object entered in the map under an ID that is not active. *)
Lemma core_insert id s streams' next' free' :
  streams' = <[id := fresh]> streams → s_id s = id → obj_inv s → is_terminal s = false →
  (closed = false → streams !! id = None ∧ ids_inv max start streams' next' free') →
  is_u32 next' ∧ (∀ i, i ∈ free' → is_u32 i) →
  core_inv max start streams' next' free' closed (<[fresh := s]> heap) (S fresh).
Proof.
  intros -> Hid Ho Hl Hids Hu. destruct I as [H1 H2 H3 H4 H5 H6 H7].
  assert (∀ r s0, heap !! r = Some s0 → r ≠ fresh) as Hne by (intros ? ? ?%H1; lia).
  split; [..|naive_solver|done].
  - intros r s0. rewrite lookup_insert. case_decide; [lia|]. intros ?%H1. lia.
  - intros r s0. rewrite lookup_insert. case_decide; naive_solver.
  - intros i r. rewrite lookup_insert. case_decide.
    + intros [= <-]. subst. exists s. by rewrite lookup_insert_eq.
    + intros (s0 & Hs0 & <-)%H3. exists s0. by rewrite lookup_insert_ne by naive_solver.
  - intros Hc i r s0. rewrite (lookup_insert streams). case_decide.
    + intros [= <-]. rewrite lookup_insert_eq. by intros [= <-].
    + intros Hs. destruct (H3 _ _ Hs) as (s1 & Hs1 & <-).
      rewrite lookup_insert_ne by naive_solver. by apply (H4 Hc (s_id s1)).
  - intros Hc r s0. rewrite lookup_insert. case_decide.
    + intros [= <-] _. subst. by rewrite lookup_insert_eq.
    + intros Hs Hl0. pose proof (H5 Hc _ _ Hs Hl0). destruct (Hids Hc) as [Hn _].
      rewrite lookup_insert_ne; [done|]. intros ->. congruence.
Qed.
End core.

(** ** ID allocation *)

Section ids.
Context {max start : Z} {streams : gmap Z nat} {next : Z}.

(** With nothing to recycle, every allocated ID of the local parity is active. *)
Lemma ids_count :
  ids_inv max start streams next [] → next - start <= 2 * Z.of_nat (size streams).
Proof.
  intros [_ Hp Hs _ _ Ha].
  set (ids := (λ k, start + 2 * k) <$> seqZ 0 ((next - start) / 2)).
  assert (ids ⊆+ elements (dom streams)) as Hsub.
  { apply NoDup_submseteq.
    - unfold ids. apply NoDup_fmap_2; [intros ? ?; lia|apply NoDup_seqZ].
    - intros id (k & -> & Hk%elem_of_seqZ)%list_elem_of_fmap. apply elem_of_elements.
      apply elem_of_dom.
      assert (start <= start + 2 * k < next) as Hr
        by (Z.to_euclidean_division_equations; lia).
      apply Ha in Hr as [?%not_elem_of_nil|]; [done..|].
      rewrite Z.mul_comm, Z_mod_plus_full. done. }
  apply submseteq_length in Hsub. unfold ids in Hsub.
  rewrite length_fmap, length_seqZ in Hsub.
  change (length (elements (dom streams))) with (size (dom streams)) in Hsub.
  rewrite size_dom in Hsub. Z.to_euclidean_division_equations. lia.
Qed.

Lemma ids_alloc_new r :
  ids_inv max start streams next [] → 0 <= start → Z.of_nat (size streams) < max →
  start + 2 * max < 2 ^ 32 →
  streams !! next = None ∧ ids_inv max start (<[next := r]> streams) (u32 (next + 2)) [].
Proof.
  intros Hi H0 Hsz Hmax. pose proof (ids_count Hi) as Hc. destruct Hi as [N1 N2 N3 N4 N5 N6].
  assert (streams !! next = None) as Hnone.
  { destruct (streams !! next) eqn:E; [|done].
    assert (start <= next < next); [|lia]. apply N6; [done|]. right. by rewrite E. }
  split; [done|]. rewrite u32_id by (unfold is_u32; lia). split; try done.
  - rewrite <-N2, Zplus_mod. change (2 mod 2) with 0. by rewrite Z.add_0_r, Zmod_mod.
  - lia.
  - lia.
  - intros id ?%not_elem_of_nil. done.
  - intros id Hp. destruct (decide (id = next)) as [->|Hne].
    + rewrite lookup_insert_eq. split; [by eauto|lia].
    + rewrite lookup_insert_ne, <-N6 by done.
      split; [|lia]. intros. assert (id ≠ next + 1); [|lia].
      intros ->. clear -Hp N2. Z.to_euclidean_division_equations. lia.
Qed.

Lemma ids_alloc_recycled id free r :
  ids_inv max start streams next (free ++ [id]) →
  streams !! id = None ∧ ids_inv max start (<[id := r]> streams) next free.
Proof.
  intros [N1 N2 N3 N4 N5 N6]. apply NoDup_app in N1 as (N1 & Hd & _).
  destruct (N5 id) as [Hpar Hnone]; [set_solver|]. split; [done|]. split; try done.
  - intros i Hi. destruct (N5 i); [set_solver|]. split; [done|].
    rewrite lookup_insert_ne; [done|]. intros ->. set_solver.
  - intros i Hp. rewrite N6, elem_of_app, list_elem_of_singleton by done.
    destruct (decide (i = id)) as [->|].
    + rewrite lookup_insert_eq. naive_solver.
    + rewrite lookup_insert_ne by done. naive_solver.
Qed.

(** An ID of the other parity does not concern the local allocation. *)
Lemma ids_alloc_peer id free r :
  ids_inv max start streams next free → id mod 2 ≠ next mod 2 →
  ids_inv max start (<[id := r]> streams) next free.
Proof.
  intros [N1 N2 N3 N4 N5 N6] Hne. split; try done.
  - intros i Hi. destruct (N5 i Hi). split; [done|]. rewrite lookup_insert_ne by congruence. done.
  - intros i Hp. rewrite N6 by done. rewrite lookup_insert_ne by congruence. done.
Qed.
End ids.

(** ** Preservation

    Operations on one object. *)

Lemma sstep_obj s e s' : obj_inv s → sstep s e s' → obj_inv s' ∧ s_id s' = s_id s.
Proof.
  intros (Hi & Hl & Hr & Hu) Hs. assert (stream_inv s') by eauto using sstep_inv.
  assert (s_id s' = s_id s ∧ hasOnLocalClose s' = hasOnLocalClose s ∧
          hasOnReset s' = hasOnReset s) as (E1 & E2 & E3).
  { inversion Hs as [? n ? ? Hrd|? ? ? Hw| | | | | |]; subst; try done.
    - unfold Read in Hrd. repeat case_match; by simplify_eq.
    - unfold Stream.Write in Hw. repeat case_match; by simplify_eq.
    - unfold Stream.Close, Close_locked, Close_notify. by destruct s as [?? []]; simpl; repeat case_match.
    - unfold RemoteClose. by destruct s as [?? []].
    - unfold Stream.Reset, Reset_locked, Reset_notify. by destruct s as [?? []]; simpl; repeat case_match. }
  split; [|done]. unfold obj_inv. rewrite E1, E2, E3. done.
Qed.

(** What the read buffer, the write channel and the FIN token do leaves the
    state alone. *)
Definition keeps_state (e : sevent) : bool :=
  match e with SClose | SRemoteClose | SReset => false | _ => true end.

Lemma sstep_keeps_state s e s' :
  keeps_state e = true → sstep s e s' → s_state s' = s_state s.
Proof.
  intros He Hs. inversion Hs as [? n ? ? Hrd|? ? ? Hw| | | | | |]; subst; try done.
  - unfold Read in Hrd. repeat case_match; by simplify_eq.
  - unfold Stream.Write in Hw. repeat case_match; by simplify_eq.
Qed.

Lemma terminal_state s s' : s_state s' = s_state s → is_terminal s' = is_terminal s.
Proof. unfold is_terminal. by intros ->. Qed.

Lemma alter_lookup (h : gmap nat StreamSession) r s f :
  h !! r = Some s → alter f r h = <[r := f s]> h.
Proof.
  intros H. apply map_eq. intros i. rewrite lookup_alter, lookup_insert.
  case_decide; subst; by rewrite ?H.
Qed.

Section preservation.
Context (m : MuxSession) (I : mux_inv m).

Lemma inv_step_keep r s e s' :
  m_heap m !! r = Some s → sstep s e s' → keeps_state e = true →
  mux_inv (set_heap (<[r := s']> (m_heap m)) m).
Proof.
  intros Hr Hs He. destruct (sstep_obj s e s') as [Ho Hid]; [by eapply (ci_obj _ _ _ _ _ _ _ _ I)|done|].
  eapply (core_update I); try done. intros _. apply terminal_state. by eapply sstep_keeps_state.
Qed.

Lemma inv_step_same r s e s' :
  m_heap m !! r = Some s → sstep s e s' → is_terminal s' = is_terminal s ∨ m_closeCh m = true →
  mux_inv (set_heap (<[r := s']> (m_heap m)) m).
Proof.
  intros Hr Hs He. destruct (sstep_obj s e s') as [Ho Hid]; [by eapply (ci_obj _ _ _ _ _ _ _ _ I)|done|].
  eapply (core_update I); try done. intros. destruct He; congruence.
Qed.

(** A stream that has become terminal is removed. *)
Lemma inv_step_kill r s e s' :
  m_closeCh m = false → m_heap m !! r = Some s → sstep s e s' →
  is_terminal s = false → is_terminal s' = true →
  mux_inv (deleteStream (set_heap (<[r := s']> (m_heap m)) m) (s_id s)).
Proof.
  intros Hc Hr Hs Hl Ht. destruct (sstep_obj s e s') as [Ho Hid]; [by eapply (ci_obj _ _ _ _ _ _ _ _ I)|done|].
  pose proof (core_kill I r s s' Hc Hr Hl Hid Ho Ht) as K.
  unfold deleteStream, freeID. cbn [m_nextStreamID set_streams set_heap].
  revert K. case_bool_decide; intros K; exact K.
Qed.

(** Once the session is closed the map and the free list may drift, but the
    entries left stay consistent. *)
Lemma inv_delete_closed id :
  m_closeCh m = true → is_u32 id → mux_inv (deleteStream m id).
Proof.
  intros Hc Hu. destruct I as [H1 H2 H3 H4 H5 H6 [H7 H8]].
  assert (core_inv (MaxConcurrentStreams (m_config m)) (start_id (m_role m))
            (delete id (m_streams m)) (m_nextStreamID m)
            (if bool_decide (id mod 2 = m_nextStreamID m mod 2) then m_freeIDs m ++ [id] else m_freeIDs m)
            (m_closeCh m) (m_heap m) (m_fresh m)) as K.
  { split; try done; try congruence.
    - intros i r [_ ?]%lookup_delete_Some. eauto.
    - split; [done|]. case_bool_decide; set_solver. }
  unfold deleteStream, freeID. cbn [m_nextStreamID set_streams].
  revert K. case_bool_decide; intros K; exact K.
Qed.

End preservation.

(** The tail of a close, whichever side it comes from. *)
Lemma inv_maybeRemove m r s e s' :
  mux_inv m → m_heap m !! r = Some s → sstep s e s' →
  is_terminal s = false ∨ m_closeCh m = true →
  mux_inv (maybeRemoveStream (set_heap (<[r := s']> (m_heap m)) m) (s_id s) r).
Proof.
  intros I Hr Hs Hl. unfold maybeRemoveStream. cbn [m_heap set_heap].
  rewrite lookup_insert_eq. destruct (is_terminal s') eqn:Ht.
  - destruct (m_closeCh m) eqn:Hc.
    + apply inv_delete_closed; [|done|apply (ci_obj _ _ _ _ _ _ _ _ I r s Hr)].
      eapply inv_step_same; eauto.
    + destruct Hl; [|done]. eapply inv_step_kill; eauto.
  - destruct (m_closeCh m) eqn:Hc; eapply inv_step_same; eauto.
    destruct Hl; [|done]. left. congruence.
Qed.

(** ** Preservation by the operations *)

Lemma close_terminal s : is_terminal s = true → Stream.Close s = (s, false).
Proof. unfold Stream.Close, Close_locked, is_terminal. by destruct (s_state s). Qed.

(** A Close that runs no callback leaves a stream live. *)
Lemma close_silent s s' :
  obj_inv s → is_terminal s = false → Stream.Close s = (s', false) → is_terminal s' = false.
Proof.
  intros ([_ _ _ Honce _ _ _] & Hol & _) Hl.
  unfold Stream.Close, Close_locked, Close_notify, is_terminal in *.
  destruct (s_state s) eqn:Est; try done; simpl; rewrite ?Hol;
    destruct (localCloseOnce s); intros E; simplify_eq/=; rewrite ?Est; try done.
  by destruct (Honce eq_refl) as [?|[?|?]].
Qed.

Lemma reset_terminal s : is_terminal s = true → Stream.Reset s = (s, false).
Proof. unfold Stream.Reset, Reset_locked, is_terminal. by destruct (s_state s). Qed.

(** The reset of a live stream runs the callback, and ends in a terminal state. *)
Lemma reset_live s :
  obj_inv s → is_terminal s = false →
  ∃ s', Stream.Reset s = (s', true) ∧ is_terminal s' = true ∧ sstep s SReset s'.
Proof.
  intros (Hi & _ & Hr & _) Hl. exists (Stream.Reset s).1.
  assert (resetOnce s = false) as Ho.
  { destruct (resetOnce s) eqn:E; [|done]. apply (si_reset _ Hi) in E.
    unfold is_terminal in Hl. by rewrite E in Hl. }
  split_and!; [|..|by constructor]; unfold Stream.Reset, Reset_locked, Reset_notify, is_terminal in *;
    destruct (s_state s); simpl; rewrite ?Ho; simpl; rewrite ?Hr; done.
Qed.

Lemma inv_StreamClose m r : mux_inv m → mux_inv (StreamClose m r).
Proof.
  intros I. unfold StreamClose. destruct (m_heap m !! r) as [s|] eqn:Hr; [|done].
  assert (obj_inv s) as Ho by by eapply (ci_obj _ _ _ _ _ _ _ _ I).
  destruct (Stream.Close s) as [s' b] eqn:E.
  assert (sstep s SClose s') as Hs by (constructor; by rewrite E).
  destruct (is_terminal s) eqn:Hl.
  { rewrite close_terminal in E by done. injection E as <- <-.
    eapply inv_step_same; eauto. }
  destruct b; [by eapply inv_maybeRemove; eauto|].
  eapply inv_step_same; eauto. left. rewrite Hl. by eapply close_silent.
Qed.

Lemma inv_StreamReset m r code : mux_inv m → mux_inv (StreamReset m r code).
Proof.
  intros I. unfold StreamReset. destruct (m_heap m !! r) as [s|] eqn:Hr; [|done].
  assert (obj_inv s) as Ho by by eapply (ci_obj _ _ _ _ _ _ _ _ I).
  destruct (is_terminal s) eqn:Hl.
  { rewrite reset_terminal by done. eapply inv_step_same; eauto.
    apply sstep_reset. by rewrite reset_terminal. }
  destruct (reset_live s Ho Hl) as (s' & -> & Ht & Hs).
  unfold onReset. cbn [m_closeCh m_streams set_heap]. destruct (m_closeCh m) eqn:Hc.
  { eapply inv_step_same; eauto. }
  rewrite (ci_map _ _ _ _ _ _ _ _ I Hc _ _ Hr Hl).
  apply (inv_step_kill m I r s SReset s' Hc Hr Hs Hl Ht).
Qed.

Lemma inv_removeStream m id : mux_inv m → mux_inv (removeStream m id).
Proof.
  intros I. unfold removeStream. destruct (m_streams m !! id) as [r|] eqn:Hid; [|done].
  destruct (ci_streams _ _ _ _ _ _ _ _ I _ _ Hid) as (s & Hr & <-).
  assert (obj_inv s) as Ho by by eapply (ci_obj _ _ _ _ _ _ _ _ I).
  destruct (m_closeCh m) eqn:Hc.
  { apply inv_StreamReset, inv_delete_closed; [done..|apply Ho]. }
  pose proof (ci_live _ _ _ _ _ _ _ _ I Hc _ _ _ Hid Hr) as Hl.
  destruct (reset_live s Ho Hl) as (s' & E & Ht & Hs).
  pose proof (inv_step_kill m I r s SReset s' Hc Hr Hs Hl Ht) as K.
  revert K. unfold StreamReset, deleteStream, freeID, onReset.
  cbn [m_nextStreamID set_streams set_heap].
  case_bool_decide; cbn [m_heap m_closeCh m_streams set_freeIDs set_streams set_heap];
    rewrite Hr, E, Hc; cbn [m_streams set_freeIDs set_streams set_heap];
    rewrite lookup_delete_eq; intros K; exact K.
Qed.

Lemma StreamReset_closed m r code :
  m_closeCh m = true → ∃ h, StreamReset m r code = set_heap h m.
Proof.
  intros Hc. unfold StreamReset. destruct (m_heap m !! r) as [s|] eqn:E.
  - destruct (Stream.Reset s) as [s' []]; [|by eauto].
    unfold onReset. cbn [m_closeCh set_heap]. rewrite Hc. eauto.
  - exists (m_heap m). by destruct m.
Qed.

Lemma inv_Close m : mux_inv m → mux_inv (Close m).
Proof.
  intros I. unfold Close. destruct (m_closeCh m) eqn:Hc; [done|]. cbn zeta.
  set (m1 := set_writeQueue _ _).
  assert (mux_inv m1) as I1.
  { destruct I as [H1 H2 H3 H4 H5 H6 H7]. by split. }
  generalize (map_to_list (m_streams m1)).*2 as l. intros l.
  assert (mux_inv (foldr (λ r acc, StreamReset acc r 0) m1 l) ∧
          m_closeCh (foldr (λ r acc, StreamReset acc r 0) m1 l) = true) as [I2 Hc2].
  { induction l as [|r l [IH IHc]]; cbn [foldr]; [done|].
    destruct (StreamReset_closed _ r 0 IHc) as [h E]. split; [by apply inv_StreamReset|].
    rewrite E. done. }
  revert I2 Hc2. generalize (foldr (λ r acc, StreamReset acc r 0) m1 l). intros m2 I2 Hc2.
  destruct I2 as [H1 H2 H3 H4 H5 H6 H7]. rewrite Hc2 in *. 
  unfold mux_inv. cbn. rewrite Hc2. split; try done.
Qed.

Lemma is_terminal_opened id cfg p : is_terminal (opened id cfg p) = false.
Proof. done. Qed.

Lemma opened_obj id cfg p : is_u32 id → obj_inv (opened id cfg p).
Proof. intros. split_and!; auto with atlax. Qed.

(** The fields of the session after a new stream was entered in it. *)
Lemma inv_newStream m id payload next free :
  mux_inv m → is_u32 id → is_u32 next → (∀ i, i ∈ free → is_u32 i) →
  (m_closeCh m = false →
     m_streams m !! id = None ∧
     ids_inv (MaxConcurrentStreams (m_config m)) (start_id (m_role m))
       (<[id := m_fresh m]> (m_streams m)) next free) →
  mux_inv (newStream (set_nextStreamID next (set_freeIDs free m)) id payload).2.
Proof.
  intros I Hu Hn Hf Hids.
  pose proof (core_insert I id (opened id (mkStreamConfig (InitialStreamWindow (m_config m)) 0) payload)
    _ next free eq_refl eq_refl (opened_obj _ _ _ Hu) eq_refl Hids (conj Hn Hf)) as K.
  exact K.
Qed.

(** How OpenStreamWithPayload changes the session when it gets to its select. *)
Lemma OpenStream_begin_ok m payload r m' :
  OpenStream_begin m payload = Ok (r, m') →
  m_goingAway m = false ∧ NumStreams m < MaxConcurrentStreams (m_config m) ∧
  ∃ id m1 m2,
    allocID m = (id, m1) ∧ newStream m1 id [] = (r, m2) ∧
    m' = set_openers ({[r]} ∪ m_openers m2)
           (enqueue (set_pendingOpen (<[id := r]> (m_pendingOpen m2)) m2)
              (open_frame id payload) PriorityData).
Proof.
  unfold OpenStream_begin. destruct (m_goingAway m); [done|].
  case_bool_decide as Hlim; [done|]. destruct (allocID m) as [id m1] eqn:E1.
  destruct (newStream m1 id []) as [r' m2] eqn:E2. intros [= <- <-].
  split_and!; [done|lia|]. exists id, m1, m2. split_and!; done.
Qed.

(** Opening needs room in the ID space for the configured number of streams. *)
Lemma inv_allocID m payload :
  start_id (m_role m) + 2 * MaxConcurrentStreams (m_config m) < 2 ^ 32 →
  mux_inv m → NumStreams m < MaxConcurrentStreams (m_config m) →
  mux_inv (let '(id, m1) := allocID m in (newStream m1 id payload).2).
Proof.
  intros Hmax I Hlim. pose proof (ci_u32 _ _ _ _ _ _ _ _ I) as [H7 H8].
  pose proof (ci_ids _ _ _ _ _ _ _ _ I) as H6.
  assert (0 <= start_id (m_role m)) as H0 by (by destruct (m_role m)).
  unfold allocID. destruct (last (m_freeIDs m)) as [id|] eqn:Hlast.
  - apply last_Some in Hlast as [free Hfree].
    assert (take (length (m_freeIDs m) - 1) (m_freeIDs m) = free) as ->
      by (by rewrite Hfree, length_app, Nat.add_sub, take_app_length).
    rewrite Hfree in *. apply (inv_newStream m id payload (m_nextStreamID m) free); try done.
    + apply H8. set_solver.
    + intros i Hi. apply H8. set_solver.
    + intros Hc. by eapply ids_alloc_recycled, H6.
  - apply last_None in Hlast.
    apply (inv_newStream m (m_nextStreamID m) payload _ (m_freeIDs m)); try done.
    + apply u32_range.
    + intros Hc. rewrite Hlast in *. by apply ids_alloc_new; [apply H6|..].
Qed.

Lemma inv_OpenStream_begin m payload r m' :
  start_id (m_role m) + 2 * MaxConcurrentStreams (m_config m) < 2 ^ 32 →
  mux_inv m → OpenStream_begin m payload = Ok (r, m') → mux_inv m'.
Proof.
  intros Hmax I (_ & Hlim & id & m1 & m2 & E1 & E2 & ->)%OpenStream_begin_ok.
  pose proof (inv_allocID m [] Hmax I Hlim) as K. rewrite E1, E2 in K. exact K.
Qed.

Lemma inv_handleStreamOpen m f : is_u32 (StreamID f) → mux_inv m → mux_inv (handleStreamOpen m f).
Proof.
  intros Hu I. unfold handleStreamOpen. destruct (has_flag _ _); [by case_match|].
  unfold acceptPeerOpen. destruct (m_streams m !! StreamID f) eqn:Hid; [done|].
  destruct (ownsID m (StreamID f)) eqn:Hown; [done|].
  pose proof (ci_u32 _ _ _ _ _ _ _ _ I) as [Hn Hf].
  assert (mux_inv (newStream m (StreamID f) (Payload f)).2) as K; [|exact K].
  apply (inv_newStream m _ _ _ _ I Hu Hn Hf). intros Hc. split; [done|].
  apply ids_alloc_peer; [by apply (ci_ids _ _ _ _ _ _ _ _ I)|].
  revert Hown. unfold ownsID. by case_bool_decide.
Qed.

(** What the read loop finds in the map is live, or the session is closed. *)
Lemma inv_lookup m id r :
  mux_inv m → m_streams m !! id = Some r →
  ∃ s, m_heap m !! r = Some s ∧ s_id s = id ∧ (is_terminal s = false ∨ m_closeCh m = true).
Proof.
  intros I Hid. destruct (ci_streams _ _ _ _ _ _ _ _ I _ _ Hid) as (s & Hr & Hs).
  exists s. split_and!; [done..|]. destruct (m_closeCh m) eqn:Hc; [by right|left].
  by eapply (ci_live _ _ _ _ _ _ _ _ I Hc).
Qed.

Lemma inv_handleStreamClose m f : mux_inv m → mux_inv (handleStreamClose m f).
Proof.
  intros I. unfold handleStreamClose. destruct (m_streams m !! StreamID f) as [r|] eqn:Hid; [|done].
  destruct (inv_lookup m _ _ I Hid) as (s & Hr & <- & Hl).
  unfold upd_stream. rewrite (alter_lookup _ _ s) by done.
  eapply inv_maybeRemove; [done..| |done]. by apply sstep_remote_close.
Qed.

Lemma inv_handleStreamData m f : mux_inv m → mux_inv (handleStreamData m f).
Proof.
  intros I. unfold handleStreamData, deliverData. destruct (m_streams m !! StreamID f) as [r|] eqn:Hid; [|done].
  destruct (inv_lookup m _ _ I Hid) as (s & Hr & <- & Hl). cbn zeta.
  set (m1 := if bool_decide _ then _ else _).
  assert (∃ s1, mux_inv m1 ∧ m_heap m1 !! r = Some s1 ∧ s_id s1 = s_id s ∧
                m_closeCh m1 = m_closeCh m ∧ is_terminal s1 = is_terminal s)
    as (s1 & I1 & Hr1 & <- & Hc1 & Ht1).
  { unfold m1. case_bool_decide; [|by exists s].
    exists (Deliver s (Payload f)). unfold upd_stream. rewrite (alter_lookup _ _ s) by done.
    split; [by eapply inv_step_keep; [..|by apply sstep_deliver|]|].
    cbn [m_heap set_heap]. by rewrite lookup_insert_eq. }
  rewrite <-Hc1, <-Ht1 in Hl. clearbody m1. case_match; [|done].
  unfold upd_stream. rewrite (alter_lookup _ _ s1) by done.
  eapply inv_maybeRemove; [done..| |done]. by apply sstep_remote_close.
Qed.

Lemma StreamReset_closeCh m r code : m_closeCh (StreamReset m r code) = m_closeCh m.
Proof.
  unfold StreamReset. destruct (m_heap m !! r) as [s|]; [|done].
  destruct (Stream.Reset s) as [s' []]; [|done]. unfold onReset, deleteStream, freeID.
  cbn. repeat case_match; done.
Qed.

(** After the reset of an active stream its map entry is gone. *)
Lemma StreamReset_removes m r s code :
  mux_inv m → m_closeCh m = false → m_heap m !! r = Some s → is_terminal s = false →
  m_streams (StreamReset m r code) = delete (s_id s) (m_streams m).
Proof.
  intros I Hc Hr Hl. unfold StreamReset. rewrite Hr.
  destruct (reset_live s) as (s' & -> & _); [by eapply (ci_obj _ _ _ _ _ _ _ _ I)|done|].
  unfold onReset, deleteStream, freeID. cbn. rewrite Hc.
  rewrite (ci_map _ _ _ _ _ _ _ _ I Hc _ _ Hr Hl). by case_bool_decide.
Qed.

Lemma inv_handleStreamReset m f :
  is_u32 (StreamID f) → mux_inv m → mux_inv (handleStreamReset m f).
Proof.
  intros Hu I. unfold handleStreamReset. destruct (m_streams m !! StreamID f) as [r|] eqn:Hid; [|done].
  destruct (inv_lookup m _ _ I Hid) as (s & Hr & Es & Hl). cbn zeta.
  set (code := if bool_decide _ then _ else _). clearbody code.
  pose proof (inv_StreamReset m r code I) as I1.
  destruct (m_closeCh m) eqn:Hc.
  - case_match; [|done]. apply inv_delete_closed; [done|by rewrite StreamReset_closeCh|done].
  - destruct Hl as [Hl|]; [|done]. rewrite (StreamReset_removes m r s), Es by done.
    by rewrite lookup_delete_eq.
Qed.

Lemma inv_handleWindowUpdate m f : mux_inv m → mux_inv (handleWindowUpdate m f).
Proof.
  intros I. unfold handleWindowUpdate. do 2 (case_bool_decide; [done|]).
  destruct (m_streams m !! StreamID f) as [r|] eqn:Hid; [|done].
  destruct (inv_lookup m _ _ I Hid) as (s & Hr & _). unfold upd_stream.
  rewrite (alter_lookup _ _ s) by done. apply (core_update I r s); try done.
  destruct (ci_obj _ _ _ _ _ _ _ _ I _ _ Hr) as ([] & ? & ? & ?). by split.
Qed.

Lemma inv_handleFrame m f : is_u32 (StreamID f) → mux_inv m → mux_inv (handleFrame m f).
Proof.
  intros Hu I. unfold handleFrame.
  repeat case_decide; auto using inv_handleStreamOpen, inv_handleStreamData,
    inv_handleStreamClose, inv_handleStreamReset, inv_handleWindowUpdate.
  - unfold handlePong. by case_match.
  - unfold handleServiceList. by case_match.
Qed.

Lemma inv_drainStream m r c m' : mux_inv m → drainStream m r c = Some m' → mux_inv m'.
Proof.
  intros I. unfold drainStream. destruct (m_heap m !! r) as [s|] eqn:Hr; [|done].
  assert (∀ p rest, writeOut s = p :: rest →
            mux_inv (set_heap (<[r := set_writeOut rest s]> (m_heap m)) m)) as Hchunk.
  { intros p rest Hw. by eapply inv_step_keep; [..|by eapply sstep_take_chunk|]. }
  assert (finCh s = true → mux_inv (set_heap (<[r := set_finCh false s]> (m_heap m)) m)) as Hfin.
  { intros Hf. by eapply inv_step_keep; [..|by eapply sstep_take_fin|]. }
  destruct (m_drain m !! r) as [pc|]; [|done].
  destruct c, pc; try done; repeat case_match; try done; intros [= <-];
    try exact I; try (by eapply Hchunk); by apply Hfin.
Qed.

(** ** The invariant of every reachable session *)

Definition same_setup (m m' : MuxSession) : Prop :=
  m_config m' = m_config m ∧ m_role m' = m_role m.

#[export] Instance same_setup_preorder : PreOrder same_setup.
Proof. split; [by split|]. intros ? ? ? [] []. split; congruence. Qed.

Lemma deleteStream_setup m id : same_setup m (deleteStream m id).
Proof. unfold deleteStream, freeID. by case_bool_decide. Qed.

Lemma StreamReset_setup m r code : same_setup m (StreamReset m r code).
Proof.
  unfold StreamReset. case_match; [|done]. destruct (Stream.Reset _) as [s' []]; [|done].
  unfold onReset. repeat case_match; try done. etrans; [|apply deleteStream_setup]. done.
Qed.

Lemma maybeRemoveStream_setup m id r : same_setup m (maybeRemoveStream m id r).
Proof. unfold maybeRemoveStream. repeat case_match; try done. apply deleteStream_setup. Qed.

Lemma StreamClose_setup m r : same_setup m (StreamClose m r).
Proof.
  unfold StreamClose. case_match; [|done]. destruct (Stream.Close _) as [s' []]; [|done].
  unfold onLocalClose. etrans; [|apply maybeRemoveStream_setup]. done.
Qed.

Lemma Close_setup m : same_setup m (Close m).
Proof.
  unfold Close. case_match; [done|]. cbn zeta. set (m1 := set_writeQueue _ _).
  assert (same_setup m m1) as H1 by done. revert H1. clearbody m1. intros H1.
  generalize (map_to_list (m_streams m1)).*2. intros l.
  assert (same_setup m (foldr (λ r acc, StreamReset acc r 0) m1 l)) as K; [|exact K].
  induction l; cbn [foldr]; [done|]. etrans; [done|]. apply StreamReset_setup.
Qed.

Lemma handleFrame_setup m f : same_setup m (handleFrame m f).
Proof.
  unfold handleFrame. repeat case_decide; try done.
  - unfold handleStreamOpen, acceptPeerOpen. repeat (case_match; simplify_eq; try done).
  - unfold handleStreamData, deliverData. case_match; [|done].
    case_match; [etrans; [|apply maybeRemoveStream_setup]|]; by case_match.
  - unfold handleStreamClose. case_match; [|done].
    etrans; [|apply maybeRemoveStream_setup]. done.
  - unfold handleStreamReset. case_match; [|done]. cbn zeta.
    generalize (if bool_decide (zlen (Payload f) >= 4) then Uint32 (take 4 (Payload f)) else 0).
    intros code. case_match; [etrans; [|apply deleteStream_setup]|]; apply StreamReset_setup.
  - unfold handlePong. by case_match.
  - unfold handleWindowUpdate. by repeat case_match.
  - unfold handleServiceList. by case_match.
Qed.

Lemma removeStream_setup m id : same_setup m (removeStream m id).
Proof.
  unfold removeStream. case_match; [|done].
  etrans; [apply deleteStream_setup|apply StreamReset_setup].
Qed.

Lemma drainStream_setup m r c m' : drainStream m r c = Some m' → same_setup m m'.
Proof. unfold drainStream. repeat case_match; try done; by intros [= <-]. Qed.

Lemma mstep_setup m e m' : mstep m e m' → same_setup m m'.
Proof.
  destruct 1; subst; try done; eauto using StreamClose_setup, StreamReset_setup, Close_setup,
    handleFrame_setup, drainStream_setup.
  - apply OpenStream_begin_ok in H as (_ & _ & id & m1 & m2 & E1 & [= <- <-] & ->).
    assert (same_setup m m1) as K; [|exact K].
    revert E1. unfold allocID. case_match; by intros [= <- <-].
  - etrans; [|apply removeStream_setup]. done.
  - unfold AcceptStream in H. case_match; [done|]. by simplify_eq.
  - unfold deliverAccept in H. repeat case_match; by simplify_eq.
  - apply (Close_setup m).
  - etrans; [|apply Close_setup]. done.
  - unfold Ping_end in H. case_match; by simplify_eq.
  - unfold SendServiceList. by repeat case_match.
Qed.

(** The number of streams fits in the ID space of the role. *)
Definition fits_ids (role : MuxRole) (config : MuxConfig) : Prop :=
  start_id role + 2 * MaxConcurrentStreams config < 2 ^ 32.

Lemma mstep_inv m e m' :
  fits_ids (m_role m) (m_config m) → mux_inv m → mstep m e m' → mux_inv m'.
Proof.
  intros Hfit I. destruct 1; subst; auto using inv_StreamClose, inv_StreamReset, inv_Close.
  - eauto using inv_OpenStream_begin.
  - by apply inv_removeStream.
  - unfold AcceptStream in H. case_match; [done|]. by simplify_eq.
  - apply inv_handleFrame; [|done]. apply H0.
  - unfold deliverAccept in H. repeat case_match; by simplify_eq.
  - by apply inv_Close.
  - by eapply inv_step_keep; [..|by eapply sstep_write|].
  - by eapply inv_step_keep; [..|by eapply sstep_read|].
  - by eapply inv_drainStream.
  - destruct I as [H1 H2 H3 H4 H5 H6 H7]. split; try done.
    intros r s Hr. apply H1 in Hr. cbn. lia.
  - unfold Ping_end in H. case_match; by simplify_eq.
  - unfold SendServiceList. by repeat case_match.
Qed.

Lemma NewMuxSession_inv role config : mux_inv (NewMuxSession role config).
Proof.
  split; cbn; try done.
  - intros _. split; try done; cbn.
    + apply NoDup_nil_2.
    + destruct role; cbn; lia.
    + by intros id ?%not_elem_of_nil.
    + intros id _. rewrite lookup_empty, elem_of_nil. split; [|by intros [[]|[]]].
      destruct role; cbn; lia.
  - split; [by destruct role|]. by intros id ?%not_elem_of_nil.
Qed.

Lemma reachable_setup role config es m :
  reachable role config es m → m_role m = role ∧ m_config m = config.
Proof.
  unfold reachable. remember (NewMuxSession role config) as m0 eqn:E. induction 1; [by subst|].
  destruct (IHmsteps E). apply mstep_setup in H0 as []. split; congruence.
Qed.

Lemma reachable_inv role config es m :
  fits_ids role config → reachable role config es m → mux_inv m.
Proof.
  intros Hfit. unfold reachable. remember (NewMuxSession role config) as m0 eqn:E.
  induction 1; subst; [apply NewMuxSession_inv|].
  destruct (reachable_setup role config es m1) as [<- <-]; [done|].
  eapply mstep_inv; eauto.
Qed.

#[export] Hint Resolve reachable_inv mstep_inv : atlax.

(** ** What the invariant says to the clients of a session *)

Section table.
Context {role : MuxRole} {config : MuxConfig} {es : list mlabel} {m : MuxSession}.
Context (Hfit : fits_ids role config) (Hrun : reachable role config es m).
Context (Hopen : m_closeCh m = false).

Lemma table_ids :
  ids_inv (MaxConcurrentStreams config) (start_id role) (m_streams m) (m_nextStreamID m) (m_freeIDs m).
Proof using Hfit Hrun Hopen.
  destruct (reachable_setup _ _ _ _ Hrun) as [E1 E2].
  pose proof (reachable_inv _ _ _ _ Hfit Hrun) as I. rewrite <-E1, <-E2.
  by apply (ci_ids _ _ _ _ _ _ _ _ I).
Qed.

Lemma table_live id r :
  m_streams m !! id = Some r ↔
  ∃ s, m_heap m !! r = Some s ∧ s_id s = id ∧ is_terminal s = false.
Proof using Hfit Hrun Hopen.
  pose proof (reachable_inv _ _ _ _ Hfit Hrun) as I. split.
  - intros Hid. destruct (inv_lookup m id r I Hid) as (s & Hr & Hs & [Hl|]); [by eauto|congruence].
  - intros (s & Hr & <- & Hl). by apply (ci_map _ _ _ _ _ _ _ _ I).
Qed.
End table.

(** The active IDs of a parity. *)
Definition local_ids (role : MuxRole) (m : MuxSession) : list Z :=
  filter (λ id, id mod 2 = start_id role mod 2) (elements (dom (m_streams m))).

(** Every ID ever handed out is active or recycled, once. *)
Lemma ids_account role max m :
  ids_inv max (start_id role) (m_streams m) (m_nextStreamID m) (m_freeIDs m) →
  m_freeIDs m ++ local_ids role m ≡ₚ
  (λ k, start_id role + 2 * k) <$> seqZ 0 ((m_nextStreamID m - start_id role) / 2).
Proof.
  intros [N1 N2 N3 N4 N5 N6]. apply NoDup_Permutation.
  - apply NoDup_app. split_and!; [done| |apply NoDup_filter, NoDup_elements].
    intros id Hf. destruct (N5 _ Hf) as [_ Hn]. unfold local_ids.
    intros [_ He%elem_of_elements%elem_of_dom]%list_elem_of_filter.
    rewrite Hn in He. by apply is_Some_None in He.
  - apply NoDup_fmap_2; [intros ? ?; lia|apply NoDup_seqZ].
  - intros id. unfold local_ids.
    rewrite elem_of_app, list_elem_of_filter, elem_of_elements, elem_of_dom, list_elem_of_fmap.
    split.
    + intros H. assert (id mod 2 = start_id role mod 2) as Hp by naive_solver.
      assert (start_id role <= id < m_nextStreamID m) by (apply N6; naive_solver).
      exists ((id - start_id role) / 2). rewrite elem_of_seqZ.
      Z.to_euclidean_division_equations. lia.
    + intros (k & -> & Hk%elem_of_seqZ).
      assert ((start_id role + 2 * k) mod 2 = start_id role mod 2) as Hp
        by (by rewrite Z.mul_comm, Z_mod_plus_full).
      destruct (N6 _ Hp) as [[?|?] _]; [|naive_solver..].
      Z.to_euclidean_division_equations. lia.
Qed.

(** C4. As long as a session is not closed, whatever calls, frames and
    goroutine steps it went through, each call one step, its stream table holds
    exactly the stream objects that are neither closed nor reset, each under
    its own ID. (MuxRace has what happens inside Close of a stream.) *)
Theorem mux_table_exact role config es m id r :
  fits_ids role config → reachable role config es m → m_closeCh m = false →
  m_streams m !! id = Some r ↔
  ∃ s, m_heap m !! r = Some s ∧ s_id s = id ∧ is_terminal s = false.
Proof. intros Hfit Hrun Hopen. by apply (table_live Hfit Hrun). Qed.

(** C5. No stream ID is lost or handed out twice when each call runs as one
    step: in every reachable open session the recycled IDs and the active IDs of the local parity are
    together, each exactly once, the IDs allocated so far; and no more than
    MaxConcurrentStreams of them are ever allocated, so that with a limit that
    fits the ID space nextStreamID never wraps around. *)
Theorem mux_ids_accounted role config es m :
  fits_ids role config → reachable role config es m → m_closeCh m = false →
  m_freeIDs m ++ local_ids role m ≡ₚ
    (λ k, start_id role + 2 * k) <$> seqZ 0 ((m_nextStreamID m - start_id role) / 2) ∧
  Z.of_nat (length (local_ids role m)) <= Z.max 0 (MaxConcurrentStreams config) ∧
  m_nextStreamID m <= start_id role + 2 * Z.max 0 (MaxConcurrentStreams config).
Proof.
  intros Hfit Hrun Hopen. pose proof (table_ids Hfit Hrun Hopen) as Hi.
  pose proof (ids_account role _ m Hi) as Hp. destruct Hi as [_ _ Hs Hb _ _].
  split_and!; [done| |done]. apply Permutation_length in Hp.
  rewrite length_app, length_fmap, length_seqZ in Hp.
  Z.to_euclidean_division_equations. lia.
Qed.

(** The ID allocID hands out is a fresh one of the local parity. *)
Lemma allocID_fresh role config es m id m1 :
  fits_ids role config → reachable role config es m → m_closeCh m = false →
  NumStreams m < MaxConcurrentStreams config → allocID m = (id, m1) →
  id mod 2 = start_id role mod 2 ∧ start_id role <= id < 2 ^ 32 ∧ m_streams m !! id = None.
Proof.
  intros Hfit Hrun Hopen Hlim. pose proof (table_ids Hfit Hrun Hopen) as Hi.
  assert (0 <= start_id role) as H0 by (by destruct role). unfold fits_ids in Hfit.
  assert (∀ i, i < m_nextStreamID m → i < 2 ^ 32) as Hlt
    by (destruct Hi; unfold NumStreams in Hlim; intros; lia).
  unfold allocID. destruct (last (m_freeIDs m)) as [i|] eqn:E; intros [= <- <-].
  - apply last_Some in E as [free E]. destruct Hi as [_ _ _ _ Hf Ha].
    destruct (Hf i) as [Hp Hn]; [rewrite E; set_solver|]. split; [done|]. split; [|done].
    assert (start_id role <= i < m_nextStreamID m); [|naive_solver].
    apply Ha; [done|]. left. rewrite E. set_solver.
  - apply last_None in E. rewrite E in Hi. pose proof (ids_count Hi).
    destruct (ids_alloc_new 0 Hi) as [Hn _]; [done|apply Hlim|done|].
    destruct Hi. unfold NumStreams in Hlim. split_and!; [done..|lia|done].
Qed.

Lemma allocID_frame m id m1 :
  allocID m = (id, m1) →
  m1 = set_nextStreamID (m_nextStreamID m1) (set_freeIDs (m_freeIDs m1) m).
Proof. unfold allocID. case_match; intros [= <- <-]; by destruct m. Qed.

(** What a successful OpenStream leaves behind when it reaches its select. *)
Lemma OpenStream_fields role config es m payload r m' :
  fits_ids role config → reachable role config es m → m_closeCh m = false →
  OpenStream_begin m payload = Ok (r, m') →
  m_goingAway m = false ∧ NumStreams m < MaxConcurrentStreams config ∧
  m_closeCh m' = false ∧
  ∃ id, id mod 2 = start_id role mod 2 ∧ start_id role <= id < 2 ^ 32 ∧
    m_streams m !! id = None ∧ m_streams m' = <[id := r]> (m_streams m) ∧
    m_heap m !! r = None ∧
    m_heap m' = <[r := opened id (mkStreamConfig (InitialStreamWindow config) 0) []]> (m_heap m) ∧
    m_pendingOpen m' = <[id := r]> (m_pendingOpen m) ∧
    m_drain m' = <[r := DrainLoop]> (m_drain m) ∧
    m_writeQueue m' = Enqueue (m_writeQueue m) (open_frame id payload) PriorityData.
Proof.
  intros Hfit Hrun Hopen E. destruct (reachable_setup _ _ _ _ Hrun) as [E1 E2].
  apply OpenStream_begin_ok in E as (Hg & Hlim & id & m1 & m2 & Ha & [= <- <-] & ->).
  rewrite E2 in Hlim. split; [done|]. split; [done|].
  destruct (allocID_fresh _ _ _ _ _ _ Hfit Hrun Hopen Hlim Ha) as (Hp & Hr & Hn).
  rewrite (allocID_frame _ _ _ Ha), <-E2. split; [done|]. exists id. split_and!; try done; try lia.
  destruct (m_heap m !! m_fresh m) eqn:Eh; [|done].
  apply (ci_fresh _ _ _ _ _ _ _ _ (reachable_inv _ _ _ _ Hfit Hrun)) in Eh. lia.
Qed.

(** C27. OpenStream on an open session, on every branch: after a GOAWAY it
    fails with ErrGoAway; with MaxConcurrentStreams active streams it fails
    with ErrMaxStreamsExceeded; otherwise it picks an ID of its own parity that
    no active stream has, enters a new open stream under it, registers it for
    the acknowledgement, starts its drain goroutine, and queues exactly its
    STREAM_OPEN frame. *)
Theorem open_stream_branches role config es m payload :
  fits_ids role config → reachable role config es m → m_closeCh m = false →
  match OpenStream_begin m payload with
  | Err e =>
      e = ErrGoAway ∧ m_goingAway m = true ∨
      e = ErrMaxStreamsExceeded ∧ m_goingAway m = false ∧
        MaxConcurrentStreams config <= NumStreams m
  | Ok (r, m') =>
      m_goingAway m = false ∧ NumStreams m < MaxConcurrentStreams config ∧
      ∃ id, id mod 2 = start_id role mod 2 ∧ start_id role <= id < 2 ^ 32 ∧
        m_streams m !! id = None ∧ m_streams m' = <[id := r]> (m_streams m) ∧
        m_heap m !! r = None ∧
        m_heap m' = <[r := opened id (mkStreamConfig (InitialStreamWindow config) 0) []]> (m_heap m) ∧
        m_pendingOpen m' = <[id := r]> (m_pendingOpen m) ∧
        m_drain m' = <[r := DrainLoop]> (m_drain m) ∧
        m_writeQueue m' = Enqueue (m_writeQueue m) (open_frame id payload) PriorityData
  end.
Proof.
  intros Hfit Hrun Hopen. destruct (reachable_setup _ _ _ _ Hrun) as [E1 E2].
  destruct (OpenStream_begin m payload) as [[r m']|e] eqn:E.
  - by destruct (OpenStream_fields _ _ _ _ _ _ _ Hfit Hrun Hopen E) as (? & ? & _ & ?).
  - revert E. unfold OpenStream_begin. rewrite E2. destruct (m_goingAway m); [naive_solver|].
    case_bool_decide; [intros [= <-]; right; split_and!; [done..|lia]|].
    destruct (allocID m); by destruct (newStream _ _ _).
Qed.
