(* ===== verification/MuxOps.v ===== *)
(** * What the operations of a session do

    Isolation of the frame handlers, opens by the peer, closing, the service
    list, flushAndFIN against the steps of its goroutine, and that a closed
    session stays closed. *)

From Stdlib Require Import ZArith Lia.
From S2P Require Import Prelude Frame Window WriteQueue Stream Mux MuxInv.

(** ** Which streams an operation can touch

    [touches id m m']: [m'] differs from [m] at most in the stream with that
    ID, in the map entry of that ID, and in objects that are new. *)

Definition touches (id : Z) (m m' : MuxSession) : Prop :=
  (∀ i, i ≠ id → m_streams m' !! i = m_streams m !! i) ∧
  (∀ r s, m_heap m !! r = Some s → s_id s ≠ id → m_heap m' !! r = Some s).

Lemma touches_refl id m : touches id m m.
Proof. by split. Qed.

Lemma touches_trans id m1 m2 m3 : touches id m1 m2 → touches id m2 m3 → touches id m1 m3.
Proof.
  intros [Hs1 Hh1] [Hs2 Hh2]. split; [|by eauto]. intros i Hi. by rewrite Hs2, Hs1.
Qed.

#[export] Instance touches_preorder id : PreOrder (touches id).
Proof. split; [intros m; apply touches_refl|intros m1 m2 m3; apply touches_trans]. Qed.

Lemma touches_deleteStream m id : touches id m (deleteStream m id).
Proof.
  unfold deleteStream, freeID. case_bool_decide; (split; [|done]); intros i Hi; cbn;
    by rewrite lookup_delete_ne.
Qed.

Lemma touches_heap m r s s' :
  m_heap m !! r = Some s → touches (s_id s) m (set_heap (<[r := s']> (m_heap m)) m).
Proof.
  intros Hr. split; [done|]. intros r' s0 Hr' Hne. cbn.
  rewrite lookup_insert_ne; [done|]. intros ->. by simplify_eq.
Qed.

Lemma touches_maybeRemove m id r : touches id m (maybeRemoveStream m id r).
Proof.
  unfold maybeRemoveStream. repeat case_match; try done. apply touches_deleteStream.
Qed.

Lemma touches_onReset m id code : touches id m (onReset m id code).
Proof.
  unfold onReset. repeat case_match; try done. apply (touches_deleteStream m id).
Qed.

Lemma touches_StreamReset m r s code :
  m_heap m !! r = Some s → touches (s_id s) m (StreamReset m r code).
Proof.
  intros Hr. unfold StreamReset. rewrite Hr. destruct (Stream.Reset s) as [s' []].
  - etrans; [by eapply touches_heap|]. apply touches_onReset.
  - by eapply touches_heap.
Qed.

Lemma touches_upd m r s f : m_heap m !! r = Some s → touches (s_id s) m (upd_stream r f m).
Proof.
  intros Hr. unfold upd_stream. rewrite (alter_lookup _ _ s) by done. by apply touches_heap.
Qed.

Lemma touches_newStream m id p :
  (∀ r s, m_heap m !! r = Some s → (r < m_fresh m)%nat) → touches id m (newStream m id p).2.
Proof.
  intros Hf. split.
  - intros i Hi. cbn. by rewrite lookup_insert_ne.
  - intros r s Hr Hne. cbn. apply Hf in Hr as Hlt. rewrite lookup_insert_ne by lia. done.
Qed.

(** C8. A frame concerns only the stream it names: in every reachable
    session, handling any frame the codec can produce leaves the table entries
    of all other IDs and the objects of all other streams exactly as they
    were, whatever the frame's command, flags and payload. *)
Theorem frame_isolation role config es m f :
  fits_ids role config → reachable role config es m → frame_typed f →
  touches (StreamID f) m (handleFrame m f).
Proof.
  intros Hfit Hrun Hf. pose proof (reachable_inv _ _ _ _ Hfit Hrun) as I.
  unfold handleFrame. repeat case_decide; try done.
  - unfold handleStreamOpen, acceptPeerOpen. destruct (has_flag _ _); [by case_match|].
    destruct (m_streams m !! StreamID f); [done|]. destruct (ownsID m (StreamID f)); [done|].
    apply (touches_newStream m (StreamID f) (Payload f)). apply (ci_fresh _ _ _ _ _ _ _ _ I).
  - unfold handleStreamData, deliverData. destruct (m_streams m !! StreamID f) as [r|] eqn:Hid; [|done].
    destruct (inv_lookup m _ _ I Hid) as (s & Hr & <- & _). cbn zeta. set (m1 := if bool_decide _ then _ else _).
    assert (∃ s1, m_heap m1 !! r = Some s1 ∧ s_id s1 = s_id s ∧ touches (s_id s) m m1)
      as (s1 & Hr1 & <- & Hm1).
    { unfold m1. case_bool_decide; [|by exists s]. exists (Deliver s (Payload f)).
      split_and!; [|done|by eapply touches_upd].
      cbn [m_heap upd_stream set_heap]. by rewrite lookup_alter_eq, Hr. }
    clearbody m1. case_match; [|done]. etrans; [done|].
    etrans; [by eapply touches_upd|]. apply touches_maybeRemove.
  - unfold handleStreamClose. destruct (m_streams m !! StreamID f) as [r|] eqn:Hid; [|done].
    destruct (inv_lookup m _ _ I Hid) as (s & Hr & <- & _).
    etrans; [by eapply touches_upd|]. apply touches_maybeRemove.
  - unfold handleStreamReset. destruct (m_streams m !! StreamID f) as [r|] eqn:Hid; [|done].
    destruct (inv_lookup m _ _ I Hid) as (s & Hr & <- & _). cbn zeta.
    generalize (if bool_decide (zlen (Payload f) >= 4) then Uint32 (take 4 (Payload f)) else 0).
    intros code. case_match; [etrans; [|apply touches_deleteStream]|]; by apply touches_StreamReset.
  - unfold handlePong. by case_match.
  - unfold handleWindowUpdate. do 2 (case_bool_decide; [done|]).
    destruct (m_streams m !! StreamID f) as [r|] eqn:Hid; [|done].
    destruct (inv_lookup m _ _ I Hid) as (s & Hr & <- & _). by apply touches_upd.
  - unfold handleServiceList. by case_match.
Qed.

(** ** Opens by the peer *)

(** C28. A STREAM_OPEN from the peer, on every branch, in an open session: for
    an active ID it changes nothing; for an inactive ID of the local parity it
    only queues STREAM_RESET with the protocol-error code; for an inactive ID
    of the peer's parity it enters exactly one new open stream carrying the
    frame's payload, queues its acknowledgement, and is about to hand it to
    AcceptStream. In no case does it use up or free a local ID. *)
Theorem peer_open_branches role config es m f :
  fits_ids role config → reachable role config es m → m_closeCh m = false →
  has_flag (Flags f) FlagACK = false →
  let m' := handleStreamOpen m f in
  let id := StreamID f in
  m_freeIDs m' = m_freeIDs m ∧ m_nextStreamID m' = m_nextStreamID m ∧
  (if bool_decide (is_Some (m_streams m !! id)) then m' = m
   else if bool_decide (id mod 2 = start_id role mod 2)
   then m' = enqueue m (reset_frame id ResetCodeProtocolError) PriorityControl
   else ∃ r, m_heap m !! r = None ∧ m_streams m' = <[id := r]> (m_streams m) ∧
          m_heap m' = <[r := opened id (mkStreamConfig (InitialStreamWindow config) 0) (Payload f)]> (m_heap m) ∧
          m_drain m' = <[r := DrainLoop]> (m_drain m) ∧ m_reader m' = ReadDelivering r ∧
          m_writeQueue m' = Enqueue (m_writeQueue m) (ack_frame id) PriorityData).
Proof.
  intros Hfit Hrun Hopen Hack. destruct (reachable_setup _ _ _ _ Hrun) as [_ E2].
  pose proof (reachable_inv _ _ _ _ Hfit Hrun) as I.
  destruct (table_ids Hfit Hrun Hopen) as [_ Hpar _ _ _ _].
  cbn zeta. unfold handleStreamOpen, acceptPeerOpen, ownsID. rewrite Hack.
  destruct (m_streams m !! StreamID f) as [r|] eqn:Hid.
  { by rewrite bool_decide_eq_true_2 by eauto. }
  rewrite (bool_decide_eq_false_2 (is_Some None)) by apply is_Some_None.
  rewrite Hpar. case_bool_decide; [done|]. split; [done|]. split; [done|].
  exists (m_fresh m). rewrite <-E2. split_and!; try done.
  destruct (m_heap m !! m_fresh m) eqn:Eh; [|done].
  apply (ci_fresh _ _ _ _ _ _ _ _ I) in Eh. lia.
Qed.

(** ** Closing *)

Lemma reset_is_terminal s : is_terminal (Stream.Reset s).1 = true.
Proof.
  unfold Stream.Reset, Reset_locked, Reset_notify, is_terminal.
  destruct s as [? ? []]; cbn; repeat case_match; done.
Qed.

Lemma reset_idempotent s : (Stream.Reset (Stream.Reset s).1).1 = (Stream.Reset s).1.
Proof. by rewrite reset_terminal by apply reset_is_terminal. Qed.

Lemma StreamReset_heap_closed m a code :
  m_closeCh m = true →
  m_heap (StreamReset m a code) = alter (λ s, (Stream.Reset s).1) a (m_heap m).
Proof.
  intros Hc. unfold StreamReset. destruct (m_heap m !! a) as [s|] eqn:Ea.
  - rewrite (alter_lookup _ _ s) by done. destruct (Stream.Reset s) as [s' []]; [|done].
    unfold onReset. cbn. by rewrite Hc.
  - apply map_eq. intros i. rewrite lookup_alter. case_decide; subst; by rewrite ?Ea.
Qed.

(** What the resets of a closed session add up to. *)
Lemma close_resets l m :
  m_closeCh m = true →
  let m' := foldr (λ r acc, StreamReset acc r 0) m l in
  m_closeCh m' = true ∧ m_writeQueue m' = m_writeQueue m ∧
  ∀ r, m_heap m' !! r =
       if decide (r ∈ l) then (λ s, (Stream.Reset s).1) <$> m_heap m !! r else m_heap m !! r.
Proof.
  intros Hc. induction l as [|a l (IHc & IHq & IHh)]; cbn [foldr]; cbn zeta; [done|].
  set (m1 := foldr _ m l) in *. destruct (StreamReset_closed m1 a 0 IHc) as [h Eh].
  split_and!; [by rewrite Eh..|]. intros r.
  rewrite (StreamReset_heap_closed m1 a 0 IHc), lookup_alter.
  destruct (decide (a = r)) as [->|].
  - rewrite (decide_True (P := r ∈ r :: l)) by set_solver. rewrite IHh.
    case_decide; [|done]. destruct (m_heap m !! r); [|done]. cbn. by rewrite reset_idempotent.
  - rewrite IHh. destruct (decide (r ∈ l));
      [rewrite decide_True by set_solver|rewrite decide_False by set_solver]; done.
Qed.

(** A terminal stream blocks nobody. *)
Lemma terminal_unblocks s :
  stream_inv s → is_terminal s = true →
  (∀ n, Read s n ≠ ReadWait) ∧ (∀ p, Stream.Write s p = WriteErr).
Proof.
  intros _ Ht. split; intros x; unfold Read, Stream.Write, isReadClosed, isWriteClosed, is_terminal in *;
    destruct (s_state s); try done; by destruct (readBuf s).
Qed.

(** Close of an open session, whichever streams are active: the table is
    empty, every stream object is closed or reset so that no Read of it waits
    and every Write of it fails, the write queue is closed with the frames it
    held and without a STREAM_RESET for any of the streams, and a second Close
    changes nothing. *)
Theorem mux_close_releases role config es m :
  fits_ids role config → reachable role config es m → m_closeCh m = false →
  m_closeCh (Close m) = true ∧ m_streams (Close m) = ∅ ∧
  m_writeQueue (Close m) = WriteQueue.Close (m_writeQueue m) ∧
  Close (Close m) = Close m ∧
  ∀ r s, m_heap (Close m) !! r = Some s →
    is_terminal s = true ∧ (∀ n, Read s n ≠ ReadWait) ∧ (∀ p, Stream.Write s p = WriteErr).
Proof.
  intros Hfit Hrun Hopen. pose proof (reachable_inv _ _ _ _ Hfit Hrun) as I.
  pose proof (inv_Close m I) as I'.
  assert (m_closeCh (Close m) = true ∧ m_streams (Close m) = ∅ ∧
          m_writeQueue (Close m) = WriteQueue.Close (m_writeQueue m) ∧
          ∀ r, m_heap (Close m) !! r =
            if decide (r ∈ (map_to_list (m_streams m)).*2)
            then (λ s, (Stream.Reset s).1) <$> m_heap m !! r else m_heap m !! r)
    as (Hc & Hs & Hq & Hh).
  { unfold Close. rewrite Hopen. cbn zeta.
    set (m1 := set_writeQueue _ _).
    destruct (close_resets (map_to_list (m_streams m1)).*2 m1 eq_refl) as (Hc & Hq & Hh).
    split_and!; [exact Hc|done|exact Hq|exact Hh]. }
  split_and!; [done..| |].
  - unfold Close at 1. by rewrite Hc.
  - intros r s Hr. assert (is_terminal s = true) as Ht.
    { rewrite Hh in Hr. case_decide as Hin.
      - apply fmap_Some in Hr as (s0 & _ & ->). apply reset_is_terminal.
      - destruct (is_terminal s) eqn:El; [done|]. destruct Hin.
        apply list_elem_of_fmap. exists (s_id s, r). split; [done|]. apply elem_of_map_to_list.
        by apply (ci_map _ _ _ _ _ _ _ _ I). }
    split; [done|]. apply terminal_unblocks; [|done].
    by eapply (ci_obj _ _ _ _ _ _ _ _ I').
Qed.

(** ** The service list *)

(** strings.Split undoes strings.Join when no word has the separator. *)
Lemma split_join ws : ws ≠ [] → Forall (λ w, x0a ∉ w) ws → split_on x0a (join_nl ws) = ws.
Proof.
  intros Hne Hw. induction ws as [|w [|w' ws] IH]; [done|..]; apply Forall_cons in Hw as [Hw Hws].
  - by apply split_on_word.
  - change (join_nl (w :: w' :: ws)) with (w ++ [x0a] ++ join_nl (w' :: ws)).
    by rewrite split_on_app, IH.
Qed.

Lemma join_nl_nil ws : Forall (λ w, w ≠ []) ws → join_nl ws = [] → ws = [].
Proof.
  destruct ws as [|w [|w' ws]]; [done|..]; intros [Hw _]%Forall_cons; cbn; [done|].
  by destruct w.
Qed.

Lemma handleFrame_services m f :
  FCommand f = CmdServiceList → handleFrame m f = handleServiceList m f.
Proof. intros E. unfold handleFrame. by rewrite E. Qed.

Definition no_newline (name : string) : Prop :=
  x0a ∉ bytes_of_string name ∧ x0d ∉ bytes_of_string name.

Lemma parseServiceList_join services :
  Forall (λ name, name ≠ "" ∧ no_newline name) services →
  (length services <= MaxServiceListCount)%nat →
  parseServiceList (join_nl (bytes_of_string <$> services)) = services.
Proof.
  intros Hs Hlen. unfold parseServiceList.
  assert (Forall (λ w, w ≠ [] ∧ x0a ∉ w) (bytes_of_string <$> services)) as Hw.
  { apply Forall_fmap. eapply Forall_impl; [done|]. intros name (Hn & Hnl & _). split; [|done].
    destruct name; [done|]. done. }
  destruct (join_nl (bytes_of_string <$> services)) as [|b l] eqn:E.
  { apply join_nl_nil in E; [by apply fmap_nil_inv in E as ->|].
    eapply Forall_impl; [done|]. naive_solver. }
  rewrite <-E, split_join.
  - rewrite length_fmap, bool_decide_eq_false_2 by lia.
    rewrite filter_all, <-list_fmap_compose.
    + rewrite <-(list_fmap_id services) at 2. apply list_fmap_ext. intros ? name _. 
      apply string_of_bytes_of_string.
    + eapply Forall_impl; [done|]. naive_solver.
  - intros En. by rewrite En in E.
  - eapply Forall_impl; [done|]. naive_solver.
Qed.

(** The service list: SendServiceList fails, and queues nothing, exactly
    when a name contains a newline or a carriage return or the joined list
    exceeds a frame; otherwise it queues one control frame, and a peer that
    handles this frame with an empty channel publishes the same list, when the
    names are not empty and at most MaxServiceListCount. *)
Theorem service_list_roundtrip m peer services :
  let payload := join_nl (bytes_of_string <$> services) in
  let '(m', res) := SendServiceList m services in
  (is_ok res = true ↔ Forall no_newline services ∧ zlen payload <= MaxPayloadSize) ∧
  (is_ok res = false → m' = m) ∧
  (is_ok res = true →
   ∃ f, m' = enqueue m f PriorityControl ∧ frame_ok f ∧
     (Forall (λ name, name ≠ "") services → (length services <= MaxServiceListCount)%nat →
      m_serviceListCh peer = None → m_serviceListCh (handleFrame peer f) = Some services)).
Proof.
  cbn zeta. unfold SendServiceList.
  destruct (list_find _ services) as [[i name]|] eqn:Hf.
  - apply list_find_Some in Hf as (Hi & Hbad & _). split_and!; [|done..]. split; [done|].
    intros [Hall _]. rewrite Forall_lookup in Hall. specialize (Hall _ _ Hi) as [? ?]. naive_solver.
  - apply list_find_None in Hf.
    assert (Forall no_newline services) as Hall.
    { eapply Forall_impl; [exact Hf|]. intros x Hx. unfold no_newline. naive_solver. }
    case_bool_decide as Hlen; (split_and!; [|done|]); [split; [done|lia]|done|split; [|done]|].
    { intros _. split; [done|lia]. }
    intros _. eexists. split_and!; [done|..].
    + split_and!; [done..|cbn; lia].
    + intros Hne Hcnt Hch. rewrite handleFrame_services by done.
      unfold handleServiceList. rewrite Hch. cbn. f_equal. apply parseServiceList_join; [|done]. apply Forall_and; done.
Qed.

(** ** flushAndFIN and the steps of its goroutine *)

(** The loop of flushAndFIN, by the steps of the drain goroutine: it takes a
    chunk while there is one, and the default case otherwise. *)
Fixpoint flush_loop (fuel : nat) (m : MuxSession) (r : nat) : option MuxSession :=
  match fuel with
  | O => None
  | S fuel' =>
      match m_heap m !! r with
      | None => None
      | Some s =>
          match writeOut s with
          | [] => drainStream m r DrainFlushed
          | _ :: _ => drainStream m r DrainChunk ≫= λ m1, flush_loop fuel' m1 r
          end
      end
  end.

Definition enqueue_chunks (q : WriteQueue) (id : Z) (l : list (list byte)) : WriteQueue :=
  foldl (λ q p, Enqueue q (data_frame id p) PriorityData) q l.

Lemma flushAndFIN_eq m r s :
  m_heap m !! r = Some s →
  flushAndFIN m r =
  set_writeQueue (Enqueue (enqueue_chunks (m_writeQueue m) (s_id s) (writeOut s))
                    (fin_frame (s_id s)) PriorityData)
    (set_heap (<[r := set_writeOut [] s]> (m_heap m)) m).
Proof.
  intros Hr. unfold flushAndFIN. rewrite Hr. unfold enqueue_chunks.
  assert (∀ l m0, foldl (λ acc p, enqueueStreamData acc s p) m0 l =
    set_writeQueue (foldl (λ q p, Enqueue q (data_frame (s_id s) p) PriorityData) (m_writeQueue m0) l) m0)
    as E.
  { intros l. induction l as [|p l IH]; intros m0; cbn [foldl]; [by destruct m0|]. by rewrite IH. }
  by rewrite E.
Qed.

(** flushAndFIN returns: from its loop, at most one step more than there
    are buffered chunks (at most 65) brings its goroutine to the end, with the
    effect of flushAndFIN run in one go: every buffered chunk queued in order,
    then FIN, and the buffer empty. *)
Theorem flush_terminates m r s fuel :
  m_heap m !! r = Some s → m_drain m !! r = Some DrainFlush → (length (writeOut s) < fuel)%nat →
  flush_loop fuel m r = Some (set_drain_pc r DrainDone (flushAndFIN m r)).
Proof.
  revert m s. induction fuel as [|fuel IH]; intros m s Hr Hpc Hfuel; [lia|].
  rewrite (flushAndFIN_eq m r s Hr). cbn [flush_loop]. rewrite Hr.
  destruct (writeOut s) as [|p rest] eqn:Ew; unfold drainStream; rewrite Hr, Hpc, Ew.
  - assert (<[r := set_writeOut [] s]> (m_heap m) = m_heap m) as ->.
    { apply insert_id. rewrite Hr. destruct s. cbn in *. by subst. }
    by destruct m.
  - cbn [mbind option_bind]. erewrite (IH _ (set_writeOut rest s)); [|cbn..].
    + erewrite flushAndFIN_eq by (cbn; by rewrite lookup_insert_eq).
      unfold set_drain_pc. cbn. by rewrite insert_insert_eq.
    + by rewrite lookup_insert_eq.
    + done.
    + cbn in Hfuel. lia.
Qed.

(** ** Closed sessions stay closed *)

Lemma deleteStream_closeCh m id : m_closeCh (deleteStream m id) = m_closeCh m.
Proof. unfold deleteStream, freeID. by case_bool_decide. Qed.

Lemma maybeRemoveStream_closeCh m id r : m_closeCh (maybeRemoveStream m id r) = m_closeCh m.
Proof. unfold maybeRemoveStream. repeat case_match; rewrite ?deleteStream_closeCh; done. Qed.

Lemma Close_closeCh m : m_closeCh (Mux.Close m) = true.
Proof.
  unfold Mux.Close. destruct (m_closeCh m) eqn:E; [done|]. cbn zeta. set (m1 := set_writeQueue _ _).
  by destruct (close_resets (map_to_list (m_streams m1)).*2 m1 eq_refl) as (H & _).
Qed.

Lemma handleFrame_closeCh m f : m_closeCh (handleFrame m f) = m_closeCh m.
Proof.
  unfold handleFrame. repeat case_decide; try done.
  - unfold handleStreamOpen, acceptPeerOpen. repeat (case_match; simplify_eq; try done).
  - unfold handleStreamData, deliverData. case_match; [|done].
    case_match; rewrite ?maybeRemoveStream_closeCh; by case_match.
  - unfold handleStreamClose. case_match; [|done]. by rewrite maybeRemoveStream_closeCh.
  - unfold handleStreamReset. case_match; [|done]. cbn zeta.
    case_match; rewrite ?deleteStream_closeCh; apply StreamReset_closeCh.
  - unfold handlePong. by case_match.
  - unfold handleWindowUpdate. by repeat case_match.
  - unfold handleServiceList. by case_match.
Qed.

Lemma mstep_closeCh m e m' : mstep m e m' → m_closeCh m = true → m_closeCh m' = true.
Proof.
  intros Hs Hc. destruct Hs; subst; try done; rewrite ?handleFrame_closeCh, ?StreamReset_closeCh; try done.
  - apply OpenStream_begin_ok in H as (_ & _ & id & m1 & m2 & Ha & [= <- <-] & ->).
    apply allocID_frame in Ha. rewrite Ha. exact Hc.
  - unfold OpenStream_canceled. cbn. unfold removeStream. case_match; [|done].
    by rewrite StreamReset_closeCh, deleteStream_closeCh.
  - unfold AcceptStream in H. case_match; [done|]. by simplify_eq.
  - unfold deliverAccept in H. repeat case_match; by simplify_eq.
  - apply (Close_closeCh m).
  - unfold StreamClose. case_match; [|done]. destruct (Stream.Close s) as [s' []]; [|done].
    unfold onLocalClose. by rewrite maybeRemoveStream_closeCh.
  - revert H. unfold drainStream. repeat case_match; try done; by intros [= <-].
  - apply Close_closeCh.
  - unfold Ping_end in H. case_match; by simplify_eq.
  - unfold SendServiceList. by repeat case_match.
  - apply Close_closeCh.
Qed.
