(* ===== verification/MuxOrder.v ===== *)
(** * The order of a stream's output

    What the drain goroutine of a stream puts in the write queue, against what
    the owner of the stream wrote, over every interleaving of [mstep]. *)

From Stdlib Require Import ZArith Lia.
From S2P Require Import Prelude Frame Window WriteQueue Stream Mux MuxInv.

(** Projections of a history: the chunks Write accepted on a stream, and the
    frames its drain goroutine enqueued. *)
Fixpoint written (r : nat) (es : list mlabel) : list (list byte) :=
  match es with
  | [] => []
  | LWrite r' p :: es' => if decide (r = r') then p :: written r es' else written r es'
  | _ :: es' => written r es'
  end.

Fixpoint output (r : nat) (es : list mlabel) : list Frame :=
  match es with
  | [] => []
  | LDrain r' (Some f) :: es' => if decide (r = r') then f :: output r es' else output r es'
  | _ :: es' => output r es'
  end.

Lemma written_app r es es' : written r (es ++ es') = written r es ++ written r es'.
Proof. induction es as [|e es IH]; [done|]. destruct e; cbn; rewrite ?IH; try done. by case_decide. Qed.

Lemma output_app r es es' : output r (es ++ es') = output r es ++ output r es'.
Proof.
  induction es as [|e es IH]; [done|]. destruct e as [| | | | | | | | | | |? []| | | | | | | |];
    cbn; rewrite ?IH; try done. by case_decide.
Qed.

(** ** Steps that leave the output of streams alone *)

Definition quiet_obj (s s' : StreamSession) : Prop :=
  s_id s' = s_id s ∧ writeOut s' = writeOut s ∧ (isWriteClosed s = true → isWriteClosed s' = true).

Definition quiet (m m' : MuxSession) : Prop :=
  ∀ r, match m_heap m !! r with
       | Some s => m_drain m' !! r = m_drain m !! r ∧
                   ∃ s', m_heap m' !! r = Some s' ∧ quiet_obj s s'
       | None => m_heap m' !! r = None ∨
                 m_drain m' !! r = Some DrainLoop ∧
                 ∃ s', m_heap m' !! r = Some s' ∧ writeOut s' = []
       end.

Lemma quiet_refl m : quiet m m.
Proof. intros r. destruct (m_heap m !! r) as [s|]; [|by left]. split; [done|]. by exists s. Qed.

#[export] Instance quiet_preorder : PreOrder quiet.
Proof.
  split; [intros m; apply quiet_refl|]. intros m1 m2 m3 H12 H23 r.
  specialize (H12 r). specialize (H23 r). destruct (m_heap m1 !! r) as [s|] eqn:E.
  - destruct H12 as (Hd & s2 & E2 & Q2). rewrite E2 in H23.
    destruct H23 as (Hd' & s3 & E3 & Q3). split; [congruence|]. exists s3. split; [done|].
    destruct Q2 as (? & ? & ?), Q3 as (? & ? & ?). split_and!; [congruence..|by auto].
  - destruct H12 as [H2|(Hd & s2 & E2 & Q2)].
    + by rewrite H2 in H23.
    + rewrite E2 in H23. destruct H23 as (Hd' & s3 & E3 & (? & ? & ?)).
      right. split; [congruence|]. exists s3. split; [done|congruence].
Qed.

(** A history event of one object that is neither a write nor a chunk taken. *)
Definition quiet_event (e : sevent) : bool :=
  match e with SWrite _ | STakeChunk _ => false | _ => true end.

Lemma sstep_quiet s e s' : quiet_event e = true → sstep s e s' → quiet_obj s s'.
Proof.
  intros He Hs. unfold quiet_obj. inversion Hs as [? n ? ? Hr| | | | | | |]; subst; try done.
  - unfold Read in Hr. repeat case_match; by simplify_eq.
  - destruct s as [? ? [] ? ? ? ? ? ? ? []]; cbn; by repeat case_match.
  - destruct s as [? ? []]; done.
  - destruct s as [? ? [] ? ? ? ? ? ? ? ? ? []]; cbn; by repeat case_match.
Qed.

Lemma quiet_heap m r s s' :
  m_heap m !! r = Some s → quiet_obj s s' → quiet m (set_heap (<[r := s']> (m_heap m)) m).
Proof.
  intros Hr Q r'. cbn. rewrite lookup_insert. case_decide; subst.
  - rewrite Hr. split; [done|]. by exists s'.
  - apply quiet_refl.
Qed.

Lemma quiet_step m r s e s' :
  m_heap m !! r = Some s → quiet_event e = true → sstep s e s' →
  quiet m (set_heap (<[r := s']> (m_heap m)) m).
Proof. eauto using quiet_heap, sstep_quiet. Qed.

Lemma quiet_deleteStream m id : quiet m (deleteStream m id).
Proof. unfold deleteStream, freeID. case_bool_decide; apply (quiet_refl m). Qed.

Lemma quiet_onReset m id code : quiet m (onReset m id code).
Proof. unfold onReset. repeat case_match; try done. apply (quiet_deleteStream m id). Qed.

Lemma quiet_maybeRemove m id r : quiet m (maybeRemoveStream m id r).
Proof. unfold maybeRemoveStream. repeat case_match; try done. apply quiet_deleteStream. Qed.

Lemma quiet_StreamReset m r code : quiet m (StreamReset m r code).
Proof.
  unfold StreamReset. destruct (m_heap m !! r) as [s|] eqn:Hr; [|done].
  destruct (Stream.Reset s) as [s' b] eqn:E.
  assert (quiet m (set_heap (<[r := s']> (m_heap m)) m)) as Q.
  { eapply (quiet_step m r s SReset); [done..|]. apply sstep_reset. by rewrite E. }
  destruct b; [|done]. etrans; [exact Q|]. apply quiet_onReset.
Qed.

Lemma quiet_StreamClose m r : quiet m (StreamClose m r).
Proof.
  unfold StreamClose. destruct (m_heap m !! r) as [s|] eqn:Hr; [|done].
  destruct (Stream.Close s) as [s' b] eqn:E.
  assert (quiet m (set_heap (<[r := s']> (m_heap m)) m)) as Q.
  { eapply (quiet_step m r s SClose); [done..|]. apply sstep_close. by rewrite E. }
  destruct b; [|done]. etrans; [exact Q|]. apply quiet_maybeRemove.
Qed.

Lemma quiet_Close m : quiet m (Close m).
Proof.
  unfold Close. destruct (m_closeCh m) eqn:Hc; [done|]. cbn zeta.
  set (m1 := set_writeQueue _ _).
  assert (quiet m m1) as Q1 by apply (quiet_refl m).
  clearbody m1. generalize (map_to_list (m_streams m1)).*2. intros l.
  assert (quiet m (foldr (λ r acc, StreamReset acc r 0) m1 l)) as Q; [|exact Q].
  induction l as [|r l Q]; cbn [foldr]; [done|]. etrans; [exact Q|]. apply quiet_StreamReset.
Qed.

Lemma quiet_newStream m id p : mux_inv m → quiet m (newStream m id p).2.
Proof.
  intros I r. cbn. destruct (m_heap m !! r) as [s|] eqn:E.
  - apply (ci_fresh _ _ _ _ _ _ _ _ I) in E as Hlt. rewrite !lookup_insert_ne by lia.
    split; [done|]. by exists s.
  - destruct (decide (m_fresh m = r)) as [<-|].
    + right. rewrite !lookup_insert_eq. split; [done|]. by eexists.
    + left. by rewrite lookup_insert_ne.
Qed.

Lemma quiet_upd m r f :
  (∀ s, m_heap m !! r = Some s → quiet_obj s (f s)) → quiet m (upd_stream r f m).
Proof.
  intros Hf. unfold upd_stream. destruct (m_heap m !! r) as [s|] eqn:Hr.
  - rewrite (alter_lookup _ _ s) by done. by apply (quiet_heap m r s); [|apply Hf].
  - intros r'. cbn. rewrite lookup_alter. case_decide; [|apply quiet_refl].
    subst. rewrite Hr. by left.
Qed.

Lemma quiet_remote_close s : quiet_obj s (RemoteClose s).
Proof. by eapply sstep_quiet; [|by apply sstep_remote_close]. Qed.

Lemma quiet_handleFrame m f : mux_inv m → quiet m (handleFrame m f).
Proof.
  intros I. unfold handleFrame. repeat case_decide; try apply (quiet_refl m).
  - unfold handleStreamOpen, acceptPeerOpen. destruct (has_flag _ _).
    { case_match; apply (quiet_refl m). }
    destruct (m_streams m !! StreamID f); [done|].
    destruct (ownsID m (StreamID f)); [apply (quiet_refl m)|].
    apply (quiet_newStream m (StreamID f) (Payload f) I).
  - unfold handleStreamData, deliverData. destruct (m_streams m !! StreamID f) as [r|]; [|done]. cbn zeta.
    set (m1 := if bool_decide _ then _ else _).
    assert (quiet m m1) as Q1 by (unfold m1; case_bool_decide; [by apply quiet_upd|done]).
    clearbody m1. case_match; [|done]. etrans; [exact Q1|].
    etrans; [|apply quiet_maybeRemove]. apply quiet_upd. auto using quiet_remote_close.
  - unfold handleStreamClose. case_match; [|done]. etrans; [|apply quiet_maybeRemove].
    apply quiet_upd. auto using quiet_remote_close.
  - unfold handleStreamReset. case_match; [|done]. cbn zeta.
    generalize (if bool_decide (zlen (Payload f) >= 4) then Uint32 (take 4 (Payload f)) else 0).
    intros code. case_match; [etrans; [|apply quiet_deleteStream]|]; apply quiet_StreamReset.
  - unfold handlePong. case_match; apply (quiet_refl m).
  - unfold handleWindowUpdate. do 2 (case_bool_decide; [apply (quiet_refl m)|]).
    case_match; [|done]. by apply quiet_upd.
  - unfold handleServiceList. case_match; apply (quiet_refl m).
Qed.

Lemma quiet_removeStream m id : quiet m (removeStream m id).
Proof.
  unfold removeStream. case_match; [|done].
  etrans; [apply quiet_deleteStream|apply quiet_StreamReset].
Qed.

Lemma quiet_OpenStream m payload r m' :
  mux_inv m → OpenStream_begin m payload = Ok (r, m') → quiet m m'.
Proof.
  intros I (_ & _ & id & m1 & m2 & Ha & Hn & ->)%OpenStream_begin_ok.
  apply allocID_frame in Ha. pose proof (quiet_newStream m id [] I) as Q.
  rewrite Ha in Hn. injection Hn as <- <-. exact Q.
Qed.

(** Every step but a write and a step of a drain goroutine is quiet. *)
Lemma mstep_quiet m e m' :
  mux_inv m → mstep m e m' →
  (∃ r p, e = LWrite r p) ∨ (∃ r o, e = LDrain r o) ∨
  quiet m m' ∧ (∀ r, written r [e] = [] ∧ output r [e] = []).
Proof.
  intros I Hs. destruct Hs; subst; try (by left; eauto); try (by right; left; eauto);
    right; right; (split; [|done]); try apply (quiet_refl m);
    auto using quiet_StreamReset, quiet_StreamClose, quiet_Close, quiet_handleFrame.
  - eauto using quiet_OpenStream.
  - apply (quiet_removeStream (cleanupPendingOpen m (stream_id m r))).
  - unfold AcceptStream in H. case_match; [done|]. simplify_eq. apply (quiet_refl m).
  - unfold deliverAccept in H. repeat case_match; simplify_eq. apply (quiet_refl m).
  - apply (quiet_Close m).
  - by eapply quiet_step; [..|by eapply sstep_read].
  - apply (quiet_Close (set_writeQueue q m)).
  - unfold Ping_end in H. case_match; simplify_eq. apply (quiet_refl m).
  - unfold SendServiceList. repeat case_match; apply (quiet_refl m).
Qed.

(** ** The invariant *)

(** The output of the stream [s] whose goroutine is at [pc]: the data frames of
    the chunks taken so far, then FIN or nothing yet. *)
Definition order_obj (ws : list (list byte)) (out : list Frame) (s : StreamSession) (pc : DrainPC) : Prop :=
  ∃ taken (fin : bool),
    out = (data_frame (s_id s) <$> taken) ++ (if fin then [fin_frame (s_id s)] else []) ∧
    taken ++ writeOut s = ws ∧
    (pc = DrainFlush ∨ fin = true → isWriteClosed s = true) ∧
    (fin = true → pc = DrainDone ∧ writeOut s = []).

Definition order_inv (es : list mlabel) (m : MuxSession) : Prop :=
  ∀ r, match m_heap m !! r with
       | Some s => ∃ pc, m_drain m !! r = Some pc ∧ order_obj (written r es) (output r es) s pc
       | None => written r es = [] ∧ output r es = []
       end.

Lemma order_quiet es e m m' :
  order_inv es m → quiet m m' → (∀ r, written r [e] = [] ∧ output r [e] = []) →
  order_inv (es ++ [e]) m'.
Proof.
  intros O Q He r. specialize (O r). specialize (Q r). destruct (He r) as [Hw Ho].
  rewrite written_app, output_app, Hw, Ho, !app_nil_r. destruct (m_heap m !! r) as [s|].
  - destruct Q as (Hd & s' & -> & Hid & Hwo & Hwc), O as (pc & Hpc & taken & fin & H1 & H2 & H3 & H4).
    exists pc. split; [congruence|]. exists taken, fin. rewrite Hid, Hwo. split_and!; auto.
  - destruct O as [-> ->], Q as [->|(Hd & s' & -> & Hwo)]; [done|].
    exists DrainLoop. split; [done|]. exists [], false. rewrite Hwo. split_and!; try done.
    by intros [|].
Qed.

(** A step on the object [r0] alone. *)
Lemma order_local es e m m' r0 :
  order_inv es m →
  (∀ r, r ≠ r0 → m_heap m' !! r = m_heap m !! r ∧ m_drain m' !! r = m_drain m !! r ∧
                 written r [e] = [] ∧ output r [e] = []) →
  (∃ s' pc, m_heap m' !! r0 = Some s' ∧ m_drain m' !! r0 = Some pc ∧
            order_obj (written r0 (es ++ [e])) (output r0 (es ++ [e])) s' pc) →
  order_inv (es ++ [e]) m'.
Proof.
  intros O Hne (s' & pc & Hh & Hd & Ho) r. destruct (decide (r = r0)) as [->|Hr].
  - rewrite Hh. eauto.
  - destruct (Hne r Hr) as (-> & -> & Hw & Hout).
    rewrite written_app, output_app, Hw, Hout, !app_nil_r. apply O.
Qed.

Lemma fin_write_closed s : stream_inv s → finCh s = true → isWriteClosed s = true.
Proof.
  intros I Hf%(si_fin _ I)%(si_once _ I). unfold isWriteClosed. by destruct Hf as [->|[->| ->]].
Qed.

(** One step of the goroutine, seen from its stream. *)
Lemma drain_order_obj m r c m' s pc ws out :
  stream_inv s → m_heap m !! r = Some s → m_drain m !! r = Some pc → order_obj ws out s pc →
  drainStream m r c = Some m' →
  ∃ s' pc', m_heap m' !! r = Some s' ∧ m_drain m' !! r = Some pc' ∧
    order_obj ws (out ++ option_list (drain_output m r c)) s' pc'.
Proof.
  intros I Hr Hpc (taken & fin & -> & <- & H3 & H4). unfold drainStream, drain_output, order_obj.
  rewrite Hr, Hpc.
  destruct fin; [destruct H4 as [-> _]; [done|]; by destruct c|]. rewrite app_nil_r. clear H4.
  destruct c, pc; try done; repeat case_match; try done; intros [= <-]; cbn;
    rewrite ?lookup_insert_eq; (eexists _, _; split; [done|]; split; [done|]); rewrite ?app_nil_r.
  all: try (exists taken, false; cbn; rewrite ?app_nil_r; split_and!; try done;
            intros; change (isWriteClosed s = true); by apply fin_write_closed).
  all: try (exists taken, false; cbn; rewrite ?app_nil_r; split_and!; try done; naive_solver).
  all: try (eexists (taken ++ [_]), false; cbn in *; rewrite fmap_app, ?app_nil_r, <-app_assoc;
            split_and!; try done; naive_solver).
  exists taken, true. rewrite H, app_nil_r. split_and!; auto.
Qed.

Lemma drain_local m r c m' :
  drainStream m r c = Some m' →
  ∀ r', r' ≠ r → m_heap m' !! r' = m_heap m !! r' ∧ m_drain m' !! r' = m_drain m !! r'.
Proof.
  unfold drainStream. intros H r' Hne. revert H.
  repeat case_match; try done; intros [= <-]; cbn; by rewrite ?lookup_insert_ne by done.
Qed.

Lemma mstep_order es m e m' :
  mux_inv m → order_inv es m → mstep m e m' → order_inv (es ++ [e]) m'.
Proof.
  intros I O Hs. destruct (mstep_quiet m e m' I Hs) as [(r & p & ->)|[(r & o & ->)|[Q He]]];
    [| |by eapply order_quiet].
  - inversion Hs as [| | | | | | | | |? ? s ? s' ? Hr Hw Hm| | | | | | | | | | | |]; subst.
    apply (order_local es _ m _ r O).
    + intros r' Hne. cbn. rewrite lookup_insert_ne, decide_False by done. done.
    + specialize (O r). rewrite Hr in O. destruct O as (pc & Hpc & taken & fin & H1 & H2 & H3 & H4).
      unfold Stream.Write in Hw. destruct (isWriteClosed s) eqn:Hwc; [done|].
      case_bool_decide; [|by case_match]. injection Hw as <-.
      assert (fin = false) as -> by (destruct fin; naive_solver).
      eexists _, pc. cbn. rewrite lookup_insert_eq. split_and!; [done..|].
      exists taken, false. rewrite written_app, output_app, H1, <-H2. cbn.
      rewrite decide_True, !app_nil_r, app_assoc by done. split_and!; try done. naive_solver.
  - inversion Hs as [| | | | | | | | | | | | |? ? c ? ? Hd Ho| | | | | | | |]; subst.
    apply (order_local es _ m _ r O).
    + intros r' Hne. destruct (drain_local m r c m' Hd r' Hne) as [-> ->].
      split_and!; try done. cbn. case_match; [|done]. by rewrite decide_False by done.
    + specialize (O r). destruct (m_heap m !! r) as [s|] eqn:Hr.
      * destruct O as (pc & Hpc & Ho).
        destruct (drain_order_obj m r c m' s pc _ _ (proj1 (ci_obj _ _ _ _ _ _ _ _ I _ _ Hr)) Hr Hpc Ho Hd)
          as (s' & pc' & ? & ? & Ho'). exists s', pc'. split_and!; [done..|].
        rewrite written_app, output_app. cbn. rewrite app_nil_r.
        destruct (drain_output m r c); cbn in *; [by rewrite decide_True by done|done].
      * unfold drainStream in Hd. by rewrite Hr in Hd.
Qed.

Lemma reachable_order role config es m :
  fits_ids role config → reachable role config es m → order_inv es m.
Proof.
  intros Hfit Hrun. unfold reachable in Hrun.
  remember (NewMuxSession role config) as m0 eqn:E. induction Hrun; subst.
  - by intros r.
  - eapply mstep_order; eauto. by eapply reachable_inv.
Qed.

Lemma drain_enqueues m r out m' :
  mstep m (LDrain r out) m' →
  m_writeQueue m' = match out with
                    | Some f => Enqueue (m_writeQueue m) f PriorityData
                    | None => m_writeQueue m
                    end.
Proof.
  inversion 1 as [| | | | | | | | | | | | |? ? c ? ? Hd Ho| | | | | | | |]; subst. revert Hd.
  unfold drainStream, drain_output. destruct (m_heap m !! r) as [s|]; [|done].
  destruct (m_drain m !! r) as [pc|]; [|done].
  destruct c, pc; try done; repeat case_match; try done; intros [= <-]; simplify_eq/=; try done;
    rewrite ?H in *; by simplify_eq/=.
Qed.

(** What a drain goroutine has put out of what its stream's owner wrote. *)
Lemma output_written role config es m r s :
  fits_ids role config → reachable role config es m → m_heap m !! r = Some s →
  ∃ taken (fin : bool),
    output r es = (data_frame (s_id s) <$> taken) ++ (if fin then [fin_frame (s_id s)] else []) ∧
    taken ++ writeOut s = written r es ∧
    (fin = true → taken = written r es).
Proof.
  intros Hfit Hrun Hr. pose proof (reachable_order _ _ _ _ Hfit Hrun r) as O. rewrite Hr in O.
  destruct O as (pc & _ & taken & fin & H1 & H2 & _ & H4). exists taken, fin.
  split_and!; [done..|]. intros Hf. destruct (H4 Hf) as [_ E]. by rewrite <-H2, E, app_nil_r.
Qed.
