(* ===== verification/MuxView.v ===== *)
(** * What a step of a session does to its streams and its queue

    [mstep_view] sorts the steps of [mstep] by their effect: a step makes a
    stream and queues its first frame, delivers a frame to an active stream,
    hands bytes to a reader, queues a frame for a stream, sends a frame, or
    does none of these and is calm. *)

From Stdlib Require Import ZArith Lia.
From S2P Require Import Prelude Frame Window WriteQueue Stream Mux MuxInv MuxOps MuxOrder.

(** The frames that make up a stream: STREAM_OPEN and its acknowledgement,
    STREAM_DATA, STREAM_CLOSE. *)
Definition stream_cmd (f : Frame) : Prop := FCommand f ∈ [CmdStreamOpen; CmdStreamData; CmdStreamClose].
Definition carries (id : Z) (f : Frame) : Prop := StreamID f = id ∧ stream_cmd f.
#[export] Instance carries_dec id f : Decision (carries id f).
Proof. unfold carries, stream_cmd. apply _. Defined.
Definition frames (id : Z) (l : list Frame) : list Frame := filter (carries id) l.

(** The bytes of the STREAM_DATA frames among them. *)
Definition bytes_in (l : list Frame) : list byte :=
  mjoin (Payload <$> filter (λ f, FCommand f = CmdStreamData) l).

(** ** Steps that only close, reset or remove streams *)

Definition remote_closed (s : StreamSession) : Prop :=
  s_state s = StateHalfClosedRemote ∨ s_state s = StateClosed.

Definition calm_obj (s s' : StreamSession) : Prop :=
  s_id s' = s_id s ∧ (s_state s = StateReset → s_state s' = StateReset) ∧
  (readBuf s' = readBuf s ∧ (remote_closed s' → remote_closed s) ∨ readBuf s' = [] ∧ s_state s' = StateReset).

Definition no_stream_frames (m : MuxSession) : Prop :=
  Forall (λ f, ¬ stream_cmd f) (control (m_writeQueue m)).

(** Nothing is delivered to the streams in [P], no stream is made or comes
    back into the map, the parity of the free IDs is kept, and nothing enters
    the data class of the queue. *)
Record calm (P : nat → Prop) (m m' : MuxSession) : Prop := {
  calm_heap : ∀ r s, P r → m_heap m !! r = Some s → ∃ s', m_heap m' !! r = Some s' ∧ calm_obj s s';
  calm_dom : ∀ r s', m_heap m' !! r = Some s' → ∃ s, m_heap m !! r = Some s ∧ s_id s' = s_id s;
  calm_map : ∀ id r, m_streams m' !! id = Some r → m_streams m !! id = Some r;
  calm_next : m_nextStreamID m' = m_nextStreamID m;
  calm_free : ∀ i, i ∈ m_freeIDs m' → i ∈ m_freeIDs m ∨ i mod 2 = m_nextStreamID m mod 2;
  calm_control : no_stream_frames m → no_stream_frames m';
  calm_data : m_closeCh m' = false →
    m_closeCh m = false ∧ data (m_writeQueue m') = data (m_writeQueue m) ∧
    closed (m_writeQueue m') = closed (m_writeQueue m)
}.

Lemma calm_obj_refl s : calm_obj s s.
Proof. split_and!; [done..|]. by left. Qed.

Lemma calm_obj_trans s1 s2 s3 : calm_obj s1 s2 → calm_obj s2 s3 → calm_obj s1 s3.
Proof.
  intros (E1 & R1 & H1) (E2 & R2 & H2). split_and!; [congruence|by auto|].
  destruct H1 as [[B1 C1]|[B1 S1]], H2 as [[B2 C2]|[B2 S2]]; [left; split; [congruence|by auto]|by right| |by right].
  right. split; [congruence|by auto].
Qed.

#[export] Instance calm_preorder P : PreOrder (calm P).
Proof.
  split.
  - intros m. split; eauto using calm_obj_refl.
  - intros m1 m2 m3 [] []. split; auto; [| |congruence| |].
    + intros r s HP Hr. edestruct calm_heap0 as (s2 & E2 & C2); [done..|].
      edestruct calm_heap1 as (s3 & E3 & C3); [done..|]. eauto using calm_obj_trans.
    + intros r s3 (s2 & (s1 & ? & ?)%calm_dom0 & ?)%calm_dom1. exists s1. split; [done|congruence].
    + intros i [Hi|Hi]%calm_free1; [by auto|]. right. congruence.
    + intros Hc. destruct (calm_data1 Hc) as (Hc2 & ? & ?). destruct (calm_data0 Hc2) as (? & ? & ?).
      split_and!; congruence.
Qed.

Section calm_ops.
Context {P : nat → Prop}.

Lemma calm_set_heap m r s s' :
  m_heap m !! r = Some s → (P r → calm_obj s s') → s_id s' = s_id s →
  calm P m (set_heap (<[r := s']> (m_heap m)) m).
Proof.
  intros Hr Hc Hid. split; try done; cbn; auto.
  - intros r' s0 HP Hr'. rewrite lookup_insert. case_decide; subst; [|by eauto using calm_obj_refl].
    simplify_eq. eauto.
  - intros r' s0. rewrite lookup_insert. case_decide; subst; [|by eauto]. intros [= <-]. eauto.
Qed.

Lemma calm_enqueue m f : ¬ stream_cmd f → calm P m (enqueue m f PriorityControl).
Proof.
  intros Hf. split; try done; cbn; eauto using calm_obj_refl.
  - unfold no_stream_frames, enqueue, Enqueue. destruct (closed (m_writeQueue m)) eqn:E; [done|]. cbn. intros ?.
    apply Forall_app. auto.
  - intros Hc. split; [done|]. unfold Enqueue. by destruct (closed (m_writeQueue m)) eqn:E.
Qed.

Lemma calm_deleteStream m id : calm P m (deleteStream m id).
Proof.
  unfold deleteStream, freeID. case_bool_decide; split; try done; cbn; eauto using calm_obj_refl.
  1,3: by intros i r [_ ?]%lookup_delete_Some.
  intros i [?|Hi%list_elem_of_singleton]%elem_of_app; subst; auto.
Qed.

Lemma calm_maybeRemove m id r : calm P m (maybeRemoveStream m id r).
Proof. unfold maybeRemoveStream. repeat case_match; try done. apply calm_deleteStream. Qed.

Lemma reset_not_stream id code : ¬ stream_cmd (reset_frame id code).
Proof. unfold stream_cmd. cbn. set_solver. Qed.

Lemma calm_onReset m id code : calm P m (onReset m id code).
Proof.
  unfold onReset. repeat case_match; try done. etrans; [apply calm_deleteStream|].
  apply calm_enqueue, reset_not_stream.
Qed.

Lemma calm_StreamReset m r code : calm P m (StreamReset m r code).
Proof.
  unfold StreamReset. destruct (m_heap m !! r) as [s|] eqn:Hr; [|done].
  destruct (Stream.Reset s) as [s' b] eqn:E.
  assert (calm_obj s s') as Hc.
  { revert E. unfold calm_obj, Stream.Reset, Reset_locked, Reset_notify.
    destruct s as [? ? [] ? ? ? ? ? ? ? ? ? []]; cbn; intros [= <- <-]; cbn; naive_solver. }
  assert (calm P m (set_heap (<[r := s']> (m_heap m)) m)) as Q by (eapply calm_set_heap; [done..|apply Hc]).
  destruct b; [|done]. etrans; [exact Q|]. apply calm_onReset.
Qed.

Lemma calm_StreamClose m r : calm P m (StreamClose m r).
Proof.
  unfold StreamClose. destruct (m_heap m !! r) as [s|] eqn:Hr; [|done].
  destruct (Stream.Close s) as [s' b] eqn:E.
  assert (calm_obj s s') as Hc.
  { revert E. unfold calm_obj, Stream.Close, Close_locked, Close_notify, remote_closed.
    destruct s as [? ? [] ? ? ? ? ? ? ? []]; cbn; intros [= <- <-]; cbn; naive_solver. }
  assert (calm P m (set_heap (<[r := s']> (m_heap m)) m)) as Q by (eapply calm_set_heap; [done..|apply Hc]).
  destruct b; [|done]. etrans; [exact Q|]. apply calm_maybeRemove.
Qed.

Lemma calm_removeStream m id : calm P m (removeStream m id).
Proof.
  unfold removeStream. case_match; [|done]. etrans; [apply calm_deleteStream|apply calm_StreamReset].
Qed.

(** Closing, with a control class that may have lost its first frame. *)
Lemma calm_Close m q :
  (no_stream_frames m → Forall (λ f, ¬ stream_cmd f) (control q)) → calm P m (Mux.Close (set_writeQueue q m)).
Proof.
  intros Hq. pose proof (Close_closeCh (set_writeQueue q m)) as Hc. revert Hc.
  unfold Mux.Close. cbn. destruct (m_closeCh m) eqn:Ec.
  - intros _. split; try done; cbn; eauto using calm_obj_refl. congruence.
  - set (m1 := set_writeQueue _ _).
    assert (calm P m m1) as Q1 by (split; try done; cbn; eauto using calm_obj_refl).
    clearbody m1. generalize (map_to_list (m_streams m)).*2. intros l.
    assert (calm P m (foldr (λ r acc, StreamReset acc r 0) m1 l)) as [].
    { induction l as [|r l Q]; cbn [foldr]; [done|]. etrans; [exact Q|]. apply calm_StreamReset. }
    intros Hc. cbn in Hc. by split.
Qed.

Lemma calm_mux_close m : calm P m (Mux.Close m).
Proof. pose proof (calm_Close m (m_writeQueue m)) as Hc. destruct m. by apply Hc. Qed.

Lemma calm_same m m' :
  m_heap m' = m_heap m → m_streams m' = m_streams m → m_nextStreamID m' = m_nextStreamID m →
  m_freeIDs m' = m_freeIDs m → m_writeQueue m' = m_writeQueue m → m_closeCh m' = m_closeCh m →
  calm P m m'.
Proof.
  intros E1 E2 E3 E4 E5 E6.
  split; unfold no_stream_frames; rewrite ?E1, ?E2, ?E3, ?E4, ?E5, ?E6; eauto using calm_obj_refl.
Qed.

Lemma calm_upd m r f :
  (∀ s, P r → calm_obj s (f s)) → (∀ s, s_id (f s) = s_id s) → calm P m (upd_stream r f m).
Proof.
  intros Hf Hid. unfold upd_stream. destruct (m_heap m !! r) as [s|] eqn:Hr.
  - rewrite (alter_lookup _ _ s) by done. eapply calm_set_heap; eauto.
  - apply calm_same; try done. cbn. apply map_eq. intros i. rewrite lookup_alter. case_decide; [|done].
    subst. by rewrite Hr.
Qed.
End calm_ops.

(** ** What a step does, seen from the streams and the queue *)

(** A step that makes the stream [r] and queues [fr]. *)
Record makes (r : nat) (id : Z) (fr : Frame) (m m' : MuxSession) : Prop := {
  mk_new : m_heap m !! r = None;
  mk_heap : ∃ s, m_heap m' = <[r := s]> (m_heap m) ∧ s_id s = id ∧ readBuf s = [] ∧ s_state s = StateOpen;
  mk_streams : m_streams m' = <[id := r]> (m_streams m);
  mk_next : m_nextStreamID m' mod 2 = m_nextStreamID m mod 2;
  mk_free : ∀ i, i ∈ m_freeIDs m' → i ∈ m_freeIDs m;
  mk_queue : m_writeQueue m' = Enqueue (m_writeQueue m) fr PriorityData;
  mk_close : m_closeCh m' = m_closeCh m
}.

(** No frame sent, no bytes read, no output of a drain goroutine. *)
Definition silent (e : mlabel) : bool :=
  match e with LSend _ | LRead _ _ | LDrain _ (Some _) => false | _ => true end.

Inductive view (m m' : MuxSession) : mlabel → Prop :=
| view_calm e :
    calm (λ _, True) m m' → silent e = true →
    (∀ f, e = LFrame f → stream_cmd f → m_streams m !! StreamID f = None ∨ FCommand f = CmdStreamOpen) →
    (∀ f, e = LFrame f → FCommand f = CmdStreamOpen →
       is_Some (m_streams m !! StreamID f) ∨ ownsID m (StreamID f) = true ∨ has_flag (Flags f) FlagACK = true) →
    view m m' e
| view_open r id payload :
    makes r id (open_frame id payload) m m' → (id ∈ m_freeIDs m ∨ id = m_nextStreamID m) →
    view m m' (LOpen r)
| view_accept f r :
    makes r (StreamID f) (ack_frame (StreamID f)) m m' → FCommand f = CmdStreamOpen →
    has_flag (Flags f) FlagACK = false → ownsID m (StreamID f) = false → view m m' (LFrame f)
| view_stream f r s s' :
    stream_cmd f → FCommand f ≠ CmdStreamOpen → m_streams m !! StreamID f = Some r →
    m_heap m !! r = Some s → calm (λ r', r' ≠ r) m m' → m_heap m' !! r = Some s' → s_id s' = s_id s →
    readBuf s' = readBuf s ++ bytes_in [f] →
    (remote_closed s' → remote_closed s ∨ FCommand f = CmdStreamClose ∨ has_flag (Flags f) FlagFIN = true) →
    view m m' (LFrame f)
| view_read r s p s' :
    m_heap m !! r = Some s → m' = set_heap (<[r := s']> (m_heap m)) m → s_id s' = s_id s →
    s_state s' = s_state s → readBuf s = p ++ readBuf s' → view m m' (LRead r p)
| view_drain r s f m1 :
    m_heap m !! r = Some s → StreamID f = s_id s → stream_cmd f → calm (λ _, True) m m1 →
    m' = enqueue m1 f PriorityData → view m m' (LDrain r (Some f))
| view_send f g q :
    Dequeue (m_writeQueue m) false = DqFrame f q → g = wire m f → m' = set_writeQueue q m →
    view m m' (LSend g).

Lemma bytes_in_data f : FCommand f = CmdStreamData → bytes_in [f] = Payload f.
Proof. intros E. unfold bytes_in. rewrite filter_cons_True by done. cbn. apply app_nil_r. Qed.
Lemma bytes_in_other f : FCommand f ≠ CmdStreamData → bytes_in [f] = [].
Proof. intros E. unfold bytes_in. by rewrite filter_cons_False. Qed.

Lemma remote_close_view s :
  s_id (RemoteClose s) = s_id s ∧ readBuf (RemoteClose s) = readBuf s.
Proof. unfold RemoteClose. by destruct (s_state s). Qed.

(** STREAM_DATA for an active stream. *)
Lemma view_handleData m f r :
  FCommand f = CmdStreamData → mux_inv m → m_streams m !! StreamID f = Some r →
  view m (handleStreamData m f) (LFrame f).
Proof.
  intros Ef I Hid. destruct (inv_lookup m _ _ I Hid) as (s & Hr & Hs & _).
  unfold handleStreamData, deliverData. rewrite Hid. cbn zeta.
  set (m1 := if bool_decide _ then _ else _).
  assert (calm (λ r', r' ≠ r) m m1 ∧ ∃ s1, m_heap m1 !! r = Some s1 ∧ s_id s1 = s_id s ∧
            s_state s1 = s_state s ∧ readBuf s1 = readBuf s ++ Payload f) as (C1 & s1 & Hr1 & E1 & E2 & E3).
  { unfold m1. case_bool_decide as Hz.
    - split; [by apply calm_upd|]. exists (Deliver s (Payload f)). cbn. by rewrite lookup_alter_eq, Hr.
    - split; [done|]. exists s. destruct (Payload f); [by rewrite app_nil_r|]. unfold zlen in Hz. cbn in Hz. lia. }
  clearbody m1. assert (stream_cmd f) as Hsc by (unfold stream_cmd; rewrite Ef; set_solver).
  destruct (has_flag (Flags f) FlagFIN) eqn:Hfin.
  - destruct (remote_close_view s1) as [F1 F2].
    eapply (view_stream m _ f r s (RemoteClose s1)); rewrite ?bytes_in_data by done; try done.
    + by rewrite Ef.
    + etrans; [exact C1|]. etrans; [|apply calm_maybeRemove]. apply calm_upd; [done|].
      intros ?. apply remote_close_view.
    + unfold maybeRemoveStream, deleteStream, freeID. cbn. rewrite lookup_alter_eq, Hr1. cbn.
      repeat case_match; cbn; by rewrite lookup_alter_eq, Hr1.
    + congruence.
    + congruence.
    + auto.
  - eapply (view_stream m _ f r s s1); rewrite ?bytes_in_data by done; try done; [by rewrite Ef|].
    unfold remote_closed. rewrite E2. auto.
Qed.

(** STREAM_CLOSE for an active stream. *)
Lemma view_handleClose m f r :
  FCommand f = CmdStreamClose → mux_inv m → m_streams m !! StreamID f = Some r →
  view m (handleStreamClose m f) (LFrame f).
Proof.
  intros Ef I Hid. destruct (inv_lookup m _ _ I Hid) as (s & Hr & Hs & _).
  unfold handleStreamClose. rewrite Hid. destruct (remote_close_view s) as [F1 F2].
  eapply (view_stream m _ f r s (RemoteClose s)); try done.
  - unfold stream_cmd. rewrite Ef. set_solver.
  - by rewrite Ef.
  - etrans; [|apply calm_maybeRemove]. apply calm_upd; [done|]. intros ?. apply remote_close_view.
  - unfold maybeRemoveStream, deleteStream, freeID. cbn. rewrite lookup_alter_eq, Hr. cbn.
    repeat case_match; cbn; by rewrite lookup_alter_eq, Hr.
  - rewrite bytes_in_other by (by rewrite Ef). by rewrite app_nil_r.
  - auto.
Qed.

Lemma makes_newStream m id p fr m' :
  mux_inv m → m_streams m' = m_streams (newStream m id p).2 → m_heap m' = m_heap (newStream m id p).2 →
  m_nextStreamID m' mod 2 = m_nextStreamID m mod 2 → (∀ i, i ∈ m_freeIDs m' → i ∈ m_freeIDs m) →
  m_writeQueue m' = Enqueue (m_writeQueue m) fr PriorityData → m_closeCh m' = m_closeCh m →
  makes (m_fresh m) id fr m m'.
Proof.
  intros I Es Eh En Ef Eq Ec. split; try done.
  - destruct (m_heap m !! m_fresh m) eqn:E; [|done]. apply (ci_fresh _ _ _ _ _ _ _ _ I) in E. lia.
  - rewrite Eh. by eexists.
Qed.

Lemma view_handleOpen m f :
  FCommand f = CmdStreamOpen → mux_inv m → view m (handleStreamOpen m f) (LFrame f).
Proof.
  intros Ef I. unfold handleStreamOpen.
  destruct (has_flag (Flags f) FlagACK) eqn:Hack.
  { apply view_calm; try done; [|naive_solver..]. by case_match; [apply calm_same|]. }
  unfold acceptPeerOpen. destruct (m_streams m !! StreamID f) as [r|] eqn:Hid.
  { apply view_calm; naive_solver. }
  destruct (ownsID m (StreamID f)) eqn:Hown.
  { apply view_calm; [apply calm_enqueue, reset_not_stream|naive_solver..]. }
  eapply (view_accept _ _ f (m_fresh m)); try done. by apply (makes_newStream m _ (Payload f)).
Qed.

Lemma view_handleFrame m f : mux_inv m → view m (handleFrame m f) (LFrame f).
Proof.
  intros I. unfold handleFrame.
  assert (∀ m', calm (λ _, True) m m' → (stream_cmd f → m_streams m !! StreamID f = None) →
            FCommand f ≠ CmdStreamOpen → view m m' (LFrame f)) as Hcalm.
  { intros m' Hc Hn Ho. apply view_calm; naive_solver. }
  case_decide as E1; [by apply view_handleOpen|].
  case_decide as E2.
  { destruct (m_streams m !! StreamID f) eqn:Hid; [by eapply view_handleData|].
    apply Hcalm; [|done..]. unfold handleStreamData, deliverData. by rewrite Hid. }
  case_decide as E3.
  { destruct (m_streams m !! StreamID f) eqn:Hid; [by eapply view_handleClose|].
    apply Hcalm; [|done..]. unfold handleStreamClose. by rewrite Hid. }
  assert (¬ stream_cmd f) as Hs by (unfold stream_cmd; set_solver).
  repeat case_decide; (apply Hcalm; [|done..]).
  - unfold handleStreamReset. case_match; [|done]. cbn zeta.
    generalize (if bool_decide (zlen (Payload f) >= 4) then Uint32 (take 4 (Payload f)) else 0).
    intros code. case_match; [etrans; [|apply calm_deleteStream]|]; apply calm_StreamReset.
  - apply calm_enqueue. unfold stream_cmd. cbn. set_solver.
  - unfold handlePong. by case_match; [apply calm_same|].
  - unfold handleWindowUpdate. do 2 (case_bool_decide; [by try apply calm_same|]).
    case_match; [|done]. apply calm_upd; [|done]. intros s _. split_and!; [done..|]. by left.
  - by apply calm_same.
  - unfold handleServiceList. by case_match; [|apply calm_same].
  - done.
Qed.

Lemma calm_write m r s p s' :
  m_heap m !! r = Some s → Stream.Write s p = WriteOk s' →
  calm (λ _, True) m (set_heap (<[r := s']> (m_heap m)) m).
Proof.
  intros Hr Hw. assert (s_id s' = s_id s ∧ s_state s' = s_state s ∧ readBuf s' = readBuf s) as (E1 & E2 & E3)
    by (revert Hw; unfold Stream.Write; repeat case_match; by intros [= <-]).
  eapply calm_set_heap; [done| |done]. intros _. unfold calm_obj, remote_closed. rewrite E2. auto.
Qed.

(** The drain goroutine. *)
Lemma view_drainStream m r c m' :
  drainStream m r c = Some m' → view m m' (LDrain r (drain_output m r c)).
Proof.
  unfold drainStream, drain_output. destruct (m_heap m !! r) as [s|] eqn:Hr; [|done].
  destruct (m_drain m !! r) as [pc|]; [|done].
  assert (∀ l, calm (λ _, True) m (set_heap (<[r := set_writeOut l s]> (m_heap m)) m)) as Hw.
  { intros l. eapply calm_set_heap; [done| |done]. intros _. split_and!; [done..|]. by left. }
  assert (calm (λ _, True) m (set_heap (<[r := set_finCh false s]> (m_heap m)) m)) as Hf.
  { eapply calm_set_heap; [done| |done]. intros _. split_and!; [done..|]. by left. }
  destruct c, pc; try done; repeat case_match; try done; intros [= <-]; cbn.
  all: try (apply view_calm; try done; (etrans; [exact Hf|]); by apply calm_same).
  all: try (eapply view_drain; [done|done|unfold stream_cmd; cbn; set_solver|apply Hw|done]).
  all: try (apply view_calm; try done; by apply calm_same).
  eapply (view_drain _ _ r s _ (set_drain_pc r DrainDone m)); [done|done|unfold stream_cmd; cbn; set_solver| |done].
  by apply calm_same.
Qed.

Lemma u32_parity z : u32 z mod 2 = z mod 2.
Proof. unfold u32. Z.to_euclidean_division_equations. lia. Qed.

Lemma view_OpenStream m payload r m' :
  mux_inv m → OpenStream_begin m payload = Ok (r, m') → view m m' (LOpen r).
Proof.
  intros I (_ & _ & id & m1 & m2 & Ha & [= <- <-] & ->)%OpenStream_begin_ok.
  assert (m_fresh m1 = m_fresh m) as Efr by (by rewrite (allocID_frame _ _ _ Ha)). rewrite Efr.
  eapply (view_open _ _ _ id payload).
  - apply (makes_newStream m id []); try done; cbn; rewrite ?Efr; rewrite (allocID_frame _ _ _ Ha); try done; cbn;
      revert Ha; unfold allocID; case_match; intros [= <- <-]; cbn; try done.
    + rewrite u32_parity. by rewrite Zplus_mod, Z.add_0_r, Zmod_mod.
    + intros i. apply subseteq_take.
  - revert Ha. unfold allocID. destruct (last (m_freeIDs m)) as [i|] eqn:El; intros [= <- <-]; [left|by right].
    by apply last_Some_elem_of.
Qed.

Lemma mstep_view m e m' : mux_inv m → mstep m e m' → view m m' e.
Proof.
  intros I Hs. destruct Hs; subst.
  all: try (by apply view_handleFrame). all: try (by eapply view_OpenStream).
  all: try (by apply view_drainStream). all: try (by eapply view_send).
  all: try (apply view_calm; try done; first [by apply calm_same | apply calm_StreamReset | apply calm_StreamClose]).
  - apply view_calm; try done. unfold OpenStream_canceled. cbn.
    trans (cleanupPendingOpen m (stream_id m r)); [by apply calm_same|].
    etrans; [apply (calm_removeStream _ (stream_id m r))|by apply calm_same].
  - unfold AcceptStream in H. case_match; [done|]. simplify_eq. apply view_calm; try done. by apply calm_same.
  - unfold deliverAccept in H. repeat case_match; simplify_eq. apply view_calm; try done. by apply calm_same.
  - apply view_calm; try done. unfold readLoop_error.
    trans (Mux.Close m); [apply calm_mux_close|by apply calm_same].
  - apply view_calm; try done. by eapply calm_write.
  - revert H0. unfold Read. destruct (readBuf s) as [|b l] eqn:E; [by case_match|]. intros [= <- <-].
    eapply (view_read _ _ r s); try done. cbn. by rewrite take_drop, E.
  - apply view_calm; try done. apply calm_Close. unfold no_stream_frames.
    revert H. unfold Dequeue. destruct (control (m_writeQueue m)) as [|g gs];
      [by repeat case_match; intros [= <- <-]|]. intros [= <- <-] [_ ?]%Forall_cons. done.
  - apply view_calm; try done. etrans; [|apply calm_enqueue]; [by apply calm_same|]. unfold stream_cmd. cbn. set_solver.
  - apply view_calm; try done. etrans; [|apply calm_enqueue]; [by apply calm_same|]. unfold stream_cmd. cbn. set_solver.
  - unfold Ping_end in H. case_match; simplify_eq. apply view_calm; try done. by apply calm_same.
  - apply view_calm; try done. unfold SendServiceList. repeat case_match; try done. cbn.
    apply calm_enqueue. unfold stream_cmd. cbn. set_solver.
  - apply view_calm; try done. apply calm_mux_close.
Qed.
