(* ===== verification/Link.v ===== *)
(** * Two sessions joined by a transport

    The relay's session and the agent's session of one connection: what the
    owner of a stream writes on one side against what is read on the other,
    over every interleaving of both sides. The transport is reliable and in
    order (TLS over TCP, with the frames of Frame.v), so the frames one side
    has handled are an initial part of those the other has sent; a session that
    was closed has closed its transport, and neither sends nor handles frames
    any more. *)

From Stdlib Require Import ZArith Lia.
From S2P Require Import Prelude Frame Window WriteQueue Stream Mux MuxInv MuxOps MuxOrder MuxView.

(** ** Histories *)

Definition sent (es : list mlabel) : list Frame :=
  omap (λ e, match e with LSend f => Some f | _ => None end) es.
Definition received (es : list mlabel) : list Frame :=
  omap (λ e, match e with LFrame f => Some f | _ => None end) es.
Fixpoint reads (r : nat) (es : list mlabel) : list byte :=
  match es with
  | [] => []
  | LRead r' p :: es' => if decide (r = r') then p ++ reads r es' else reads r es'
  | _ :: es' => reads r es'
  end.

(** A step that uses the transport needs it open. *)
Definition connected (m : MuxSession) (e : mlabel) : Prop :=
  match e with LSend _ | LFrame _ => m_closeCh m = false | _ => True end.

(** The connection of a session with role [ra] and one with role [rb]. *)
Inductive link (ra : MuxRole) (ca : MuxConfig) (rb : MuxRole) (cb : MuxConfig)
    : list mlabel → MuxSession → list mlabel → MuxSession → Prop :=
| link_new : link ra ca rb cb [] (NewMuxSession ra ca) [] (NewMuxSession rb cb)
| link_left es a fs b e a' :
    link ra ca rb cb es a fs b → mstep a e a' → connected a e →
    received (es ++ [e]) `prefix_of` sent fs → link ra ca rb cb (es ++ [e]) a' fs b
| link_right es a fs b e b' :
    link ra ca rb cb es a fs b → mstep b e b' → connected b e →
    received (fs ++ [e]) `prefix_of` sent es → link ra ca rb cb es a (fs ++ [e]) b'.

(** ** One side of a connection *)

Inductive side (role : MuxRole) (config : MuxConfig) : list mlabel → MuxSession → Prop :=
| side_new : side role config [] (NewMuxSession role config)
| side_step es m e m' :
    side role config es m → mstep m e m' → connected m e → side role config (es ++ [e]) m'.

Lemma side_reachable role config es m : side role config es m → reachable role config es m.
Proof. induction 1; [constructor|]. by eapply msteps_snoc. Qed.

(** Streams are not forgotten, and a new one is made by the steps that make one. *)
Lemma view_grows m m' e r s :
  view m m' e → m_heap m !! r = Some s → ∃ s', m_heap m' !! r = Some s' ∧ s_id s' = s_id s.
Proof.
  destruct 1 as [e Hc|r0 id payload Hm|f r0 Hm|f r0 s0 s' _ _ _ Hr0 Hc Hr' Hid|r0 s0 p s' Hr0 -> Hid|r0 s0 f m1 _ _ _ Hc ->|f g q _ _ ->];
    intros Hr.
  - destruct (calm_heap _ _ _ Hc _ _ I Hr) as (s' & ? & ? & _). eauto.
  - destruct Hm as [Hn (s0 & -> & _) _ _ _ _]. exists s. split; [|done]. rewrite lookup_insert_ne; congruence.
  - destruct Hm as [Hn (s0 & -> & _) _ _ _ _]. exists s. split; [|done]. rewrite lookup_insert_ne; congruence.
  - destruct (decide (r = r0)) as [->|Hne]; [simplify_eq; eauto|].
    destruct (calm_heap _ _ _ Hc _ _ Hne Hr) as (s1 & ? & ? & _). eauto.
  - cbn. rewrite lookup_insert. case_decide; subst; [|by eauto]. simplify_eq. eauto.
  - destruct (calm_heap _ _ _ Hc _ _ I Hr) as (s' & ? & ? & _). eauto.
  - eauto.
Qed.

Definition makes_stream (e : mlabel) (r : nat) (s : StreamSession) (m : MuxSession) : Prop :=
  m_heap m !! r = None ∧ readBuf s = [] ∧ s_state s = StateOpen ∧
  (e = LOpen r ∧ (s_id s ∈ m_freeIDs m ∨ s_id s = m_nextStreamID m) ∨
   ∃ f, e = LFrame f ∧ StreamID f = s_id s ∧ FCommand f = CmdStreamOpen ∧
        has_flag (Flags f) FlagACK = false ∧ ownsID m (s_id s) = false).

Lemma view_made m m' e r s' :
  view m m' e → m_heap m' !! r = Some s' →
  (∃ s, m_heap m !! r = Some s ∧ s_id s' = s_id s) ∨ makes_stream e r s' m.
Proof.
  destruct 1 as [e Hc|r0 id payload Hm Hid|f r0 Hm ? ? ?|f r0 s0 s1 _ _ _ Hr0 Hc Hr' Hid|r0 s0 p s1 Hr0 -> Hid|r0 s0 f m1 _ _ _ Hc ->|f g q _ _ ->];
    intros Hr.
  - left. by apply (calm_dom _ _ _ Hc).
  - destruct Hm as [Hn (s0 & Eh & <- & ? & ?) _ _ _ _]. rewrite Eh, lookup_insert in Hr.
    case_decide; [|by eauto]. subst. simplify_eq. right. split_and!; auto.
  - destruct Hm as [Hn (s0 & Eh & Eid & ? & ?) _ _ _ _]. rewrite Eh, lookup_insert in Hr.
    case_decide; [|by eauto]. subst. simplify_eq. right. rewrite <-Eid in *.
    split_and!; [done..|]. right. by exists f.
  - left. by apply (calm_dom _ _ _ Hc).
  - cbn in Hr. rewrite lookup_insert in Hr. case_decide; [|by eauto]. subst. simplify_eq. eauto.
  - left. by apply (calm_dom _ _ _ Hc).
  - eauto.
Qed.

Lemma view_made_one m m' e r1 r2 s1 s2 :
  view m m' e → m_heap m !! r1 = None → m_heap m !! r2 = None →
  m_heap m' !! r1 = Some s1 → m_heap m' !! r2 = Some s2 → r1 = r2.
Proof.
  intros Hv N1 N2 H1 H2.
  assert (∀ P, calm P m m' → r1 = r2) as Hcalm.
  { intros P Hc. destruct (calm_dom _ _ _ Hc _ _ H1) as (? & ? & _). congruence. }
  assert (∀ r id fr, makes r id fr m m' → r1 = r2) as Hmk.
  { intros r id fr [_ (s & Eh & _) _ _ _ _]. rewrite Eh in H1, H2.
    rewrite lookup_insert in H1, H2. repeat case_decide; congruence. }
  destruct Hv as [| | | |r0 s0 p s' Hr0|? ? ? ? ? ? ? Hc|]; subst; eauto.
  - cbn in H1. rewrite lookup_insert_ne in H1 by congruence. congruence.
  - destruct (calm_dom _ _ _ Hc _ _ H1) as (? & ? & _). congruence.
  - cbn in H1. congruence.
Qed.

(** The local parity. *)
Definition local_parity (start : Z) (m : MuxSession) : Prop :=
  m_nextStreamID m mod 2 = start mod 2 ∧ ∀ i, i ∈ m_freeIDs m → i mod 2 = start mod 2.

Lemma view_parity start m m' e : view m m' e → local_parity start m → local_parity start m'.
Proof.
  unfold local_parity. intros Hv [Hn Hf].
  assert (∀ P, calm P m m' → m_nextStreamID m' mod 2 = start mod 2 ∧ ∀ i, i ∈ m_freeIDs m' → i mod 2 = start mod 2) as Hcalm.
  { intros P Hc. rewrite (calm_next _ _ _ Hc). split; [done|].
    intros i [?|?]%(calm_free _ _ _ Hc); [by auto|congruence]. }
  assert (∀ r id fr, makes r id fr m m' → m_nextStreamID m' mod 2 = start mod 2 ∧ ∀ i, i ∈ m_freeIDs m' → i mod 2 = start mod 2) as Hmk.
  { intros r id fr []. split; [congruence|by auto]. }
  destruct Hv as [| | | | |? ? ? ? ? ? ? Hc|]; subst; eauto.
  cbn. rewrite (calm_next _ _ _ Hc). split; [done|].
  intros i [?|?]%(calm_free _ _ _ Hc); [by auto|congruence].
Qed.

(** The queue is closed only with the session. *)
Definition queue_open (m : MuxSession) : Prop := m_closeCh m = false → closed (m_writeQueue m) = false.

Lemma closed_Enqueue q f p : closed (Enqueue q f p) = closed q.
Proof. unfold Enqueue. destruct (closed q) eqn:E; [done|]. by case_bool_decide. Qed.

Lemma view_queue m m' e : view m m' e → queue_open m → queue_open m'.
Proof.
  unfold queue_open. intros Hv Hq.
  assert (∀ P m1, calm P m m1 → m_closeCh m1 = false → closed (m_writeQueue m1) = false) as Hcalm.
  { intros P m1 Hc Ho. destruct (calm_data _ _ _ Hc Ho) as (? & _ & ->). auto. }
  destruct Hv as [| ? ? ? Hm|? ? Hm| | |? ? ? ? ? ? ? Hc|? ? ? Hd]; subst; eauto.
  - destruct Hm as [_ _ _ _ _ -> ->]. by rewrite closed_Enqueue.
  - destruct Hm as [_ _ _ _ _ -> ->]. by rewrite closed_Enqueue.
  - cbn. rewrite closed_Enqueue. eauto.
  - cbn. revert Hd. unfold Dequeue. repeat case_match; intros [= <- <-]; by auto.
Qed.

Lemma view_control m m' e : view m m' e → no_stream_frames m → no_stream_frames m'.
Proof.
  intros Hv Hn.
  assert (∀ q f, Forall (λ f, ¬ stream_cmd f) (control q) → Forall (λ f, ¬ stream_cmd f) (control (Enqueue q f PriorityData))) as Henq.
  { intros q f ?. unfold Enqueue. by destruct (closed q). }
  destruct Hv as [| ? ? ? Hm|? ? Hm| | |? ? ? ? ? ? ? Hc|? ? ? Hd]; subst; eauto using calm_control.
  - unfold no_stream_frames. destruct Hm as [_ _ _ _ _ -> _]. auto.
  - unfold no_stream_frames. destruct Hm as [_ _ _ _ _ -> _]. auto.
  - unfold no_stream_frames. cbn. apply Henq. by eapply calm_control.
  - revert Hn Hd. unfold no_stream_frames, Dequeue. cbn.
    destruct (control (m_writeQueue m)) as [|g gs]; [by repeat case_match; intros ? [= <- <-]|].
    intros [_ ?]%Forall_cons [= <- <-]. done.
Qed.

(** ** What a side sends for a stream *)

Lemma sent_snoc es e : sent (es ++ [e]) = sent es ++ sent [e].
Proof. apply omap_app. Qed.
Lemma received_snoc es e : received (es ++ [e]) = received es ++ received [e].
Proof. apply omap_app. Qed.
Lemma reads_app r es es' : reads r (es ++ es') = reads r es ++ reads r es'.
Proof.
  induction es as [|e es IH]; [done|]. destruct e; cbn; rewrite ?IH; try done.
  case_decide; [by rewrite (assoc_L (++))|done].
Qed.
Lemma frames_app id l l' : frames id (l ++ l') = frames id l ++ frames id l'.
Proof. apply filter_app. Qed.
Lemma frames_one id f : carries id f → frames id [f] = [f].
Proof. intros Hc. unfold frames. by rewrite filter_cons_True. Qed.
Lemma frames_other id f : ¬ carries id f → frames id [f] = [].
Proof. intros Hc. unfold frames. by rewrite filter_cons_False. Qed.
Lemma bytes_in_app l l' : bytes_in (l ++ l') = bytes_in l ++ bytes_in l'.
Proof. unfold bytes_in. by rewrite filter_app, fmap_app, join_app. Qed.

Definition absent (m : MuxSession) (id : Z) : Prop := ∀ r s, m_heap m !! r = Some s → s_id s ≠ id.
Definition only (m : MuxSession) (r : nat) (id : Z) : Prop :=
  ∀ r' s', m_heap m !! r' = Some s' → s_id s' = id → r' = r.

Lemma absent_back m m' e id : view m m' e → absent m' id → absent m id.
Proof. intros Hv Ha r s Hr <-. destruct (view_grows _ _ _ _ _ Hv Hr) as (s' & Hr' & E). by apply (Ha _ _ Hr'). Qed.
Lemma only_back m m' e r id : view m m' e → only m' r id → only m r id.
Proof.
  intros Hv Ho r' s' Hr' <-. destruct (view_grows _ _ _ _ _ Hv Hr') as (s1 & Hr1 & E). by apply (Ho _ _ Hr1).
Qed.

(** The frames of the stream that have been sent, and those in the queue while
    the session is open, are [L]. *)
Definition sends (id : Z) (es : list mlabel) (m : MuxSession) (L : list Frame) : Prop :=
  frames id (sent es) `prefix_of` L ∧
  (m_closeCh m = false → frames id (sent es) ++ frames id (data (m_writeQueue m)) = L).

Lemma sends_calm id es e m m' L P :
  calm P m m' → sent [e] = [] → sends id es m L → sends id (es ++ [e]) m' L.
Proof.
  intros Hc He [Hp Hq]. unfold sends. rewrite sent_snoc, He, app_nil_r. split; [done|].
  intros Ho. destruct (calm_data _ _ _ Hc Ho) as (? & -> & _). auto.
Qed.

Lemma data_Enqueue q f : closed q = false → data (Enqueue q f PriorityData) = data q ++ [f].
Proof. intros E. unfold Enqueue. by rewrite E. Qed.

Lemma sends_enqueue id es e m m' L f :
  sent [e] = [] → queue_open m → m_closeCh m' = m_closeCh m →
  m_writeQueue m' = Enqueue (m_writeQueue m) f PriorityData →
  sends id es m L → sends id (es ++ [e]) m' (L ++ frames id [f]).
Proof.
  intros He Hqo Ec Eq [Hp Hq]. unfold sends. rewrite sent_snoc, He, app_nil_r, Ec, Eq. split.
  - by apply prefix_app_r.
  - intros Ho. rewrite data_Enqueue, frames_app, (assoc_L (++)), Hq by auto. done.
Qed.

Lemma wire_other m f : FCommand f ≠ CmdPing → wire m f = f.
Proof. intros E. unfold wire. by rewrite bool_decide_eq_false_2. Qed.

(** A stream's frames are sent as they were queued. *)
Lemma frames_wire id m f : frames id [wire m f] = frames id [f].
Proof.
  destruct (decide (FCommand f = CmdPing)) as [E|E]; [|by rewrite wire_other].
  rewrite !frames_other; [done|..]; intros [_ Hs]; revert Hs; unfold stream_cmd; rewrite ?E; [set_solver|].
  unfold wire. rewrite bool_decide_eq_true_2 by done. cbn. set_solver.
Qed.

Lemma sends_send id es m f q L :
  no_stream_frames m → m_closeCh m = false → Dequeue (m_writeQueue m) false = DqFrame f q →
  sends id es m L → sends id (es ++ [LSend (wire m f)]) (set_writeQueue q m) L.
Proof.
  intros Hn Ho Hd [_ Hq]. specialize (Hq Ho). unfold sends. rewrite sent_snoc. cbn.
  assert (frames id (sent es ++ [wire m f]) ++ frames id (data q) = L) as E.
  { rewrite <-Hq, frames_app, frames_wire. rewrite <-(assoc_L (++)). f_equal. revert Hd Hn. unfold Dequeue, no_stream_frames.
    destruct (control (m_writeQueue m)) as [|g gs].
    - destruct (data (m_writeQueue m)) as [|g gs]; [by case_match|]. intros [= <- <-] _. by rewrite <-frames_app.
    - intros [= <- <-] [Hg _]%Forall_cons. cbn [data]. rewrite frames_other; [done|]. by intros [_ ?]. }
  split; [|done]. by exists (frames id (data q)).
Qed.

(** The frame a stream begins with: its STREAM_OPEN on the side that opens it,
    the acknowledgement on the other. *)
Definition is_first (role : MuxRole) (id : Z) (f : Frame) : Prop :=
  StreamID f = id ∧ FCommand f = CmdStreamOpen ∧
  has_flag (Flags f) FlagACK = bool_decide (id mod 2 ≠ start_id role mod 2).

Definition send_inv (role : MuxRole) (es : list mlabel) (m : MuxSession) : Prop :=
  ∀ id,
    (absent m id → sends id es m []) ∧
    (∀ r s, m_heap m !! r = Some s → s_id s = id → only m r id →
       ∃ first, is_first role id first ∧ sends id es m (first :: output r es)).

(** A step that makes no stream and queues nothing for a stream. *)
Lemma send_inv_quiet role es e m m' :
  view m m' e → (∀ r, output r [e] = []) →
  (∀ r s', m_heap m' !! r = Some s' → ∃ s, m_heap m !! r = Some s ∧ s_id s' = s_id s) →
  (∀ id L, sends id es m L → sends id (es ++ [e]) m' L) →
  send_inv role es m → send_inv role (es ++ [e]) m'.
Proof.
  intros Hv He Hdom Hs Hi id. destruct (Hi id) as [Ha Ho]. split.
  - intros Habs. by eapply Hs, Ha, absent_back.
  - intros r s' Hr' Hid Honly. destruct (Hdom _ _ Hr') as (s & Hr & E).
    destruct (Ho r s Hr) as (first & Hf & Hsend); [congruence|by eapply only_back|].
    exists first. split; [done|]. rewrite output_app, He, app_nil_r. by apply Hs.
Qed.

(** A step that makes a stream and queues its first frame. *)
Lemma send_inv_made role es e m m' r id fr :
  view m m' e → makes r id fr m m' → queue_open m → order_inv es m →
  (∀ r, output r [e] = []) → sent [e] = [] → is_first role id fr →
  send_inv role es m → send_inv role (es ++ [e]) m'.
Proof.
  intros Hv Hm Hqo Hord He Hse Hf Hi id'. destruct (Hi id') as [Ha Ho].
  destruct Hm as [Hn (s0 & Eh & Es0 & _) _ _ _ Eq Ec].
  assert (∀ L, sends id' es m L → sends id' (es ++ [e]) m' (L ++ frames id' [fr])) as Hs
    by (intros; by eapply sends_enqueue).
  destruct (decide (id' = id)) as [->|Hne].
  - assert (frames id [fr] = [fr]) as Efr.
    { destruct Hf as (? & E & _). apply frames_one. split; [done|]. unfold stream_cmd. rewrite E. set_solver. }
    split.
    + intros Habs. destruct (Habs r s0); [by rewrite Eh, lookup_insert_eq|done].
    + intros r' s' Hr' Hid Honly. assert (r' = r) as ->.
      { symmetry. apply (Honly r s0); [by rewrite Eh, lookup_insert_eq|done]. }
      exists fr. split; [done|]. rewrite output_app, He, app_nil_r.
      specialize (Hord r). rewrite Hn in Hord. destruct Hord as [_ ->]. rewrite Efr in Hs.
      apply (Hs []), Ha. intros r1 s1 Hr1 E1.
      assert (r1 = r) as ->; [|congruence]. apply (Honly r1 s1); [|done].
      rewrite Eh, lookup_insert_ne; [done|congruence].
  - assert (frames id' [fr] = []) as Efr.
    { apply frames_other. intros [? _]. destruct Hf. congruence. }
    rewrite Efr in Hs. setoid_rewrite app_nil_r in Hs. split.
    + intros Habs. by eapply Hs, Ha, absent_back.
    + intros r' s' Hr' Hid Honly. rewrite Eh, lookup_insert in Hr'. case_decide; [congruence|].
      destruct (Ho r' s' Hr' Hid) as (first & Hf' & Hsend); [by eapply only_back|].
      exists first. split; [done|]. rewrite output_app, He, app_nil_r. by apply Hs.
Qed.

(** A step of a drain goroutine that queues a frame. *)
Lemma send_inv_drain role es m m1 r s f :
  view m (enqueue m1 f PriorityData) (LDrain r (Some f)) →
  m_heap m !! r = Some s → StreamID f = s_id s → stream_cmd f → calm (λ _, True) m m1 → queue_open m →
  send_inv role es m → send_inv role (es ++ [LDrain r (Some f)]) (enqueue m1 f PriorityData).
Proof.
  intros Hv Hr Hsid Hsc Hc Hqo Hi id. destruct (Hi id) as [Ha Ho].
  assert (∀ L, sends id es m L → sends id (es ++ [LDrain r (Some f)]) (enqueue m1 f PriorityData) (L ++ frames id [f])) as Hs.
  { intros L [Hp Hq]. unfold sends. rewrite sent_snoc, app_nil_r. split; [by apply prefix_app_r|].
    cbn. intros Hop. destruct (calm_data _ _ _ Hc Hop) as (Hop' & Ed & Ecl).
    rewrite data_Enqueue, Ed, frames_app, (assoc_L (++)), Hq by (rewrite ?Ecl; auto). done. }
  destruct (decide (s_id s = id)) as [Eid|Hne].
  - assert (frames id [f] = [f]) as Efr by (apply frames_one; split; [congruence|done]). rewrite Efr in Hs. split.
    + intros Habs. by destruct (absent_back _ _ _ _ Hv Habs r s Hr).
    + intros r' s' Hr' Hid Honly. pose proof (only_back _ _ _ _ _ Hv Honly) as Hon.
      assert (r = r') as <- by (by apply (Hon r s)).
      destruct (Ho r s Hr Eid Hon) as (first & Hf & Hsend). exists first. split; [done|].
      rewrite output_app. cbn [output]. rewrite decide_True by done. by apply (Hs (first :: _)).
  - assert (frames id [f] = []) as Efr by (apply frames_other; intros [? _]; congruence).
    rewrite Efr in Hs. setoid_rewrite app_nil_r in Hs. split.
    + intros Habs. by eapply Hs, Ha, absent_back.
    + intros r' s' Hr' Hid Honly. destruct (calm_dom _ _ _ Hc _ _ Hr') as (s1 & Hr1 & E1).
      destruct (Ho r' s1 Hr1) as (first & Hf & Hsend); [congruence|by eapply only_back|].
      exists first. split; [done|]. rewrite output_app. cbn [output].
      rewrite decide_False, app_nil_r by congruence. by apply Hs.
Qed.

Lemma silent_output e r : silent e = true → output r [e] = [] ∧ sent [e] = [].
Proof. by destruct e as [| | | | | | | | | | |? []| | | | | | | |]. Qed.

Lemma view_send_inv role es e m m' :
  view m m' e → connected m e → no_stream_frames m → queue_open m → order_inv es m →
  local_parity (start_id role) m → send_inv role es m → send_inv role (es ++ [e]) m'.
Proof.
  intros Hv Hcon Hn Hqo Hord [Hnx Hfr] Hi. pose proof Hv as Hv'.
  destruct Hv as [e Hc Hsil|r id payload Hm Hid|f r Hm ? ? Hown|f r s s' _ _ _ Hr Hc Hr' Hid|r s p s' Hr Em Hid|r s f m1 Hr ? ? Hc Em|f g q Hd -> Em].
  - apply (send_inv_quiet role es e m m'); [done|intros r; by apply silent_output|apply Hc| |done].
    intros id L. eapply sends_calm; [done|]. by apply (silent_output e 0).
  - apply (send_inv_made role es _ m m' r id (open_frame id payload)); try done.
    split_and!; [done..|]. rewrite bool_decide_eq_false_2; [done|]. intros Hp. apply Hp.
    destruct Hid as [?| ->]; auto.
  - apply (send_inv_made role es _ m m' r (StreamID f) (ack_frame (StreamID f))); try done.
    split_and!; [done..|]. rewrite bool_decide_eq_true_2; [done|].
    revert Hown. unfold ownsID. case_bool_decide; [done|]. congruence.
  - apply (send_inv_quiet role es _ m m'); [done|done|apply Hc| |done].
    intros id L. by eapply sends_calm.
  - subst m'. apply (send_inv_quiet role es _ m _); [done|done| | |done].
    + intros r' s0. cbn. rewrite lookup_insert. case_decide; [|by eauto]. intros [= <-]. subst. eauto.
    + intros id L [? ?]. split; rewrite sent_snoc, app_nil_r; done.
  - subst m'. by eapply send_inv_drain.
  - subst m'. apply (send_inv_quiet role es _ m _); [done|done|by eauto| |done].
    intros id L. by apply sends_send.
Qed.

(** ** What a side reads from a stream *)

(** The bytes handled for the stream so far. *)
Definition handled (id : Z) (es : list mlabel) : list byte := bytes_in (frames id (received es)).

Definition recv_obj (id : Z) (r : nat) (es : list mlabel) (m : MuxSession) (s : StreamSession) : Prop :=
  reads r es ++ readBuf s `prefix_of` handled id es ∧
  (m_closeCh m = false → m_streams m !! id = Some r → reads r es ++ readBuf s = handled id es) ∧
  (remote_closed s → reads r es ++ readBuf s = handled id es ∧ fin_frame id ∈ received es).

Definition recv_inv (id : Z) (r : nat) (es : list mlabel) (m : MuxSession) : Prop :=
  match m_heap m !! r with
  | None => reads r es = []
  | Some s => s_id s = id → recv_obj id r es m s
  end.

Lemma handled_snoc id es e : handled id (es ++ [e]) = handled id es ++ handled id [e].
Proof. unfold handled. by rewrite received_snoc, frames_app, bytes_in_app. Qed.

Lemma handled_none id e : (∀ f, e = LFrame f → carries id f → FCommand f = CmdStreamOpen) → handled id [e] = [].
Proof.
  intros He. unfold handled. destruct e as [| | | |f| | | | | | | | | | | | | | |]; try done.
  change (received [LFrame f]) with [f].
  destruct (decide (carries id f)) as [Hc|Hc]; [|by rewrite frames_other].
  rewrite frames_one by done. apply bytes_in_other. by rewrite (He f).
Qed.

(** A step that delivers nothing to the stream. *)
Lemma recv_calm id r es e m m' s s' :
  calm_obj s s' → mux_inv m' → m_heap m' !! r = Some s' → reads r [e] = [] →
  (m_streams m' !! id = Some r → m_streams m !! id = Some r) →
  (m_closeCh m' = false → m_closeCh m = false) →
  (m_streams m !! id = Some r ∨ fin_frame id ∈ received es → handled id [e] = []) →
  recv_obj id r es m s → recv_obj id r (es ++ [e]) m' s'.
Proof.
  intros (_ & _ & Hobj) I Hr' Hrd Hmap Hcl Hno (Ha & Hb & Hc).
  unfold recv_obj. rewrite reads_app, Hrd, app_nil_r, handled_snoc, received_snoc.
  assert (readBuf s' = readBuf s ∨ readBuf s' = []) as Hbuf by naive_solver.
  split_and!.
  - apply prefix_app_r. destruct Hbuf as [-> | ->]; [done|]. rewrite app_nil_r.
    etrans; [|exact Ha]. by apply prefix_app_r.
  - intros Ho Hm. rewrite Hno, app_nil_r by auto.
    destruct Hobj as [[-> _]|[_ Hrs]]; [by auto|].
    pose proof (ci_live _ _ _ _ _ _ _ _ I Ho _ _ _ Hm Hr') as Ht. unfold is_terminal in Ht. by rewrite Hrs in Ht.
  - intros Hrc. destruct Hobj as [[-> Hs]|[_ Hrs]]; [|destruct Hrc; congruence].
    destruct (Hc (Hs Hrc)) as [HX Hf]. rewrite Hno, app_nil_r by auto. split; [done|].
    apply elem_of_app. by left.
Qed.

(** The frames of the stream that may arrive: its first one, then data and
    one FIN at the end. *)
Definition expected (id : Z) (es : list mlabel) (e : mlabel) : Prop :=
  ∀ f, e = LFrame f → carries id f →
    FCommand f = CmdStreamOpen ∨
    ((∃ p, f = data_frame id p) ∨ f = fin_frame id) ∧ fin_frame id ∉ received es.

Lemma expected_fin id es e : expected id es e → fin_frame id ∈ received es → handled id [e] = [].
Proof. intros He Hf. apply handled_none. intros f -> Hc. destruct (He f eq_refl Hc) as [?|[_ ?]]; done. Qed.

(** A frame for the active stream. *)
Lemma recv_frame id r es f m m' s s' :
  expected id es (LFrame f) → carries id f → FCommand f ≠ CmdStreamOpen →
  m_closeCh m = false → m_streams m !! id = Some r →
  readBuf s' = readBuf s ++ bytes_in [f] →
  (remote_closed s' → remote_closed s ∨ FCommand f = CmdStreamClose ∨ has_flag (Flags f) FlagFIN = true) →
  recv_obj id r es m s → recv_obj id r (es ++ [LFrame f]) m' s'.
Proof.
  intros He Hca Hno Ho Hm Hbuf Hrc (_ & Hb & Hc). destruct (He f eq_refl Hca) as [?|[Hf Hnf]]; [done|].
  specialize (Hb Ho Hm). unfold recv_obj.
  assert (reads r (es ++ [LFrame f]) ++ readBuf s' = handled id (es ++ [LFrame f])) as E.
  { rewrite reads_app, handled_snoc, Hbuf. cbn [reads]. rewrite app_nil_r, (assoc_L (++)), Hb. f_equal.
    unfold handled. change (received [LFrame f]) with [f]. by rewrite frames_one. }
  rewrite E. split_and!; [done..|]. intros H. split; [done|]. rewrite received_snoc. apply elem_of_app.
  destruct (Hrc H) as [[_ ?]%Hc|Hend]; [by left|right]. apply list_elem_of_singleton.
  destruct Hf as [[p ->]| ->]; [|done]. by destruct Hend.
Qed.

Lemma silent_reads e r : silent e = true → reads r [e] = [].
Proof. by destruct e as [| | | | | | | | | | |? []| | | | | | | |]. Qed.

Lemma view_recv_inv id r es e m m' :
  view m m' e → connected m e → mux_inv m → mux_inv m' → expected id es e →
  (∀ s', m_heap m' !! r = Some s' → m_heap m !! r = None → s_id s' = id → handled id (es ++ [e]) = []) →
  recv_inv id r es m → recv_inv id r (es ++ [e]) m'.
Proof.
  intros Hv Hcon I I' Hexp Hnew. unfold recv_inv. pose proof Hv as Hv'.
  destruct (m_heap m !! r) as [s|] eqn:Hr.
  2:{ intros Hrd. assert (reads r [e] = []) as Hre.
      { destruct Hv as [e ? ?| | | |r0 s0 p s' Hr0| |]; try done; [by apply silent_reads|].
        cbn. rewrite decide_False; [done|]. congruence. }
      destruct (m_heap m' !! r) as [s'|] eqn:Hr'; [|by rewrite reads_app, Hrd, Hre].
      intros Hid. destruct (view_made _ _ _ _ _ Hv' Hr') as [(s & ? & _)|(_ & Hb & Hst & _)]; [congruence|].
      unfold recv_obj. rewrite reads_app, Hrd, Hre, Hb, (Hnew _ eq_refl eq_refl Hid). split_and!; [done..|].
      intros [?|?]; congruence. }
  intros Hrecv. destruct (view_grows _ _ _ _ _ Hv Hr) as (s' & Hr' & Es). rewrite Hr'. rewrite Es.
  intros Hid. specialize (Hrecv Hid).
  pose proof (expected_fin id es e Hexp) as Hfin.
  destruct Hv as [e Hc Hsil Hfr _|r0 id0 payload Hm _|f r0 Hm Hop _ _|f r0 s0 s1 Hsc Hnop Hm Hr0 Hc Hr1 _ Hbuf Hrc|r0 s0 p s1 Hr0 -> E1 E2 E3|r0 s0 f m1 _ _ _ Hc ->|f g q _ _ ->].
  - destruct (calm_heap _ _ _ Hc _ _ Logic.I Hr) as (s1 & ? & Hco). simplify_eq.
    eapply recv_calm; [exact Hco|done..|by apply silent_reads|apply Hc|apply Hc| |done].
    intros [Hm|?]; [|by auto]. apply handled_none. intros f -> [Hsid Hsc].
    destruct (Hfr f eq_refl Hsc) as [?|?]; [|done]. congruence.
  - destruct Hm as [Hn (s0 & Eh & _) Est _ _ _ Ec]. rewrite Eh, lookup_insert_ne in Hr' by congruence. simplify_eq.
    eapply recv_calm; [apply calm_obj_refl|done|by rewrite Eh, lookup_insert_ne by congruence|done| |by rewrite Ec|done|done].
    rewrite Est, lookup_insert. case_decide; [|done]. intros [= ->]. congruence.
  - destruct Hm as [Hn (s0 & Eh & _) Est _ _ _ Ec]. rewrite Eh, lookup_insert_ne in Hr' by congruence. simplify_eq.
    eapply recv_calm; [apply calm_obj_refl|done|by rewrite Eh, lookup_insert_ne by congruence|done| |by rewrite Ec| |done].
    + rewrite Est, lookup_insert. case_decide; [|done]. intros [= ->]. congruence.
    + intros _. apply handled_none. by intros ? [= <-] _.
  - destruct (ci_streams _ _ _ _ _ _ _ _ I _ _ Hm) as (s2 & ? & Hsid). simplify_eq.
    destruct (decide (r = r0)) as [->|Hne].
    + simplify_eq. rewrite <-Hsid in Hm. by eapply recv_frame.
    + destruct (calm_heap _ _ _ Hc _ _ Hne Hr) as (s3 & ? & Hco). simplify_eq.
      eapply recv_calm; [exact Hco|done|done|done|apply Hc|apply Hc| |done].
      intros [Hm'|?]; [|by auto]. apply handled_none. intros ? [= <-] [E _]. congruence.
  - cbn in Hr'. rewrite lookup_insert in Hr'. case_decide as Hd.
    + subst. simplify_eq. destruct Hrecv as (Ha & Hb & Hcl). unfold recv_obj.
      rewrite reads_app, handled_snoc, received_snoc. cbn [reads].
      change (handled ?i [LRead r p]) with (@nil byte). change (received [LRead r p]) with (@nil Frame).
      rewrite decide_True, !app_nil_r, <-(assoc_L (++)), <-E3 by done.
      unfold remote_closed in *. rewrite E2. done.
    + simplify_eq. eapply (recv_calm _ _ _ _ m); [apply calm_obj_refl|done| | |done..].
      * cbn. by rewrite lookup_insert_ne.
      * cbn. by rewrite decide_False by congruence.
  - destruct (calm_heap _ _ _ Hc _ _ Logic.I Hr) as (s1 & ? & Hco). cbn in Hr'. simplify_eq.
    eapply recv_calm; [exact Hco|done|done|done|apply Hc|apply Hc|by auto|done].
  - cbn in Hr'. simplify_eq. by eapply (recv_calm _ _ _ _ m); [apply calm_obj_refl|..].
Qed.

(** ** Both sides *)

Record side_inv (role : MuxRole) (es : list mlabel) (m : MuxSession) : Prop := {
  sd_mux : mux_inv m;
  sd_order : order_inv es m;
  sd_parity : local_parity (start_id role) m;
  sd_queue : queue_open m;
  sd_control : no_stream_frames m;
  sd_send : send_inv role es m
}.

Lemma side_invs role config es m : fits_ids role config → side role config es m → side_inv role es m.
Proof.
  intros Hfit Hs. pose proof (side_reachable _ _ _ _ Hs) as Hrun.
  assert (mux_inv m ∧ order_inv es m) as [I O] by (split; [by eapply reachable_inv|by eapply reachable_order]).
  assert (local_parity (start_id role) m ∧ queue_open m ∧ no_stream_frames m ∧ send_inv role es m)
    as (? & ? & ? & ?); [|done]. clear Hrun I O.
  induction Hs as [|es m e m' Hs (Hp & Hq & Hn & Hsend) Hst Hcon].
  - split_and!; try done.
    + split; [by destruct role|]. by intros i ?%not_elem_of_nil.
    + constructor.
  - pose proof (side_reachable _ _ _ _ Hs) as Hrun.
    assert (view m m' e) as Hv by (apply mstep_view; [by eapply reachable_inv|done]).
    split_and!; eauto using view_parity, view_queue, view_control.
    eapply view_send_inv; try done. by eapply reachable_order.
Qed.

Definition once (m : MuxSession) (id : Z) : Prop :=
  ∀ r1 r2 s1 s2, m_heap m !! r1 = Some s1 → m_heap m !! r2 = Some s2 → s_id s1 = id → s_id s2 = id → r1 = r2.

Lemma once_back m m' e id : view m m' e → once m' id → once m id.
Proof.
  intros Hv Ho r1 r2 s1 s2 H1 H2 E1 E2. destruct (view_grows _ _ _ _ _ Hv H1) as (s1' & H1' & ?).
  destruct (view_grows _ _ _ _ _ Hv H2) as (s2' & H2' & ?). eapply Ho; [exact H1'|exact H2'|congruence..].
Qed.

Lemma absent_or m id : absent m id ∨ ∃ r s, m_heap m !! r = Some s ∧ s_id s = id.
Proof.
  destruct (decide (map_Forall (λ _ s, s_id s ≠ id) (m_heap m))) as [Ha|Hn]; [by left|right].
  apply map_not_Forall in Hn as (r & s & Hr & Hs); [|apply _]. exists r, s. split; [done|].
  by destruct (decide (s_id s = id)).
Qed.

Definition stream_frames (id : Z) (first : Frame) (taken : list (list byte)) (fin : bool) : list Frame :=
  first :: (data_frame id <$> taken) ++ (if fin then [fin_frame id] else []).

(** What a side has sent for a stream that it has only once. *)
Lemma sent_shape role es m id :
  side_inv role es m → once m id →
  absent m id ∧ frames id (sent es) = [] ∨
  ∃ r s first taken fin, m_heap m !! r = Some s ∧ s_id s = id ∧ is_first role id first ∧
    frames id (sent es) `prefix_of` stream_frames id first taken fin ∧
    taken `prefix_of` written r es ∧ (fin = true → taken = written r es).
Proof.
  intros Hi Ho. destruct (sd_send _ _ _ Hi id) as [Ha Hp].
  destruct (absent_or m id) as [Habs|(r & s & Hr & Hs)].
  - left. split; [done|]. destruct (Ha Habs) as [E _]. by apply prefix_nil_inv in E.
  - right. destruct (Hp r s Hr Hs) as (first & Hf & Hpre & _).
    { intros r' s' Hr' Hs'. by eapply Ho. }
    pose proof (sd_order _ _ _ Hi r) as O. rewrite Hr in O.
    destruct O as (pc & _ & taken & fin & Eout & Ew & _ & H4). rewrite Eout, Hs in Hpre.
    exists r, s, first, taken, fin. split_and!; try done; [by exists (writeOut s)|].
    intros E. destruct (H4 E) as [_ Ewo]. by rewrite <-Ew, Ewo, app_nil_r.
Qed.

(** The next frame of the stream that can arrive. *)
Lemma next_frame id first taken fin l f :
  FCommand first = CmdStreamOpen → l ++ [f] `prefix_of` stream_frames id first taken fin →
  l = [] ∧ f = first ∨
  l ≠ [] ∧ ((∃ p, f = data_frame id p) ∨ f = fin_frame id) ∧ fin_frame id ∉ l.
Proof.
  intros Ef Hp. unfold stream_frames in Hp. destruct l as [|g l].
  { left. by apply prefix_cons_inv_1 in Hp as ->. }
  right. split; [done|]. rewrite <-app_comm_cons in Hp. apply prefix_cons_inv_1 in Hp as Eg. apply prefix_cons_inv_2 in Hp. subst g.
  assert (l `prefix_of` (data_frame id <$> taken) ∧ (f ∈ (data_frame id <$> taken) ∨ f = fin_frame id)) as [Hl Hf].
  { destruct fin.
    - destruct Hp as [k Hk]. destruct k as [|x k _] using rev_ind.
      + rewrite app_nil_r in Hk. apply app_inj_tail in Hk as [<- <-]. auto.
      + rewrite (assoc_L (++)) in Hk. apply app_inj_tail in Hk as [Hk _]. rewrite Hk.
        split; [eexists; by rewrite <-?(assoc_L (++))|left]. set_solver.
    - rewrite app_nil_r in Hp. destruct Hp as [k ->]. split; [eexists; by rewrite <-?(assoc_L (++))|left].
      set_solver. }
  split.
  - destruct Hf as [(p & -> & _)%list_elem_of_fmap|?]; eauto.
  - intros [E|Hin]%elem_of_cons; [by rewrite <-E in Ef|]. destruct Hl as [k Hk].
    assert (fin_frame id ∈ data_frame id <$> taken) as (p & E & _)%list_elem_of_fmap by (rewrite Hk; set_solver). done.
Qed.

Lemma frames_prefix id l l' : l `prefix_of` l' → frames id l `prefix_of` frames id l'.
Proof. intros [k ->]. rewrite frames_app. by apply prefix_app_r. Qed.

Lemma fin_carries id : carries id (fin_frame id).
Proof. split; [done|]. unfold stream_cmd. cbn. set_solver. Qed.

(** What arrives for a stream from a peer that has it only once. *)
Lemma arrives role es m fs e id f :
  side_inv role es m → once m id → received (fs ++ [e]) `prefix_of` sent es → e = LFrame f → carries id f →
  ¬ absent m id ∧ ∃ first, is_first role id first ∧
    (frames id (received fs) = [] ∧ f = first ∨
     frames id (received fs) ≠ [] ∧ ((∃ p, f = data_frame id p) ∨ f = fin_frame id) ∧ fin_frame id ∉ received fs).
Proof.
  intros Hi Ho Hp -> Hc. apply (frames_prefix id) in Hp. rewrite received_snoc, frames_app in Hp.
  change (received [LFrame f]) with [f] in Hp. rewrite (frames_one id f) in Hp by done.
  destruct (sent_shape _ _ _ _ Hi Ho) as [[_ E]|(r & s & first & taken & fin & Hr & Hs & Hf & Hsent & _)].
  { rewrite E in Hp. apply prefix_nil_inv in Hp. by destruct (frames id (received fs)). }
  split; [intros Ha; by apply (Ha _ _ Hr)|]. exists first. split; [done|].
  assert (FCommand first = CmdStreamOpen) as Ef by apply Hf.
  destruct (next_frame id first taken fin (frames id (received fs)) f Ef) as [?|(Hne & Hsh & Hfin)];
    [by etrans|by left|right].
  split_and!; [done..|]. intros Hin. apply Hfin. apply list_elem_of_filter. split; [apply fin_carries|done].
Qed.

Lemma arrives_expected role es m fs e id :
  side_inv role es m → once m id → received (fs ++ [e]) `prefix_of` sent es → expected id fs e.
Proof.
  intros Hi Ho Hp f He Hc. destruct (arrives _ _ _ _ _ _ _ Hi Ho Hp He Hc) as (_ & first & Hf & [[_ ->]|(_ & ? & ?)]);
    [left; apply Hf|by right].
Qed.

Lemma frame_case id e : (∃ f, e = LFrame f ∧ carries id f) ∨ frames id (received [e]) = [].
Proof.
  destruct e as [| | | |f| | | | | | | | | | | | | | |]; try by right. change (received [LFrame f]) with [f].
  destruct (decide (carries id f)); [left; by exists f|right; by apply frames_other].
Qed.

Section link.
Context (ra rb : MuxRole) (id : Z) (Hne : ra ≠ rb) (Hid : id mod 2 = start_id ra mod 2).

Lemma other_parity : id mod 2 ≠ start_id rb mod 2.
Proof. rewrite Hid. clear -Hne. by destruct ra, rb. Qed.

Lemma link_sides ca cb es a fs b :
  link ra ca rb cb es a fs b →
  side ra ca es a ∧ side rb cb fs b ∧ received es `prefix_of` sent fs ∧ received fs `prefix_of` sent es.
Proof.
  induction 1 as [|es a fs b e a' _ (Sa & Sb & H1 & H2) Hs Hc Hp|es a fs b e b' _ (Sa & Sb & H1 & H2) Hs Hc Hp].
  - split_and!; [constructor..| |]; apply prefix_nil.
  - split_and!; try done; [by econstructor|]. rewrite sent_snoc. by apply prefix_app_r.
  - split_and!; try done; [by econstructor|]. rewrite sent_snoc. by apply prefix_app_r.
Qed.

(** The stream [id], opened once on the left. *)
Record link_inv (es : list mlabel) (a : MuxSession) (fs : list mlabel) (b : MuxSession) : Prop := {
  li_once : once b id;
  li_absent : absent b id → frames id (received fs) = [];
  li_there : ∀ r s, m_heap b !! r = Some s → s_id s = id → frames id (received fs) ≠ [];
  li_left : ∀ r, recv_inv id r es a;
  li_right : ∀ r, recv_inv id r fs b
}.

(** A step of the side that opened the stream. *)
Lemma link_inv_left es a fs b e a' :
  side_inv ra es a → side_inv rb fs b → mux_inv a' → view a a' e → connected a e →
  received (es ++ [e]) `prefix_of` sent fs → received fs `prefix_of` sent es → once a' id →
  link_inv es a fs b → link_inv (es ++ [e]) a' fs b.
Proof.
  intros Sa Sb Ia' Hv Hcon Hpe Hpf Honce [Ho Habs Hth Hl Hr]. split; try done.
  intros r. eapply view_recv_inv; [done..|apply Sa|done| | |apply Hl].
  - by eapply arrives_expected.
  - intros s' Hr' Hn Hs'.
    assert (absent a id) as Ha.
    { intros r1 s1 Hr1 Hs1. destruct (view_grows _ _ _ _ _ Hv Hr1) as (s2 & Hr2 & E2).
      assert (r1 = r) as ->; [|congruence]. by eapply (Honce r1 r s2 s'); [..|congruence|]. }
    assert (frames id (received fs) = []) as Erf.
    { apply (frames_prefix id) in Hpf. destruct (sd_send _ _ _ Sa id) as [Hs _].
      destruct (Hs Ha) as [E _]. apply prefix_nil_inv in E. rewrite E in Hpf. by apply prefix_nil_inv in Hpf. }
    assert (absent b id) as Hb by (intros r1 s1 Hr1 Hs1; by apply (Hth r1 s1)).
    apply (frames_prefix id) in Hpe. destruct (sd_send _ _ _ Sb id) as [Hs _].
    destruct (Hs Hb) as [E _]. apply prefix_nil_inv in E. rewrite E in Hpe. apply prefix_nil_inv in Hpe.
    unfold handled. by rewrite Hpe.
Qed.

(** A new stream [id] on the side that did not open it is made by the first
    frame of the stream, when there was none. *)
Lemma made_right es a fs b e b' r s :
  side_inv ra es a → side_inv rb fs b → once a id → view b b' e → received (fs ++ [e]) `prefix_of` sent es →
  m_heap b !! r = None → m_heap b' !! r = Some s → s_id s = id →
  ∃ f, e = LFrame f ∧ carries id f ∧ frames id (received fs) = [] ∧ FCommand f = CmdStreamOpen.
Proof.
  intros Sa Sb Hoa Hv Hp Hn Hr Hs.
  destruct (view_made _ _ _ _ _ Hv Hr) as [(? & ? & _)|(_ & _ & _ & [[_ Hp']|(f & -> & Hsid & Ef & _ & _)])]; [congruence|..].
  - destruct (sd_parity _ _ _ Sb) as [Hnx Hfr]. destruct other_parity.
    rewrite Hs in Hp'. destruct Hp' as [Hi|Hi]; [by apply Hfr|by rewrite Hi].
  - exists f. assert (carries id f) as Hc by (split; [congruence|]; unfold stream_cmd; rewrite Ef; set_solver).
    split_and!; try done.
    destruct (arrives _ _ _ _ _ _ _ Sa Hoa Hp eq_refl Hc) as (_ & first & _ & [[? _]|(_ & [[p ->]| ->] & _)]); done.
Qed.

(** A step of the other side. *)
Lemma link_inv_right es a fs b e b' :
  side_inv ra es a → side_inv rb fs b → mux_inv b' → view b b' e → connected b e →
  received (fs ++ [e]) `prefix_of` sent es → once a id →
  link_inv es a fs b → link_inv es a (fs ++ [e]) b'.
Proof.
  intros Sa Sb Ib' Hv Hcon Hp Hoa [Ho Habs Hth Hl Hr]. pose proof other_parity as Hop.
  pose proof (made_right es a fs b e b') as Hmade.
  assert (∀ r1 s1, m_heap b' !! r1 = Some s1 → s_id s1 = id → m_heap b !! r1 = None ∨
            ∃ s0, m_heap b !! r1 = Some s0 ∧ s_id s0 = id) as Hold.
  { intros r1 s1 Hr1 Hs1. destruct (view_made _ _ _ _ _ Hv Hr1) as [(s0 & ? & ?)|[? _]]; [right|by left].
    exists s0. split; [done|congruence]. }
  assert (∀ f, e = LFrame f → carries id f → frames id (received (fs ++ [e])) ≠ []) as Hgot.
  { intros f -> Hc. rewrite received_snoc, frames_app. change (received [LFrame f]) with [f].
    rewrite frames_one by done. by destruct (frames id (received fs)). }
  split; [| | |done|].
  - intros r1 r2 s1 s2 H1 H2 E1 E2.
    destruct (Hold r1 s1 H1 E1) as [Hn1|(t1 & Ht1 & ?)], (Hold r2 s2 H2 E2) as [Hn2|(t2 & Ht2 & ?)].
    + by eapply view_made_one.
    + destruct (Hmade r1 s1) as (f & _ & _ & Hnil & _); try done. by destruct (Hth r2 t2 Ht2).
    + destruct (Hmade r2 s2) as (f & _ & _ & Hnil & _); try done. by destruct (Hth r1 t1 Ht1).
    + by eapply (Ho r1 r2 t1 t2).
  - intros Ha. rewrite received_snoc, frames_app, Habs by (by eapply absent_back). cbn [app].
    destruct (frame_case id e) as [(f & -> & Hc)|?]; [exfalso|done].
    assert (absent b id) as Hab by (by eapply absent_back).
    destruct (arrives _ _ _ _ _ _ _ Sa Hoa Hp eq_refl Hc) as (_ & first & (Ef1 & Ef2 & Eack) & [[_ ->]|(? & _)]);
      [|by rewrite Habs in *].
    rewrite bool_decide_eq_false_2 in Eack by (intros Hx; by apply Hx).
    inversion Hv as [? _ _ _ Hcond| |? r Hm _ _ _|? ? ? ? _ Hnop| | |]; subst; [|by destruct Hm as [_ (s & Eh & Es & _)]; destruct (Ha r s); [rewrite Eh, lookup_insert_eq|]|done].
    destruct (Hcond first eq_refl Ef2) as [[r Hr0]|[Hown|?]]; [| |congruence].
    + destruct (ci_streams _ _ _ _ _ _ _ _ (sd_mux _ _ _ Sb) _ _ Hr0) as (s & Hrs & Hss). by destruct (Hab r s).
    + revert Hown. unfold ownsID. case_bool_decide as Hx; [|done]. intros _. apply Hop.
      destruct (sd_parity _ _ _ Sb) as [Hnx _]. congruence.
  - intros r s Hrs Hs. rewrite received_snoc, frames_app.
    destruct (Hold r s Hrs Hs) as [Hn|(t & Ht & Es)].
    + destruct (Hmade r s) as (f & -> & Hc & _ & _); try done. rewrite <-frames_app, <-received_snoc. by eapply Hgot.
    + specialize (Hth _ _ Ht Es). by destruct (frames id (received fs)).
  - intros r. eapply view_recv_inv; [done..|apply Sb|done| | |apply Hr].
    + exact (arrives_expected ra es a fs e id Sa Hoa Hp).
    + intros s Hrs Hn Hs. destruct (Hmade r s) as (f & -> & Hc & Hnil & Ef); try done.
      unfold handled. rewrite received_snoc, frames_app, Hnil. change (received [LFrame f]) with [f].
      rewrite frames_one by done. apply bytes_in_other. by rewrite Ef.
Qed.

Lemma link_invs ca cb es a fs b :
  fits_ids ra ca → fits_ids rb cb → link ra ca rb cb es a fs b → once a id → link_inv es a fs b.
Proof.
  intros Hfa Hfb. induction 1 as [|es a fs b e a' Hlk IH Hs Hc Hp|es a fs b e b' Hlk IH Hs Hc Hp]; intros Ho.
  - by split.
  - destruct (link_sides _ _ _ _ _ _ Hlk) as (Sa & Sb & H1 & H2).
    pose proof (side_invs ra ca es a Hfa Sa) as Va. pose proof (side_invs rb cb fs b Hfb Sb) as Vb.
    assert (view a a' e) as Hv by (apply mstep_view; [apply Va|done]).
    assert (side ra ca (es ++ [e]) a') as Sa' by (by econstructor).
    apply (link_inv_left es a fs b e a'); eauto using once_back. apply (side_invs _ _ _ _ Hfa Sa').
  - destruct (link_sides _ _ _ _ _ _ Hlk) as (Sa & Sb & H1 & H2).
    pose proof (side_invs ra ca es a Hfa Sa) as Va. pose proof (side_invs rb cb fs b Hfb Sb) as Vb.
    assert (view b b' e) as Hv by (apply mstep_view; [apply Vb|done]).
    assert (side rb cb (fs ++ [e]) b') as Sb' by (by econstructor).
    apply (link_inv_right es a fs b e b'); eauto. apply (side_invs _ _ _ _ Hfb Sb').
Qed.
End link.

(** ** End to end *)

Lemma bytes_in_frames id first taken (fin : bool) :
  FCommand first = CmdStreamOpen → bytes_in (stream_frames id first taken fin) = mjoin taken.
Proof.
  intros Ef. unfold stream_frames. change (first :: ?l) with ([first] ++ l).
  rewrite bytes_in_app, (bytes_in_other first) by (by rewrite Ef). cbn [app]. rewrite bytes_in_app.
  assert (bytes_in (if fin then [fin_frame id] else []) = []) as -> by (by destruct fin). rewrite app_nil_r.
  induction taken as [|p taken IH]; [done|].
  change (data_frame id <$> p :: taken) with ([data_frame id p] ++ (data_frame id <$> taken)).
  by rewrite bytes_in_app, IH, bytes_in_data.
Qed.

Lemma bytes_in_prefix l l' : l `prefix_of` l' → bytes_in l `prefix_of` bytes_in l'.
Proof. intros [k ->]. rewrite bytes_in_app. by apply prefix_app_r. Qed.

Lemma mjoin_prefix (l l' : list (list byte)) : l `prefix_of` l' → mjoin l `prefix_of` mjoin l'.
Proof. intros [k ->]. rewrite join_app. by apply prefix_app_r. Qed.

(** A part of the frames of a stream that has FIN is all of them. *)
Lemma fin_is_last id first taken fin l :
  FCommand first = CmdStreamOpen → l `prefix_of` stream_frames id first taken fin → fin_frame id ∈ l →
  fin = true ∧ l = stream_frames id first taken fin.
Proof.
  intros Ef [k Hk] Hin. unfold stream_frames in *. rewrite app_comm_cons in *.
  assert (fin_frame id ∉ first :: (data_frame id <$> taken)) as Hno.
  { intros [E|(p & E & _)%list_elem_of_fmap]%elem_of_cons; [by rewrite <-E in Ef|done]. }
  destruct fin; [split; [done|]|].
  - destruct k as [|x k _] using rev_ind; [by rewrite app_nil_r in Hk|].
    rewrite (assoc_L (++)) in Hk. apply app_inj_tail in Hk as [Hk _]. destruct Hno. rewrite Hk. set_solver.
  - rewrite app_nil_r in Hk. destruct Hno. rewrite Hk. set_solver.
Qed.

(** One direction of a stream: [es] the history of the writing side, [fs] that
    of the reading side. *)
Lemma delivered role es a fs b r s r' s' :
  side_inv role es a → once a (s_id s) → m_heap a !! r = Some s →
  received fs `prefix_of` sent es → recv_obj (s_id s) r' fs b s' →
  reads r' fs `prefix_of` mjoin (written r es) ∧
  (∀ n, Read s' n = ReadEOF → s_state s' ≠ StateReset → reads r' fs = mjoin (written r es)).
Proof.
  intros Sa Ho Hr Hp (Hpre & _ & Hrc).
  destruct (sent_shape _ _ _ _ Sa Ho) as [[Habs _]|(r0 & s0 & first & taken & fin & Hr0 & Hs0 & (_ & Ef & _) & Hsent & Ht & Hfin)];
    [by destruct (Habs r s)|].
  assert (r0 = r) as -> by (by eapply Ho).
  assert (frames (s_id s) (received fs) `prefix_of` stream_frames (s_id s) first taken fin) as Hf
    by (etrans; [by apply frames_prefix|done]).
  split.
  - etrans; [by apply prefix_app_r|]. etrans; [exact Hpre|]. etrans; [by apply bytes_in_prefix|].
    rewrite bytes_in_frames by done. by apply mjoin_prefix.
  - intros n Heof Hnr. assert (readBuf s' = [] ∧ remote_closed s') as [Eb Hrcl].
    { revert Heof. unfold Read, isReadClosed, remote_closed. destruct (readBuf s'); [|done].
      destruct (s_state s'); try done; auto. }
    destruct (Hrc Hrcl) as [E Hin]. rewrite Eb, app_nil_r in E. rewrite E.
    destruct (fin_is_last (s_id s) first taken fin (frames (s_id s) (received fs)) Ef Hf) as [-> El].
    { apply list_elem_of_filter. split; [apply fin_carries|done]. }
    unfold handled. rewrite El, bytes_in_frames by done. f_equal. by apply Hfin.
Qed.

(** A stream that both sides have: what each side has sent for it, and what the
    other has of it. *)
Record shared (ra : MuxRole) (es : list mlabel) (a : MuxSession) (r : nat) (s : StreamSession)
    (rb : MuxRole) (fs : list mlabel) (b : MuxSession) (r' : nat) (s' : StreamSession) : Prop := {
  sh_left : side_inv ra es a;
  sh_right : side_inv rb fs b;
  sh_once_left : once a (s_id s);
  sh_once_right : once b (s_id s');
  sh_from_right : received es `prefix_of` sent fs;
  sh_from_left : received fs `prefix_of` sent es;
  sh_recv_left : recv_obj (s_id s') r es a s;
  sh_recv_right : recv_obj (s_id s) r' fs b s'
}.

Lemma link_shared ra ca rb cb es a fs b r s r' s' :
  fits_ids ra ca → fits_ids rb cb → ra ≠ rb → link ra ca rb cb es a fs b →
  m_heap a !! r = Some s → s_id s mod 2 = start_id ra mod 2 → once a (s_id s) →
  m_heap b !! r' = Some s' → s_id s' = s_id s → shared ra es a r s rb fs b r' s'.
Proof.
  intros Hfa Hfb Hne Hlk Hr Hpar Ho Hr' Hs'.
  destruct (link_sides _ _ _ _ _ _ _ _ Hlk) as (Sa & Sb & H1 & H2).
  destruct (link_invs ra rb (s_id s) Hne Hpar ca cb es a fs b Hfa Hfb Hlk Ho) as [Hob _ _ Hl Hrt].
  specialize (Hl r). specialize (Hrt r'). unfold recv_inv in Hl, Hrt. rewrite Hr in Hl. rewrite Hr' in Hrt.
  split; rewrite ?Hs'; eauto using side_invs.
Qed.

(** C2. The tunnel carries a stream faithfully in both directions. Take the two
    sessions of a connection, run in any interleaving of calls, handled frames
    and goroutine steps on both sides, each one step, and a stream one side opened under an ID it
    used once, with the object the other side made for it. What has been read
    on either side is an initial part of what was written on the other, byte
    for byte; and when Read reports the end of a stream that was not reset, it
    is all of it. *)
Theorem tunnel_delivery ra ca rb cb es a fs b r s r' s' :
  fits_ids ra ca → fits_ids rb cb → ra ≠ rb → link ra ca rb cb es a fs b →
  m_heap a !! r = Some s → s_id s mod 2 = start_id ra mod 2 → once a (s_id s) →
  m_heap b !! r' = Some s' → s_id s' = s_id s →
  (reads r' fs `prefix_of` mjoin (written r es) ∧ reads r es `prefix_of` mjoin (written r' fs)) ∧
  (∀ n, Read s' n = ReadEOF → s_state s' ≠ StateReset → reads r' fs = mjoin (written r es)) ∧
  (∀ n, Read s n = ReadEOF → s_state s ≠ StateReset → reads r es = mjoin (written r' fs)).
Proof.
  intros Hfa Hfb Hne Hlk Hr Hpar Ho Hr' Hs'.
  destruct (link_shared ra ca rb cb es a fs b r s r' s') as [Sa Sb Oa Ob Pl Pr Rl Rr]; try done.
  destruct (delivered ra es a fs b r s r' s') as [D1 E1]; try done.
  destruct (delivered rb fs b es a r' s' r s) as [D2 E2]; try done.
Qed.

(** The end of a stream that was not reset comes from the other side's FIN. *)
Lemma eof_has_fin id r es m s n :
  recv_obj id r es m s → Read s n = ReadEOF → s_state s ≠ StateReset → fin_frame id ∈ received es.
Proof.
  intros (_ & _ & Hrc) Heof Hnr. apply Hrc. revert Heof. unfold Read, isReadClosed, remote_closed.
  destruct (readBuf s); [|done]. destruct (s_state s); try done; auto.
Qed.

Lemma fin_was_output role es m r s :
  side_inv role es m → once m (s_id s) → m_heap m !! r = Some s →
  fin_frame (s_id s) ∈ sent es → fin_frame (s_id s) ∈ output r es.
Proof.
  intros Si Ho Hr Hin. destruct (sd_send _ _ _ Si (s_id s)) as [_ Hp].
  destruct (Hp r s Hr eq_refl) as (first & (_ & Ef & _) & [k Hk] & _); [intros r' s' ? ?; by eapply Ho|].
  assert (fin_frame (s_id s) ∈ first :: output r es) as [E|?]%elem_of_cons; [|by rewrite <-E in Ef|done].
  rewrite Hk. apply elem_of_app. left. apply list_elem_of_filter. split; [apply fin_carries|done].
Qed.
