(* ===== verification/MuxWire.v ===== *)
(** * The order of a stream's output on the wire

    The frames that the drain goroutines put out (MuxOrder.v), in the write
    queue and on the wire: they pass through the data class of the queue and
    leave in the order in which they were put out. *)

From Stdlib Require Import ZArith Lia.
From S2P Require Import Prelude Frame Window WriteQueue Stream Mux MuxInv MuxOps MuxOrder MuxView Link.

(** STREAM_DATA and STREAM_CLOSE. *)
Definition is_output (f : Frame) : Prop := FCommand f = CmdStreamData ∨ FCommand f = CmdStreamClose.
#[export] Instance is_output_dec f : Decision (is_output f).
Proof. unfold is_output. apply _. Defined.

Definition outputs (l : list Frame) : list Frame := filter is_output l.

(** All that the drain goroutines of a session have put out, in order. *)
Definition drained (es : list mlabel) : list Frame :=
  omap (λ e, match e with LDrain _ out => out | _ => None end) es.

Lemma outputs_app l l' : outputs (l ++ l') = outputs l ++ outputs l'.
Proof. apply filter_app. Qed.
Lemma outputs_one f : is_output f → outputs [f] = [f].
Proof. intros H. unfold outputs. by rewrite filter_cons_True. Qed.
Lemma outputs_other f : ¬ is_output f → outputs [f] = [].
Proof. intros H. unfold outputs. by rewrite filter_cons_False. Qed.
Lemma drained_snoc es e : drained (es ++ [e]) = drained es ++ drained [e].
Proof. apply omap_app. Qed.

Lemma output_cmd f : is_output f → stream_cmd f.
Proof. unfold stream_cmd. intros [-> | ->]; set_solver. Qed.

Lemma outputs_wire m f : outputs [wire m f] = outputs [f].
Proof.
  destruct (decide (FCommand f = CmdPing)) as [E|E]; [|by rewrite wire_other].
  rewrite !outputs_other; [done|..]; unfold is_output, wire; rewrite ?E, ?bool_decide_eq_true_2 by done; cbn; naive_solver.
Qed.

(** What the session has sent and what waits in the data class. *)
Definition wired (es : list mlabel) (m : MuxSession) : list Frame := sent es ++ data (m_writeQueue m).

Definition wire_inv (es : list mlabel) (m : MuxSession) : Prop :=
  m_closeCh m = false → outputs (wired es m) = drained es.

Lemma wired_enqueue es e m m' f :
  sent [e] = [] → closed (m_writeQueue m) = false →
  m_writeQueue m' = Enqueue (m_writeQueue m) f PriorityData → wired (es ++ [e]) m' = wired es m ++ [f].
Proof.
  intros He Hc Eq. unfold wired. by rewrite sent_snoc, He, app_nil_r, Eq, data_Enqueue, (assoc_L (++)).
Qed.

Lemma wired_send es m f q :
  no_stream_frames m → Dequeue (m_writeQueue m) false = DqFrame f q →
  outputs (wired (es ++ [LSend (wire m f)]) (set_writeQueue q m)) = outputs (wired es m).
Proof.
  intros Hn. unfold wired. rewrite sent_snoc. change (sent [LSend (wire m f)]) with [wire m f].
  rewrite !outputs_app, outputs_wire. cbn [m_writeQueue set_writeQueue]. revert Hn. unfold Dequeue, no_stream_frames.
  destruct (control (m_writeQueue m)) as [|g gs].
  - destruct (data (m_writeQueue m)) as [|g gs]; [by case_match|]. intros _ [= <- <-]. cbn [data].
    change (g :: gs) with ([g] ++ gs). by rewrite outputs_app, (assoc_L (++)).
  - intros [Hg _]%Forall_cons [= <- <-]. cbn [data]. rewrite (outputs_other g), app_nil_r; [done|].
    by intros ?%output_cmd.
Qed.

Lemma silent_drained e : silent e = true → sent [e] = [] ∧ drained [e] = [].
Proof. by destruct e as [| | | | | | | | | | |? []| | | | | | | |]. Qed.

Lemma view_wire es e m m' :
  view m m' e → (∀ r out, e = LDrain r (Some out) → is_output out) → connected m e →
  queue_open m → no_stream_frames m → wire_inv es m → wire_inv (es ++ [e]) m'.
Proof.
  intros Hv Ho Hcon Hq Hn Hi Hop.
  destruct Hv as [e Hc Hsil|r id payload Hm Hid|f r Hm ? ? Hown|f r s s' _ _ _ Hr Hc Hr' Hid|r s p s' Hr Em Hid|r s f m1 Hr ? ? Hc Em|f g q Hd -> Em].
  - destruct (silent_drained e Hsil) as [E1 E2]. destruct (calm_data _ _ _ Hc Hop) as (Hop' & Ed & _).
    unfold wired. rewrite sent_snoc, E1, drained_snoc, E2, !app_nil_r, Ed. by apply Hi.
  - destruct Hm as [_ _ _ _ _ Eq Ec]. rewrite Ec in Hop. erewrite wired_enqueue; [|done|by auto|done].
    rewrite outputs_app, drained_snoc, (Hi Hop), outputs_other; [done|]. unfold is_output. cbn. naive_solver.
  - destruct Hm as [_ _ _ _ _ Eq Ec]. rewrite Ec in Hop. erewrite wired_enqueue; [|done|by auto|done].
    rewrite outputs_app, drained_snoc, (Hi Hop), outputs_other; [done|]. unfold is_output. cbn. naive_solver.
  - destruct (calm_data _ _ _ Hc Hop) as (Hop' & Ed & _).
    unfold wired. rewrite sent_snoc, drained_snoc, !app_nil_r, Ed. by apply Hi.
  - subst m'. cbn in Hop. unfold wired. rewrite sent_snoc, drained_snoc, !app_nil_r. by apply Hi.
  - subst m'. cbn in Hop. destruct (calm_data _ _ _ Hc Hop) as (Hop' & Ed & Ecl).
    unfold wired. rewrite sent_snoc, drained_snoc, app_nil_r. cbn [m_writeQueue enqueue set_writeQueue].
    rewrite data_Enqueue by (rewrite Ecl; auto). rewrite Ed, (assoc_L (++)), outputs_app. fold (wired es m).
    rewrite (Hi Hop'), outputs_one by eauto. done.
  - subst m'. rewrite wired_send, drained_snoc, app_nil_r by done. by apply Hi.
Qed.

Lemma drain_is_output m r out m' : mstep m (LDrain r (Some out)) m' → is_output out.
Proof.
  inversion 1 as [| | | | | | | | | | | | |? ? c ? ? Hd Ho| | | | | | | |]; subst. revert Ho. unfold drain_output.
  destruct (m_heap m !! r) as [s|]; [|done]. destruct c; try done.
  - destruct (head (writeOut s)); [|done]. intros [= ->]. by left.
  - intros [= ->]. by right.
Qed.

(** A session that is open has been open. *)
Lemma open_side role config es m : reachable role config es m → m_closeCh m = false → side role config es m.
Proof.
  unfold reachable. intros Hs. remember (NewMuxSession role config) as m0 eqn:E0.
  induction Hs as [m|m es m1 e m2 Hs IH He]; subst; intros Hop; [constructor|].
  assert (m_closeCh m1 = false) as Hop1.
  { destruct (m_closeCh m1) eqn:Ec; [|done]. rewrite (mstep_closeCh _ _ _ He Ec) in Hop. done. }
  eapply side_step; [by apply IH|done|by destruct e].
Qed.

Lemma side_wire role config es m :
  fits_ids role config → side role config es m → queue_open m ∧ no_stream_frames m ∧ wire_inv es m.
Proof.
  intros Hfit. induction 1 as [|es m e m' Hs (Hq & Hn & Hi) He Hcon]; [split_and!; [done|constructor|done]|].
  pose proof (reachable_inv _ _ _ _ Hfit (side_reachable _ _ _ _ Hs)) as I.
  pose proof (mstep_view _ _ _ I He) as Hv.
  split_and!; [by eapply view_queue|by eapply view_control|].
  eapply view_wire; try done. intros r out ->. by eapply drain_is_output.
Qed.

(** C6. Data and FIN leave in order. Over every interleaving of the calls of the
    owner, each one step, the read loop, the drain goroutines and the write
    loop: what the drain goroutine of a stream has put out is the STREAM_DATA
    frames of an initial part of the chunks Write accepted, in order, none lost
    or repeated, the rest being still buffered, and at most one
    STREAM_CLOSE+FIN behind them, put out when every chunk Write accepted is in
    front of it; and while the session is open the STREAM_DATA and
    STREAM_CLOSE frames it has sent, followed by those that wait in its queue,
    are exactly what its drain goroutines have put out, in that order. *)
Theorem stream_output_order role config es m :
  fits_ids role config → reachable role config es m →
  (∀ r s, m_heap m !! r = Some s →
     ∃ taken (fin : bool),
       output r es = (data_frame (s_id s) <$> taken) ++ (if fin then [fin_frame (s_id s)] else []) ∧
       taken ++ writeOut s = written r es ∧
       (fin = true → taken = written r es)) ∧
  (m_closeCh m = false → outputs (sent es ++ data (m_writeQueue m)) = drained es).
Proof.
  intros Hfit Hr. split; [by eauto using output_written|]. intros Hop.
  by apply (side_wire _ _ _ _ Hfit (open_side _ _ _ _ Hr Hop)).
Qed.
