(* ===== verification/PingPong.v ===== *)
(** * The heartbeat over a connection: [mux_session.go], Ping, handlePing, handlePong

    What becomes of the PING frames of one session on a connection to another
    (Link.v), over every interleaving of both sides: which PONG frames come
    back and with what, how many calls of Ping can have returned, and what a
    call of Ping returns. *)

From Stdlib Require Import ZArith Lia.
From S2P Require Import Prelude Frame Window WriteQueue Stream Mux MuxInv MuxOps MuxView Link.

(** ** Heartbeat frames *)

Definition beat (f : Frame) : Prop := FCommand f = CmdPing ∨ FCommand f = CmdPong.

#[export] Instance beat_dec f : Decision (beat f).
Proof. unfold beat. apply _. Defined.

(** The payloads of the frames with command [c], in order. *)
Definition payloads (c : byte) (l : list Frame) : list (list byte) :=
  Payload <$> filter (λ f, FCommand f = c) l.

Definition pong_frame (p : list byte) : Frame :=
  {| Version := ProtocolVersion; FCommand := CmdPong; Flags := x00; StreamID := 0; Payload := p |}.

Lemma payloads_app c l l' : payloads c (l ++ l') = payloads c l ++ payloads c l'.
Proof. unfold payloads. by rewrite filter_app, fmap_app. Qed.
Lemma payloads_one c f : FCommand f = c → payloads c [f] = [Payload f].
Proof. intros E. unfold payloads. by rewrite filter_cons_True. Qed.
Lemma payloads_other c f : FCommand f ≠ c → payloads c [f] = [].
Proof. intros E. unfold payloads. by rewrite filter_cons_False. Qed.
Lemma payloads_prefix c l l' : l `prefix_of` l' → payloads c l `prefix_of` payloads c l'.
Proof. intros [k ->]. rewrite payloads_app. by apply prefix_app_r. Qed.

(** Only the heartbeat frames of a list matter. *)
Lemma payloads_beats c l : (c = CmdPing ∨ c = CmdPong) → payloads c (filter beat l) = payloads c l.
Proof.
  intros Hc. induction l as [|f l IH]; [done|]. change (f :: l) with ([f] ++ l).
  rewrite filter_app, !payloads_app, IH. f_equal. destruct (decide (beat f)) as [Hb|Hb].
  - by rewrite filter_cons_True.
  - rewrite filter_cons_False by done. symmetry. apply payloads_other. unfold beat in Hb. naive_solver.
Qed.

(** ** Steps that do not touch the heartbeat *)

Definition no_beats (m : MuxSession) : Prop := Forall (λ f, ¬ beat f) (data (m_writeQueue m)).

Record steady (m m' : MuxSession) : Prop := {
  st_control : m_closeCh m' = false →
    m_closeCh m = false ∧ closed (m_writeQueue m') = closed (m_writeQueue m) ∧
    filter beat (control (m_writeQueue m')) = filter beat (control (m_writeQueue m));
  st_data : no_beats m → no_beats m';
  st_pingCh : m_pingCh m' = m_pingCh m;
  st_pongs : m_pongs m' = m_pongs m;
  st_fresh : (m_fresh m ≤ m_fresh m')%nat
}.

#[local] Hint Resolve Nat.le_refl Nat.le_succ_diag_r : core.

#[export] Instance steady_preorder : PreOrder steady.
Proof.
  split; [by intros m; split; auto|]. intros m1 m2 m3 [H1 ? ? ? ?] [H2 ? ? ? ?].
  split; [|by auto|congruence..|by etrans]. intros Hc. destruct (H2 Hc) as (Hc2 & ? & ?).
  destruct (H1 Hc2) as (? & ? & ?). split_and!; congruence.
Qed.

Lemma steady_same m m' :
  m_writeQueue m' = m_writeQueue m → m_closeCh m' = m_closeCh m → m_pingCh m' = m_pingCh m →
  m_pongs m' = m_pongs m → (m_fresh m ≤ m_fresh m')%nat → steady m m'.
Proof. intros E1 E2 E3 E4 E5. split; unfold no_beats; rewrite ?E1, ?E2; auto. Qed.

Lemma steady_enqueue m f p : ¬ beat f → steady m (enqueue m f p).
Proof.
  intros Hf. split; try done; unfold no_beats; cbn; unfold Enqueue;
    destruct (closed (m_writeQueue m)) eqn:E; try done; case_bool_decide; cbn; auto.
  - intros ?. split_and!; [done..|]. by rewrite filter_app, filter_cons_False, app_nil_r.
  - intros ?. apply Forall_app. auto.
Qed.

Lemma steady_deleteStream m id : steady m (deleteStream m id).
Proof. unfold deleteStream, freeID. case_bool_decide; by apply steady_same. Qed.

Lemma steady_maybeRemove m id r : steady m (maybeRemoveStream m id r).
Proof. unfold maybeRemoveStream. repeat case_match; try done. apply steady_deleteStream. Qed.

Ltac not_beat := unfold beat; cbn; by intros [?|?].

Lemma steady_onReset m id code : steady m (onReset m id code).
Proof.
  unfold onReset. repeat case_match; try done. etrans; [apply steady_deleteStream|].
  apply steady_enqueue. not_beat.
Qed.

Lemma steady_StreamReset m r code : steady m (StreamReset m r code).
Proof.
  unfold StreamReset. repeat case_match; try done; try (by apply steady_same).
  etrans; [|apply steady_onReset]. by apply steady_same.
Qed.

Lemma steady_StreamClose m r : steady m (StreamClose m r).
Proof.
  unfold StreamClose. repeat case_match; try done; try (by apply steady_same).
  etrans; [|apply steady_maybeRemove]. by apply steady_same.
Qed.

Lemma steady_removeStream m id : steady m (removeStream m id).
Proof.
  unfold removeStream. case_match; [|done]. etrans; [apply steady_deleteStream|apply steady_StreamReset].
Qed.

(** Closing, with a queue that may have lost its first frame. *)
Lemma steady_Close m q :
  (no_beats m → Forall (λ f, ¬ beat f) (data q)) → steady m (Mux.Close (set_writeQueue q m)).
Proof.
  intros Hq. pose proof (Close_closeCh (set_writeQueue q m)) as Hc. revert Hc.
  unfold Mux.Close. cbn. destruct (m_closeCh m) eqn:Ec.
  - intros _. split; try done. cbn. congruence.
  - set (m1 := set_writeQueue _ _). assert (steady m m1) as Q1 by (by split).
    clearbody m1. generalize (map_to_list (m_streams m)).*2. intros l.
    assert (steady m (foldr (λ r acc, StreamReset acc r 0) m1 l)) as [].
    { induction l as [|r l Q]; cbn [foldr]; [done|]. etrans; [exact Q|]. apply steady_StreamReset. }
    intros Hc. by split.
Qed.

Lemma steady_mux_close m : steady m (Mux.Close m).
Proof. pose proof (steady_Close m (m_writeQueue m)) as Hc. destruct m. by apply Hc. Qed.

#[local] Hint Resolve steady_deleteStream steady_maybeRemove steady_StreamReset steady_StreamClose
  steady_mux_close : core.

(** The frames that are not heartbeats. *)
Lemma steady_handleFrame m f : ¬ beat f → steady m (handleFrame m f).
Proof.
  intros Hb. unfold handleFrame. repeat case_decide; try (by destruct Hb; unfold beat; auto); try done.
  - unfold handleStreamOpen, acceptPeerOpen.
    destruct (has_flag _ _); [by case_match; [apply steady_same|]|].
    destruct (m_streams m !! _); [done|]. destruct (ownsID _ _); [apply steady_enqueue; not_beat|].
    trans (enqueue m (ack_frame (StreamID f)) PriorityData); [apply steady_enqueue; not_beat|by apply steady_same].
  - unfold handleStreamData, deliverData. repeat case_match; try done; try (by apply steady_same);
      (etrans; [|apply steady_maybeRemove]); by apply steady_same.
  - unfold handleStreamClose. case_match; [|done]. etrans; [|apply steady_maybeRemove]. by apply steady_same.
  - unfold handleStreamReset. repeat case_match; try done; (etrans; [apply steady_StreamReset|]); auto.
  - unfold handleWindowUpdate. repeat case_match; try done; by apply steady_same.
  - unfold handleServiceList. case_match; [done|by apply steady_same].
Qed.

(** What a step does to the heartbeat. *)
Inductive beat_view (m m' : MuxSession) : mlabel → Prop :=
| beat_steady e : steady m m' → received [e] = [] ∨ (∃ f, e = LFrame f ∧ ¬ beat f) →
    sent [e] = [] → e ≠ LPing → e ≠ LPong → beat_view m m' e
| beat_ping now : m' = Ping_begin m now → beat_view m m' LPing
| beat_pong ch : Ping_end m ch = Some m' → beat_view m m' LPong
| beat_handlePing f : FCommand f = CmdPing → m' = handlePing m f → beat_view m m' (LFrame f)
| beat_handlePong f : FCommand f = CmdPong → m' = handlePong m → beat_view m m' (LFrame f)
| beat_send f g q :
    Dequeue (m_writeQueue m) false = DqFrame f q → g = wire m f → m' = set_writeQueue q m →
    beat_view m m' (LSend g).

Lemma steady_drainStream m r c m' : drainStream m r c = Some m' → steady m m'.
Proof.
  unfold drainStream. destruct (m_heap m !! r) as [s|]; [|done]. destruct (m_drain m !! r) as [pc|]; [|done].
  destruct c, pc; try done; repeat case_match; try done; intros [= <-]; try by apply steady_same.
  all: unfold enqueueStreamData; try (etrans; [|apply steady_enqueue; not_beat]; by apply steady_same).
  trans (enqueue m (fin_frame (s_id s)) PriorityData); [apply steady_enqueue; not_beat|by apply steady_same].
Qed.

Lemma steady_OpenStream m payload r m' : OpenStream_begin m payload = Ok (r, m') → steady m m'.
Proof.
  intros (_ & _ & id & m1 & m2 & Ha & [= <- <-] & ->)%OpenStream_begin_ok.
  trans (enqueue m (open_frame id payload) PriorityData); [apply steady_enqueue; not_beat|].
  apply steady_same; cbn; by rewrite (allocID_frame _ _ _ Ha).
Qed.

Lemma mstep_beat m e m' : mstep m e m' → beat_view m m' e.
Proof.
  intros Hs. destruct Hs; subst.
  all: try (by econstructor).
  all: try (apply beat_steady; try done; try (by left);
    first [by apply steady_same | by eauto using steady_OpenStream, steady_drainStream]).
  - apply beat_steady; try done; [|by left]. unfold OpenStream_canceled. cbn.
    trans (cleanupPendingOpen m (stream_id m r)); [by apply steady_same|].
    etrans; [apply (steady_removeStream _ (stream_id m r))|by apply steady_same].
  - apply beat_steady; try done; [|by left]. revert H. unfold AcceptStream.
    case_match; [done|]. intros [= <- <-]. by apply steady_same.
  - destruct (decide (beat f)) as [[E|E]|Hb].
    + apply beat_handlePing; [done|]. unfold handleFrame. by rewrite E.
    + apply beat_handlePong; [done|]. unfold handleFrame. by rewrite E.
    + apply beat_steady; try done; [by apply steady_handleFrame|by eauto].
  - apply beat_steady; try done; [|by left]. revert H. unfold deliverAccept.
    repeat case_match; try done. intros [= <-]. by apply steady_same.
  - apply beat_steady; try done; [|by left]. trans (Mux.Close m); [done|by apply steady_same].
  - apply beat_steady; try done; [|by left]. apply steady_Close. unfold no_beats. revert H. unfold Dequeue.
    repeat case_match; try done; intros [= <- <-]; cbn; try done. by intros [_ ?]%Forall_cons.
  - apply beat_steady; try done; [|by left]. etrans; [|apply steady_enqueue; not_beat]. by apply steady_same.
  - apply beat_steady; try done; [|by left]. unfold SendServiceList. repeat case_match; try done.
    apply steady_enqueue. not_beat.
Qed.

(** ** One side *)

(** The calls of Ping that have sent their PING, and those that have returned
    with a latency. *)
Definition pings (es : list mlabel) : nat :=
  length (omap (λ e, match e with LPing => Some tt | _ => None end) es).
Definition answered (es : list mlabel) : nat :=
  length (omap (λ e, match e with LPong => Some tt | _ => None end) es).

Lemma pings_snoc es e : pings (es ++ [e]) = (pings es + pings [e])%nat.
Proof. unfold pings. by rewrite omap_app, length_app. Qed.
Lemma answered_snoc es e : answered (es ++ [e]) = (answered es + answered [e])%nat.
Proof. unfold answered. by rewrite omap_app, length_app. Qed.

(** The heartbeat frames that a side has sent and those waiting in its queue. *)
Definition out (es : list mlabel) (m : MuxSession) : list Frame :=
  sent es ++ control (m_writeQueue m).

Record beats (es : list mlabel) (m : MuxSession) : Prop := {
  bt_data : no_beats m;
  bt_open : queue_open m;
  bt_pong_sent : payloads CmdPong (sent es) `prefix_of` payloads CmdPing (received es);
  bt_pong_out : m_closeCh m = false → payloads CmdPong (out es m) = payloads CmdPing (received es);
  bt_ping_sent : (length (payloads CmdPing (sent es)) ≤ pings es)%nat;
  bt_ping_out : m_closeCh m = false → length (payloads CmdPing (out es m)) = pings es;
  bt_tokens : (answered es + size (m_pongs m) ≤ length (payloads CmdPong (received es)))%nat
}.

Lemma out_beats c es m :
  (c = CmdPing ∨ c = CmdPong) →
  payloads c (out es m) = payloads c (sent es) ++ payloads c (filter beat (control (m_writeQueue m))).
Proof. intros Hc. unfold out. by rewrite payloads_app, (payloads_beats c (control _)). Qed.

Lemma beats_new role config : beats [] (NewMuxSession role config).
Proof. split; try done. constructor. Qed.

Lemma beats_steady es e m m' :
  steady m m' → received [e] = [] ∨ (∃ f, e = LFrame f ∧ ¬ beat f) → sent [e] = [] →
  e ≠ LPing → e ≠ LPong → beats es m → beats (es ++ [e]) m'.
Proof.
  intros [Hc Hd Hch Hp _] Hr Hs N1 N2 [].
  assert (∀ c, c = CmdPing ∨ c = CmdPong → payloads c (received (es ++ [e])) = payloads c (received es)) as Er.
  { intros c Hc'. rewrite received_snoc, payloads_app. destruct Hr as [-> |(f & -> & Hb)]; [apply app_nil_r|].
    change (received [LFrame f]) with [f]. rewrite (payloads_other c f), app_nil_r; [done|].
    unfold beat in Hb. naive_solver. }
  assert (sent (es ++ [e]) = sent es) as Es by (by rewrite sent_snoc, Hs, app_nil_r).
  assert (pings (es ++ [e]) = pings es) as Ep by (rewrite pings_snoc; by destruct e).
  assert (answered (es ++ [e]) = answered es) as Ea by (rewrite answered_snoc; by destruct e).
  assert (∀ c, c = CmdPing ∨ c = CmdPong → m_closeCh m' = false → payloads c (out (es ++ [e]) m') = payloads c (out es m)) as Eo.
  { intros c Hc' Hop. destruct (Hc Hop) as (_ & _ & E). by rewrite !out_beats, Es, E by done. }
  split; rewrite ?Es, ?Ep, ?Ea, ?Hp, ?Er by auto; try done; [by auto|..].
  - intros Hop. destruct (Hc Hop) as (? & -> & _). auto.
  - intros Hop. rewrite Eo by auto. apply bt_pong_out0. by apply Hc.
  - intros Hop. rewrite Eo by auto. apply bt_ping_out0. by apply Hc.
Qed.

(** Enqueueing a heartbeat frame on an open queue. *)
Lemma out_enqueue c es e m m' f :
  sent [e] = [] → closed (m_writeQueue m) = false →
  m_writeQueue m' = Enqueue (m_writeQueue m) f PriorityControl →
  payloads c (out (es ++ [e]) m') = payloads c (out es m) ++ payloads c [f].
Proof.
  intros Hs Hc Eq. unfold out. rewrite sent_snoc, Hs, app_nil_r, Eq. unfold Enqueue. rewrite Hc.
  rewrite bool_decide_eq_true_2 by done. cbn [control]. by rewrite !payloads_app, (assoc_L (++)).
Qed.

Lemma no_beats_enqueue m f : no_beats m → no_beats (enqueue m f PriorityControl).
Proof. unfold no_beats. cbn. unfold Enqueue. by destruct (closed (m_writeQueue m)). Qed.

Lemma queue_open_enqueue m f p : queue_open m → queue_open (enqueue m f p).
Proof. unfold queue_open. cbn. rewrite closed_Enqueue. auto. Qed.

Lemma beats_ping es m now : beats es m → beats (es ++ [LPing]) (Ping_begin m now).
Proof.
  intros []. assert (received (es ++ [LPing]) = received es) as Er by (by rewrite received_snoc, app_nil_r).
  assert (sent (es ++ [LPing]) = sent es) as Es by (by rewrite sent_snoc, app_nil_r).
  split; rewrite ?Er, ?Es; try done.
  - by apply (no_beats_enqueue m).
  - by apply (queue_open_enqueue m).
  - intros Hop. erewrite (out_enqueue _ es LPing m); [|done|by apply bt_open0|done].
    rewrite payloads_other by done. rewrite app_nil_r. by apply bt_pong_out0.
  - rewrite pings_snoc. cbn. lia.
  - intros Hop. erewrite (out_enqueue _ es LPing m); [|done|by apply bt_open0|done].
    rewrite payloads_one, length_app, bt_ping_out0, pings_snoc by done. done.
  - by rewrite answered_snoc, Nat.add_0_r.
Qed.

Lemma beats_pong es m ch m' : Ping_end m ch = Some m' → beats es m → beats (es ++ [LPong]) m'.
Proof.
  unfold Ping_end. case_bool_decide as Hin; [|done]. intros [= <-] [].
  assert (received (es ++ [LPong]) = received es) as Er by (by rewrite received_snoc, app_nil_r).
  assert (sent (es ++ [LPong]) = sent es) as Es by (by rewrite sent_snoc, app_nil_r).
  unfold out in *.
  split; unfold out; rewrite ?Er, ?Es, ?pings_snoc; cbn; try done; rewrite ?Nat.add_0_r; try done.
  rewrite answered_snoc, size_difference by set_solver. rewrite size_singleton. cbn.
  assert (size (m_pongs m) ≠ 0%nat); [|lia]. intros E%size_empty_inv. set_solver.
Qed.

Lemma received_frame es f : received (es ++ [LFrame f]) = received es ++ [f].
Proof. apply received_snoc. Qed.

Lemma beats_handlePing es m f : FCommand f = CmdPing → beats es m → beats (es ++ [LFrame f]) (handlePing m f).
Proof.
  intros Ef []. assert (sent (es ++ [LFrame f]) = sent es) as Es by (by rewrite sent_snoc, app_nil_r).
  assert (payloads CmdPing (received (es ++ [LFrame f])) = payloads CmdPing (received es) ++ [Payload f]) as Er.
  { rewrite received_frame, payloads_app. by rewrite (payloads_one CmdPing f). }
  assert (payloads CmdPong (received (es ++ [LFrame f])) = payloads CmdPong (received es)) as Er'.
  { rewrite received_frame, payloads_app. rewrite (payloads_other CmdPong f), app_nil_r; [done|]. by rewrite Ef. }
  split; rewrite ?Es, ?Er, ?Er'; try done.
  - by apply no_beats_enqueue.
  - by apply queue_open_enqueue.
  - by apply prefix_app_r.
  - intros Hop. erewrite (out_enqueue _ es (LFrame f) m); [|done|by apply bt_open0|done].
    by rewrite payloads_one, bt_pong_out0.
  - rewrite pings_snoc. cbn. lia.
  - intros Hop. erewrite (out_enqueue _ es (LFrame f) m); [|done|by apply bt_open0|done].
    by rewrite payloads_other, app_nil_r, bt_ping_out0, pings_snoc, Nat.add_0_r.
  - by rewrite answered_snoc, Nat.add_0_r.
Qed.

Lemma beats_handlePong es m f : FCommand f = CmdPong → beats es m → beats (es ++ [LFrame f]) (handlePong m).
Proof.
  intros Ef []. assert (sent (es ++ [LFrame f]) = sent es) as Es by (by rewrite sent_snoc, app_nil_r).
  assert (payloads CmdPong (received (es ++ [LFrame f])) = payloads CmdPong (received es) ++ [Payload f]) as Er.
  { rewrite received_frame, payloads_app. by rewrite (payloads_one CmdPong f). }
  assert (payloads CmdPing (received (es ++ [LFrame f])) = payloads CmdPing (received es)) as Er'.
  { rewrite received_frame, payloads_app. rewrite (payloads_other CmdPing f), app_nil_r; [done|]. by rewrite Ef. }
  assert (m_writeQueue (handlePong m) = m_writeQueue m ∧ m_closeCh (handlePong m) = m_closeCh m ∧
          (size (m_pongs (handlePong m)) ≤ S (size (m_pongs m)))%nat) as (Eq & Ec & Hsz).
  { unfold handlePong. case_match; [|split_and!; [done..|lia]]. split_and!; [done..|]. cbn.
    rewrite size_union_alt, size_singleton. pose proof (subseteq_size (m_pongs m ∖ {[n]}) (m_pongs m)). set_solver by lia. }
  split; unfold no_beats, queue_open, out in *; rewrite ?Es, ?Er, ?Er', ?Eq, ?Ec, ?pings_snoc, ?Nat.add_0_r; try done.
  rewrite answered_snoc, Nat.add_0_r, length_app. cbn. lia.
Qed.

(** A PONG is sent with the payload it was queued with, a PING with what
    pingData holds by then. *)
Lemma pong_wire m f : payloads CmdPong [wire m f] = payloads CmdPong [f].
Proof.
  destruct (decide (FCommand f = CmdPing)) as [E|E]; [|by rewrite wire_other].
  unfold wire. rewrite bool_decide_eq_true_2 by done. by rewrite !payloads_other by (by rewrite ?E).
Qed.
Lemma ping_wire m f : length (payloads CmdPing [wire m f]) = length (payloads CmdPing [f]).
Proof.
  destruct (decide (FCommand f = CmdPing)) as [E|E]; [|by rewrite wire_other].
  unfold wire. rewrite bool_decide_eq_true_2 by done. by rewrite !payloads_one by done.
Qed.

(** Sending moves a heartbeat frame from the queue to the wire. *)
Lemma out_send es m f q :
  Dequeue (m_writeQueue m) false = DqFrame f q → no_beats m →
  payloads CmdPong (out (es ++ [LSend (wire m f)]) (set_writeQueue q m)) = payloads CmdPong (out es m) ∧
  length (payloads CmdPing (out (es ++ [LSend (wire m f)]) (set_writeQueue q m))) = length (payloads CmdPing (out es m)) ∧
  closed q = closed (m_writeQueue m) ∧ Forall (λ f, ¬ beat f) (data q).
Proof.
  unfold Dequeue, no_beats, out. rewrite sent_snoc. change (sent [LSend (wire m f)]) with [wire m f]. cbn.
  rewrite !payloads_app, pong_wire, !length_app, ping_wire.
  destruct (control (m_writeQueue m)) as [|g gs].
  - destruct (data (m_writeQueue m)) as [|g gs]; [by case_match|]. intros [= <- <-] [Hg ?]%Forall_cons.
    rewrite !(payloads_other _ g), !app_nil_r, !Nat.add_0_r; [done|..]; unfold beat in Hg; naive_solver.
  - intros [= <- <-] ?. change (g :: gs) with ([g] ++ gs). rewrite !payloads_app, !length_app, (assoc_L (++)).
    split_and!; [done| |done..]; cbn [app control]; lia.
Qed.

Lemma beats_send es m f q :
  Dequeue (m_writeQueue m) false = DqFrame f q → m_closeCh m = false →
  beats es m → beats (es ++ [LSend (wire m f)]) (set_writeQueue q m).
Proof.
  intros Hd Hop []. destruct (out_send es m f q Hd bt_data0) as (E1 & E2 & Ec & Hq).
  assert (received (es ++ [LSend (wire m f)]) = received es) as Er by (by rewrite received_snoc, app_nil_r).
  specialize (bt_pong_out0 Hop). specialize (bt_ping_out0 Hop).
  split; rewrite ?Er, ?pings_snoc, ?Nat.add_0_r; try done.
  - unfold queue_open in *. cbn. rewrite Ec. auto.
  - rewrite <-bt_pong_out0, <-E1. apply payloads_prefix. by apply prefix_app_r.
  - by rewrite E1.
  - rewrite <-bt_ping_out0, <-E2. apply prefix_length, payloads_prefix. by apply prefix_app_r.
  - by rewrite E2.
  - by rewrite answered_snoc, Nat.add_0_r.
Qed.

Lemma side_beats role config es m : side role config es m → beats es m.
Proof.
  induction 1 as [|es m e m' _ IH Hs Hcon]; [apply beats_new|].
  destruct (mstep_beat _ _ _ Hs); subst;
    eauto using beats_steady, beats_ping, beats_pong, beats_handlePing, beats_handlePong, beats_send.
Qed.

(** ** The connection *)

Lemma link_sym ra ca rb cb es a fs b : link ra ca rb cb es a fs b → link rb cb ra ca fs b es a.
Proof. induction 1; econstructor; eauto. Qed.

(** The heartbeat of the session [a] with history [es], whose peer is [b] with
    history [fs]: the PONG frames it has handled carry, in order, the payloads
    of its own PING frames; every latency returned used up one of them; no
    PING was sent but by a call of Ping; and while the peer is open, each PING
    that it handled has its PONG sent or waiting to be sent. *)
Definition accounted (es : list mlabel) (a : MuxSession) (fs : list mlabel) (b : MuxSession) : Prop :=
  payloads CmdPong (received es) `prefix_of` payloads CmdPing (sent es) ∧
  (answered es + size (m_pongs a) ≤ length (payloads CmdPong (received es)))%nat ∧
  (length (payloads CmdPing (sent es)) ≤ pings es)%nat ∧
  (m_closeCh b = false → payloads CmdPong (out fs b) = payloads CmdPing (received fs)).

Lemma link_accounted ra ca rb cb es a fs b : link ra ca rb cb es a fs b → accounted es a fs b.
Proof.
  intros (Sa & Sb & Hpa & Hpb)%link_sides. apply side_beats in Sa as [], Sb as [].
  split_and!; [|done..]. etrans; [by apply payloads_prefix|]. etrans; [done|]. by apply payloads_prefix.
Qed.

(** C9. Two sessions on a connection, over every interleaving: the PONG frames
    that a side handles carry, in order, the payloads of the PING frames it
    sent; the calls of Ping that returned a latency are at most as many as the
    PONG frames handled, those at most as many as the PING frames sent, and
    those at most as many as the calls begun; and an open session owes its peer
    exactly the PONG frames that are still in its queue. *)
Theorem heartbeat_accounts ra ca rb cb es a fs b :
  link ra ca rb cb es a fs b → accounted es a fs b ∧ accounted fs b es a.
Proof. eauto using link_accounted, link_sym. Qed.

(** ** A call of Ping *)

Inductive PingErr := PingTimedOut | PingCanceled | PingGoAway.

(** The select of Ping on its channel [ch], [elapsed] after the call began: the
    cases that are ready, of which one is taken. The timer exists when
    PingTimeout is positive. *)
Definition Ping_select (m : MuxSession) (ch : nat) (elapsed : Z) (ctxDone : bool)
    : list (result PingErr MuxSession) :=
  match Ping_end m ch with Some m' => [Ok m'] | None => [] end ++
  (if bool_decide (0 < PingTimeout (m_config m) ≤ elapsed) then [Err PingTimedOut] else []) ++
  (if ctxDone then [Err PingCanceled] else []) ++
  (if m_closeCh m then [Err PingGoAway] else []).

(** The channels of pings are made in order, and hold a token only once made. *)
Definition channels_made (m : MuxSession) : Prop :=
  (∀ ch, m_pingCh m = Some ch → (ch < m_fresh m)%nat) ∧ (∀ ch, ch ∈ m_pongs m → (ch < m_fresh m)%nat).

Lemma mstep_channels m e m' : mstep m e m' → channels_made m → channels_made m'.
Proof.
  intros Hs [H1 H2]. destruct (mstep_beat _ _ _ Hs) as [e [_ _ E1 E2 E3]|now|ch E|f _|f _|f g q _]; subst; try done.
  - unfold channels_made. rewrite E1, E2. split; intros ch Hch; [apply H1 in Hch|apply H2 in Hch]; lia.
  - split; cbn; [intros ch [= <-]; lia|]. intros ch Hch%H2. lia.
  - revert E. unfold Ping_end. case_bool_decide; [|done]. intros [= <-]. split; [done|]. cbn. set_solver.
  - unfold handlePong, channels_made. case_match eqn:E; [|by rewrite E]. cbn. split; [naive_solver|]. set_solver.
Qed.

Lemma reachable_channels role config es m : reachable role config es m → channels_made m.
Proof.
  unfold reachable. intros Hs. remember (NewMuxSession role config) as m0 eqn:E.
  induction Hs as [m|m es m1 e m2 _ IH Hs]; [|by eauto using mstep_channels].
  subst. split; [done|]. cbn. set_solver.
Qed.

(** The current channel stays the current one until the next call. *)
Lemma msteps_pingCh m es m' : msteps m es m' → pings es = 0%nat → m_pingCh m' = m_pingCh m.
Proof.
  intros Hs Hp. induction Hs as [m|m es m1 e m2 _ IH Hs]; [done|].
  rewrite pings_snoc in Hp. rewrite <-IH by lia. clear IH.
  destruct (mstep_beat _ _ _ Hs) as [e [_ _ E1 E2 E3]|now|ch' E|f _|f Ef|f g q _]; subst; try done.
  - by rewrite Nat.add_comm in Hp.
  - revert E. unfold Ping_end. case_bool_decide; [|done]. by intros [= <-].
  - unfold handlePong. by case_match.
Qed.

(** A channel that becomes the current one after [m] did not exist in [m]. *)
Lemma msteps_later m es m' n :
  msteps m es m' → (n ≤ m_fresh m)%nat → (∀ ch, m_pingCh m = Some ch → (n ≤ ch)%nat) →
  (n ≤ m_fresh m')%nat ∧ ∀ ch, m_pingCh m' = Some ch → (n ≤ ch)%nat.
Proof.
  intros Hs H1 H2. induction Hs as [m|m es m1 e m2 _ IH Hs]; [done|]. destruct (IH H1 H2) as [H3 H4]. clear IH H1 H2.
  destruct (mstep_beat _ _ _ Hs) as [e [_ _ E1 E2 E3]|now|ch' E|f _|f Ef|f g q _]; subst; try done.
  - rewrite E1. split; [lia|done].
  - cbn. split; [lia|]. by intros ch [= <-].
  - revert E. unfold Ping_end. case_bool_decide; [|done]. by intros [= <-].
  - assert (m_fresh (handlePong m1) = m_fresh m1 ∧ m_pingCh (handlePong m1) = m_pingCh m1) as [-> ->]; [|done].
    unfold handlePong. by case_match.
Qed.

(** Without a PONG no channel made since gets a token. *)
Lemma msteps_no_token m es m' n :
  msteps m es m' → payloads CmdPong (received es) = [] → (∀ ch, ch ∈ m_pongs m → (ch < n)%nat) →
  ∀ ch, ch ∈ m_pongs m' → (ch < n)%nat.
Proof.
  intros Hs Hr Hn. induction Hs as [m|m es m1 e m2 _ IH Hs]; [done|].
  rewrite received_snoc, payloads_app in Hr. apply app_nil in Hr as [Hr He]. specialize (IH Hr Hn). clear Hn.
  destruct (mstep_beat _ _ _ Hs) as [e [_ _ E1 E2 E3]|now|ch' E|f _|f Ef|f g q _]; subst; try done.
  - by rewrite E2.
  - revert E. unfold Ping_end. case_bool_decide; [|done]. intros [= <-]. cbn. set_solver.
  - change (received [LFrame f]) with [f] in He. by rewrite payloads_one in He.
Qed.

(** C10. A call of Ping begins in [m], comes to its select in [m1], where it reads
    the current channel, which a call that began in between has replaced by its
    own, and waits there until [m']. It returns a latency after the next PONG
    that the session handles, and only then: until one comes, whatever else the
    session does, the call can only fail, so that no PONG that came before the
    call answers it; the PONG that comes answers it, with whatever payload, as
    long as no other call has begun since the select; and the call returns when
    its timeout, the cancellation of its context or the end of the session comes
    first. *)
Theorem ping_next_pong role config es m now es1 m1 ch es' m' elapsed ctxDone :
  reachable role config es m → msteps (Ping_begin m now) es1 m1 → m_pingCh m1 = Some ch → msteps m1 es' m' →
  (payloads CmdPong (received es1) = [] → payloads CmdPong (received es') = [] →
     Forall (λ r, ∃ err, r = Err err) (Ping_select m' ch elapsed ctxDone)) ∧
  (pings es' = 0%nat → ∀ f, FCommand f = CmdPong →
     ∃ m2, Ok m2 ∈ Ping_select (handleFrame m' f) ch elapsed ctxDone) ∧
  (0 < PingTimeout (m_config m') ≤ elapsed ∨ ctxDone = true ∨ m_closeCh m' = true →
     Ping_select m' ch elapsed ctxDone ≠ []).
Proof.
  intros [_ Hch]%reachable_channels H1 Hc Hs. unfold Ping_select. split_and!.
  - intros Hr1 Hr. destruct (msteps_later _ _ _ (m_fresh m) H1) as [_ Hge]; [cbn; lia|cbn; naive_solver|].
    assert (ch ∉ m_pongs m') as Hn.
    { intros Hin%(msteps_no_token _ _ _ (m_fresh m) Hs Hr (msteps_no_token _ _ _ _ H1 Hr1 Hch)).
      specialize (Hge _ Hc). lia. }
    unfold Ping_end. rewrite bool_decide_eq_false_2 by done.
    rewrite !Forall_app. split_and!; repeat case_match; rewrite ?Forall_singleton; eauto.
  - intros Hp f Ef. assert (handleFrame m' f = handlePong m') as -> by (unfold handleFrame; by rewrite Ef).
    unfold handlePong. rewrite (msteps_pingCh _ _ _ Hs Hp), Hc. unfold Ping_end. cbn.
    rewrite bool_decide_eq_true_2 by set_solver. eexists. apply elem_of_app. left. by apply list_elem_of_singleton.
  - intros H E. apply app_nil in E as [_ E]. apply app_nil in E as [E1 E]. apply app_nil in E as [E2 E3].
    destruct H as [H|[-> |H]]; [|done|by rewrite H in E3]. by rewrite bool_decide_eq_true_2 in E1.
Qed.

(** ** A heartbeat, run to its end *)

Definition hb_config : MuxConfig :=
  {| MaxConcurrentStreams := 256; InitialStreamWindow := 262144; ConnectionWindow := 1048576;
     PingInterval := 30000000000; PingTimeout := 5000000000; IdleTimeout := 60000000000 |}.

(** The agent pings, the relay answers, the call returns. *)
Definition hb_agent : list mlabel :=
  [LPing; LSend (ping_frame (PutUint64 7)); LFrame (pong_frame (PutUint64 7)); LPong].
Definition hb_relay : list mlabel :=
  [LFrame (ping_frame (PutUint64 7)); LSend (pong_frame (PutUint64 7))].

Definition dequeue1 (m : MuxSession) : MuxSession :=
  match Dequeue (m_writeQueue m) false with DqFrame _ q => set_writeQueue q m | _ => m end.

Definition hb_a0 : MuxSession := NewMuxSession RoleAgent hb_config.
Definition hb_b0 : MuxSession := NewMuxSession RoleRelay hb_config.
Definition hb_a1 : MuxSession := Eval vm_compute in Ping_begin hb_a0 7.
Definition hb_a2 : MuxSession := Eval vm_compute in dequeue1 hb_a1.
Definition hb_b1 : MuxSession := Eval vm_compute in handleFrame hb_b0 (ping_frame (PutUint64 7)).
Definition hb_b2 : MuxSession := Eval vm_compute in dequeue1 hb_b1.
Definition hb_a3 : MuxSession := Eval vm_compute in handleFrame hb_a2 (pong_frame (PutUint64 7)).
Definition hb_a4 : MuxSession := Eval vm_compute in default hb_a3 (Ping_end hb_a3 0).

Lemma heartbeat_run : link RoleAgent hb_config RoleRelay hb_config hb_agent hb_a4 hb_relay hb_b2.
Proof.
  unfold hb_agent, hb_relay.
  apply (link_left _ _ _ _ [_; _; _] hb_a3 _ _ LPong); [|by apply (mstep_pong _ 0)|done|by exists []].
  apply (link_left _ _ _ _ [_; _] hb_a2 _ _ (LFrame _)); [|by apply mstep_frame|done|by exists []].
  apply (link_right _ _ _ _ _ _ [_] hb_b1 (LSend _)); [|by eapply mstep_send|done|by exists []].
  apply (link_right _ _ _ _ _ _ [] hb_b0 (LFrame _)); [|by apply mstep_frame|done|by exists []].
  apply (link_left _ _ _ _ [_] hb_a1 _ _ (LSend _)); [|by eapply mstep_send|done|by apply prefix_nil].
  apply (link_left _ _ _ _ [] hb_a0 _ _ LPing); [|by apply (mstep_ping _ 7)|done|by apply prefix_nil].
  constructor.
Qed.

Lemma heartbeat_accounts_witness :
  answered hb_agent = 1%nat ∧ accounted hb_agent hb_a4 hb_relay hb_b2 ∧ accounted hb_relay hb_b2 hb_agent hb_a4.
Proof. split; [done|]. apply (heartbeat_accounts RoleAgent hb_config RoleRelay hb_config), heartbeat_run. Defined.

(** Two calls overlap: the first comes to its select after the second has begun,
    and waits on the channel of the second. One PONG, of another PING, answers. *)
Definition hb_twice : MuxSession := Eval vm_compute in Ping_begin hb_a1 8.

Lemma ping_next_pong_witness :
  Forall (λ r, ∃ err, r = Err err) (Ping_select hb_twice 1 5000000000 false) ∧
  ∃ m2, Ok m2 ∈ Ping_select (handleFrame hb_twice (pong_frame (PutUint64 3))) 1 1000 false.
Proof.
  assert (reachable RoleAgent hb_config [] hb_a0) as H0 by constructor.
  assert (msteps (Ping_begin hb_a0 7) [LPing] hb_twice) as H1.
  { apply (msteps_snoc _ [] (Ping_begin hb_a0 7)); [constructor|by apply (mstep_ping _ 8)]. }
  split; [by apply (ping_next_pong _ _ _ _ _ _ _ 1 _ _ 5000000000 false H0 H1 eq_refl (msteps_nil hb_twice))|].
  by apply (ping_next_pong _ _ _ _ _ _ _ 1 _ _ 1000 false H0 H1 eq_refl (msteps_nil hb_twice)).
Defined.

(** The PING of the first call then leaves with the time stamp of the second. *)
Example ping_payload_shared :
  option_map Payload (head (sent [LSend (wire hb_twice (ping_frame (PutUint64 7)))])) = Some (PutUint64 8).
Proof. reflexivity. Qed.
