(* ===== verification/MuxRace.v ===== *)
(** * Inside the operations that are not atomic

    Close and Write of a stream release the stream's mutex half way, and
    handleStreamData that of the session. Here they are split where they do, and
    run with another operation in between; and the paths on which a session and
    its peer, or two calls of OpenStream, come to disagree about an ID. *)

From Stdlib Require Import ZArith Lia.
From S2P Require Import Prelude Frame Window WriteQueue Stream Mux MuxInv.

(** ** Close of a stream, in its two parts *)

(** The part under the mutex, and [shouldNotify]. *)
Definition StreamClose_locked (m : MuxSession) (r : nat) : MuxSession * bool :=
  match m_heap m !! r with
  | None => (m, false)
  | Some s => let '(s', b) := Close_locked s in (set_heap (<[r := s']> (m_heap m)) m, b)
  end.

(** [localCloseOnce.Do], with the callback of setupStreamClose. *)
Definition StreamClose_notify (m : MuxSession) (r : nat) : MuxSession :=
  match m_heap m !! r with
  | None => m
  | Some s =>
      let '(s', b) := Close_notify s in
      let m1 := set_heap (<[r := s']> (m_heap m)) m in
      if b then onLocalClose m1 r (s_id s) else m1
  end.

Lemma StreamClose_split m r :
  StreamClose m r =
  let '(m1, b) := StreamClose_locked m r in if b then StreamClose_notify m1 r else m1.
Proof.
  unfold StreamClose, StreamClose_locked, StreamClose_notify, Stream.Close.
  destruct (m_heap m !! r) as [s|]; [|done]. destruct (Close_locked s) as [s1 []] eqn:E; [|done].
  cbn [m_heap set_heap]. rewrite lookup_insert_eq.
  assert (s_id s1 = s_id s) as <-.
  { revert E. unfold Close_locked. destruct (s_state s); by intros [= <-]. }
  destruct (Close_notify s1) as [s2 []]; cbn [m_heap set_heap];
    unfold set_heap; cbn; by rewrite insert_insert_eq.
Qed.

Lemma handleFrame_close m f : FCommand f = CmdStreamClose → handleFrame m f = handleStreamClose m f.
Proof. intros E. unfold handleFrame. by rewrite E. Qed.

Lemma handleFrame_reset m f : FCommand f = CmdStreamReset → handleFrame m f = handleStreamReset m f.
Proof. intros E. unfold handleFrame. by rewrite E. Qed.

(** The double free. When the peer's FIN for a local open stream is
    handled between the two parts of Close, both the read loop and Close find
    the stream closed and both recycle its ID: it is on the free list twice,
    so that two later OpenStream calls get the same ID. *)
Theorem close_race_double_free role config es m r s f :
  fits_ids role config → reachable role config es m → m_closeCh m = false →
  m_heap m !! r = Some s → s_state s = StateOpen → s_id s mod 2 = start_id role mod 2 →
  FCommand f = CmdStreamClose → StreamID f = s_id s →
  let m1 := (StreamClose_locked m r).1 in
  let m2 := handleFrame m1 f in
  let m3 := StreamClose_notify m2 r in
  m_freeIDs m2 = m_freeIDs m ++ [s_id s] ∧ m_freeIDs m3 = m_freeIDs m ++ [s_id s; s_id s].
Proof.
  intros Hfit Hrun Hopen Hr Hst Hpar Hf Hid. cbn zeta.
  pose proof (reachable_inv _ _ _ _ Hfit Hrun) as I.
  destruct (table_ids Hfit Hrun Hopen) as [_ Hp _ _ _ _].
  assert (is_terminal s = false) as Hl by (unfold is_terminal; by rewrite Hst).
  pose proof (ci_map _ _ _ _ _ _ _ _ I Hopen _ _ Hr Hl) as Hmap.
  destruct (ci_obj _ _ _ _ _ _ _ _ I _ _ Hr) as (Hsi & Hcb & _ & _).
  assert (localCloseOnce s = false) as Honce.
  { destruct (localCloseOnce s) eqn:E; [|done]. apply (si_once _ Hsi) in E. rewrite Hst in E. naive_solver. }
  rewrite handleFrame_close by done. unfold StreamClose_locked, Close_locked. rewrite Hr, Hst.
  unfold handleStreamClose. cbn [fst m_streams set_heap]. rewrite Hid, Hmap.
  unfold upd_stream. cbn [m_heap set_heap]. rewrite (alter_lookup _ _ (set_state StateHalfClosedLocal s))
    by apply lookup_insert_eq.
  unfold maybeRemoveStream at 1 2. cbn [m_heap set_heap]. rewrite lookup_insert_eq.
  cbn [RemoteClose set_state signalClosed is_terminal s_state].
  unfold deleteStream, freeID. cbn [m_nextStreamID set_streams set_heap].
  rewrite bool_decide_eq_true_2 by congruence. split; [done|].
  unfold StreamClose_notify. cbn [m_heap set_freeIDs set_streams set_heap].
  rewrite lookup_insert_eq. unfold Close_notify. cbn. rewrite Honce. cbn. rewrite Hcb.
  unfold onLocalClose, maybeRemoveStream. cbn. rewrite lookup_insert_eq. cbn.
  unfold deleteStream, freeID. cbn. rewrite bool_decide_eq_true_2 by congruence. cbn.
  by rewrite <-app_assoc.
Qed.

(** ** Write of a stream, in its two parts *)

Definition Write_check (s : StreamSession) : bool := negb (isWriteClosed s).

(** The select of Write, after the mutex was released. *)
Definition Write_send (s : StreamSession) (p : list byte) : WriteResult :=
  if bool_decide (length (writeOut s) < writeOutCap)%nat
  then WriteOk (set_writeOut (writeOut s ++ [p]) s)
  else if closedCh s then WriteErr
  else WriteBlocked.

Lemma Write_split s p : Stream.Write s p = if Write_check s then Write_send s p else WriteErr.
Proof. unfold Stream.Write, Write_check, Write_send. by destruct (isWriteClosed s). Qed.

(** The lost write. A Write whose state test came before a concurrent
    Close can be buffered after the drain goroutine has flushed and sent FIN:
    Write reports success, no step of the goroutine can take the chunk any
    more, and it is never sent. *)
Theorem write_race_lost role config es m r s p :
  fits_ids role config → reachable role config es m →
  m_heap m !! r = Some s → s_state s = StateOpen → m_drain m !! r = Some DrainLoop →
  writeOut s = [] →
  Write_check s = true ∧
  ∃ m1 m2 s2,
    drainStream (StreamClose m r) r DrainFIN = Some m1 ∧
    drainStream m1 r DrainFlushed = Some m2 ∧
    m_heap m2 !! r = Some s2 ∧ Write_send s2 p = WriteOk (set_writeOut [p] s2) ∧
    ∀ c, drainStream (set_heap (<[r := set_writeOut [p] s2]> (m_heap m2)) m2) r c = None.
Proof.
  intros Hfit Hrun Hr Hst Hpc Hw. split; [unfold Write_check, isWriteClosed; by rewrite Hst|].
  destruct (ci_obj _ _ _ _ _ _ _ _ (reachable_inv _ _ _ _ Hfit Hrun) _ _ Hr) as (Hsi & Hcb & _ & _).
  assert (localCloseOnce s = false) as Honce.
  { destruct (localCloseOnce s) eqn:E; [|done]. apply (si_once _ Hsi) in E. rewrite Hst in E.
    naive_solver. }
  assert (∃ s1, Stream.Close s = (s1, true) ∧ finCh s1 = true ∧ writeOut s1 = [] ∧
                is_terminal s1 = false) as (s1 & Ec & Hf1 & Hw1 & Hl1).
  { eexists. unfold Stream.Close, Close_locked. rewrite Hst. unfold Close_notify. cbn.
    rewrite Honce, Hcb. split_and!; [done..|exact Hw|done]. }
  assert (StreamClose m r = set_heap (<[r := s1]> (m_heap m)) m) as ->.
  { unfold StreamClose. rewrite Hr, Ec. unfold onLocalClose, maybeRemoveStream. cbn.
    by rewrite lookup_insert_eq, Hl1. }
  do 2 eexists. exists (set_finCh false s1). split_and!.
  - unfold drainStream. cbn [m_heap m_drain set_heap]. by rewrite lookup_insert_eq, Hpc, Hf1.
  - unfold drainStream. cbn [m_heap m_drain set_heap set_drain_pc set_drain].
    rewrite !lookup_insert_eq. cbn [writeOut set_finCh]. by rewrite Hw1.
  - cbn. by rewrite lookup_insert_eq.
  - unfold Write_send. cbn. by rewrite Hw1.
  - intros c. unfold drainStream. cbn. rewrite !lookup_insert_eq. by destruct c.
Qed.

(** ** Where the two ends disagree about an ID *)

(** A STREAM_RESET for an active stream is answered with a STREAM_RESET
    for the same ID: the callback that Reset runs still finds the stream in the
    table. *)
Theorem remote_reset_echoed role config es m f r :
  fits_ids role config → reachable role config es m → m_closeCh m = false →
  FCommand f = CmdStreamReset → m_streams m !! StreamID f = Some r →
  ∃ code,
    m_writeQueue (handleFrame m f) =
      Enqueue (m_writeQueue m) (reset_frame (StreamID f) code) PriorityControl ∧
    m_streams (handleFrame m f) = delete (StreamID f) (m_streams m).
Proof.
  intros Hfit Hrun Hopen Hf Hid. pose proof (reachable_inv _ _ _ _ Hfit Hrun) as I.
  destruct (inv_lookup m _ _ I Hid) as (s & Hr & Hs & [Hl|]); [|congruence].
  rewrite handleFrame_reset by done. unfold handleStreamReset. rewrite Hid. cbn zeta.
  set (code := if bool_decide _ then _ else _). exists code.
  rewrite (StreamReset_removes m r s code I Hopen Hr Hl), Hs, lookup_delete_eq.
  split; [|by rewrite (StreamReset_removes m r s code I Hopen Hr Hl), Hs].
  unfold StreamReset. rewrite Hr.
  destruct (reset_live s) as (s' & -> & _); [by eapply (ci_obj _ _ _ _ _ _ _ _ I)|done|].
  unfold onReset, deleteStream, freeID. cbn. rewrite Hopen, Hs, Hid. by case_bool_decide.
Qed.

(** removeStream of a live stream: the entry goes, the object is reset, and the
    callback of the reset finds nothing to do. *)
Lemma removeStream_eq m id r s :
  m_closeCh m = false → m_streams m !! id = Some r → m_heap m !! r = Some s → s_id s = id →
  removeStream m id = set_heap (<[r := (Stream.Reset s).1]> (m_heap m)) (deleteStream m id).
Proof.
  intros Hc Hid Hr Hs. unfold removeStream. rewrite Hid. unfold StreamReset.
  assert (m_heap (deleteStream m id) = m_heap m ∧ m_closeCh (deleteStream m id) = false ∧
          m_streams (deleteStream m id) = delete id (m_streams m)) as (-> & Ec & Es).
  { unfold deleteStream, freeID. by case_bool_decide. }
  rewrite Hr. destruct (Stream.Reset s) as [s' []]; [|done].
  unfold onReset. cbn [m_closeCh m_streams set_heap]. by rewrite Ec, Es, Hs, lookup_delete_eq.
Qed.

(** An OpenStream that is canceled before the acknowledgement takes back
    its ID, which the next OpenStream will reuse, without a frame that would
    tell the peer, for which the stream stays open. *)
Theorem canceled_open_silent role config es m payload r m1 :
  fits_ids role config → reachable role config es m → m_closeCh m = false →
  OpenStream_begin m payload = Ok (r, m1) →
  let m2 := OpenStream_canceled m1 r in
  m_writeQueue m2 = Enqueue (m_writeQueue m) (open_frame (stream_id m1 r) payload) PriorityData ∧
  m_streams m2 = m_streams m ∧ (allocID m2).1 = stream_id m1 r.
Proof.
  intros Hfit Hrun Hopen Hb. cbn zeta.
  assert (reachable role config (es ++ [LOpen r]) m1) as Hrun1
    by (eapply msteps_snoc; [done|by eapply mstep_open]).
  destruct (OpenStream_fields _ _ _ _ _ _ _ Hfit Hrun Hopen Hb)
    as (_ & _ & Hc1 & id & Hpar & _ & Hnone & Es & _ & Eh & _ & _ & Ew).
  pose proof (ids_parity _ _ _ _ _ (table_ids Hfit Hrun1 Hc1)) as Hp1.
  assert (stream_id m1 r = id) as Hid by (unfold stream_id; by rewrite Eh, lookup_insert_eq).
  unfold OpenStream_canceled. rewrite Hid. clear Hb Hrun1.
  assert (m_streams (cleanupPendingOpen m1 id) !! id = Some r) as Hs'
    by (cbn; by rewrite Es, lookup_insert_eq).
  assert (∃ s, m_heap (cleanupPendingOpen m1 id) !! r = Some s ∧ s_id s = id) as (s & Hr' & Hids)
    by (cbn; rewrite Eh, lookup_insert_eq; by eexists).
  rewrite (removeStream_eq (cleanupPendingOpen m1 id) id r s Hc1 Hs' Hr' Hids).
  unfold deleteStream, freeID. cbn [m_nextStreamID set_streams cleanupPendingOpen set_pendingOpen].
  rewrite bool_decide_eq_true_2 by congruence. cbn. rewrite Ew, Es. split; [done|].
  split; [by rewrite delete_insert_id|]. unfold allocID. cbn. by rewrite last_snoc.
Qed.

(** A canceled OpenStream may hit another stream. While it waits, the peer can
    reset its stream, which recycles the ID without waking it; when a second
    OpenStream has taken that ID, the cancellation of the first removes and
    resets the stream of the second. *)
Theorem canceled_open_hits_other role config es m r r' s' :
  fits_ids role config → reachable role config es m → m_closeCh m = false →
  r ∈ m_openers m → m_streams m !! stream_id m r = Some r' → r' ≠ r → m_heap m !! r' = Some s' →
  ∃ m2 s2, mstep m (LOpenFailed r) m2 ∧ m_streams m2 !! stream_id m r = None ∧
    m_heap m2 !! r' = Some s2 ∧ s_state s2 = StateReset.
Proof.
  intros Hfit Hrun Hopen Hin Hid Hne Hr'. pose proof (reachable_inv _ _ _ _ Hfit Hrun) as I.
  destruct (inv_lookup m _ _ I Hid) as (s & Hr & Hs & [Hl|]); [|congruence]. simplify_eq.
  destruct (reset_live s') as (s2 & E2 & _); [by eapply (ci_obj _ _ _ _ _ _ _ _ I)|done|].
  assert (s_state s2 = StateReset) as Hst.
  { revert E2. unfold is_terminal in Hl. unfold Stream.Reset, Reset_locked, Reset_notify.
    destruct (s_state s'); try done; cbn; case_match; by intros [= <- ?]. }
  exists (OpenStream_canceled m r), s2. split; [by apply mstep_open_canceled|].
  unfold OpenStream_canceled. cbn zeta.
  rewrite (removeStream_eq (cleanupPendingOpen m (stream_id m r)) (stream_id m r) r' s') by done.
  rewrite E2. unfold deleteStream, freeID. case_bool_decide; cbn; rewrite lookup_delete_eq, lookup_insert_eq; done.
Qed.

(** ** handleStreamData, in its two parts *)

(** The goroutine that reads, inside the handling of a STREAM_DATA frame: it
    has found a stream for it and released the mutex of the session. *)
Definition found : Type := option (Frame * nat).

(** The labels of the goroutine that reads. *)
Definition reader_label (e : mlabel) : bool :=
  match e with LFrame _ | LDeliver | LReadError => true | _ => false end.

Inductive dstep : MuxSession * found → option mlabel → MuxSession * found → Prop :=
| dstep_other m p e m' : mstep m e m' → p = None ∨ reader_label e = false → dstep (m, p) (Some e) (m', p)
| dstep_lookup m f r :
    m_reader m = ReadRunning → frame_typed f → FCommand f = CmdStreamData →
    m_streams m !! StreamID f = Some r → dstep (m, None) None (m, Some (f, r))
| dstep_deliver m f r : dstep (m, Some (f, r)) (Some (LFrame f)) (deliverData m f r, None).

(** The stream that was found is still the one in the table when its bytes are
    appended. *)
Definition timely (m : MuxSession) (p : found) : Prop :=
  match p with Some (f, r) => m_streams m !! StreamID f = Some r | None => True end.

(** A history in which every delivery is timely. *)
Inductive dsteps : MuxSession * found → list mlabel → MuxSession * found → Prop :=
| dsteps_nil x : dsteps x [] x
| dsteps_silent x es x1 x2 : dsteps x es x1 → dstep x1 None x2 → dsteps x es x2
| dsteps_snoc x es m p e x2 :
    dsteps x es (m, p) → dstep (m, p) (Some e) x2 → reader_label e = false ∨ timely m p →
    dsteps x (es ++ [e]) x2.

(** Only that goroutine moves its program counter. *)
Definition same_reader (m m' : MuxSession) : Prop := m_reader m' = m_reader m.
#[local] Instance same_reader_preorder : PreOrder same_reader.
Proof. split; [done|]. intros m1 m2 m3 H1 H2. unfold same_reader in *. congruence. Qed.

Lemma reader_deleteStream m id : same_reader m (deleteStream m id).
Proof. unfold deleteStream, freeID. by case_bool_decide. Qed.
Lemma reader_maybeRemove m id r : same_reader m (maybeRemoveStream m id r).
Proof. unfold maybeRemoveStream. repeat case_match; try done. apply reader_deleteStream. Qed.
Lemma reader_StreamReset m r code : same_reader m (StreamReset m r code).
Proof.
  unfold StreamReset. repeat case_match; try done. unfold onReset. repeat case_match; try done.
  apply (reader_deleteStream (set_heap _ m)).
Qed.
Lemma reader_Close m : same_reader m (Mux.Close m).
Proof.
  unfold Mux.Close. case_match; [done|]. cbn zeta. set (m1 := set_writeQueue _ _).
  assert (same_reader m m1) as H1 by done. clearbody m1. generalize (map_to_list (m_streams m1)).*2. intros l.
  assert (same_reader m (foldr (λ r acc, StreamReset acc r 0) m1 l)) as Hl; [|exact Hl].
  induction l as [|r l IH]; [done|]. cbn [foldr]. etrans; [exact IH|apply reader_StreamReset].
Qed.

Lemma reader_kept m e m' : mstep m e m' → reader_label e = false → same_reader m m'.
Proof.
  intros Hs He. destruct Hs; subst; try done; try apply reader_StreamReset; try apply reader_Close.
  - apply OpenStream_begin_ok in H as (_ & _ & id & m1 & m2 & E1 & [= <- <-] & ->).
    revert E1. unfold allocID. case_match; by intros [= <- <-].
  - unfold OpenStream_canceled, removeStream. cbn zeta. case_match; [|done].
    etrans; [apply (reader_deleteStream (cleanupPendingOpen m (stream_id m r)))|apply reader_StreamReset].
  - unfold AcceptStream in H. case_match; by simplify_eq.
  - unfold StreamClose. repeat case_match; try done. unfold onLocalClose. apply (reader_maybeRemove (set_heap _ m)).
  - unfold drainStream in H. repeat case_match; try done; by simplify_eq.
  - apply (reader_Close (set_writeQueue q m)).
  - unfold Ping_end in H. case_match; by simplify_eq.
  - unfold SendServiceList. by repeat case_match.
Qed.

(** Handling a STREAM_DATA frame in two parts makes no difference as long as
    the stream is in the table when its bytes are appended: such a history is a
    history of [mstep], with the same labels. *)
Theorem split_delivery role config es m p :
  dsteps (NewMuxSession role config, None) es (m, p) → reachable role config es m.
Proof.
  intros Hs.
  assert (reachable role config es m ∧ match p with
    | Some (f, _) => m_reader m = ReadRunning ∧ frame_typed f ∧ FCommand f = CmdStreamData
    | None => True end) as [? _]; [|done].
  remember (NewMuxSession role config, None) as x0 eqn:E0. remember (m, p) as x eqn:E. revert m p E.
  induction Hs as [x|x es [m1 p1] x2 Hs IH Hf|x es m1 p1 e x2 Hs IH Hf Ht]; intros m p ->; subst.
  - injection E0 as -> ->. split; [constructor|done].
  - destruct (IH eq_refl _ _ eq_refl) as [Hr Hp]. inversion Hf; subst. by split.
  - destruct (IH eq_refl _ _ eq_refl) as [Hr Hp]. inversion Hf as [? ? ? ? Hm Hor| |? f r]; subst.
    + split; [by eapply msteps_snoc|]. destruct p as [[f r]|]; [|done]. destruct Hor as [|Hor]; [done|].
      destruct Hp as (Hrd & ? & ?). split_and!; [|done..]. by rewrite (reader_kept _ _ _ Hm Hor).
    + destruct Hp as (Hrd & Hty & Hc). destruct Ht as [|Ht]; [done|]. cbn in Ht. split; [|done].
      eapply msteps_snoc; [exact Hr|]. apply mstep_frame; [done..|]. unfold handleFrame. rewrite Hc.
      rewrite decide_False, decide_True by done. unfold handleStreamData. by rewrite Ht.
Qed.

(** Bytes after a reset. When the stream is reset, or the session closed,
    between the two parts, the bytes of the frame are appended to a buffer that
    the reset has emptied, and Read returns them although what was buffered
    before them is lost: what is read then has a gap. *)
Theorem deliver_after_reset m f r s code n :
  m_heap m !! r = Some s → is_terminal s = false → Payload f ≠ [] → has_flag (Flags f) FlagFIN = false →
  ∃ s2, m_heap (deliverData (StreamReset m r code) f r) !! r = Some s2 ∧ s_state s2 = StateReset ∧
    Stream.Read s2 n = ReadData (take n (Payload f)) (set_readBuf (drop n (Payload f)) s2).
Proof.
  intros Hr Hl Hp Hfin.
  assert (∃ s1, m_heap (StreamReset m r code) !! r = Some s1 ∧ s_state s1 = StateReset ∧ readBuf s1 = []) as (s1 & H1 & H2 & H3).
  { unfold StreamReset. rewrite Hr. exists (Stream.Reset s).1.
    assert (s_state (Stream.Reset s).1 = StateReset ∧ readBuf (Stream.Reset s).1 = []) as Hst.
    { unfold is_terminal in Hl. unfold Stream.Reset, Reset_locked, Reset_notify. destruct (s_state s); try done; cbn; by case_match. }
    destruct (Stream.Reset s) as [s1 []]; cbn; [|by rewrite lookup_insert_eq].
    assert (∀ m0 id, m_heap (onReset m0 id code) = m_heap m0) as ->; [|cbn; by rewrite lookup_insert_eq].
    intros m0 id. unfold onReset, deleteStream, freeID. repeat case_match; done. }
  unfold deliverData. rewrite Hfin, bool_decide_eq_true_2.
  - eexists. cbn. rewrite lookup_alter_eq, H1. split; [done|]. cbn. split; [done|].
    unfold Stream.Read, Deliver. cbn. rewrite H3. cbn. by destruct (Payload f).
  - unfold zlen. destruct (Payload f); [done|]. cbn. lia.
Qed.
