(* ===== verification/MuxWitness.v ===== *)
(** * Concrete sessions

    Runs of a relay session with the calls, frames and goroutine steps of one
    stream, and the theorems of MuxInv, MuxOps, MuxOrder and MuxRace applied
    to them. *)

From Stdlib Require Import ZArith Lia.
From S2P Require Import Prelude Frame Window WriteQueue Stream Mux MuxInv MuxOps MuxOrder MuxView Link MuxWire MuxRace.

Definition demo_config : MuxConfig := mkMuxConfig 4 65536 1048576 0 0 0.

Lemma demo_fits : fits_ids RoleRelay demo_config.
Proof. done. Defined.

Definition get_ok {E A} (d : A) (r : result E A) : A := match r with Ok a => a | Err _ => d end.

Definition m_new : MuxSession := NewMuxSession RoleRelay demo_config.

(** The relay opens stream 1, the agent acknowledges, the stream is returned. *)
Definition m_opening : MuxSession :=
  Eval vm_compute in (get_ok (O, m_new) (OpenStream_begin m_new [x73; x73; x68])).2.
Definition m_acked : MuxSession := Eval vm_compute in handleFrame m_opening (ack_frame 1).
Definition m_open : MuxSession := Eval vm_compute in OpenStream_acked m_acked 0.
Definition es_open : list mlabel := (([] ++ [LOpen 0]) ++ [LFrame (ack_frame 1)]) ++ [LOpened 0].

(** The owner writes a chunk, the goroutine sends it; the owner closes, and the
    goroutine sends FIN. *)
Definition upd_heap (m : MuxSession) (r : nat) (s : StreamSession) : MuxSession :=
  set_heap (<[r := s]> (m_heap m)) m.
Definition write1 (m : MuxSession) (r : nat) (p : list byte) : MuxSession :=
  match m_heap m !! r with
  | Some s => match Stream.Write s p with WriteOk s' => upd_heap m r s' | _ => m end
  | None => m
  end.
Definition drain1 (m : MuxSession) (r : nat) (c : drain_case) : MuxSession :=
  default m (drainStream m r c).

Definition m_wrote : MuxSession := Eval vm_compute in write1 m_open 0 [x61; x62].
Definition m_sent : MuxSession := Eval vm_compute in drain1 m_wrote 0 DrainChunk.
Definition m_closed : MuxSession := Eval vm_compute in StreamClose m_sent 0.
Definition m_fin : MuxSession := Eval vm_compute in drain1 m_closed 0 DrainFIN.
Definition m_done : MuxSession := Eval vm_compute in drain1 m_fin 0 DrainFlushed.
Definition es_fin : list mlabel :=
  (((es_open ++ [LWrite 0 [x61; x62]]) ++ [LDrain 0 (Some (data_frame 1 [x61; x62]))]) ++ [LClose 0])
  ++ [LDrain 0 None].
Definition es_done : list mlabel := es_fin ++ [LDrain 0 (Some (fin_frame 1))].

Lemma run_opening : reachable RoleRelay demo_config ([] ++ [LOpen 0]) m_opening.
Proof. unfold reachable. eapply msteps_snoc; [constructor|]. eapply (mstep_open _ [x73; x73; x68]). by vm_compute. Defined.

Lemma run_open : reachable RoleRelay demo_config es_open m_open.
Proof.
  unfold es_open. eapply (msteps_snoc _ _ m_acked); [eapply (msteps_snoc _ _ m_opening)|].
  - exact run_opening.
  - by apply mstep_frame.
  - apply mstep_opened; [apply (bool_decide_unpack _); by vm_compute..|by vm_compute].
Defined.

Lemma run_fin : reachable RoleRelay demo_config es_fin m_fin.
Proof.
  unfold es_fin. eapply (msteps_snoc _ _ m_closed);
    [eapply (msteps_snoc _ _ m_sent); [eapply (msteps_snoc _ _ m_wrote);
      [eapply (msteps_snoc _ _ m_open)|]|]|].
  - exact run_open.
  - by eapply mstep_write; vm_compute.
  - by eapply (mstep_drain _ 0 DrainChunk); vm_compute.
  - by apply mstep_close.
  - by eapply (mstep_drain _ 0 DrainFIN); vm_compute.
Defined.

Lemma run_done : reachable RoleRelay demo_config es_done m_done.
Proof.
  unfold es_done. eapply (msteps_snoc _ _ m_fin); [exact run_fin|].
  by eapply (mstep_drain _ 0 DrainFlushed); vm_compute.
Defined.

Lemma mux_table_exact_witness :
  ∃ s, m_heap m_open !! 0%nat = Some s ∧ s_id s = 1 ∧ is_terminal s = false.
Proof.
  apply (mux_table_exact RoleRelay demo_config es_open m_open 1 0 demo_fits run_open eq_refl).
  by vm_compute.
Defined.

Lemma mux_ids_accounted_witness :
  m_freeIDs m_open ++ local_ids RoleRelay m_open ≡ₚ [1].
Proof.
  exact (proj1 (mux_ids_accounted RoleRelay demo_config es_open m_open demo_fits run_open eq_refl)).
Defined.

Lemma open_stream_branches_witness :
  ∃ r m' id, OpenStream_begin m_open [] = Ok (r, m') ∧ id mod 2 = 1 ∧ m_streams m_open !! id = None ∧
    m_streams m' = <[id := r]> (m_streams m_open).
Proof.
  pose proof (open_stream_branches RoleRelay demo_config es_open m_open [] demo_fits run_open eq_refl) as H.
  destruct (OpenStream_begin m_open []) as [[r m']|e] eqn:E.
  - destruct H as (_ & _ & id & H1 & _ & H3 & H4 & _). by exists r, m', id.
  - by vm_compute in E.
Defined.

Lemma frame_isolation_witness : touches 1 m_open (handleFrame m_open (fin_frame 1)).
Proof.
  by apply (frame_isolation RoleRelay demo_config es_open m_open (fin_frame 1) demo_fits run_open).
Defined.

Lemma peer_open_branches_witness :
  m_freeIDs (handleStreamOpen m_open (open_frame 2 [])) = [] ∧
  m_nextStreamID (handleStreamOpen m_open (open_frame 2 [])) = 3.
Proof.
  destruct (peer_open_branches RoleRelay demo_config es_open m_open (open_frame 2 []) demo_fits
    run_open eq_refl eq_refl) as (H1 & H2 & _). split; [exact H1|exact H2].
Defined.

Lemma mux_close_releases_witness : m_streams (Close m_open) = ∅.
Proof.
  apply (mux_close_releases RoleRelay demo_config es_open m_open demo_fits run_open eq_refl).
Defined.

Lemma flush_terminates_witness : ∃ m', flush_loop 1 m_fin 0 = Some m'.
Proof.
  destruct (m_heap m_fin !! 0%nat) as [s|] eqn:E; [|by vm_compute in E].
  eexists. apply (flush_terminates m_fin 0 s 1 E); [by vm_compute|].
  vm_compute in E. injection E as <-. by vm_compute.
Defined.

Lemma stream_output_order_witness :
  written 0 es_done = [[x61; x62]] ∧ output 0 es_done = [data_frame 1 [x61; x62]; fin_frame 1] ∧
  outputs (sent es_done ++ data (m_writeQueue m_done)) = [data_frame 1 [x61; x62]; fin_frame 1].
Proof.
  destruct (stream_output_order RoleRelay demo_config es_done m_done demo_fits run_done) as [H1 H2].
  destruct (m_heap m_done !! 0%nat) as [s|] eqn:E; [|by vm_compute in E].
  destruct (H1 0%nat s E) as (taken & fin & Ho & _ & _). split; [done|]. split; [reflexivity|].
  rewrite (H2 eq_refl). reflexivity.
Defined.

Lemma close_race_double_free_witness :
  m_freeIDs (StreamClose_notify (handleFrame (StreamClose_locked m_open 0).1 (fin_frame 1)) 0) = [1; 1].
Proof.
  destruct (m_heap m_open !! 0%nat) as [s|] eqn:E; [|by vm_compute in E].
  pose proof (close_race_double_free RoleRelay demo_config es_open m_open 0 s (fin_frame 1)
    demo_fits run_open eq_refl E) as H.
  vm_compute in E. injection E as <-. exact (proj2 (H eq_refl eq_refl eq_refl eq_refl)).
Defined.

Lemma write_race_lost_witness :
  ∃ m1, drainStream (StreamClose m_open 0) 0 DrainFIN = Some m1.
Proof.
  destruct (m_heap m_open !! 0%nat) as [s|] eqn:E; [|by vm_compute in E].
  pose proof (write_race_lost RoleRelay demo_config es_open m_open 0 s [x63] demo_fits run_open E) as H.
  vm_compute in E. injection E as <-.
  destruct (H eq_refl eq_refl eq_refl) as (_ & m1 & _ & _ & Hm1 & _). by exists m1.
Defined.

Lemma remote_reset_echoed_witness :
  ∃ code, m_writeQueue (handleFrame m_open (reset_frame 1 7)) =
    Enqueue (m_writeQueue m_open) (reset_frame 1 code) PriorityControl.
Proof.
  destruct (remote_reset_echoed RoleRelay demo_config es_open m_open (reset_frame 1 7) 0
    demo_fits run_open eq_refl eq_refl) as (code & H & _); [by vm_compute|]. by exists code.
Defined.

(** The peer resets stream 1 while its OpenStream waits; a second one takes the
    ID; then the first is canceled. *)
Definition m_refused : MuxSession := Eval vm_compute in handleFrame m_opening (reset_frame 1 0).
Definition m_second : MuxSession := Eval vm_compute in (get_ok (O, m_new) (OpenStream_begin m_refused [])).2.

Lemma canceled_open_hits_other_witness :
  ∃ m2 s2, mstep m_second (LOpenFailed 0) m2 ∧ m_heap m2 !! 1%nat = Some s2 ∧ s_state s2 = StateReset.
Proof.
  assert (reachable RoleRelay demo_config ((([] ++ [LOpen 0]) ++ [LFrame (reset_frame 1 0)]) ++ [LOpen 1]) m_second) as Hr.
  { eapply (msteps_snoc _ _ m_refused); [eapply (msteps_snoc _ _ m_opening); [exact run_opening|by apply mstep_frame]|].
    eapply (mstep_open _ []). by vm_compute. }
  destruct (m_heap m_second !! 1%nat) as [s|] eqn:E; [|by vm_compute in E].
  destruct (canceled_open_hits_other RoleRelay demo_config _ m_second 0 1 s demo_fits Hr eq_refl) as (m2 & s2 & H1 & _ & H2 & H3);
    [apply (bool_decide_unpack _); by vm_compute|by vm_compute|done|done|]. by exists m2, s2.
Defined.

Lemma deliver_after_reset_witness :
  ∃ s2, m_heap (deliverData (StreamReset m_open 0 0) (data_frame 1 [x61]) 0) !! 0%nat = Some s2 ∧
    s_state s2 = StateReset ∧ readBuf s2 = [x61].
Proof.
  destruct (m_heap m_open !! 0%nat) as [s|] eqn:E; [|by vm_compute in E].
  pose proof (deliver_after_reset m_open (data_frame 1 [x61]) 0 s 0 1 E) as H. vm_compute in E. injection E as <-.
  destruct (H eq_refl) as (s2 & H1 & H2 & _); [done|done|]. exists s2. split; [exact H1|]. split; [exact H2|].
  vm_compute in H1. by injection H1 as <-.
Defined.

Lemma canceled_open_silent_witness :
  m_streams (OpenStream_canceled m_opening 0) = ∅ ∧ (allocID (OpenStream_canceled m_opening 0)).1 = 1.
Proof.
  destruct (canceled_open_silent RoleRelay demo_config [] m_new [x73; x73; x68] 0 m_opening demo_fits
    (msteps_nil _) eq_refl) as (_ & H2 & H3); [by vm_compute|]. split; [exact H2|exact H3].
Defined.

(** A connection: the relay opens stream 1, the agent accepts and acknowledges
    it, the relay writes two bytes and closes, the agent reads up to the end. *)
Definition send1 (m : MuxSession) : MuxSession :=
  match Dequeue (m_writeQueue m) false with DqFrame _ q => set_writeQueue q m | _ => m end.
Definition read1 (m : MuxSession) (r : nat) (n : nat) : MuxSession :=
  match m_heap m !! r with
  | Some s => match Stream.Read s n with ReadData _ s' => upd_heap m r s' | _ => m end
  | None => m
  end.

Definition a1 : MuxSession := Eval vm_compute in send1 m_opening.
Definition b_new : MuxSession := NewMuxSession RoleAgent demo_config.
Definition b1 : MuxSession := Eval vm_compute in handleFrame b_new (open_frame 1 [x73; x73; x68]).
Definition b2 : MuxSession := Eval vm_compute in send1 b1.
Definition b3 : MuxSession := Eval vm_compute in default b2 (deliverAccept b2).
Definition a2 : MuxSession := Eval vm_compute in handleFrame a1 (ack_frame 1).
Definition a3 : MuxSession := Eval vm_compute in write1 a2 0 [x61; x62].
Definition a4 : MuxSession := Eval vm_compute in send1 (drain1 a3 0 DrainChunk).
Definition a5 : MuxSession := Eval vm_compute in StreamClose a4 0.
Definition a6 : MuxSession := Eval vm_compute in drain1 a5 0 DrainFIN.
Definition a7 : MuxSession := Eval vm_compute in send1 (drain1 a6 0 DrainFlushed).
Definition b4 : MuxSession := Eval vm_compute in handleFrame b3 (data_frame 1 [x61; x62]).
Definition b5 : MuxSession := Eval vm_compute in read1 b4 0 512.
Definition b6 : MuxSession := Eval vm_compute in handleFrame b5 (fin_frame 1).

Definition es_link : list mlabel :=
  (((((((([] ++ [LOpen 0]) ++ [LSend (open_frame 1 [x73; x73; x68])]) ++ [LFrame (ack_frame 1)]) ++
      [LWrite 0 [x61; x62]]) ++ [LDrain 0 (Some (data_frame 1 [x61; x62]))]) ++
    [LSend (data_frame 1 [x61; x62])]) ++ [LClose 0]) ++ [LDrain 0 None]).
Definition es_link_end : list mlabel :=
  (es_link ++ [LDrain 0 (Some (fin_frame 1))]) ++ [LSend (fin_frame 1)].
Definition fs_link : list mlabel :=
  ((((([] ++ [LFrame (open_frame 1 [x73; x73; x68])]) ++ [LSend (ack_frame 1)]) ++ [LDeliver]) ++
    [LFrame (data_frame 1 [x61; x62])]) ++ [LRead 0 [x61; x62]]) ++ [LFrame (fin_frame 1)].

Ltac link_side := [> | |done|apply (bool_decide_unpack _); by vm_compute].

Lemma run_link : link RoleRelay demo_config RoleAgent demo_config es_link_end a7 fs_link b6.
Proof.
  unfold es_link_end, fs_link, es_link.
  eapply (link_right _ _ _ _ _ _ _ b5); link_side; [|by apply mstep_frame].
  eapply (link_right _ _ _ _ _ _ _ b4); link_side; [|by eapply (mstep_read _ _ _ 512); vm_compute].
  eapply (link_right _ _ _ _ _ _ _ b3); link_side; [|by apply mstep_frame].
  eapply (link_left _ _ _ _ _ (drain1 a6 0 DrainFlushed)); link_side; [|by eapply mstep_send; vm_compute].
  eapply (link_left _ _ _ _ _ a6); link_side; [|by eapply (mstep_drain _ 0 DrainFlushed); vm_compute].
  eapply (link_left _ _ _ _ _ a5); link_side; [|by eapply (mstep_drain _ 0 DrainFIN); vm_compute].
  eapply (link_left _ _ _ _ _ a4); link_side; [|by apply mstep_close].
  eapply (link_left _ _ _ _ _ (drain1 a3 0 DrainChunk)); link_side; [|by eapply mstep_send; vm_compute].
  eapply (link_left _ _ _ _ _ a3); link_side; [|by eapply (mstep_drain _ 0 DrainChunk); vm_compute].
  eapply (link_left _ _ _ _ _ a2); link_side; [|by eapply mstep_write; vm_compute].
  eapply (link_left _ _ _ _ _ a1); link_side; [|by apply mstep_frame].
  eapply (link_right _ _ _ _ _ _ _ b2); link_side; [|by apply mstep_deliver].
  eapply (link_right _ _ _ _ _ _ _ b1); link_side; [|by eapply mstep_send; vm_compute].
  eapply (link_right _ _ _ _ _ _ _ b_new); link_side; [|by apply mstep_frame].
  eapply (link_left _ _ _ _ _ m_opening); link_side; [|by eapply mstep_send; vm_compute].
  eapply (link_left _ _ _ _ _ m_new); link_side;
    [constructor|eapply (mstep_open _ [x73; x73; x68]); by vm_compute].
Defined.

Lemma tunnel_delivery_witness :
  reads 0 fs_link = [x61; x62] ∧ mjoin (written 0 es_link_end) = [x61; x62] ∧
  reads 0 fs_link = mjoin (written 0 es_link_end).
Proof.
  split; [done|]. split; [done|].
  destruct (m_heap a7 !! 0%nat) as [s|] eqn:Ea; [|by vm_compute in Ea].
  destruct (m_heap b6 !! 0%nat) as [s'|] eqn:Eb; [|by vm_compute in Eb].
  assert (s_id s = 1 ∧ s_id s' = s_id s ∧ Stream.Read s' 1 = ReadEOF ∧ s_state s' ≠ StateReset) as (E1 & E2 & E3 & E4)
    by (vm_compute in Ea, Eb; injection Ea as <-; injection Eb as <-; by vm_compute).
  apply (tunnel_delivery RoleRelay demo_config RoleAgent demo_config es_link_end a7 fs_link b6 0 s 0 s'
    eq_refl eq_refl ltac:(done) run_link Ea ltac:(by rewrite E1)) with (n := 1%nat); try done.
  intros r1 r2 s1 s2 H1 H2 _ _.
  assert (∀ r x, m_heap a7 !! r = Some x → r = 0%nat) as Hone.
  { intros r x Hx. apply elem_of_dom_2 in Hx. revert Hx. change (dom (m_heap a7)) with ({[0%nat]} : gset nat). set_solver. }
  by rewrite (Hone r1 s1), (Hone r2 s2).
Defined.
