(* ===== verification/Float.v ===== *)
(** * float64

    The float64 arithmetic the code uses, on the Standard Library's
    specification floats at precision 53 and maximal exponent 1024. *)

From Stdlib Require Import ZArith Lia SpecFloat.
From S2P Require Import Prelude.

Definition f64_mul : spec_float → spec_float → spec_float := SFmul 53 1024.
Definition f64_add : spec_float → spec_float → spec_float := SFadd 53 1024.
Definition f64_div : spec_float → spec_float → spec_float := SFdiv 53 1024.

(** [float64(n)] *)
Definition f64_of_Z (n : Z) : spec_float := binary_normalize 53 1024 n 0 false.

(** [int(x)], [int64(x)], [time.Duration(x)]: the integral part. Out of the
    range of an int64 the result is not specified by the language, and here the
    function is not defined. *)
Definition trunc_f64 (x : spec_float) : option Z :=
  match x with
  | S754_zero _ => Some 0
  | S754_finite sign m e =>
      let n := if bool_decide (0 <= e) then Z.pos m * 2 ^ e else Z.pos m / 2 ^ (- e) in
      let z := if sign then - n else n in
      if bool_decide (is_i64 z) then Some z else None
  | _ => None
  end.

(** ** Rounding

    Bounds on the results of the operations, by integers that a float64 holds
    exactly. The value of a float is scaled by a power of two that makes it an
    integer. *)

Lemma digits2_log2 p : Z.pos (digits2_pos p) = Z.log2 (Z.pos p) + 1.
Proof.
  assert (∀ q, digits2_pos q = Pos.size q) as Hs by (induction q; cbn; congruence).
  destruct p; cbn; rewrite ?Hs; lia.
Qed.

Lemma digits2_bounds p : 2 ^ (Z.pos (digits2_pos p) - 1) <= Z.pos p < 2 ^ Z.pos (digits2_pos p).
Proof.
  rewrite digits2_log2. replace (Z.log2 (Z.pos p) + 1 - 1) with (Z.log2 (Z.pos p)) by lia.
  apply Z.log2_spec. lia.
Qed.

(** Shifting right keeps the quotient, and says whether anything was lost. *)
Lemma iter_pos_iter {A} (f : A → A) p x : SpecFloat.iter_pos f p x = Nat.iter (Pos.to_nat p) f x.
Proof.
  revert x. induction p as [p IH|p IH|]; intros x; cbn [SpecFloat.iter_pos].
  - rewrite !IH, <-Nat.iter_add. replace (Pos.to_nat p~1) with (S (Pos.to_nat p + Pos.to_nat p)) by lia.
    by rewrite Nat.iter_succ_r.
  - rewrite !IH, <-Nat.iter_add. f_equal. lia.
  - done.
Qed.

Lemma shr_iter m l n :
  0 <= m →
  let r := Nat.iter n shr_1 (shr_record_of_loc m l) in
  shr_m r = m / 2 ^ Z.of_nat n ∧
  (m mod 2 ^ Z.of_nat n = 0 → l = loc_Exact → loc_of_shr_record r = loc_Exact).
Proof.
  intros Hm. induction n as [|n IH]; cbn zeta; [cbn; rewrite Z.div_1_r; by destruct l as [|[]]|].
  rewrite Nat2Z.inj_succ, Z.pow_succ_r, Z.mul_comm, <-Z.div_div by lia.
  cbn zeta in IH. rewrite Nat.iter_succ. destruct (Nat.iter n shr_1 _) as [q r s].
  destruct IH as [Hq Hex]. cbn in Hq. rewrite Z.rem_mul_r by lia. rewrite <-Hq.
  assert (0 <= q) as Hq0 by (rewrite Hq; apply Z.div_pos; lia).
  pose proof (Z.mod_pos_bound m (2 ^ Z.of_nat n) ltac:(lia)).
  rewrite Zmod_odd, <-Z.div2_div. pose proof (Z.pow_pos_nonneg 2 (Z.of_nat n) ltac:(lia) ltac:(lia)).
  destruct q as [|[q|q|]|q]; [..|lia]; (split; [done|]); intros Hrem Hl; cbn [Z.odd] in Hrem.
  all: assert (m mod 2 ^ Z.of_nat n = 0) as Hz by lia; specialize (Hex Hz Hl); cbn in Hex |- *.
  all: destruct r, s; try done; lia.
Qed.

Definition fexp64 (d : Z) : Z := Z.max (d - 53) (-1074).

Lemma shr_fexp_spec m e l :
  let e1 := Z.max e (fexp64 (Z.pos (digits2_pos m) + e)) in
  ∃ r, shr_fexp 53 1024 (Z.pos m) e l = (r, e1) ∧ shr_m r = Z.pos m / 2 ^ (e1 - e) ∧
    (Z.pos m mod 2 ^ (e1 - e) = 0 → l = loc_Exact → loc_of_shr_record r = loc_Exact).
Proof.
  cbn zeta. unfold shr_fexp, shr. cbn [Zdigits2].
  change (fexp 53 1024 (Z.pos (digits2_pos m) + e)) with (fexp64 (Z.pos (digits2_pos m) + e)).
  set (f := fexp64 _). destruct (f - e) as [|p|p] eqn:Ek.
  - exists (shr_record_of_loc (Z.pos m) l). replace (Z.max e f) with e by lia.
    rewrite Z.sub_diag. cbn. rewrite Z.div_1_r. by destruct l as [|[]].
  - eexists. split; [f_equal; lia|]. rewrite iter_pos_iter.
    replace (Z.max e f - e) with (Z.of_nat (Pos.to_nat p)) by lia. by apply shr_iter.
  - exists (shr_record_of_loc (Z.pos m) l). replace (Z.max e f) with e by lia.
    rewrite Z.sub_diag. cbn. rewrite Z.div_1_r. by destruct l as [|[]].
Qed.

Lemma round_nearest_bounds q l : q <= round_nearest_even q l <= q + 1.
Proof. destruct l as [|[]]; cbn; try case_match; lia. Qed.

(** The quotient fits the precision. *)
Lemma shifted_mantissa m e :
  let e1 := Z.max e (fexp64 (Z.pos (digits2_pos m) + e)) in
  Z.pos m / 2 ^ (e1 - e) < 2 ^ 53.
Proof.
  cbn zeta. unfold fexp64. set (d := Z.pos (digits2_pos m)). set (e1 := Z.max _ _).
  pose proof (digits2_bounds m) as [_ Hd]. fold d in Hd. assert (0 <= e1 - e) as Hk by lia.
  apply Z.div_lt_upper_bound; [apply Z.pow_pos_nonneg; lia|]. eapply Z.lt_le_trans; [exact Hd|].
  rewrite <-Z.pow_add_r by lia. apply Z.pow_le_mono_r; lia.
Qed.

(** The mantissa and exponent of a rounded value [c * 2^e1], with [c] at most
    2^53: a last shift when the mantissa was carried to 2^53. *)
Definition pack (c e1 : Z) : spec_float :=
  match c with
  | Z0 => S754_zero false
  | Zpos m => let '(m', e') := if bool_decide (c = 2 ^ 53) then (4503599627370496%positive, e1 + 1) else (m, e1) in
              if bool_decide (e' <= 971) then S754_finite false m' e' else S754_infinity false
  | Zneg _ => S754_nan
  end.

Lemma round_aux_pack (m : positive) (e : Z) (l : location) :
  let e1 := Z.max e (fexp64 (Z.pos (digits2_pos m) + e)) in
  ∃ c, binary_round_aux 53 1024 false (Z.pos m) e l = pack c e1 ∧ 0 <= c <= 2 ^ 53 ∧
    Z.pos m / 2 ^ (e1 - e) <= c <= Z.pos m / 2 ^ (e1 - e) + 1 ∧
    (Z.pos m mod 2 ^ (e1 - e) = 0 → l = loc_Exact → c = Z.pos m / 2 ^ (e1 - e)).
Proof.
  cbn zeta. destruct (shr_fexp_spec m e l) as (r & Hr & Hq & Hex). cbn zeta in Hr, Hq, Hex.
  pose proof (shifted_mantissa m e) as Hlt. cbn zeta in Hlt. revert Hr Hq Hex Hlt.
  set (e1 := Z.max _ _). intros Hr Hq Hex Hlt.
  set (c := round_nearest_even (shr_m r) (loc_of_shr_record r)).
  pose proof (round_nearest_bounds (shr_m r) (loc_of_shr_record r)) as Hc. fold c in Hc. rewrite Hq in Hc.
  assert (0 <= Z.pos m / 2 ^ (e1 - e)) as H0 by (apply Z.div_pos; [lia|apply Z.pow_pos_nonneg; lia]).
  exists c. split_and!; try lia.
  - unfold binary_round_aux. rewrite Hr. fold c. assert (-1074 <= e1) as He1 by (unfold e1, fexp64; lia).
    clearbody c e1. destruct c as [|p|p]; [|..|lia].
    { unfold shr_fexp, shr. cbn [Zdigits2]. destruct (fexp 53 1024 (0 + e1) - e1) as [|k|k] eqn:Ek; [done| |done].
      exfalso. unfold fexp, emin in Ek. lia. }
    destruct (shr_fexp_spec p e1 loc_Exact) as (r2 & Hr2 & Hq2 & _). cbn zeta in Hr2, Hq2. rewrite Hr2, Hq2.
    pose proof (digits2_bounds p) as Hd. unfold fexp64. unfold pack. case_bool_decide as E53.
    + assert (p = 9007199254740992%positive) as -> by lia. 
      replace (Z.max e1 (Z.max _ _)) with (e1 + 1) by (cbn; lia).
      replace (e1 + 1 - e1) with 1 by lia. change (9007199254740992 / 2 ^ 1) with 4503599627370496. cbn [fst].
      change (1024 - 53) with 971. by destruct (Z.leb_spec (e1 + 1) 971); case_bool_decide; try lia.
    + assert (Z.pos (digits2_pos p) <= 53) as Hd53.
      { apply Z.nlt_ge. intros Hgt. assert (2 ^ 53 <= 2 ^ (Z.pos (digits2_pos p) - 1)) by (apply Z.pow_le_mono_r; lia). lia. }
      replace (Z.max e1 (Z.max _ _)) with e1 by lia. rewrite Z.sub_diag, Z.div_1_r.
      change (1024 - 53) with 971. by destruct (Z.leb_spec e1 971); case_bool_decide; try lia.
  - intros Hm Hl. unfold c. rewrite Hex by done. by rewrite <-Hq.
Qed.

Section scaled.
Context (B : Z) (HB : 3000 <= B).

(** The value of [m * 2^e], times [2^B]. *)
Definition scaled (m e : Z) : Z := m * 2 ^ (e + B).

Definition at_most (x : spec_float) (N : Z) : Prop :=
  match x with
  | S754_zero false => 0 <= N
  | S754_finite false m e => scaled (Z.pos m) e <= N * 2 ^ B
  | _ => False
  end.
Definition at_least (N : Z) (x : spec_float) : Prop :=
  match x with
  | S754_zero false => N <= 0
  | S754_finite false m e => N * 2 ^ B <= scaled (Z.pos m) e
  | S754_infinity false => True
  | _ => False
  end.
(** Not negative, and within the format. *)
Definition wf (x : spec_float) : Prop :=
  match x with
  | S754_zero false | S754_infinity false => True
  | S754_finite false m e => Z.pos m < 2 ^ 53 ∧ -1074 <= e
  | _ => False
  end.

Lemma scaled_shift m e k : 0 <= k → 0 <= e + B → scaled (m * 2 ^ k) e = scaled m (e + k).
Proof. intros Hk He. unfold scaled. rewrite <-Z.mul_assoc, <-Z.pow_add_r by lia. f_equal. f_equal. lia. Qed.

Lemma pow_B_pos : 0 < 2 ^ B.
Proof. apply Z.pow_pos_nonneg; lia. Qed.

Lemma pack_wf c e1 : 0 <= c <= 2 ^ 53 → -1074 <= e1 → wf (pack c e1).
Proof.
  intros Hc He. unfold pack. destruct c as [|p|p]; [done| |lia].
  case_bool_decide; case_bool_decide; cbn; try done; lia.
Qed.

Lemma pack_at_least c e1 N :
  0 <= c <= 2 ^ 53 → -1074 <= e1 → N * 2 ^ B <= scaled c e1 → at_least N (pack c e1).
Proof.
  intros Hc He HN. pose proof pow_B_pos. unfold pack. destruct c as [|p|p]; [|..|lia].
  - unfold scaled in HN. cbn in *. nia.
  - case_bool_decide as E; case_bool_decide; cbn; try done.
    rewrite E in HN. change (2 ^ 53) with (4503599627370496 * 2 ^ 1) in HN. by rewrite scaled_shift in HN by lia.
Qed.

Lemma pack_at_most c e1 N :
  0 <= c <= 2 ^ 53 → -1074 <= e1 → N < 2 ^ 53 → scaled c e1 <= N * 2 ^ B → at_most (pack c e1) N.
Proof.
  intros Hc He HN Hle. pose proof pow_B_pos.
  assert (∀ e' p, 971 < e' → scaled (Z.pos p) e' <= N * 2 ^ B → False) as Hbig.
  { intros e' p He' Hs. unfold scaled in Hs.
    assert (2 ^ 53 * 2 ^ B <= 2 ^ (e' + B)) by (rewrite <-Z.pow_add_r by lia; apply Z.pow_le_mono_r; lia). nia. }
  unfold pack. destruct c as [|p|p]; [|..|lia].
  - unfold scaled in Hle. cbn in *. nia.
  - case_bool_decide as E.
    + rewrite E in Hle. change (2 ^ 53) with (4503599627370496 * 2 ^ 1) in Hle. rewrite scaled_shift in Hle by lia.
      case_bool_decide; [done|]. exfalso. eapply (Hbig (e1 + 1)); [lia|exact Hle].
    + case_bool_decide; [done|]. exfalso. eapply (Hbig e1); [lia|exact Hle].
Qed.

(** Rounding respects bounds that are integers below 2^53. *)
Lemma round_bounds (m : positive) e :
  -2500 <= e →
  let r := binary_round_aux 53 1024 false (Z.pos m) e loc_Exact in
  wf r ∧ (∀ N, 0 <= N < 2 ^ 53 → scaled (Z.pos m) e <= N * 2 ^ B → at_most r N) ∧
  (∀ N, 0 <= N < 2 ^ 53 → N * 2 ^ B <= scaled (Z.pos m) e → at_least N r).
Proof.
  intros He. cbn zeta. destruct (round_aux_pack m e loc_Exact) as (c & -> & Hc & Hq & Hex). cbn zeta in *.
  assert (Hex' := λ H, Hex H eq_refl). clear Hex. rename Hex' into Hex.
  revert Hq Hex. set (d := Z.pos (digits2_pos m)). set (e1 := Z.max _ _). intros Hq Hex.
  pose proof (digits2_bounds m) as [Hd _]. fold d in Hd.
  assert (-1074 <= e1 ∧ e <= e1) as [He1 Hee] by (unfold e1, fexp64; lia).
  set (k := e1 - e) in *. assert (0 < 2 ^ k) by (apply Z.pow_pos_nonneg; lia).
  pose proof (Z.div_mod (Z.pos m) (2 ^ k) ltac:(lia)) as Hdiv.
  pose proof (Z.mod_pos_bound (Z.pos m) (2 ^ k) ltac:(lia)) as Hmod.
  set (q := Z.pos m / 2 ^ k) in *. pose proof pow_B_pos.
  assert (∀ z, scaled (z * 2 ^ k) e = scaled z e1) as Hsc
    by (intros z; rewrite scaled_shift by lia; f_equal; lia).
  assert (0 < 2 ^ (e + B)) as HeB by (apply Z.pow_pos_nonneg; lia).
  assert (∀ z z', scaled z e1 <= scaled z' e1 ↔ z <= z') as Hmono.
  { intros z z'. unfold scaled. assert (0 < 2 ^ (e1 + B)) by (apply Z.pow_pos_nonneg; lia). nia. }
  assert (∀ N, e1 <= 0 → N * 2 ^ B = scaled (N * 2 ^ (- e1)) e1) as HNsc.
  { intros N Hneg. rewrite scaled_shift by lia. unfold scaled. do 2 f_equal. lia. }
  assert (k = 0 → c = Z.pos m) as Hk0.
  { intros Ek. rewrite Hex; unfold q; rewrite Ek; [by rewrite Z.div_1_r|by rewrite Z.mod_1_r]. }
  assert (0 < e1 → k = 0 ∨ e1 = d + e - 53) as Hcase by (unfold k, e1, fexp64; lia).
  split_and!; [by apply pack_wf|..]; intros N HN Hle.
  - apply pack_at_most; try lia. destruct (Z.le_gt_cases e1 0) as [Hneg|Hpos].
    + rewrite (HNsc N Hneg), <-Hsc in Hle. rewrite (HNsc N Hneg). apply Hmono.
      assert (Z.pos m <= N * 2 ^ (- e1) * 2 ^ k) as Hm by (unfold scaled in Hle; nia).
      destruct (Z.eq_dec (Z.pos m mod 2 ^ k) 0) as [Hz|Hnz].
      * rewrite (Hex Hz). apply (Z.mul_le_mono_pos_r _ _ (2 ^ k)); lia.
      * enough (q < N * 2 ^ (- e1)) by lia. apply (Z.mul_lt_mono_pos_r (2 ^ k)); lia.
    + destruct (Hcase Hpos) as [Ek|E1]; [rewrite (Hk0 Ek); by replace e1 with e by lia|].
      exfalso. assert (2 ^ 53 * 2 ^ B <= 2 ^ (d - 1) * 2 ^ (e + B)); [|unfold scaled in Hle; nia].
      rewrite <-!Z.pow_add_r by lia. apply Z.pow_le_mono_r; lia.
  - apply pack_at_least; try lia. destruct (Z.le_gt_cases e1 0) as [Hneg|Hpos].
    + rewrite (HNsc N Hneg), <-Hsc in Hle. rewrite (HNsc N Hneg). apply Hmono.
      assert (N * 2 ^ (- e1) * 2 ^ k <= Z.pos m) as Hm by (unfold scaled in Hle; nia).
      enough (N * 2 ^ (- e1) < q + 1) by lia. apply (Z.mul_lt_mono_pos_r (2 ^ k)); lia.
    + destruct (Hcase Hpos) as [Ek|E1]; [rewrite (Hk0 Ek); by replace e1 with e by lia|].
      assert (2 ^ 52 <= q) as Hq52.
      { apply Z.div_le_lower_bound; [lia|]. rewrite <-Z.pow_add_r by lia. etrans; [|exact Hd].
        apply Z.pow_le_mono_r; lia. }
      assert (2 * 2 ^ B <= 2 ^ (e1 + B)); [|unfold scaled; nia].
      rewrite <-Z.pow_succ_r by lia. apply Z.pow_le_mono_r; lia.
Qed.

Lemma iter_xO p k : Z.pos (Pos.iter xO p k) = Z.pos p * 2 ^ Z.pos k.
Proof.
  induction k as [|k IH] using Pos.peano_ind; [cbn; lia|].
  rewrite Pos.iter_succ, Pos2Z.inj_xO, IH, Pos2Z.inj_succ, Z.pow_succ_r by lia. lia.
Qed.

Lemma shl_align_scaled m e e' :
  -2500 <= e' → let '(m', e2) := shl_align m e e' in
  scaled (Z.pos m') e2 = scaled (Z.pos m) e ∧ e2 = Z.min e e'.
Proof.
  intros He'. unfold shl_align. destruct (e' - e) as [|k|k] eqn:E; [split; [done|lia]..|].
  split; [|lia]. rewrite iter_xO. rewrite scaled_shift by lia. f_equal. lia.
Qed.

(** The same for a value that is normalized first. *)
Lemma normalize_bounds (m : positive) e :
  -2500 <= e →
  let r := binary_normalize 53 1024 (Z.pos m) e false in
  wf r ∧ (∀ N, 0 <= N < 2 ^ 53 → scaled (Z.pos m) e <= N * 2 ^ B → at_most r N) ∧
  (∀ N, 0 <= N < 2 ^ 53 → N * 2 ^ B <= scaled (Z.pos m) e → at_least N r).
Proof.
  intros He. cbn [binary_normalize]. unfold binary_round.
  pose proof (shl_align_scaled m e (fexp 53 1024 (Z.pos (digits2_pos m) + e))) as Hs.
  destruct (shl_align m e _) as [m' e2]. destruct Hs as [<- ->]; [unfold fexp, emin; lia|].
  apply round_bounds. unfold fexp, emin. lia.
Qed.

Lemma scaled_inj e m1 m2 : -2500 <= e → scaled m1 e = scaled m2 e ↔ m1 = m2.
Proof.
  intros He. unfold scaled. assert (0 < 2 ^ (e + B)) by (apply Z.pow_pos_nonneg; lia).
  split; [apply Z.mul_reg_r; lia|congruence].
Qed.

(** An integer below 2^53 is exact, with a full mantissa. *)
Lemma of_Z_exact n :
  0 < n < 2 ^ 53 →
  ∃ m e, f64_of_Z n = S754_finite false m e ∧ scaled (Z.pos m) e = n * 2 ^ B ∧
    2 ^ 52 <= Z.pos m < 2 ^ 53 ∧ -1074 <= e.
Proof.
  intros Hn. destruct n as [|p|]; [lia| |lia]. unfold f64_of_Z. cbn [binary_normalize]. unfold binary_round.
  pose proof (digits2_bounds p) as Hd. assert (Z.pos (digits2_pos p) <= 53) as Hd53.
  { apply Z.nlt_ge. intros Hgt. assert (2 ^ 53 <= 2 ^ (Z.pos (digits2_pos p) - 1)) by (apply Z.pow_le_mono_r; lia). lia. }
  set (f := fexp 53 1024 _). assert (f = Z.pos (digits2_pos p) - 53) as Hf by (unfold f, fexp, emin; lia).
  pose proof (shl_align_scaled p 0 f ltac:(lia)) as Hs. destruct (shl_align p 0 f) as [m e]. destruct Hs as [Hs ->].
  assert (Z.min 0 f = f) as Emin by lia. rewrite Emin in *.
  assert (Z.pos m = Z.pos p * 2 ^ (- f)) as Hm.
  { apply (scaled_inj f); [lia|]. rewrite Hs, scaled_shift by lia. f_equal. lia. }
  assert (2 ^ 52 <= Z.pos m < 2 ^ 53) as Hr.
  { rewrite Hm. assert (0 < 2 ^ (- f)) by (apply Z.pow_pos_nonneg; lia).
    replace (2 ^ 52) with (2 ^ (Z.pos (digits2_pos p) - 1) * 2 ^ (- f)) by (rewrite <-Z.pow_add_r by lia; f_equal; lia).
    replace (2 ^ 53) with (2 ^ Z.pos (digits2_pos p) * 2 ^ (- f)) by (rewrite <-Z.pow_add_r by lia; f_equal; lia).
    nia. }
  assert (Z.pos (digits2_pos m) = 53) as Hdm.
  { rewrite digits2_log2. rewrite (Z.log2_unique (Z.pos m) 52); [done|lia|]. change (Z.succ 52) with 53. done. }
  destruct (round_aux_pack m f loc_Exact) as (c & -> & _ & _ & Hex). cbn zeta in Hex. rewrite Hdm in *.
  replace (Z.max f (fexp64 (53 + f))) with f in * by (unfold fexp64; lia).
  rewrite Z.sub_diag, Z.div_1_r, Z.mod_1_r in Hex. rewrite (Hex eq_refl eq_refl).
  exists m, f. split_and!; try lia.
  - unfold pack. rewrite bool_decide_eq_false_2 by lia. by rewrite bool_decide_eq_true_2 by lia.
  - rewrite Hs. unfold scaled. by rewrite Z.add_0_l.
Qed.

(** Comparison of a float with a full mantissa and another one. *)
Lemma not_ltb_le m1 e1 m2 e2 :
  2 ^ 52 <= Z.pos m1 → -1074 <= e2 → Z.pos m2 < 2 ^ 53 →
  SFltb (S754_finite false m1 e1) (S754_finite false m2 e2) = false →
  scaled (Z.pos m2) e2 <= scaled (Z.pos m1) e1.
Proof.
  intros H1 He2 H2. unfold SFltb. cbn. destruct (Z.compare_spec e1 e2) as [->|Hlt|Hgt]; [|done|].
  - change (Pos.compare_cont Eq m1 m2) with (Pos.compare m1 m2).
    destruct (Pos.compare_spec m1 m2) as [->|?|Hm]; [done|done|]. intros _. unfold scaled.
    apply Z.mul_le_mono_nonneg_r; [apply Z.pow_nonneg; lia|lia].
  - intros _. replace (scaled (Z.pos m1) e1) with (scaled (Z.pos m1 * 2 ^ (e1 - e2)) e2)
      by (rewrite scaled_shift by lia; f_equal; lia).
    unfold scaled. apply Z.mul_le_mono_nonneg_r; [apply Z.pow_nonneg; lia|].
    assert (2 ^ 1 <= 2 ^ (e1 - e2)) by (apply Z.pow_le_mono_r; lia). nia.
Qed.

Lemma scaled_mul m1 e1 m2 e2 :
  -1074 <= e1 → -1074 <= e2 → scaled (m1 * m2) (e1 + e2) * 2 ^ B = scaled m1 e1 * scaled m2 e2.
Proof.
  intros He1 He2. unfold scaled.
  assert (2 ^ (e1 + e2 + B) * 2 ^ B = 2 ^ (e1 + B) * 2 ^ (e2 + B)) as E
    by (rewrite <-!Z.pow_add_r by lia; f_equal; lia).
  transitivity (m1 * m2 * (2 ^ (e1 + e2 + B) * 2 ^ B)); [ring|]. rewrite E. ring.
Qed.

Lemma scaled_nonneg m e : 0 <= m → 0 <= scaled m e.
Proof. intros Hm. unfold scaled. apply Z.mul_nonneg_nonneg; [done|]. apply Z.pow_nonneg. lia. Qed.

Lemma mul_at_most x y N M :
  wf x → wf y → at_most x N → at_most y M → 0 <= N → 0 <= M → N * M < 2 ^ 53 →
  wf (f64_mul x y) ∧ at_most (f64_mul x y) (N * M).
Proof.
  intros Wx Wy Hx Hy HN HM HNM. pose proof pow_B_pos.
  destruct x as [[]|[]| |[] mx ex], y as [[]|[]| |[] my ey]; try done; cbn in *; try (split; [done|nia]).
  destruct (round_bounds (mx * my) (ex + ey) ltac:(lia)) as (Hw & Hm & _).
  split; [done|]. apply Hm; [nia|]. apply (Z.mul_le_mono_pos_r _ _ (2 ^ B)); [done|].
  rewrite Pos2Z.inj_mul, scaled_mul by lia.
  replace (N * M * 2 ^ B * 2 ^ B) with ((N * 2 ^ B) * (M * 2 ^ B)) by ring.
  apply Z.mul_le_mono_nonneg; auto using scaled_nonneg with lia.
Qed.

Lemma mul_at_least x y N :
  wf x → wf y → at_least N x → at_least 1 y → (∃ M, at_most x M) → 0 < N < 2 ^ 53 →
  wf (f64_mul x y) ∧ at_least N (f64_mul x y).
Proof.
  intros Wx Wy Hx Hy [M HM] HN. pose proof pow_B_pos.
  destruct x as [[]|[]| |[] mx ex], y as [[]|[]| |[] my ey]; try done; cbn in *; try (split; [done|lia]); try lia.
  destruct (round_bounds (mx * my) (ex + ey) ltac:(lia)) as (Hw & _ & Hm).
  split; [done|]. apply Hm; [lia|]. apply (Z.mul_le_mono_pos_r _ _ (2 ^ B)); [done|].
  rewrite Pos2Z.inj_mul, scaled_mul by lia. apply Z.mul_le_mono_nonneg; lia.
Qed.

(** Half of a float. *)
Lemma mul_half x N :
  wf x → at_most x N → 0 <= N < 2 ^ 52 →
  wf (f64_mul x (S754_finite false 4503599627370496 (-53))) ∧
  at_most (f64_mul x (S754_finite false 4503599627370496 (-53))) ((N + 1) / 2).
Proof.
  intros Wx Hx HN. pose proof pow_B_pos. assert (0 <= (N + 1) / 2 < 2 ^ 53) as Hb
    by (split; [apply Z.div_pos; lia|apply Z.div_lt_upper_bound; lia]).
  destruct x as [[]|[]| |[] mx ex]; try done; [split; [done|apply Hb]|]. cbn [wf at_most] in Wx, Hx.
  destruct (round_bounds (mx * 4503599627370496) (ex + -53) ltac:(lia)) as (Hw & Hm & _).
  split; [done|]. apply Hm; [done|].
  rewrite Pos2Z.inj_mul. change 4503599627370496 with (2 ^ 52). rewrite scaled_shift by lia.
  replace (ex + -53 + 52) with (ex - 1) by lia.
  assert (scaled (Z.pos mx) ex = 2 * scaled (Z.pos mx) (ex - 1)) as E.
  { unfold scaled. replace (ex + B) with (Z.succ (ex - 1 + B)) by lia. rewrite Z.pow_succ_r by lia. ring. }
  assert (N <= 2 * ((N + 1) / 2)) by (pose proof (Z.div_mod (N + 1) 2); pose proof (Z.mod_pos_bound (N + 1) 2); lia).
  nia.
Qed.

Lemma add_bounds x y N M L :
  wf x → wf y → at_most x N → at_most y M → at_least L x → 0 <= N → 0 <= M → N + M < 2 ^ 53 →
  0 <= L < 2 ^ 53 →
  wf (f64_add x y) ∧ at_most (f64_add x y) (N + M) ∧ at_least L (f64_add x y).
Proof.
  intros Wx Wy Hx Hy HL HN HM HNM HL0. pose proof pow_B_pos.
  destruct x as [[]|[]| |[] mx ex], y as [[]|[]| |[] my ey]; try done; cbn in *.
  - split_and!; [done|lia|done].
  - split; [done|]. split; [nia|]. assert (L = 0) as -> by lia. rewrite Z.mul_0_l. by apply scaled_nonneg.
  - split; [done|]. split; [nia|done].
  - pose proof (shl_align_scaled mx ex (Z.min ex ey) ltac:(lia)) as Hmx.
    pose proof (shl_align_scaled my ey (Z.min ex ey) ltac:(lia)) as Hmy.
    destruct (shl_align mx ex _) as [mx' ex'], (shl_align my ey _) as [my' ey']. cbn [fst].
    destruct Hmx as [Sx ->], Hmy as [Sy ->].
    replace (Z.min ex (Z.min ex ey)) with (Z.min ex ey) in Sx by lia.
    replace (Z.min ey (Z.min ex ey)) with (Z.min ex ey) in Sy by lia.
    destruct (normalize_bounds (mx' + my') (Z.min ex ey) ltac:(lia)) as (Hw & Hmost & Hleast).
    assert (scaled (Z.pos (mx' + my')) (Z.min ex ey) = scaled (Z.pos mx) ex + scaled (Z.pos my) ey) as E
      by (rewrite <-Sx, <-Sy; unfold scaled; rewrite Pos2Z.inj_add; ring).
    rewrite E in Hmost, Hleast. pose proof (scaled_nonneg (Z.pos my) ey ltac:(lia)).
    split_and!; [done|apply Hmost; lia|apply Hleast; lia].
Qed.

(** The integral part of a float between two integers. *)
Lemma trunc_bounds x L N :
  wf x → at_most x N → at_least L x → 0 <= L → N < 2 ^ 53 → ∃ z, trunc_f64 x = Some z ∧ L <= z <= N.
Proof.
  intros Wx HN HL H0 H53. pose proof pow_B_pos.
  destruct x as [[]|[]| |[] m e]; try done; cbn in *; [exists 0; split; [done|lia]|].
  set (n := if bool_decide (0 <= e) then _ else _).
  assert (L <= n <= N) as Hn.
  { unfold n, scaled in *. case_bool_decide as He.
    - rewrite Z.pow_add_r in HN, HL by lia. split; nia.
    - assert (2 ^ B = 2 ^ (- e) * 2 ^ (e + B)) as EB by (rewrite <-Z.pow_add_r by lia; f_equal; lia).
      assert (0 < 2 ^ (e + B)) by (apply Z.pow_pos_nonneg; lia).
      assert (0 < 2 ^ (- e)) by (apply Z.pow_pos_nonneg; lia). rewrite EB in HN, HL. split.
      + apply Z.div_le_lower_bound; [done|]. nia.
      + apply Z.div_le_upper_bound; [done|]. nia. }
  exists n. rewrite bool_decide_eq_true_2 by (unfold is_i64; lia). done.
Qed.

(** ** Division *)

Lemma new_location_zero n : new_location n 0 = loc_Exact.
Proof. unfold new_location, new_location_even, new_location_odd. by case_match. Qed.

(** The quotient of the mantissas has at least 53 digits, unless it is very
    small. *)
Lemma div_core (m1 m2 : positive) e1 e2 :
  -1000 <= Z.pos (digits2_pos m1) + e1 - (Z.pos (digits2_pos m2) + e2) →
  ∃ (q : positive) e' l, SFdiv_core_binary 53 1024 (Z.pos m1) e1 (Z.pos m2) e2 = (Z.pos q, e', l) ∧
    Z.min (-1053) (e1 - e2) <= e' <= e1 - e2 ∧ 2 ^ 52 <= Z.pos q ∧
    Z.pos q = Z.pos m1 * 2 ^ (e1 - e2 - e') / Z.pos m2 ∧
    (Z.pos m1 * 2 ^ (e1 - e2 - e') mod Z.pos m2 = 0 → l = loc_Exact).
Proof.
  intros Hd. unfold SFdiv_core_binary. cbn [Zdigits2].
  pose proof (digits2_bounds m1) as [H1 _]. pose proof (digits2_bounds m2) as [_ H2].
  revert Hd H1 H2. set (d1 := Z.pos (digits2_pos m1)). set (d2 := Z.pos (digits2_pos m2)). intros Hd H1 H2.
  replace (fexp 53 1024 (d1 + e1 - (d2 + e2))) with (d1 + e1 - (d2 + e2) - 53) by (unfold fexp, emin; lia).
  set (e' := Z.min _ _). set (s := e1 - e2 - e').
  assert (match s with Z0 => Z.pos m1 | Z.pos _ => Z.shiftl (Z.pos m1) s | Z.neg _ => 0 end = Z.pos m1 * 2 ^ s) as ->.
  { assert (0 <= s) by lia. destruct s as [|s'|s']; [lia|by rewrite Z.shiftl_mul_pow2 by lia|lia]. }
  pose proof (Z.div_eucl_eq (Z.pos m1 * 2 ^ s) (Z.pos m2) ltac:(lia)) as E.
  destruct (Z.div_eucl (Z.pos m1 * 2 ^ s) (Z.pos m2)) as [q r] eqn:Ee.
  assert (q = Z.pos m1 * 2 ^ s / Z.pos m2) as Eq by (unfold Z.div; by rewrite Ee).
  assert (r = Z.pos m1 * 2 ^ s mod Z.pos m2) as Er by (unfold Z.modulo; by rewrite Ee).
  assert (2 ^ 52 <= q) as Hq.
  { rewrite Eq. apply Z.div_le_lower_bound; [lia|].
    trans (2 ^ d2 * 2 ^ 52); [apply Z.mul_le_mono_nonneg_r; lia|].
    trans (2 ^ (d1 - 1) * 2 ^ s); [|apply Z.mul_le_mono_nonneg_r; [apply Z.pow_nonneg|]; lia].
    rewrite <-!Z.pow_add_r by lia. apply Z.pow_le_mono_r; lia. }
  destruct q as [|q|q]; [lia| |lia].
  exists q, e', (new_location (Z.pos m2) r). split_and!; try done; [lia..|].
  intros H0. fold s in H0. rewrite Er, H0. apply new_location_zero.
Qed.

(** The quotient of a quotient, against a multiple of both divisors. *)
Lemma quotient_sides m d k N :
  0 < d → 0 < k →
  (N * k * d <= m → N <= m / d / k) ∧
  (m <= N * k * d → (m mod d = 0 ∧ (m / d) mod k = 0 ∧ m / d / k <= N) ∨ m / d / k < N).
Proof.
  intros Hd Hk. split.
  - intros H. apply Z.div_le_lower_bound; [done|]. apply Z.div_le_lower_bound; [done|]. lia.
  - intros H. pose proof (Z.div_mod m d ltac:(lia)) as Em. pose proof (Z.mod_pos_bound m d Hd).
    pose proof (Z.div_mod (m / d) k ltac:(lia)) as Eq. pose proof (Z.mod_pos_bound (m / d) k Hk).
    assert (m / d <= N * k) as Hq by (apply Z.div_le_upper_bound; lia).
    destruct (Z.eq_dec (m mod d) 0) as [Z0|Z0], (Z.eq_dec ((m / d) mod k) 0) as [Z1|Z1].
    + left. split_and!; [done..|]. apply Z.div_le_upper_bound; lia.
    + right. apply (Z.mul_lt_mono_pos_l k); lia.
    + right. apply Z.div_lt_upper_bound; [done|]. apply (Z.mul_lt_mono_pos_l d); lia.
    + right. apply (Z.mul_lt_mono_pos_l k); lia.
Qed.

(** A quotient of two floats between 2^-200 and 2^40 is [c * 2^e] with a full
    mantissa, on the same side of every multiple of 2^e as the exact one. *)
Lemma div_pack (m1 m2 : positive) e1 e2 :
  -1074 <= e1 <= 1000 → -1074 <= e2 <= 1000 →
  scaled (Z.pos m1) e1 <= 2 ^ 40 * scaled (Z.pos m2) e2 →
  scaled (Z.pos m2) e2 <= scaled (Z.pos m1) e1 * 2 ^ 200 →
  ∃ c e, f64_div (S754_finite false m1 e1) (S754_finite false m2 e2) = pack c e ∧
    2 ^ 52 <= c <= 2 ^ 53 ∧ -1000 <= e <= -12 ∧
    scaled (Z.pos m1) e1 * 2 ^ B < scaled (2 ^ 53) e * scaled (Z.pos m2) e2 ∧
    ∀ N, (scaled N e * scaled (Z.pos m2) e2 <= scaled (Z.pos m1) e1 * 2 ^ B → N <= c) ∧
         (scaled (Z.pos m1) e1 * 2 ^ B <= scaled N e * scaled (Z.pos m2) e2 → c <= N).
Proof.
  intros He1 He2 Hhi Hlo. unfold scaled in *.
  pose proof (digits2_bounds m1) as [_ D1]. pose proof (digits2_bounds m2) as [D2 _].
  destruct (div_core m1 m2 e1 e2) as (q & e' & l & Ec & He' & Hq & Eq & Hl).
  { enough (Z.pos (digits2_pos m2) - 1 + (e2 + B) < Z.pos (digits2_pos m1) + (e1 + B) + 200) by lia.
    apply (Z.pow_lt_mono_r_iff 2); [lia..|].
    rewrite (Z.pow_add_r 2 (_ - 1)), (Z.pow_add_r 2 _ 200), (Z.pow_add_r 2 _ (e1 + B)) by lia.
    assert (0 < 2 ^ (e2 + B)) by (apply Z.pow_pos_nonneg; lia). assert (0 < 2 ^ (e1 + B)) by (apply Z.pow_pos_nonneg; lia).
    eapply Z.le_lt_trans; [apply Z.mul_le_mono_nonneg_r; [lia|exact D2]|].
    eapply Z.le_lt_trans; [exact Hlo|]. apply Z.mul_lt_mono_pos_r; [lia|]. by apply Z.mul_lt_mono_pos_r. }
  set (P := 2 ^ (e2 + e' + 2 * B)). assert (0 < P) as HP by (apply Z.pow_pos_nonneg; lia).
  set (m' := Z.pos m1 * 2 ^ (e1 - e2 - e')) in *.
  assert (Z.pos m1 * 2 ^ (e1 + B) * 2 ^ B = m' * P) as Em.
  { unfold m', P. rewrite <-!Z.mul_assoc, <-!Z.pow_add_r by lia. do 2 f_equal. lia. }
  pose proof (Z.div_mod m' (Z.pos m2) ltac:(lia)) as Hdm. rewrite <-Eq in Hdm.
  pose proof (Z.mod_pos_bound m' (Z.pos m2) ltac:(lia)) as Hr.
  pose proof (digits2_bounds q) as Dq. set (dq := Z.pos (digits2_pos q)) in *.
  assert (53 <= dq) as Hdq.
  { apply Z.nlt_ge. intros Hc. assert (2 ^ dq <= 2 ^ 52) by (apply Z.pow_le_mono_r; lia). lia. }
  assert (m' < Z.pos m2 * 2 ^ dq) as Hm'.
  { rewrite Hdm. assert (Z.pos m2 * (Z.pos q + 1) <= Z.pos m2 * 2 ^ dq) by (apply Z.mul_le_mono_nonneg_l; lia). lia. }
  set (T := 2 ^ (e2 + 2 * B)). pose proof pow_B_pos.
  assert (2 ^ (e2 + B) * 2 ^ B = T) as ET by (unfold T; rewrite <-Z.pow_add_r by lia; f_equal; lia).
  assert (dq - 1 + e' <= 40) as Hup.
  { enough (dq - 1 + (e2 + e' + 2 * B) <= 40 + (e2 + 2 * B)) by lia.
    apply (Z.pow_le_mono_r_iff 2); [lia..|]. rewrite (Z.pow_add_r 2 (dq - 1)), (Z.pow_add_r 2 40) by lia. fold P T.
    trans (Z.pos q * P); [apply Z.mul_le_mono_nonneg_r; lia|]. apply (Z.mul_le_mono_pos_l _ _ (Z.pos m2)); [lia|].
    trans (m' * P); [rewrite Z.mul_assoc; apply Z.mul_le_mono_nonneg_r; lia|].
    rewrite <-Em, <-ET. apply (Z.mul_le_mono_nonneg_r _ _ (2 ^ B)) in Hhi; [|lia]. etrans; [exact Hhi|]. apply Z.eq_le_incl. ring. }
  assert (-200 < dq + e') as Hdown.
  { enough (e2 + 2 * B < dq + (e2 + e' + 2 * B) + 200) by lia.
    apply (Z.pow_lt_mono_r_iff 2); [lia..|]. rewrite (Z.pow_add_r 2 _ 200), (Z.pow_add_r 2 dq) by lia. fold P T.
    apply (Z.mul_lt_mono_pos_l (Z.pos m2)); [lia|]. apply (Z.mul_le_mono_nonneg_r _ _ (2 ^ B)) in Hlo; [|lia].
    rewrite <-ET, Z.mul_assoc. eapply Z.le_lt_trans; [exact Hlo|].
    rewrite <-(Z.mul_assoc _ (2 ^ 200)), (Z.mul_comm (2 ^ 200)), Z.mul_assoc, Em, !Z.mul_assoc.
    apply Z.mul_lt_mono_pos_r; [lia|]. by apply Z.mul_lt_mono_pos_r. }
  unfold f64_div, SFdiv. rewrite Ec. cbn [xorb].
  destruct (round_aux_pack q e' l) as (c & Hc & Hc53 & Hcq & Hex). cbn zeta in *. fold dq in Hc, Hcq, Hex.
  replace (Z.max e' (fexp64 (dq + e'))) with (dq + e' - 53) in * by (unfold fexp64; lia).
  replace (dq + e' - 53 - e') with (dq - 53) in * by lia.
  set (K := 2 ^ (dq - 53)) in *. assert (0 < K) as HK by (apply Z.pow_pos_nonneg; lia).
  assert (2 ^ dq = 2 ^ 53 * K) as Ed by (unfold K; rewrite <-Z.pow_add_r by lia; f_equal; lia).
  assert (2 ^ (dq - 1) = 2 ^ 52 * K) as Ed1 by (unfold K; rewrite <-Z.pow_add_r by lia; f_equal; lia).
  assert (∀ N, N * 2 ^ (dq + e' - 53 + B) * (Z.pos m2 * 2 ^ (e2 + B)) = N * K * Z.pos m2 * P) as EN.
  { intros N. assert (2 ^ (dq + e' - 53 + B) * 2 ^ (e2 + B) = K * P) as E.
    { unfold K, P. rewrite <-!Z.pow_add_r by lia. f_equal. lia. }
    trans (N * Z.pos m2 * (2 ^ (dq + e' - 53 + B) * 2 ^ (e2 + B))); [ring|]. rewrite E. ring. }
  exists c, (dq + e' - 53). rewrite Em. split_and!; [done| |lia..| |].
  - enough (2 ^ 52 <= Z.pos q / K) by lia. apply Z.div_le_lower_bound; lia.
  - rewrite EN, <-Ed, (Z.mul_comm _ (Z.pos m2)). by apply Z.mul_lt_mono_pos_r.
  - intros N. rewrite EN, Eq in *. destruct (quotient_sides m' (Z.pos m2) K N ltac:(lia) HK) as [H1 H2].
    split; intros HN%Z.mul_le_mono_pos_r; try done; [specialize (H1 HN); lia|].
    destruct (H2 HN) as [(Hz & Hk & Hle)|Hlt]; [|lia]. by rewrite (Hex Hk (Hl Hz)).
Qed.

(** The float of a rounded value with a fraction. *)
Lemma pack_finite c e :
  0 < c <= 2 ^ 53 → -1000 <= e <= -12 →
  ∃ m e', pack c e = S754_finite false m e' ∧ scaled (Z.pos m) e' = scaled c e ∧ wf (pack c e) ∧ e' <= -11 ∧
    trunc_f64 (pack c e) = Some (c / 2 ^ (- e)).
Proof.
  intros Hc He. destruct c as [|p|p]; [lia| |lia].
  assert (Z.pos p / 2 ^ (- e) <= Z.pos p) as Hle.
  { apply Z.div_le_upper_bound; [apply Z.pow_pos_nonneg; lia|]. pose proof (Z.pow_pos_nonneg 2 (- e)). nia. }
  pose proof (Z.div_pos (Z.pos p) (2 ^ (- e)) ltac:(lia) ltac:(apply Z.pow_pos_nonneg; lia)) as Hpos.
  assert (wf (pack (Z.pos p) e)) as Hw by (apply pack_wf; lia).
  revert Hw. unfold pack. case_bool_decide as E; rewrite bool_decide_eq_true_2 by lia; intros Hw.
  - exists 4503599627370496%positive, (e + 1). split_and!; [done| |done|lia|].
    + rewrite E. change (2 ^ 53) with (4503599627370496 * 2 ^ 1). by rewrite scaled_shift by lia.
    + cbn. rewrite (bool_decide_eq_false_2 (0 <= e + 1)) by lia.
      assert (4503599627370496 / 2 ^ (- (e + 1)) = Z.pos p / 2 ^ (- e)) as ->.
      { rewrite E. replace (- e) with (1 + - (e + 1)) by lia. rewrite Z.pow_add_r by lia.
        change (2 ^ 53) with (2 ^ 1 * 4503599627370496). rewrite Z.div_mul_cancel_l; [done|..|done].
        apply Z.pow_nonzero; lia. }
      by rewrite bool_decide_eq_true_2 by (unfold is_i64; lia).
  - exists p, e. split_and!; [done..|lia|]. cbn. rewrite (bool_decide_eq_false_2 (0 <= e)) by lia.
    by rewrite bool_decide_eq_true_2 by (unfold is_i64; lia).
Qed.

Lemma exponent_bound (m : positive) e N : N <= 2 ^ 60 → scaled (Z.pos m) e <= N * 2 ^ B → -1074 <= e → e <= 60.
Proof.
  intros HN Hs He. unfold scaled in Hs. enough (e + B <= 60 + B) by lia.
  apply (Z.pow_le_mono_r_iff 2); [lia..|]. rewrite (Z.pow_add_r 2 60) by lia. pose proof pow_B_pos.
  pose proof (Z.pow_pos_nonneg 2 (e + B)). etrans; [|etrans; [exact Hs|apply Z.mul_le_mono_nonneg_r; lia]]. nia.
Qed.
End scaled.

(** ** Signs

    The operations are symmetric in the sign. *)

Lemma round_aux_opp m e l : binary_round_aux 53 1024 true m e l = SFopp (binary_round_aux 53 1024 false m e l).
Proof. unfold binary_round_aux. by repeat case_match. Qed.

Lemma normalize_opp p e : binary_normalize 53 1024 (Z.neg p) e false = SFopp (binary_normalize 53 1024 (Z.pos p) e false).
Proof. cbn. unfold binary_round. case_match. apply round_aux_opp. Qed.

Lemma of_Z_opp p : f64_of_Z (Z.neg p) = SFopp (f64_of_Z (Z.pos p)).
Proof. apply normalize_opp. Qed.

Lemma div_opp m1 e1 m2 e2 :
  f64_div (S754_finite true m1 e1) (S754_finite false m2 e2) =
  SFopp (f64_div (S754_finite false m1 e1) (S754_finite false m2 e2)).
Proof. unfold f64_div, SFdiv. destruct (SFdiv_core_binary _ _ _ _ _ _) as [[mz ez] lz]. apply round_aux_opp. Qed.

Lemma add_opp m1 e1 m2 e2 :
  f64_add (S754_finite true m1 e1) (S754_finite true m2 e2) =
  SFopp (f64_add (S754_finite false m1 e1) (S754_finite false m2 e2)).
Proof. apply normalize_opp. Qed.

Lemma trunc_opp x n : - 2 ^ 62 < n < 2 ^ 62 → trunc_f64 x = Some n → trunc_f64 (SFopp x) = Some (- n).
Proof.
  intros Hn. destruct x as [s|s| |s m e]; cbn; try done; [by intros [= <-]|].
  case_bool_decide as Hi; [|done]. intros [= <-].
  destruct s; cbn [negb] in *; rewrite bool_decide_eq_true_2; rewrite ?Z.opp_involutive; try done; unfold is_i64 in *; lia.
Qed.
