(* ===== verification/AuditLog.v ===== *)
(** * Audit events and their emitter: [pkg/audit/audit.go], [emitter.go]

    Events with their actions, and SlogEmitter: a buffered channel between the
    callers of Emit and the goroutine that logs, with the two-step shutdown of
    Close. Emit is two selects with nothing held in between, so a call is two
    steps; a send on a closed channel is the panic it is in Go. *)

From Stdlib Require Import ZArith Lia.
From S2P Require Import Prelude.

(** ** Events *)

Record Event := mkEvent {
  Action : string;
  Actor : string;
  Target : string;
  Timestamp : Z;
  RequestID : string;
  ev_CustomerID : string;
  Metadata : gmap string string
}.

Definition ActionAgentConnected : string := "agent.connected".
Definition ActionAgentDisconnected : string := "agent.disconnected".
Definition ActionAuthSuccess : string := "auth.success".
Definition ActionAuthFailure : string := "auth.failure".
Definition ActionAdminPortAdded : string := "admin.port_added".
Definition ActionAdminPortRemoved : string := "admin.port_removed".
Definition ActionAdminPortUpdated : string := "admin.port_updated".
Definition ActionAdminAgentDisconnected : string := "admin.agent_disconnected".
Definition ActionAdminReload : string := "admin.reload".

(** ** What is logged *)

Inductive Attr := AString (k v : string) | ATime (k : string) (t : Z).

(** [func (e *SlogEmitter) logEvent(event Event)]: the attributes handed to the
    logger; [order] is the order in which the metadata map is walked. *)
Definition logEvent (event : Event) (order : list (string * string)) : list Attr :=
  [AString "action" (Action event); AString "actor" (Actor event);
   AString "target" (Target event); ATime "event_time" (Timestamp event);
   AString "customer_id" (ev_CustomerID event)]
  ++ (if bool_decide (RequestID event = "") then [] else [AString "request_id" (RequestID event)])
  ++ ((λ kv, AString ("meta." +:+ kv.1) kv.2) <$> order).

(** ** The emitter *)

Definition DefaultBufferSize : Z := 256.

(** Where a call of Close is: not called, [closeCh] closed, [eventCh] closed too
    and waiting for [done], returned. *)
Inductive ClosePC := CloseNotCalled | CloseSignalled | CloseWaiting | CloseReturned.

#[export] Instance ClosePC_eq_dec : EqDecision ClosePC.
Proof. solve_decision. Defined.

Record SlogEmitter := mkEmitter {
  e_cap : nat;                     (* capacity of eventCh *)
  eventCh : list Event;
  eventCh_closed : bool;
  closeCh : bool;
  e_done : bool;
  e_close : ClosePC;               (* the call that the once let through *)
  e_emits : gmap nat Event;        (* Emit calls between their two selects *)
  e_logged : list (list Attr);
  e_panic : bool
}.

(** [func NewSlogEmitter(logger, bufferSize) *SlogEmitter] *)
Definition NewSlogEmitter (bufferSize : Z) : SlogEmitter :=
  mkEmitter (Z.to_nat (if bool_decide (bufferSize <= 0) then DefaultBufferSize else bufferSize))
    [] false false false CloseNotCalled ∅ [] false.

Inductive EmitErr := ErrEmitterClosed (action : string).

(** The first select of Emit. *)
Definition Emit_check (e : SlogEmitter) (event : Event) : result EmitErr unit :=
  if closeCh e then Err (ErrEmitterClosed (Action event)) else Ok tt.

(** The cases of its second select that are ready. *)
Inductive emit_case := EmitSend | EmitClosed | EmitPanic.

Definition emit_ready (e : SlogEmitter) (c : emit_case) : bool :=
  match c with
  | EmitSend => negb (eventCh_closed e) && bool_decide (length (eventCh e) < e_cap e)%nat
  | EmitClosed => closeCh e
  | EmitPanic => eventCh_closed e
  end.

Definition set_eventCh (x : list Event) (e : SlogEmitter) : SlogEmitter :=
  mkEmitter (e_cap e) x (eventCh_closed e) (closeCh e) (e_done e) (e_close e) (e_emits e)
    (e_logged e) (e_panic e).
Definition set_emits (x : gmap nat Event) (e : SlogEmitter) : SlogEmitter :=
  mkEmitter (e_cap e) (eventCh e) (eventCh_closed e) (closeCh e) (e_done e) (e_close e) x
    (e_logged e) (e_panic e).

(** The second select of the call [t], taking case [c]. *)
Definition Emit_select (e : SlogEmitter) (t : nat) (event : Event) (c : emit_case) : SlogEmitter :=
  let e1 := set_emits (delete t (e_emits e)) e in
  match c with
  | EmitSend => set_eventCh (eventCh e1 ++ [event]) e1
  | EmitClosed => e1
  | EmitPanic =>
      mkEmitter (e_cap e1) (eventCh e1) (eventCh_closed e1) (closeCh e1) (e_done e1) (e_close e1)
        (e_emits e1) (e_logged e1) true
  end.

(** The three statements of Close, each when it can run. *)
Definition Close_step (e : SlogEmitter) : option SlogEmitter :=
  match e_close e with
  | CloseNotCalled =>
      Some (mkEmitter (e_cap e) (eventCh e) (eventCh_closed e) true (e_done e) CloseSignalled
              (e_emits e) (e_logged e) (e_panic e))
  | CloseSignalled =>
      Some (mkEmitter (e_cap e) (eventCh e) true (closeCh e) (e_done e) CloseWaiting
              (e_emits e) (e_logged e) (e_panic e))
  | CloseWaiting =>
      if e_done e
      then Some (mkEmitter (e_cap e) (eventCh e) (eventCh_closed e) (closeCh e) (e_done e)
                   CloseReturned (e_emits e) (e_logged e) (e_panic e))
      else None
  | CloseReturned => None
  end.

(** One turn of drainLoop: log the next event, or return when the channel is
    closed and empty. *)
Definition drainLoop_step (e : SlogEmitter) (order : list (string * string)) : option SlogEmitter :=
  if e_done e then None
  else
    match eventCh e with
    | event :: rest =>
        Some (mkEmitter (e_cap e) rest (eventCh_closed e) (closeCh e) (e_done e) (e_close e)
                (e_emits e) (e_logged e ++ [logEvent event order]) (e_panic e))
    | [] =>
        if eventCh_closed e
        then Some (mkEmitter (e_cap e) [] (eventCh_closed e) (closeCh e) true (e_close e)
                     (e_emits e) (e_logged e) (e_panic e))
        else None
    end.

Inductive elabel :=
| ECheck (t : nat) (event : Event)          (* Emit passed its first select *)
| ERefused (event : Event)                  (* Emit returned ErrEmitterClosed there *)
| EAccepted (event : Event)                 (* Emit returned nil *)
| EAbandoned (event : Event)                (* the second select saw closeCh *)
| EPanicked (event : Event)
| EClose
| EDrain.

(** A process that panicked takes no more steps. *)
Inductive estep : SlogEmitter → elabel → SlogEmitter → Prop :=
| estep_check e t event :
    e_panic e = false → e_emits e !! t = None → Emit_check e event = Ok tt →
    estep e (ECheck t event) (set_emits (<[t := event]> (e_emits e)) e)
| estep_refused e event err :
    e_panic e = false → Emit_check e event = Err err → estep e (ERefused event) e
| estep_send e t event :
    e_panic e = false → e_emits e !! t = Some event → emit_ready e EmitSend = true →
    estep e (EAccepted event) (Emit_select e t event EmitSend)
| estep_abandon e t event :
    e_panic e = false → e_emits e !! t = Some event → emit_ready e EmitClosed = true →
    estep e (EAbandoned event) (Emit_select e t event EmitClosed)
| estep_panic e t event :
    e_panic e = false → e_emits e !! t = Some event → emit_ready e EmitPanic = true →
    estep e (EPanicked event) (Emit_select e t event EmitPanic)
| estep_close e e' : e_panic e = false → Close_step e = Some e' → estep e EClose e'
| estep_drain e order e' :
    e_panic e = false →
    (∀ event, head (eventCh e) = Some event → order ≡ₚ map_to_list (Metadata event)) →
    drainLoop_step e order = Some e' → estep e EDrain e'.

Inductive esteps : SlogEmitter → list elabel → SlogEmitter → Prop :=
| esteps_nil e : esteps e [] e
| esteps_snoc e ls e1 l e2 : esteps e ls e1 → estep e1 l e2 → esteps e (ls ++ [l]) e2.

(** The events for which Emit returned nil, in order. *)
Definition accepted (ls : list elabel) : list Event :=
  omap (λ l, match l with EAccepted event => Some event | _ => None end) ls.

(** A log record is that of the event. *)
Definition logs (event : Event) (attrs : list Attr) : Prop :=
  ∃ order, order ≡ₚ map_to_list (Metadata event) ∧ attrs = logEvent event order.

(** ** Invariant *)

Record emitter_inv (acc : list Event) (e : SlogEmitter) : Prop := {
  ei_fifo : ∃ out, acc = out ++ eventCh e ∧ Forall2 logs out (e_logged e);
  ei_cap : (length (eventCh e) <= e_cap e)%nat;
  ei_close : closeCh e = bool_decide (e_close e ≠ CloseNotCalled);
  ei_closed : eventCh_closed e = bool_decide (e_close e = CloseWaiting ∨ e_close e = CloseReturned);
  ei_done : e_done e = true → eventCh_closed e = true ∧ eventCh e = [];
  ei_returned : e_close e = CloseReturned → e_done e = true
}.

Lemma emitter_inv_init n : emitter_inv [] (NewSlogEmitter n).
Proof. split; cbn; try done; [by exists []|lia]. Qed.

Lemma close_inv acc e e' : emitter_inv acc e → Close_step e = Some e' → emitter_inv acc e'.
Proof.
  intros [(out & H1 & H2) Hcap Hc Hcl Hd Hr]. unfold Close_step.
  destruct (e_close e) eqn:E; [intros [= <-]..| |done].
  - split; cbn; try done; try naive_solver.
  - split; cbn; try done; try naive_solver.
  - destruct (e_done e) eqn:Ed; [|done]. intros [= <-].
    split; cbn; try done. by exists out.
Qed.

Lemma drain_inv acc e order e' :
  emitter_inv acc e →
  (∀ event, head (eventCh e) = Some event → order ≡ₚ map_to_list (Metadata event)) →
  drainLoop_step e order = Some e' → emitter_inv acc e'.
Proof.
  intros [(out & H1 & H2) Hcap Hc Hcl Hd Hr] Ho. unfold drainLoop_step.
  destruct (e_done e) eqn:Ed; [done|]. destruct (eventCh e) as [|event rest] eqn:Ec.
  - destruct (eventCh_closed e) eqn:El; [|done]. intros [= <-]. split; cbn; try done; by exists out.
  - intros [= <-]. split; cbn; try done; [|cbn in Hcap; lia].
    exists (out ++ [event]). split; [by rewrite <-(assoc_L (++))|].
    apply Forall2_app; [done|]. apply Forall2_cons; split; [|done]. exists order. auto.
Qed.

Lemma estep_inv acc e l e' :
  emitter_inv acc e → estep e l e' → emitter_inv (acc ++ accepted [l]) e'.
Proof.
  intros I Hs. destruct Hs; cbn [accepted omap list_omap]; rewrite ?app_nil_r;
    eauto using close_inv, drain_inv; destruct I as [(out & H1' & H2') Hcap Hc Hcl Hd Hr].
  - split; cbn; try done. by exists out.
  - apply andb_true_iff in H1 as [Hn%negb_true_iff Hlt%bool_decide_eq_true].
    split; cbn; try done.
    + exists out. split; [by rewrite H1', <-(assoc_L (++))|done].
    + rewrite length_app. cbn. lia.
    + intros [? _]%Hd. congruence.
  - split; cbn; try done. by exists out.
  - split; cbn; try done. by exists out.
Qed.

Lemma esteps_inv n ls e : esteps (NewSlogEmitter n) ls e → emitter_inv (accepted ls) e.
Proof.
  intros Hs. remember (NewSlogEmitter n) as e0. induction Hs as [|e0 ls e1 l e2 _ IH Hl]; subst.
  - apply emitter_inv_init.
  - unfold accepted. rewrite omap_app. by eapply estep_inv; [apply IH|].
Qed.

(** ** The calls of Emit *)

(** What Emit, Close and the drain goroutine leave alone. *)
Lemma estep_kept e l e' :
  estep e l e' → e_cap e' = e_cap e ∧
  (e_emits e' = match l with ECheck t event => <[t := event]> (e_emits e) | EAccepted _ | EAbandoned _ | EPanicked _ => e_emits e' | _ => e_emits e end) ∧
  (e_close e' = match l with EClose => e_close e' | _ => e_close e end) ∧
  (e_panic e' = match l with EPanicked _ => true | _ => false end).
Proof.
  intros Hs. destruct Hs as [e t event Hp Hn Hc|e event err Hp Hc|e t event Hp Ht Hr|e t event Hp Ht Hr|e t event Hp Ht Hr|e e' Hp Hc|e order e' Hp Ho Hd]; cbn; try done.
  - unfold Close_step in Hc. repeat case_match; simplify_eq; done.
  - unfold drainLoop_step in Hd. repeat case_match; simplify_eq; done.
Qed.

Lemma accepted_snoc_event ls l :
  accepted (ls ++ [l]) = accepted ls ++ match l with EAccepted event => [event] | _ => [] end.
Proof. unfold accepted. rewrite omap_app. by destruct l. Qed.

(** The emitter is open until Close is called. *)
Lemma emitter_open n ls e :
  esteps (NewSlogEmitter n) ls e → e_close e = CloseNotCalled →
  closeCh e = false ∧ eventCh_closed e = false.
Proof. intros [_ _ Hc Hcl _ _]%esteps_inv E. rewrite E in Hc, Hcl. done. Qed.

(** How far a Close is from its return. *)
Definition close_rank (c : ClosePC) : nat :=
  match c with CloseNotCalled => 3 | CloseSignalled => 2 | CloseWaiting => 1 | CloseReturned => 0 end.

(** While Close has not returned, it or the drain goroutine can move on. *)
Lemma flush_can n ls e :
  esteps (NewSlogEmitter n) ls e → e_panic e = false → e_close e ≠ CloseReturned →
  ∃ l e', estep e l e' ∧
    (l = EClose ∧ (close_rank (e_close e') < close_rank (e_close e))%nat ∧ eventCh e' = eventCh e ∧ e_done e' = e_done e ∨
     l = EDrain ∧ e_close e' = e_close e ∧
       (length (eventCh e') + (if e_done e' then 0 else 1) < length (eventCh e) + (if e_done e then 0 else 1))%nat).
Proof.
  intros Hs Hp Hc. pose proof (esteps_inv _ _ _ Hs) as [_ _ _ Hcl _ _].
  destruct (Close_step e) as [e'|] eqn:Es.
  - exists EClose, e'. split; [by apply estep_close|]. left. unfold Close_step in Es.
    destruct (e_close e) eqn:E; try case_match; simplify_eq; cbn; split_and!; try done; lia.
  - unfold Close_step in Es. destruct (e_close e) eqn:E; try done. destruct (e_done e) eqn:Ed; [done|].
    assert (eventCh_closed e = true) as Hx by (rewrite Hcl; done).
    exists EDrain. set (order := map_to_list (default ∅ (Metadata <$> head (eventCh e)))).
    destruct (drainLoop_step e order) as [e'|] eqn:Hd.
    2:{ unfold drainLoop_step in Hd. rewrite Ed, Hx in Hd. by destruct (eventCh e). }
    exists e'. split; [apply (estep_drain e order); [done| |done]; unfold order; by intros ev ->|]. right.
    unfold drainLoop_step in Hd. rewrite Ed, Hx in Hd. destruct (eventCh e); simplify_eq; cbn; rewrite ?Ed; split_and!; try done; lia.
Qed.

(** The events handed to Emit, and those it did not take. *)
Definition handed (ls : list elabel) : list Event :=
  omap (λ l, match l with ECheck _ event | ERefused event => Some event | _ => None end) ls.
Definition lost (ls : list elabel) : list Event :=
  omap (λ l, match l with ERefused event | EAbandoned event | EPanicked event => Some event | _ => None end) ls.
Definition pending (e : SlogEmitter) : list Event := (map_to_list (e_emits e)).*2.

Lemma pending_take e t event :
  e_emits e !! t = Some event → pending e ≡ₚ event :: (map_to_list (delete t (e_emits e))).*2.
Proof.
  intros Ht. unfold pending. rewrite <-(insert_delete_id _ _ _ Ht) at 1.
  by rewrite map_to_list_insert by apply lookup_delete_eq.
Qed.

(** Every event handed to Emit is accepted, or not taken, or still between the
    selects. *)
Lemma emit_accounts n ls e :
  esteps (NewSlogEmitter n) ls e → handed ls ≡ₚ accepted ls ++ lost ls ++ pending e.
Proof.
  intros Hs. remember (NewSlogEmitter n) as e0. induction Hs as [|e0 ls e1 l e2 _ IH Hl]; subst.
  - done.
  - specialize (IH eq_refl). unfold handed, accepted, lost in *. rewrite !omap_app, IH. clear IH.
    destruct Hl as [e t event Hp Hn Hc|e event err Hp Hc|e t event Hp Ht Hr|e t event Hp Ht Hr|e t event Hp Ht Hr
      |e e' Hp Hc|e order e' Hp Ho Hd]; cbn; rewrite ?app_nil_r.
    + unfold pending. cbn. rewrite map_to_list_insert by done. cbn. solve_Permutation.
    + solve_Permutation.
    + rewrite (pending_take _ _ _ Ht). unfold pending. cbn. solve_Permutation.
    + rewrite (pending_take _ _ _ Ht). unfold pending. cbn. solve_Permutation.
    + rewrite (pending_take _ _ _ Ht). unfold pending. cbn. solve_Permutation.
    + unfold pending. unfold Close_step in Hc. repeat case_match; simplify_eq; done.
    + unfold pending. unfold drainLoop_step in Hd. repeat case_match; simplify_eq; done.
Qed.

(** Nothing is lost, and nobody panics, before Close is called. *)
Lemma open_loses_nothing n ls e :
  esteps (NewSlogEmitter n) ls e → closeCh e = false → lost ls = [] ∧ e_panic e = false.
Proof.
  intros Hs. remember (NewSlogEmitter n) as e0. induction Hs as [|e0 ls e1 l e2 Hs IH Hl]; subst; [done|].
  specialize (IH eq_refl). intros Hc. unfold lost in *. rewrite omap_app.
  pose proof (esteps_inv _ _ _ Hs) as [_ _ H1 H2 _ _].
  destruct Hl as [e t event Hp Hn Hk|e event err Hp Hk|e t event Hp Ht Hr|e t event Hp Ht Hr|e t event Hp Ht Hr
    |e e' Hp Hk|e order e' Hp Ho Hd]; cbn in *.
  - destruct (IH Hc) as [-> ->]. done.
  - unfold Emit_check in Hk. by rewrite Hc in Hk.
  - destruct (IH Hc) as [-> ->]. done.
  - congruence.
  - exfalso. rewrite Hr in H2. rewrite Hc in H1. symmetry in H1, H2. apply bool_decide_eq_false in H1.
    apply bool_decide_eq_true in H2. destruct H2 as [E|E]; rewrite E in H1; by apply H1.
  - exfalso. unfold Close_step in Hk. revert H1. destruct (e_close e); intros H1; try case_match; simplify_eq; cbn in *; try done;
      rewrite Hc in H1; by vm_compute in H1.
  - unfold drainLoop_step in Hd. repeat case_match; simplify_eq; cbn in *; destruct (IH Hc) as [-> _]; done.
Qed.

(** ** Theorems *)

(** C38. The audit log is complete and in order. Over every interleaving of any
    number of Emit calls, Close and the drain goroutine, the log holds, in
    order and once each, the records of the accepted events, except those still
    in the channel; and when Close has returned it holds all of them. *)
Theorem audit_log_complete n ls e :
  esteps (NewSlogEmitter n) ls e →
  (∃ out, accepted ls = out ++ eventCh e ∧ Forall2 logs out (e_logged e)) ∧
  (length (eventCh e) <= e_cap e)%nat ∧
  (e_close e = CloseReturned → Forall2 logs (accepted ls) (e_logged e)).
Proof.
  intros [H1 Hcap _ _ Hd Hr]%esteps_inv. split_and!; [done|done|].
  intros E. destruct (Hd (Hr E)) as [_ En]. destruct H1 as (out & -> & H2).
  by rewrite En, app_nil_r.
Qed.

Definition demo_event (action : string) : Event := mkEvent action "relay" "t" 7 "" "customer-a" ∅.

(** One event accepted, drained, and the emitter closed. *)
Definition e_demo (e : SlogEmitter) : SlogEmitter :=
  Emit_select (set_emits (<[0%nat := demo_event "a"]> (e_emits e)) e) 0 (demo_event "a") EmitSend.
Definition e_drained : SlogEmitter :=
  default (NewSlogEmitter 0) (drainLoop_step (e_demo (NewSlogEmitter 1)) []).

Lemma audit_log_complete_witness :
  Forall2 logs [demo_event "a"] (e_logged e_drained).
Proof.
  destruct (audit_log_complete 1 [ECheck 0 (demo_event "a"); EAccepted (demo_event "a"); EDrain] e_drained)
    as ((out & E & H) & _).
  - change (esteps (NewSlogEmitter 1) ((([] ++ [ECheck 0 (demo_event "a")]) ++ [EAccepted (demo_event "a")]) ++ [EDrain]) e_drained).
    repeat eapply esteps_snoc; [apply esteps_nil|by apply estep_check| |].
    + by apply (estep_send _ 0).
    + apply (estep_drain _ []); [done| |done]. intros event [= <-]. by vm_compute.
  - change (accepted _) with ([demo_event "a"] ++ []) in E.
    change (eventCh e_drained) with (@nil Event) in E. apply app_inv_tail in E. by subst out.
Defined.

(** The drain loop run until it returns. *)
Fixpoint drain_all (fuel : nat) (e : SlogEmitter) : option SlogEmitter :=
  if e_done e then Some e
  else
    match fuel with
    | O => None
    | S fuel =>
        drainLoop_step e (map_to_list (default ∅ (Metadata <$> head (eventCh e)))) ≫= drain_all fuel
    end.

(** Close returns: once it has closed the channels, the drain goroutine
    needs one turn per buffered event and one more to end, each of which can
    run, and what it logs are exactly the buffered events, after which Close
    and every later Close return and Emit is refused. *)
Theorem audit_close_returns n ls e :
  esteps (NewSlogEmitter n) ls e → e_close e = CloseWaiting →
  ∃ e', drain_all (S (length (eventCh e))) e = Some e' ∧ e_done e' = true ∧
    is_Some (Close_step e') ∧
    (∃ new, e_logged e' = e_logged e ++ new ∧ Forall2 logs (eventCh e) new) ∧
    (∀ event, Emit_check e' event = Err (ErrEmitterClosed (Action event))).
Proof.
  intros Hs Ec. apply esteps_inv in Hs. revert Ec Hs. generalize (accepted ls). clear ls.
  remember (eventCh e) as q eqn:Eq. revert e Eq.
  induction q as [|event q IH]; intros e Eq acc Ec I.
  - exists (if e_done e then e else default e (drainLoop_step e [])).
    destruct I as [_ _ Hc Hcl Hd _]. rewrite Ec in Hc, Hcl. cbn. unfold drainLoop_step.
    rewrite <-Eq. destruct (e_done e) eqn:Ed; cbn.
    + split_and!; try done; [unfold Close_step; rewrite Ec, Ed; eauto|exists []; by rewrite app_nil_r|].
      intros. unfold Emit_check. by rewrite Hc.
    + rewrite Hcl. cbn. unfold Close_step. cbn. rewrite Ec.
      split_and!; try done; [exists []; by rewrite app_nil_r|].
      intros. unfold Emit_check. cbn. by rewrite Hc.
  - assert (e_done e = false) as Ed.
    { destruct (e_done e) eqn:Ed; [|done]. destruct (ei_done _ _ I Ed) as [_ H]. congruence. }
    set (order := map_to_list (default ∅ (Metadata <$> head (eventCh e)))).
    set (e1 := mkEmitter (e_cap e) q (eventCh_closed e) (closeCh e) (e_done e) (e_close e)
                 (e_emits e) (e_logged e ++ [logEvent event order]) (e_panic e)).
    assert (drainLoop_step e order = Some e1) as Hd.
    { unfold drainLoop_step, e1. rewrite <-Eq. by rewrite Ed. }
    assert (∀ ev, head (eventCh e) = Some ev → order ≡ₚ map_to_list (Metadata ev)) as Ho.
    { unfold order. by intros ev ->. }
    destruct (IH e1 eq_refl acc Ec (drain_inv _ _ _ _ I Ho Hd)) as (e' & H1 & H2 & H3 & (new & H4 & H5) & H6).
    exists e'. cbn [drain_all length]. rewrite Ed. fold order. rewrite Hd. split_and!; try done.
    exists (logEvent event order :: new). cbn in H4. rewrite H4, <-(assoc_L (++)). split; [done|].
    apply Forall2_cons; split; [|done]. exists order. rewrite <-Eq in Ho. auto.
Qed.

(** An Emit between its two selects while Close runs can panic: with any
    call pending and the channels just closed, the send on the closed channel
    is ready, and so is the error return: which of the two happens is the
    choice of the Go scheduler. *)
Theorem emit_close_race n ls e t event :
  esteps (NewSlogEmitter n) ls e → e_emits e !! t = Some event → e_close e = CloseSignalled →
  e_panic e = false →
  ∃ e1, Close_step e = Some e1 ∧
    (∃ e2, estep e1 (EPanicked event) e2 ∧ e_panic e2 = true) ∧
    (∃ e2, estep e1 (EAbandoned event) e2 ∧ e_panic e2 = false).
Proof.
  intros [_ _ Hc _ _ _]%esteps_inv Ht Ec Hp. unfold Close_step. rewrite Ec in *.
  eexists. split; [done|]. split.
  - eexists. split; [by apply (estep_panic _ t)|done].
  - eexists. split; [by apply (estep_abandon _ t)|done].
Qed.

Definition e_pending : SlogEmitter := set_emits {[0%nat := demo_event "a"]} (NewSlogEmitter 1).
Definition e_signalled : SlogEmitter := default e_pending (Close_step e_pending).
Definition e_waiting : SlogEmitter :=
  default e_pending (Close_step (default e_pending (Close_step (e_demo (NewSlogEmitter 1))))).

Lemma audit_close_returns_witness :
  ∃ e', drain_all 2 e_waiting = Some e' ∧ e_done e' = true.
Proof.
  destruct (audit_close_returns 1 ((([] ++ [ECheck 0 (demo_event "a")]) ++ [EAccepted (demo_event "a")])
    ++ [EClose] ++ [EClose]) e_waiting) as (e' & H1 & H2 & _); [|done|by exists e'].
  rewrite (assoc_L (++)). repeat eapply esteps_snoc; [apply esteps_nil|by apply estep_check| | |].
  - by apply (estep_send _ 0).
  - by apply estep_close.
  - by apply estep_close.
Defined.

Lemma emit_close_race_witness :
  ∃ e1, Close_step e_signalled = Some e1 ∧
    ∃ e2, estep e1 (EPanicked (demo_event "a")) e2 ∧ e_panic e2 = true.
Proof.
  destruct (emit_close_race 1 (([] ++ [ECheck 0 (demo_event "a")]) ++ [EClose]) e_signalled 0 (demo_event "a"))
    as (e1 & H1 & H2 & _); [|done..|by exists e1].
  repeat eapply esteps_snoc; [apply esteps_nil|by apply estep_check|by apply estep_close].
Defined.
