(* ===== verification/Auth.v ===== *)
(** * Certificates and TLS configuration: [pkg/auth/]

    identity.go: the identity in a peer's certificate. certs.go, certs_impl.go:
    FileStore, the check of a chain file, the watcher that notices a changed
    certificate. mtls.go: Configurator, whose tls.Config serves whatever
    certificate its pointer holds.

    crypto/x509, crypto/tls, encoding/pem and the hash are parameters; the file
    system is what os.ReadFile finds at a moment. *)

From Stdlib Require Import ZArith Lia.
From S2P Require Import Prelude.

(** ** Identity *)

(** What of an X.509 certificate is used. *)
Record Certificate := mkCertificate {
  cert_CN : string;
  cert_Raw : list byte;
  cert_NotBefore : Z;
  cert_NotAfter : Z
}.

Record Identity := mkIdentity {
  id_CustomerID : string;
  id_RelayID : string;
  id_CertFingerprint : string;
  id_NotBefore : Z;
  id_NotAfter : Z
}.

Inductive IdentityErr := NoPeerCertificates | UnexpectedCN (cn : string).

Section identity.
(** The hexadecimal SHA-256 of a byte sequence. *)
Context (fingerprint : list byte → string).

(** [func ExtractIdentity(conn *tls.Conn) ( *Identity, error)], of the peer's chain. *)
Definition ExtractIdentity (chain : list Certificate) : result IdentityErr Identity :=
  match chain with
  | [] => Err NoPeerCertificates
  | cert :: _ =>
      let cn := cert_CN cert in
      let fp := fingerprint (cert_Raw cert) in
      if String.prefix "customer-" cn
      then Ok (mkIdentity cn "" fp (cert_NotBefore cert) (cert_NotAfter cert))
      else if String.prefix "relay" cn
      then Ok (mkIdentity "" cn fp (cert_NotBefore cert) (cert_NotAfter cert))
      else Err (UnexpectedCN cn)
  end.
End identity.

(** ** The libraries

    [pem_Decode] gives the type and bytes of the first block and the rest of
    the input, which is shorter; [None] is a nil block. [LoadX509KeyPair] is
    tls.LoadX509KeyPair on the contents of the two files, [AppendCerts] the pool
    that AppendCertsFromPEM fills, when it finds a certificate, and
    [ParseCertificate] the NotAfter of x509.ParseCertificate. *)
Class PEM := {
  pem_Decode : list byte → option (string * list byte * list byte);
  pem_rest data ty bytes rest :
    pem_Decode data = Some (ty, bytes, rest) → (length rest < length data)%nat
}.

Class X509 (Cert Pool : Type) := {
  LoadX509KeyPair : list byte → list byte → option Cert;
  AppendCerts : list byte → option Pool;
  ParseCertificate : list byte → option Z;
  Sum256 : list byte → string
}.

(** What os.ReadFile finds. *)
Definition files := string → option (list byte).

Inductive AuthErr :=
| ErrLoadCertificate
| ErrReadChain (path : string)
| ErrNoCertificates (path : string)
| ErrBareLeaf (path : string)
| ErrLoadCA
| ErrNoValidCA (path : string)
| ErrWatchInitial
| ErrServerTLS (e : AuthErr)
| ErrServerTLSClientCA (e : AuthErr)
| ErrClientTLS (e : AuthErr)
| ErrClientTLSRootCA (e : AuthErr).

(** ** The chain file *)

Section chain.
Context `{PEM}.

(** The loop of ValidateChainCertFile; [None] when the fuel does not suffice. *)
Fixpoint count_certs (fuel : nat) (rest : list byte) (count : Z) : option Z :=
  match fuel with
  | O => None
  | S fuel =>
      match pem_Decode rest with
      | None => Some count
      | Some (ty, _, rest') =>
          count_certs fuel rest' (if bool_decide (ty = "CERTIFICATE") then count + 1 else count)
      end
  end.

(** [func ValidateChainCertFile(path string) error] *)
Definition ValidateChainCertFile (fs : files) (path : string) : option (result AuthErr unit) :=
  match fs path with
  | None => Some (Err (ErrReadChain path))
  | Some data =>
      match count_certs (S (length data)) data 0 with
      | None => None
      | Some count =>
          Some (if bool_decide (count = 0) then Err (ErrNoCertificates path)
                else if bool_decide (count = 1) then Err (ErrBareLeaf path)
                else Ok tt)
      end
  end.

(** The types of the blocks of a file. *)
Inductive blocks : list byte → list string → Prop :=
| blocks_end data : pem_Decode data = None → blocks data []
| blocks_cons data ty bytes rest l :
    pem_Decode data = Some (ty, bytes, rest) → blocks rest l → blocks data (ty :: l).

Definition certs_in (l : list string) : nat := length (filter (λ ty, ty = "CERTIFICATE") l).

Lemma count_certs_blocks fuel data n :
  (length data < fuel)%nat →
  ∃ l, blocks data l ∧ count_certs fuel data n = Some (n + Z.of_nat (certs_in l)).
Proof.
  revert data n. induction fuel as [|fuel IH]; intros data n Hf; [lia|]. cbn.
  destruct (pem_Decode data) as [[[ty bytes] rest]|] eqn:E.
  - pose proof (pem_rest _ _ _ _ E).
    destruct (IH rest (if bool_decide (ty = "CERTIFICATE") then n + 1 else n) ltac:(lia)) as (l & Hl & ->).
    exists (ty :: l). split; [by eapply blocks_cons|]. unfold certs_in. rewrite filter_cons.
    case_bool_decide; case_decide; try done; cbn [length]; f_equal; lia.
  - exists []. split; [by apply blocks_end|]. unfold certs_in. cbn. f_equal. lia.
Qed.

Lemma blocks_fun data l1 l2 : blocks data l1 → blocks data l2 → l1 = l2.
Proof.
  intros B. revert l2. induction B; intros l2 B2; inversion B2; simplify_eq; try done.
  f_equal. auto.
Qed.
End chain.

(** ** FileStore and its watcher *)

Definition DefaultCheckInterval : Z := 24 * 3600 * 1000000000.

Section store.
Context `{X509 Cert Pool}.

(** [func (s *FileStore) LoadCertificate(certPath, keyPath)] *)
Definition LoadCertificate (fs : files) (certPath keyPath : string) : result AuthErr Cert :=
  match fs certPath, fs keyPath with
  | Some c, Some k =>
      match LoadX509KeyPair c k with Some cert => Ok cert | None => Err ErrLoadCertificate end
  | _, _ => Err ErrLoadCertificate
  end.

(** [func (s *FileStore) LoadCertificateAuthority(path)] *)
Definition LoadCertificateAuthority (fs : files) (path : string) : result AuthErr Pool :=
  match fs path with
  | None => Err ErrLoadCA
  | Some data => match AppendCerts data with Some pool => Ok pool | None => Err (ErrNoValidCA path) end
  end.

(** [func (s *FileStore) certFingerprint(path string) (string, error)] *)
Definition certFingerprint (fs : files) (path : string) : option string := Sum256 <$> fs path.

(** WatchForRotation up to its loop: the fingerprint it starts from. *)
Definition watch_start (fs : files) (certPath : string) : result AuthErr string :=
  match certFingerprint fs certPath with Some fp => Ok fp | None => Err ErrWatchInitial end.

(** One tick of the loop. The files are read twice, so they can change in
    between: [fs1] is what the fingerprint sees, [fs2] what the load sees. The
    second component is the call of reload. *)
Definition watch_tick (certPath keyPath : string) (last : string) (fs1 fs2 : files)
    : string * option Cert :=
  match certFingerprint fs1 certPath with
  | None => (last, None)
  | Some fp =>
      if bool_decide (fp = last) then (last, None)
      else
        match LoadCertificate fs2 certPath keyPath with
        | Err _ => (last, None)
        | Ok cert => (fp, Some cert)
        end
  end.

(** ** Configurator *)

Record TLSPaths := mkTLSPaths {
  p_CertFile : string;
  p_KeyFile : string;
  p_CAFile : string;
  p_ClientCAFile : string;
  p_ServerName : string
}.

Definition VersionTLS13 : Z := 772.

(** The fields of a tls.Config that are set; [c_requireClientCert] is
    ClientAuth = RequireAndVerifyClientCert. The certificate callback reads the
    pointer of the Configurator at each handshake. *)
Record TLSConfig := mkTLSConfig {
  c_MinVersion : Z;
  c_requireClientCert : bool;
  c_ClientCAs : option Pool;
  c_RootCAs : option Pool;
  c_ServerName : string;
  c_SessionCache : option Z
}.

(** tlsOptions as the options leave them. *)
Record tlsOptions := mkTlsOptions { o_MinVersion : Z; o_SessionCache : option Z }.

Definition WithSessionCache (size : Z) (o : tlsOptions) : tlsOptions :=
  mkTlsOptions (o_MinVersion o) (Some size).
Definition WithMinVersion (version : Z) (o : tlsOptions) : tlsOptions :=
  mkTlsOptions version (o_SessionCache o).

Definition apply_options (opts : list (tlsOptions → tlsOptions)) : tlsOptions :=
  foldl (λ o fn, fn o) (mkTlsOptions VersionTLS13 None) opts.

Record Configurator := mkConfigurator { cf_paths : TLSPaths; currentCert : option Cert }.

Definition NewConfigurator (paths : TLSPaths) : Configurator := mkConfigurator paths None.

(** [func (c *Configurator) Reload(cert *tls.Certificate)] *)
Definition ConfigReload (c : Configurator) (cert : Cert) : Configurator :=
  mkConfigurator (cf_paths c) (Some cert).

(** [func (c *Configurator) ServerTLSConfig(opts) ( *tls.Config, error)] *)
Definition ServerTLSConfig (fs : files) (c : Configurator) (opts : list (tlsOptions → tlsOptions))
    : Configurator * result AuthErr TLSConfig :=
  let o := apply_options opts in
  match LoadCertificate fs (p_CertFile (cf_paths c)) (p_KeyFile (cf_paths c)) with
  | Err e => (c, Err (ErrServerTLS e))
  | Ok cert =>
      let c1 := ConfigReload c cert in
      match LoadCertificateAuthority fs (p_ClientCAFile (cf_paths c)) with
      | Err e => (c1, Err (ErrServerTLSClientCA e))
      | Ok clientCAs => (c1, Ok (mkTLSConfig (o_MinVersion o) true (Some clientCAs) None "" None))
      end
  end.

(** [func (c *Configurator) ClientTLSConfig(opts) ( *tls.Config, error)] *)
Definition ClientTLSConfig (fs : files) (c : Configurator) (opts : list (tlsOptions → tlsOptions))
    : Configurator * result AuthErr TLSConfig :=
  let o := apply_options opts in
  match LoadCertificate fs (p_CertFile (cf_paths c)) (p_KeyFile (cf_paths c)) with
  | Err e => (c, Err (ErrClientTLS e))
  | Ok cert =>
      let c1 := ConfigReload c cert in
      match LoadCertificateAuthority fs (p_CAFile (cf_paths c)) with
      | Err e => (c1, Err (ErrClientTLSRootCA e))
      | Ok rootCAs =>
          (c1, Ok (mkTLSConfig (o_MinVersion o) false None (Some rootCAs)
                     (p_ServerName (cf_paths c)) (o_SessionCache o)))
      end
  end.

(** ** The watcher driving the configurator, as main wires them *)

Definition rotate (c : Configurator) (reload : option Cert) : Configurator :=
  match reload with Some cert => ConfigReload c cert | None => c end.

Definition rotation_tick (st : string * Configurator) (tick : files * files) : string * Configurator :=
  let '(last, c) := st in
  let '(last', reload) :=
    watch_tick (p_CertFile (cf_paths c)) (p_KeyFile (cf_paths c)) last tick.1 tick.2 in
  (last', rotate c reload).

Definition rotation_run (st : string * Configurator) (ticks : list (files * files))
    : string * Configurator := foldl rotation_tick st ticks.
End store.

(** ** Properties *)

Section chain_properties.
Context `{PEM}.

Lemma chain_checked (fs : files) path : is_Some (ValidateChainCertFile fs path).
Proof.
  unfold ValidateChainCertFile. destruct (fs path) as [data|]; [|done].
  by destruct (count_certs_blocks (S (length data)) data 0 ltac:(lia)) as (l & _ & ->).
Qed.

(** The check of the chain file always ends, and accepts exactly the files
    that can be read and hold at least two CERTIFICATE blocks; otherwise its
    error says which of the three ways it failed. *)
Theorem chain_file_checked (fs : files) path :
  ∃ r, ValidateChainCertFile fs path = Some r ∧
    match fs path with
    | None => r = Err (ErrReadChain path)
    | Some data =>
        ∃ l, blocks data l ∧
          match certs_in l with
          | 0%nat => r = Err (ErrNoCertificates path)
          | 1%nat => r = Err (ErrBareLeaf path)
          | _ => r = Ok tt
          end
    end.
Proof.
  unfold ValidateChainCertFile. destruct (fs path) as [data|]; [|by eexists].
  destruct (count_certs_blocks (S (length data)) data 0 ltac:(lia)) as (l & Hl & ->).
  eexists. split; [done|]. exists l. split; [done|].
  destruct (certs_in l) as [|[|n]]; [done|done|]. by rewrite !bool_decide_eq_false_2 by lia.
Qed.
End chain_properties.

Section rotation_properties.
Context `{X509 Cert Pool}.

(** The certificate that is served comes from a file with this fingerprint. *)
Definition serves (last : string) (c : Configurator) : Prop :=
  ∃ data key cert, currentCert c = Some cert ∧ LoadX509KeyPair data key = Some cert ∧ Sum256 data = last.

Lemma LoadCertificate_files fs certPath keyPath cert :
  LoadCertificate fs certPath keyPath = Ok cert →
  ∃ data key, fs certPath = Some data ∧ LoadX509KeyPair data key = Some cert.
Proof.
  unfold LoadCertificate. destruct (fs certPath) as [data|], (fs keyPath) as [key|]; try done.
  destruct (LoadX509KeyPair data key) eqn:E; [|done]. intros [= <-]. eauto.
Qed.

Lemma rotation_tick_paths st tick : cf_paths (rotation_tick st tick).2 = cf_paths st.2.
Proof.
  destruct st as [last c]. unfold rotation_tick. destruct (watch_tick _ _ _ _ _) as [? []]; done.
Qed.

Lemma rotation_run_paths st ticks : cf_paths (rotation_run st ticks).2 = cf_paths st.2.
Proof.
  revert st. induction ticks as [|tick ticks IH]; intros st; [done|].
  change (rotation_run st (tick :: ticks)) with (rotation_run (rotation_tick st tick) ticks).
  rewrite IH. apply rotation_tick_paths.
Qed.

Lemma rotation_tick_serves last c fs :
  serves last c → serves (rotation_tick (last, c) (fs, fs)).1 (rotation_tick (last, c) (fs, fs)).2.
Proof.
  intros Hs. unfold rotation_tick, watch_tick, certFingerprint. cbn.
  destruct (fs (p_CertFile (cf_paths c))) as [data|] eqn:Ef; [|done]. cbn. case_bool_decide; [done|].
  destruct (LoadCertificate _ _ _) as [cert|] eqn:El; [|done].
  apply LoadCertificate_files in El as (data' & key & E1 & E2). simplify_eq.
  exists data, key, cert. done.
Qed.

Lemma rotation_run_serves last c fss :
  serves last c →
  let st := rotation_run (last, c) ((λ fs, (fs, fs)) <$> fss) in serves st.1 st.2.
Proof.
  revert last c. induction fss as [|fs fss IH]; intros last c Hs; [done|].
  pose proof (rotation_tick_serves _ _ fs Hs) as Hs'.
  unfold rotation_run. cbn [fmap list_fmap foldl].
  destruct (rotation_tick (last, c) (fs, fs)) as [last' c']. by apply IH.
Qed.

(** C39. Rotation follows the file. The relay loads its pair and starts the
    watcher while the files stay the same; then whatever happens to the files
    from tick to tick, but not between the two reads of one tick, a tick that
    finds a certificate file that loads with its key leaves a certificate
    served that comes from a file with the same fingerprint; a tick that cannot
    read the file or load the pair leaves everything as it was, so that the
    next tick tries again. *)
Theorem rotation_follows_file fs0 c0 opts c1 cfg last0 fss fs last c :
  ServerTLSConfig fs0 c0 opts = (c1, Ok cfg) →
  watch_start fs0 (p_CertFile (cf_paths c0)) = Ok last0 →
  rotation_run (last0, c1) ((λ fs, (fs, fs)) <$> fss) = (last, c) →
  match LoadCertificate fs (p_CertFile (cf_paths c0)) (p_KeyFile (cf_paths c0)) with
  | Ok _ =>
      ∃ data, fs (p_CertFile (cf_paths c0)) = Some data ∧
        serves (Sum256 data) (rotation_tick (last, c) (fs, fs)).2
  | Err _ => rotation_tick (last, c) (fs, fs) = (last, c)
  end.
Proof.
  intros Hcfg Hw Hrun.
  assert (cf_paths c1 = cf_paths c0 ∧ serves last0 c1) as [Hp1 Hs1].
  { unfold ServerTLSConfig in Hcfg. destruct (LoadCertificate _ _ _) as [cert|] eqn:El; [|done].
    destruct (LoadCertificateAuthority _ _); simplify_eq. split; [done|].
    apply LoadCertificate_files in El as (data & key & E1 & E2). unfold watch_start, certFingerprint in Hw.
    rewrite E1 in Hw. cbn in Hw. simplify_eq. by exists data, key, cert. }
  pose proof (rotation_run_paths (last0, c1) ((λ fs, (fs, fs)) <$> fss)) as Hp.
  pose proof (rotation_run_serves last0 c1 fss Hs1) as Hs. rewrite Hrun in Hp, Hs. cbn in Hp, Hs.
  destruct (LoadCertificate fs _ _) as [cert|] eqn:El.
  - pose proof (LoadCertificate_files _ _ _ _ El) as (data & key & E1 & E2). exists data. split; [done|].
    unfold rotation_tick, watch_tick, certFingerprint. cbn [fst snd]. rewrite Hp, Hp1, E1. cbn.
    case_bool_decide as Ef; [by subst|]. rewrite El. by exists data, key, cert.
  - unfold rotation_tick, watch_tick. cbn [fst snd]. rewrite Hp, Hp1. destruct (certFingerprint _ _); [|done].
    case_bool_decide; [done|]. by rewrite El.
Qed.

(** A certificate replaced after it was loaded and before the watcher took its
    first fingerprint is not noticed: the fingerprint is already that of the
    new file, and no tick reloads while the file stays. *)
Theorem early_rotation_missed fs1 c last ticks :
  watch_start fs1 (p_CertFile (cf_paths c)) = Ok last →
  Forall (λ t : files * files, t.1 (p_CertFile (cf_paths c)) = fs1 (p_CertFile (cf_paths c))) ticks →
  rotation_run (last, c) ticks = (last, c).
Proof.
  intros Hw Hf. induction Hf as [|t ticks Ht _ IH]; [done|]. unfold rotation_run. cbn [foldl].
  assert (rotation_tick (last, c) t = (last, c)) as ->; [|done].
  unfold watch_start, certFingerprint in Hw. unfold rotation_tick, watch_tick, certFingerprint.
  rewrite Ht. destruct (fs1 _) as [data|]; cbn in *; [|done]. simplify_eq. by rewrite bool_decide_eq_true_2.
Qed.
End rotation_properties.

(** ** Concrete files

    A pair loads when the key's first byte is the certificate's; the
    certificate is its file. *)
Definition demo_pair (data key : list byte) : option (list byte) :=
  match data, key with b :: _, k :: _ => if decide (b = k) then Some data else None | _, _ => None end.

#[local] Instance demo_x509 : X509 (list byte) (list byte) := {|
  LoadX509KeyPair := demo_pair; AppendCerts := Some;
  ParseCertificate := λ _, Some 0; Sum256 := string_of_bytes |}.

Definition demo_files (cert key : byte) : files := λ path,
  if decide (path = "cert") then Some [cert] else if decide (path = "key") then Some [key] else Some [].

Definition demo_conf : Configurator (Cert := list byte) := NewConfigurator (mkTLSPaths "cert" "key" "ca" "ca" "").

(** The certificate is replaced first, its key one tick later. *)
Lemma rotation_follows_file_witness :
  ∃ data key cert,
    currentCert (rotation_run ("a", ConfigReload demo_conf [x61])
       [(demo_files x62 x61, demo_files x62 x61); (demo_files x62 x62, demo_files x62 x62)]).2 = Some cert ∧
    demo_pair data key = Some cert ∧ string_of_bytes data = "b".
Proof.
  destruct (rotation_follows_file (demo_files x61 x61) demo_conf []
    (ConfigReload demo_conf [x61]) (mkTLSConfig VersionTLS13 true (Some []) None "" None) "a"
    [demo_files x62 x61] (demo_files x62 x62) "a" (ConfigReload demo_conf [x61])
    ltac:(by vm_compute) ltac:(by vm_compute) ltac:(by vm_compute)) as (data & [= <-] & H).
  exact H.
Defined.
