(* ===== verification/TestCerts.v ===== *)
(** * The certificates of the tests: [internal/testcerts/testcerts.go]

    The hierarchy that the test suites and the development setup run on: a root
    CA, two intermediate CAs, a relay leaf and an agent leaf, written with
    their chains into a temporary directory once per process.

    crypto/ecdsa, crypto/x509, crypto/rand and encoding/pem are parameters. The
    file system is a map from directories to their files; the order in which
    Go ranges over a map is a parameter too. *)

From Stdlib Require Import ZArith Lia Ascii.
From S2P Require Import Prelude Auth.

(** ** Certificates *)

(** The fields of an x509.Certificate that are set or read. A subject is its
    common name: country and organization are the same constants in all of
    them. Times are in nanoseconds. *)
Record Template := mkTemplate {
  t_CN : string;
  t_NotBefore : Z;
  t_NotAfter : Z;
  t_IsCA : bool;
  t_BasicConstraintsValid : bool;
  t_KeyUsage : Z;
  t_ExtKeyUsage : list Z;
  t_MaxPathLen : Z;
  t_MaxPathLenZero : bool;
  t_DNSNames : list string;
  t_IPAddresses : list string;
  t_SerialNumber : Z;
  t_Issuer : string
}.

Definition KeyUsageDigitalSignature : Z := 1.
Definition KeyUsageKeyEncipherment : Z := 4.
Definition KeyUsageCertSign : Z := 32.
Definition KeyUsageCRLSign : Z := 64.
Definition ExtKeyUsageServerAuth : Z := 1.
Definition ExtKeyUsageClientAuth : Z := 2.

Definition second : Z := 1000000000.
Definition hour : Z := 3600 * second.
Definition Validity : Z := 365 * 24 * hour.
Definition caValidity : Z := 10 * 365 * 24 * hour.

(** What a certificate made from a template by an issuer reads back as: times
    are in seconds, an unset path length is -1. *)
Definition issued (tmpl issuer : Template) : Template :=
  mkTemplate (t_CN tmpl) (t_NotBefore tmpl / second * second) (t_NotAfter tmpl / second * second) (t_IsCA tmpl)
    (t_BasicConstraintsValid tmpl) (t_KeyUsage tmpl) (t_ExtKeyUsage tmpl)
    (if bool_decide (t_MaxPathLen tmpl = 0) && negb (t_MaxPathLenZero tmpl) then -1 else t_MaxPathLen tmpl)
    (t_MaxPathLenZero tmpl) (t_DNSNames tmpl) (t_IPAddresses tmpl) (t_SerialNumber tmpl) (t_CN issuer).

(** The templates with a basic constraints extension and no contradiction about
    the path length, which read back as [issued] says; crypto/x509 writes no
    path length without the extension, and reads a zero with [MaxPathLenZero]
    from any zero. *)
Definition plain_template (t : Template) : Prop :=
  t_BasicConstraintsValid t = true ∧ 0 <= t_MaxPathLen t ∧ (t_MaxPathLenZero t = true → t_MaxPathLen t = 0).

(** The libraries. [GenerateKey i] and [RandInt i] are the i-th draws from
    rand.Reader; a key stands for its public half too; [PublicKeyOf] is the
    public key of a certificate, [CheckSignature] x509's check of a certificate
    with a public key. *)
Class Crypto (Key : Type) := {
  GenerateKey : nat → option Key;
  RandInt : nat → option Z;
  CreateCertificate : Template → Template → Key → Key → option (list byte);
  ParseX509 : list byte → option Template;
  PublicKeyOf : list byte → option Key;
  CheckSignature : list byte → Key → bool;
  MarshalECPrivateKey : Key → option (list byte)
}.

(** What is relied on: a created certificate reads back as what was asked for,
    has the public key it was made for and is signed with the issuer's key. *)
Class CryptoLaws (Key : Type) `{Crypto Key} : Prop := {
  create_parse tmpl issuer pub key der cert :
    plain_template tmpl → CreateCertificate tmpl issuer pub key = Some der → ParseX509 der = Some cert → cert = issued tmpl issuer;
  create_public tmpl issuer pub key der :
    CreateCertificate tmpl issuer pub key = Some der → PublicKeyOf der = Some pub;
  create_signed tmpl issuer pub key der :
    CreateCertificate tmpl issuer pub key = Some der → CheckSignature der key = true
}.

(** encoding/pem: a block that was encoded is decoded from the front of what it
    is followed by. *)
Class PEMEncoder `{PEM} := {
  EncodeToMemory : string → list byte → list byte;
  encode_decode ty bytes rest : pem_Decode (EncodeToMemory ty bytes ++ rest) = Some (ty, bytes, rest)
}.

Inductive CertErr :=
| ErrMkdir
| ErrKey
| ErrSerial
| ErrCreate (cn : string)
| ErrParse
| ErrWrite (name : string).

(** ** Signing *)

Section certs.
Context {Key : Type} `{Crypto Key}.

Record keyPair := mkKeyPair { kp_cert : Template; kp_der : list byte; kp_key : Key }.

Definition set_serial (n : Z) (t : Template) : Template :=
  mkTemplate (t_CN t) (t_NotBefore t) (t_NotAfter t) (t_IsCA t) (t_BasicConstraintsValid t) (t_KeyUsage t)
    (t_ExtKeyUsage t) (t_MaxPathLen t) (t_MaxPathLenZero t) (t_DNSNames t) (t_IPAddresses t) n (t_Issuer t).

(** [func sign(tmpl *x509.Certificate, parent *keyPair) ( *keyPair, error)], the
    [i]-th call of the process. *)
Definition sign (i : nat) (tmpl : Template) (parent : option keyPair) : result CertErr keyPair :=
  match GenerateKey i with
  | None => Err ErrKey
  | Some key =>
      match RandInt i with
      | None => Err ErrSerial
      | Some serial =>
          let tmpl := set_serial serial tmpl in
          let '(issuer, issuerKey) :=
            match parent with Some p => (kp_cert p, kp_key p) | None => (tmpl, key) end in
          match CreateCertificate tmpl issuer key issuerKey with
          | None => Err (ErrCreate (t_CN tmpl))
          | Some der =>
              match ParseX509 der with
              | None => Err ErrParse
              | Some cert => Ok (mkKeyPair cert der key)
              end
          end
      end
  end.

(** [func newCA(cn string, parent *keyPair, now time.Time, pathLen int)] *)
Definition newCA (i : nat) (cn : string) (parent : option keyPair) (now pathLen : Z) : result CertErr keyPair :=
  let '(maxPathLen, zero) :=
    if bool_decide (pathLen >= 0) then (pathLen, bool_decide (pathLen = 0)) else (0, false) in
  sign i (mkTemplate cn (now - hour) (now + caValidity) true true
            (Z.lor KeyUsageCertSign KeyUsageCRLSign) [] maxPathLen zero [] [] 0 "") parent.

(** [func newLeaf(parent *keyPair, now time.Time, tmpl *x509.Certificate)] *)
Definition newLeaf (i : nat) (parent : keyPair) (now : Z) (t : Template) : result CertErr keyPair :=
  sign i (mkTemplate (t_CN t) (now - hour) (now + Validity) (t_IsCA t) true (t_KeyUsage t) (t_ExtKeyUsage t)
            (t_MaxPathLen t) (t_MaxPathLenZero t) (t_DNSNames t) (t_IPAddresses t) (t_SerialNumber t) (t_Issuer t))
    (Some parent).

Definition leaf_usage : Z := Z.lor KeyUsageDigitalSignature KeyUsageKeyEncipherment.
Definition relay_template : Template :=
  mkTemplate "relay.atlax.local" 0 0 false false leaf_usage [ExtKeyUsageServerAuth] 0 false
    ["relay.atlax.local"; "localhost"] ["127.0.0.1"] 0 "".
Definition agent_template : Template :=
  mkTemplate "customer-dev-001" 0 0 false false leaf_usage [ExtKeyUsageClientAuth] 0 false [] [] 0 "".

Record hierarchy := mkHierarchy {
  h_root : keyPair; h_relayCA : keyPair; h_customerCA : keyPair; h_relay : keyPair; h_agent : keyPair
}.

(** The certificates of generate, up to its first error. *)
Definition issue_all (now : Z) : result CertErr hierarchy :=
  root ← newCA 0 "atlax-root-ca" None now (-1);
  relayCA ← newCA 1 "atlax-relay-ca" (Some root) now 0;
  customerCA ← newCA 2 "atlax-customer-ca" (Some root) now 0;
  relay ← newLeaf 3 relayCA now relay_template;
  agent ← newLeaf 4 customerCA now agent_template;
  Ok (mkHierarchy root relayCA customerCA relay agent).

(** ** Files *)

Context `{!PEM, !PEMEncoder}.

(** [func certPEM(der []byte) []byte] *)
Definition certPEM (der : list byte) : list byte := EncodeToMemory "CERTIFICATE" der.

(** [func keyPEM(key *ecdsa.PrivateKey) []byte]; [None] is its panic. *)
Definition keyPEM (key : Key) : option (list byte) := EncodeToMemory "EC PRIVATE KEY" <$> MarshalECPrivateKey key.

(** The map [files] of generate. *)
Definition cert_files (h : hierarchy) : option (list (string * list byte)) :=
  rk ← keyPEM (kp_key (h_root h));
  rck ← keyPEM (kp_key (h_relayCA h));
  cck ← keyPEM (kp_key (h_customerCA h));
  lk ← keyPEM (kp_key (h_relay h));
  ak ← keyPEM (kp_key (h_agent h));
  Some [("root-ca.crt", certPEM (kp_der (h_root h))); ("root-ca.key", rk);
        ("relay-ca.crt", certPEM (kp_der (h_relayCA h))); ("relay-ca.key", rck);
        ("customer-ca.crt", certPEM (kp_der (h_customerCA h))); ("customer-ca.key", cck);
        ("relay.crt", certPEM (kp_der (h_relay h))); ("relay.key", lk);
        ("agent.crt", certPEM (kp_der (h_agent h))); ("agent.key", ak);
        ("relay-chain.crt", certPEM (kp_der (h_relay h)) ++ certPEM (kp_der (h_relayCA h)));
        ("agent-chain.crt", certPEM (kp_der (h_agent h)) ++ certPEM (kp_der (h_customerCA h)));
        ("intermediate-cas.crt", certPEM (kp_der (h_relayCA h)) ++ certPEM (kp_der (h_customerCA h)))].
End certs.

(** [filepath.Ext]: from the last dot of the last element of a path. *)
Fixpoint no_slash (s : string) : bool :=
  match s with EmptyString => true | String c s' => negb (Ascii.eqb c "/"%char) && no_slash s' end.
Fixpoint Ext (s : string) : string :=
  match s with
  | EmptyString => EmptyString
  | String c s' =>
      match Ext s' with
      | EmptyString => if Ascii.eqb c "."%char && no_slash s' then s else EmptyString
      | e => e
      end
  end.

(** The mode that os.WriteFile is given, to which the process's umask applies. *)
Definition file_mode (name : string) : Z := if bool_decide (Ext name = ".key") then 384 else 420.

Abbreviation directory := (gmap string (list byte * Z)).

(** The loop that writes the files; [writable] says which os.WriteFile succeed. *)
Fixpoint write_files (writable : string → bool) (d : directory) (l : list (string * list byte))
    : directory * result CertErr unit :=
  match l with
  | [] => (d, Ok tt)
  | (name, data) :: l' =>
      if writable name then write_files writable (<[name := (data, file_mode name)]> d) l'
      else (d, Err (ErrWrite name))
  end.

(** ** The package's state *)

Section process.
Context {Key : Type} `{Crypto Key} `{!PEM, !PEMEncoder}.

(** The file system, and the variables [once], [dir] and [err]. *)
Record Process := mkProcess {
  ps_fs : gmap string directory;
  ps_once : bool;
  ps_dir : string;
  ps_err : option CertErr
}.

Definition new_process (fs : gmap string directory) : Process := mkProcess fs false "" None.

(** What a call finds around it: the time, the directory os.MkdirTemp makes, if
    it does, the order of the range over the map, the files that can be written. *)
Record World := mkWorld {
  w_now : Z;
  w_tmp : option string;
  w_range : list (string * list byte) → list (string * list byte);
  w_writable : string → bool
}.

(** How a call ends: with a value, or in a panic. *)
Inductive outcome (A : Type) := Returns (a : A) | Panics.
Arguments Returns {_}.
Arguments Panics {_}.

(** [func generate() (string, error)] *)
Definition generate (w : World) (fs : gmap string directory)
    : gmap string directory * outcome (result CertErr string) :=
  match w_tmp w with
  | None => (fs, Returns (Err ErrMkdir))
  | Some out =>
      let fs1 := <[out := ∅]> fs in
      match issue_all (w_now w) with
      | Err e => (fs1, Returns (Err e))
      | Ok h =>
          match cert_files h with
          | None => (fs1, Panics)
          | Some l =>
              let '(d, r) := write_files (w_writable w) ∅ (w_range w l) in
              (<[out := d]> fs1, Returns (_ ← r; Ok out))
          end
      end
  end.

(** [func Dir() (string, error)], with the environment variable's value; a
    panic inside once.Do leaves the variables as they were. *)
Definition Dir (w : World) (env : string) (p : Process) : Process * outcome (string * option CertErr) :=
  if ps_once p then (p, Returns (ps_dir p, ps_err p))
  else if bool_decide (env ≠ "") then
    (mkProcess (ps_fs p) true env None, Returns (env, None))
  else
    match generate w (ps_fs p) with
    | (fs, Panics) => (mkProcess fs true (ps_dir p) (ps_err p), Panics)
    | (fs, Returns (Ok out)) => (mkProcess fs true out None, Returns (out, None))
    | (fs, Returns (Err e)) => (mkProcess fs true "" (Some e), Returns ("", Some e))
    end.

(** [func MustDir() string] *)
Definition MustDir (w : World) (env : string) (p : Process) : Process * outcome string :=
  match Dir w env p with
  | (p', Returns (d, None)) => (p', Returns d)
  | (p', _) => (p', Panics)
  end.

(** [func Cleanup()] *)
Definition Cleanup (env : string) (p : Process) : Process :=
  if bool_decide (ps_dir p ≠ "") && bool_decide (env = "")
  then mkProcess (delete (ps_dir p) (ps_fs p)) (ps_once p) (ps_dir p) (ps_err p)
  else p.
End process.
Arguments Returns {_}.
Arguments Panics {_}.

(** ** The certificates *)

Section issuing.
Context {Key : Type} `{CryptoLaws Key}.

(** A pair belongs together: the certificate is what the bytes read back as, and
    the key is the one it was made for. *)
Definition paired (k : keyPair (Key := Key)) : Prop :=
  ParseX509 (kp_der k) = Some (kp_cert k) ∧ PublicKeyOf (kp_der k) = Some (kp_key k).

(** What sign returns: a certificate for the template, issued by the parent, or
    by itself, and signed with the issuer's key. *)
Lemma sign_ok i tmpl parent k :
  plain_template tmpl → sign i tmpl parent = Ok k →
  paired k ∧
  ∃ n, kp_cert k = issued (set_serial n tmpl) (match parent with Some p => kp_cert p | None => tmpl end) ∧
       CheckSignature (kp_der k) (match parent with Some p => kp_key p | None => kp_key k end) = true.
Proof.
  intros Ht. unfold sign. destruct (GenerateKey i) as [key|]; [|done]. destruct (RandInt i) as [n|]; [|done].
  destruct parent as [p|]; cbn;
    (destruct (CreateCertificate _ _ _ _) as [der|] eqn:E; [|done]);
    (destruct (ParseX509 der) as [cert|] eqn:Ep; [|done]); intros [= <-]; cbn;
    (split; [split; [done|by eapply create_public]|]); exists n;
    (split; [by rewrite (create_parse (set_serial n tmpl) _ _ _ _ _ Ht E Ep)|by eapply create_signed]).
Qed.

(** The validity of a certificate made at [now], in whole seconds. *)
Definition whole (t : Z) : Z := t / second * second.

Lemma newCA_ok i cn parent now pathLen k :
  newCA i cn parent now pathLen = Ok k →
  paired k ∧ t_CN (kp_cert k) = cn ∧ t_IsCA (kp_cert k) = true ∧
  t_MaxPathLen (kp_cert k) = Z.max (-1) pathLen ∧
  t_NotBefore (kp_cert k) = whole (now - hour) ∧ t_NotAfter (kp_cert k) = whole (now + caValidity) ∧
  t_Issuer (kp_cert k) = match parent with Some p => t_CN (kp_cert p) | None => cn end ∧
  CheckSignature (kp_der k) (match parent with Some p => kp_key p | None => kp_key k end) = true.
Proof.
  unfold newCA. intros Hs. case_bool_decide as Hp;
    (apply sign_ok in Hs as (Hk & n & E & Hsig); [|split_and!; cbn; [done|lia|first [by intros ?%bool_decide_eq_true_1|done]]]);
    rewrite E; cbn; (split_and!; try done; [|by destruct parent]).
  - case_bool_decide; cbn; lia.
  - rewrite bool_decide_eq_true_2 by done. cbn. lia.
Qed.

Lemma newLeaf_ok i parent now t k :
  0 <= t_MaxPathLen t → t_MaxPathLenZero t = false → newLeaf i parent now t = Ok k →
  paired k ∧ t_CN (kp_cert k) = t_CN t ∧ t_IsCA (kp_cert k) = t_IsCA t ∧ t_ExtKeyUsage (kp_cert k) = t_ExtKeyUsage t ∧
  t_DNSNames (kp_cert k) = t_DNSNames t ∧
  t_NotBefore (kp_cert k) = whole (now - hour) ∧ t_NotAfter (kp_cert k) = whole (now + Validity) ∧
  t_Issuer (kp_cert k) = t_CN (kp_cert parent) ∧ CheckSignature (kp_der k) (kp_key parent) = true.
Proof.
  intros Hl Hz Hs. apply sign_ok in Hs as (Hk & n & E & Hsig); [rewrite E; by split_and!|].
  split_and!; cbn; [done..|]. by rewrite Hz.
Qed.
End issuing.

(** ** The directory *)

Section files.
Context {Key : Type} `{CryptoLaws Key} `{!PEM, !PEMEncoder}.

Lemma write_files_ok writable d l d' :
  write_files writable d l = (d', Ok tt) → NoDup l.*1 →
  (∀ name data, (name, data) ∈ l → d' !! name = Some (data, file_mode name)) ∧
  (∀ name, name ∉ l.*1 → d' !! name = d !! name).
Proof.
  revert d. induction l as [|[name data] l IH]; intros d; cbn.
  - intros [= <-] _. split; [|done]. intros ? ? ?%not_elem_of_nil. done.
  - destruct (writable name); [|done]. intros Hw [Hn Hd]%NoDup_cons. destruct (IH _ Hw Hd) as [W1 W2]. split.
    + intros name' data' [[= -> ->]|?]%elem_of_cons; [|by auto]. by rewrite (W2 name Hn), lookup_insert_eq.
    + intros name' [? ?]%not_elem_of_cons. rewrite W2 by done. by rewrite lookup_insert_ne.
Qed.

Definition cert_names : list string :=
  ["root-ca.crt"; "root-ca.key"; "relay-ca.crt"; "relay-ca.key"; "customer-ca.crt"; "customer-ca.key";
   "relay.crt"; "relay.key"; "agent.crt"; "agent.key"; "relay-chain.crt"; "agent-chain.crt"; "intermediate-cas.crt"].

Lemma cert_files_names h l : cert_files h = Some l → l.*1 = cert_names.
Proof. unfold cert_files. intros E. by simplify_option_eq. Qed.

Lemma cert_names_nodup : NoDup cert_names.
Proof. apply (bool_decide_unpack _). by vm_compute. Qed.

(** The blocks of the files. *)
Lemma blocks_nil : blocks [] [].
Proof. apply blocks_end. destruct (pem_Decode []) as [[[ty b] rest]|] eqn:E; [|done]. apply pem_rest in E. cbn in E. lia. Qed.

Lemma blocks_encoded ty bytes rest l : blocks rest l → blocks (EncodeToMemory ty bytes ++ rest) (ty :: l).
Proof. intros Hb. by eapply blocks_cons; [apply encode_decode|]. Qed.

Lemma blocks_one ty bytes : blocks (EncodeToMemory ty bytes) [ty].
Proof. rewrite <-(app_nil_r (EncodeToMemory ty bytes)). apply blocks_encoded, blocks_nil. Qed.

Lemma blocks_chain der der' : blocks (certPEM der ++ certPEM der') ["CERTIFICATE"; "CERTIFICATE"].
Proof. apply blocks_encoded, blocks_one. Qed.

Lemma blocks_key (key : Key) pem : keyPEM key = Some pem → blocks pem ["EC PRIVATE KEY"].
Proof. unfold keyPEM. destruct (MarshalECPrivateKey key); [|done]. intros [= <-]. apply blocks_one. Qed.

(** The chain check on a file with these blocks. *)
Definition chain_verdict (path : string) (l : list string) : result AuthErr unit :=
  match certs_in l with
  | 0%nat => Err (ErrNoCertificates path)
  | 1%nat => Err (ErrBareLeaf path)
  | _ => Ok tt
  end.

Lemma validate_blocks (fs : files) path data l :
  fs path = Some data → blocks data l → ValidateChainCertFile fs path = Some (chain_verdict path l).
Proof.
  intros Hf Hb. unfold ValidateChainCertFile. rewrite Hf.
  destruct (count_certs_blocks (S (length data)) data 0 ltac:(lia)) as (l' & Hl & ->).
  rewrite (blocks_fun _ _ _ Hb Hl). unfold chain_verdict. destruct (certs_in l') as [|[|n]]; [done|done|].
  by rewrite !bool_decide_eq_false_2 by lia.
Qed.

(** The files of a directory, by their names. *)
Definition dir_files (d : directory) : files := λ name, fst <$> d !! name.

(** What generate leaves behind when it succeeds. *)
Lemma generate_ok w fs fs' out :
  (∀ l, w_range w l ≡ₚ l) → generate w fs = (fs', Returns (Ok out)) →
  ∃ h l d, issue_all (w_now w) = Ok h ∧ cert_files h = Some l ∧ w_tmp w = Some out ∧
    fs' = <[out := d]> fs ∧ (∀ name data, (name, data) ∈ l → d !! name = Some (data, file_mode name)) ∧
    (∀ name, name ∉ cert_names → d !! name = None).
Proof.
  intros Hr. unfold generate. destruct (w_tmp w) as [out'|]; [|done].
  destruct (issue_all (w_now w)) as [h|]; [|done]. destruct (cert_files h) as [l|] eqn:El; [|done].
  destruct (write_files (w_writable w) ∅ (w_range w l)) as [d r] eqn:Ew.
  destruct r as [[]|]; [|done]. intros [= <- <-].
  pose proof (cert_files_names _ _ El) as En.
  assert ((w_range w l).*1 ≡ₚ cert_names) as Hp by (rewrite <-En; by rewrite Hr).
  destruct (write_files_ok _ _ _ _ Ew) as [W1 W2]; [rewrite Hp; apply cert_names_nodup|].
  exists h, l, d. split_and!; try done; [by rewrite insert_insert_eq| |].
  - intros name data Hin. apply W1. by rewrite Hr.
  - intros name Hn. rewrite W2 by (by rewrite Hp). apply lookup_empty.
Qed.
End files.

(** ** Theorems *)

Section theorems.
Context {Key : Type} `{CryptoLaws Key} `{!PEM, !PEMEncoder}.

(** [c] is a certificate that [ca] vouches for, while it is itself valid. *)
Definition issued_by (c ca : keyPair (Key := Key)) : Prop :=
  t_Issuer (kp_cert c) = t_CN (kp_cert ca) ∧ CheckSignature (kp_der c) (kp_key ca) = true ∧
  t_IsCA (kp_cert ca) = true ∧
  t_NotBefore (kp_cert ca) <= t_NotBefore (kp_cert c) ∧ t_NotAfter (kp_cert c) <= t_NotAfter (kp_cert ca).

(** The certificate as ExtractIdentity sees it. *)
Definition peer_cert (k : keyPair (Key := Key)) : Certificate :=
  mkCertificate (t_CN (kp_cert k)) (kp_der k) (t_NotBefore (kp_cert k)) (t_NotAfter (kp_cert k)).

Record well_issued (now : Z) (h : hierarchy (Key := Key)) : Prop := {
  wi_pairs : Forall paired [h_root h; h_relayCA h; h_customerCA h; h_relay h; h_agent h];
  wi_names : t_CN (kp_cert (h_root h)) = "atlax-root-ca" ∧ t_CN (kp_cert (h_relayCA h)) = "atlax-relay-ca" ∧
    t_CN (kp_cert (h_customerCA h)) = "atlax-customer-ca";
  wi_root : issued_by (h_root h) (h_root h) ∧ t_MaxPathLen (kp_cert (h_root h)) = -1;
  wi_relayCA : issued_by (h_relayCA h) (h_root h) ∧ t_MaxPathLen (kp_cert (h_relayCA h)) = 0;
  wi_customerCA : issued_by (h_customerCA h) (h_root h) ∧ t_MaxPathLen (kp_cert (h_customerCA h)) = 0;
  wi_relay : issued_by (h_relay h) (h_relayCA h) ∧ t_CN (kp_cert (h_relay h)) = "relay.atlax.local" ∧
    t_IsCA (kp_cert (h_relay h)) = false ∧ t_ExtKeyUsage (kp_cert (h_relay h)) = [ExtKeyUsageServerAuth] ∧
    t_DNSNames (kp_cert (h_relay h)) = ["relay.atlax.local"; "localhost"];
  wi_agent : issued_by (h_agent h) (h_customerCA h) ∧ t_CN (kp_cert (h_agent h)) = "customer-dev-001" ∧
    t_IsCA (kp_cert (h_agent h)) = false ∧ t_ExtKeyUsage (kp_cert (h_agent h)) = [ExtKeyUsageClientAuth];
  wi_valid : t_NotBefore (kp_cert (h_relay h)) <= now < t_NotAfter (kp_cert (h_relay h)) ∧
    t_NotBefore (kp_cert (h_agent h)) <= now < t_NotAfter (kp_cert (h_agent h))
}.

Lemma whole_bounds t : t - second < whole t <= t.
Proof. unfold whole, second. pose proof (Z.div_mod t 1000000000). pose proof (Z.mod_pos_bound t 1000000000). lia. Qed.

Lemma issue_all_ok now h : issue_all now = Ok h → well_issued now h.
Proof.
  unfold issue_all. cbn.
  destruct (newCA 0 _ _ _ _) as [root|] eqn:E0; [|done]. cbn.
  destruct (newCA 1 _ _ _ _) as [relayCA|] eqn:E1; [|done]. cbn.
  destruct (newCA 2 _ _ _ _) as [customerCA|] eqn:E2; [|done]. cbn.
  destruct (newLeaf 3 _ _ _) as [relay|] eqn:E3; [|done]. cbn.
  destruct (newLeaf 4 _ _ _) as [agent|] eqn:E4; [|done]. intros [= <-].
  apply newCA_ok in E0 as (R0 & R1 & R2 & R3 & R4 & R5 & R6 & R7), E1 as (A0 & A1 & A2 & A3 & A4 & A5 & A6 & A7),
    E2 as (B0 & B1 & B2 & B3 & B4 & B5 & B6 & B7).
  apply newLeaf_ok in E3 as (C0 & C1 & C2 & C3 & C4 & C5 & C6 & C7 & C8); [|done..].
  apply newLeaf_ok in E4 as (D0 & D1 & D2 & D3 & D4 & D5 & D6 & D7 & D8); [|done..].
  pose proof (whole_bounds (now - hour)). pose proof (whole_bounds (now + Validity)).
  pose proof (whole_bounds (now + caValidity)).
  assert (now - hour <= now - second ∧ now + Validity <= now + caValidity - second ∧ now < now + Validity - second)
    by (unfold hour, Validity, caValidity, hour, second; lia).
  generalize dependent (whole (now - hour)). generalize dependent (whole (now + Validity)).
  generalize dependent (whole (now + caValidity)). unfold second in *. intros.
  split; unfold issued_by; cbn in *; [by repeat (apply Forall_cons; split; [done|])|..]; split_and!; try done; try congruence; lia.
Qed.

#[local] Ltac in_files := repeat first [apply list_elem_of_here|apply list_elem_of_further].

(** Whose certificate and key the files of each name hold. *)
Definition named_pairs (h : hierarchy (Key := Key)) : list (string * keyPair (Key := Key)) :=
  [("root-ca", h_root h); ("relay-ca", h_relayCA h); ("customer-ca", h_customerCA h); ("relay", h_relay h);
   ("agent", h_agent h)].

(** C26. Generated certificates are what the code under test expects. When generate
    succeeds, in whatever order it wrote them, the directory holds the thirteen
    files and no other, the keys created with mode 0600 and the rest with 0644,
    before the umask. Each certificate file holds the certificate of its name
    and the key file beside it the private key that the certificate was made
    for; read back, the certificates are a root, two CAs below it, and a server
    leaf for the relay and a client leaf for a customer below these, each named
    as it should be, signed by the one above it and not valid longer, the
    leaves no CAs. The chain files hold a leaf and its CA and pass the check
    that the relay and the agent run at startup, and a bare certificate or a key
    does not; and the two leaves are the relay and a customer to
    ExtractIdentity. *)
Theorem generated_certs w fs fs' out :
  (∀ l, w_range w l ≡ₚ l) → generate w fs = (fs', Returns (Ok out)) →
  ∃ d h, fs' = <[out := d]> fs ∧ well_issued (w_now w) h ∧
    (∀ name, is_Some (d !! name) ↔ name ∈ cert_names) ∧
    (∀ name data mode, d !! name = Some (data, mode) → mode = if bool_decide (Ext name = ".key") then 384 else 420) ∧
    (∀ name k, (name, k) ∈ named_pairs h →
       dir_files d (name +:+ ".crt") = Some (EncodeToMemory "CERTIFICATE" (kp_der k)) ∧
       ∃ key, MarshalECPrivateKey (kp_key k) = Some key ∧
         dir_files d (name +:+ ".key") = Some (EncodeToMemory "EC PRIVATE KEY" key)) ∧
    dir_files d "relay-chain.crt" = Some (certPEM (kp_der (h_relay h)) ++ certPEM (kp_der (h_relayCA h))) ∧
    dir_files d "agent-chain.crt" = Some (certPEM (kp_der (h_agent h)) ++ certPEM (kp_der (h_customerCA h))) ∧
    dir_files d "intermediate-cas.crt" = Some (certPEM (kp_der (h_relayCA h)) ++ certPEM (kp_der (h_customerCA h))) ∧
    (∀ name, name ∈ ["relay-chain.crt"; "agent-chain.crt"; "intermediate-cas.crt"] →
       ValidateChainCertFile (dir_files d) name = Some (Ok tt)) ∧
    (∀ name, name ∈ ["root-ca.crt"; "relay-ca.crt"; "customer-ca.crt"; "relay.crt"; "agent.crt"] →
       ValidateChainCertFile (dir_files d) name = Some (Err (ErrBareLeaf name))) ∧
    (∀ name, name ∈ ["root-ca.key"; "relay-ca.key"; "customer-ca.key"; "relay.key"; "agent.key"] →
       ValidateChainCertFile (dir_files d) name = Some (Err (ErrNoCertificates name))) ∧
    (∀ fp rest, id_RelayID <$> (match ExtractIdentity fp (peer_cert (h_relay h) :: rest) with Ok i => Some i | Err _ => None end)
       = Some "relay.atlax.local") ∧
    (∀ fp rest, id_CustomerID <$> (match ExtractIdentity fp (peer_cert (h_agent h) :: rest) with Ok i => Some i | Err _ => None end)
       = Some "customer-dev-001").
Proof.
  intros Hr Hg. destruct (generate_ok w fs fs' out Hr Hg) as (h & l & d & Hh & Hl & _ & -> & Hd & Hno).
  pose proof (issue_all_ok _ _ Hh) as Hw. exists d, h.
  assert (∀ name data bl, (name, data) ∈ l → blocks data bl →
    ValidateChainCertFile (dir_files d) name = Some (chain_verdict name bl)) as Hval.
  { intros name data bl Hin Hb. apply (validate_blocks (dir_files d) name data bl); [|done].
    unfold dir_files. by rewrite (Hd _ _ Hin). }
  assert (∀ name data, (name, data) ∈ l → dir_files d name = Some data) as Hget
    by (intros name data Hin; unfold dir_files; by rewrite (Hd _ _ Hin)).
  assert (∀ name, name ∈ cert_names → ∃ data, (name, data) ∈ l) as Hall.
  { intros name. rewrite <-(cert_files_names h l Hl). intros ([? data] & -> & ?)%list_elem_of_fmap. eauto. }
  assert (∀ name data mode, d !! name = Some (data, mode) → mode = file_mode name) as Hmode.
  { intros name data mode E. destruct (decide (name ∈ cert_names)) as [Hin|Hn]; [|by rewrite Hno in E].
    destruct (Hall name Hin) as [data' Hin']. rewrite (Hd _ _ Hin') in E. by simplify_eq. }
  unfold cert_files, keyPEM in Hl. cbn in Hl. simplify_option_eq.
  split_and!; [done|done| |done| | | | | | | | |].
  - intros name. split; [|by intros [data Hin]%Hall; rewrite (Hd _ _ Hin)].
    intros [x E]. destruct (decide (name ∈ cert_names)); [done|]. by rewrite Hno in E.
  - intros name k Hin. repeat (apply elem_of_cons in Hin as [[= -> ->]|Hin];
      [split; [apply Hget; in_files|]; eexists; split; [done|apply Hget; in_files]|]).
    by apply not_elem_of_nil in Hin.
  - apply Hget. in_files.
  - apply Hget. in_files.
  - apply Hget. in_files.
  - intros name Hin. repeat (apply elem_of_cons in Hin as [->|Hin];
      [eapply (Hval _ _ ["CERTIFICATE"; "CERTIFICATE"]); [in_files|apply blocks_chain]|]).
    by apply not_elem_of_nil in Hin.
  - intros name Hin. repeat (apply elem_of_cons in Hin as [->|Hin];
      [eapply (Hval _ _ ["CERTIFICATE"]); [in_files|apply blocks_one]|]).
    by apply not_elem_of_nil in Hin.
  - intros name Hin. repeat (apply elem_of_cons in Hin as [->|Hin];
      [eapply (Hval _ _ ["EC PRIVATE KEY"]); [in_files|apply blocks_one]|]).
    by apply not_elem_of_nil in Hin.
  - intros fp rest. cbn. by rewrite (proj1 (proj2 (wi_relay _ _ Hw))).
  - intros fp rest. cbn. by rewrite (proj1 (proj2 (wi_agent _ _ Hw))).
Qed.
End theorems.

Section process_theorems.
Context {Key : Type} `{Crypto Key} `{!PEM, !PEMEncoder}.

(** The directory is decided once: whatever the first call of Dir returned, all
    later calls return, under any environment and with no effect, unless the
    first one panicked. *)
Theorem dir_decided_once w env p p' r w2 env2 :
  Dir w env p = (p', Returns r) → Dir w2 env2 p' = (p', Returns r).
Proof.
  unfold Dir. destruct (ps_once p) eqn:Eo; [intros [= <- <-]; by rewrite Eo|]. case_bool_decide.
  - by intros [= <- <-].
  - destruct (generate w (ps_fs p)) as [fs [[out|e]|]]; intros [=]; subst; done.
Qed.

(** An override is used as it is, nothing is generated, and Cleanup leaves it
    alone as long as the variable is still set. If it was unset in between,
    Cleanup takes the directory for a generated one and removes it. *)
Theorem override_respected w env fs :
  env ≠ "" →
  ∃ p, Dir w env (new_process fs) = (p, Returns (env, None)) ∧ ps_fs p = fs ∧ Cleanup env p = p ∧
    ps_fs (Cleanup "" p) = delete env fs.
Proof.
  intros Hne. unfold Dir, new_process. cbn. rewrite bool_decide_eq_true_2 by done. eexists.
  split_and!; [done|done| |]; unfold Cleanup; cbn; rewrite (bool_decide_eq_true_2 _ Hne).
  - by rewrite bool_decide_eq_false_2.
  - done.
Qed.

(** A generated directory is removed again; but when a certificate could not be
    made or a file not written, the directory stays: Dir has forgotten its
    name, and Cleanup does nothing. *)
Theorem cleanup_forgets_failures w fs fs' r out :
  w_tmp w = Some out → out ≠ "" → generate w fs = (fs', Returns r) →
  ∃ p res, Dir w "" (new_process fs) = (p, Returns res) ∧
    match r with
    | Ok _ => res = (out, None) ∧ ps_fs (Cleanup "" p) = delete out fs
    | Err e => res = ("", Some e) ∧ is_Some (ps_fs (Cleanup "" p) !! out)
    end.
Proof.
  intros Ht Hne Hg. unfold Dir. cbn. rewrite Hg.
  assert (match r with Ok o => o = out ∧ ∃ d, fs' = <[out := d]> fs | Err _ => is_Some (fs' !! out) end) as Hr.
  { revert Hg. unfold generate. rewrite Ht. destruct (issue_all (w_now w)); [|intros [= <- <-]; by rewrite lookup_insert_eq].
    destruct (cert_files _); [|done]. destruct (write_files _ _ _) as [d [[]|e]]; intros [= <- <-].
    - split; [done|]. exists d. by rewrite insert_insert_eq.
    - by rewrite lookup_insert_eq. }
  destruct r as [o|e].
  - destruct Hr as [-> [d ->]]. do 2 eexists. split_and!; [done..|]. unfold Cleanup. cbn.
    rewrite (bool_decide_eq_true_2 _ Hne). cbn. by rewrite delete_insert_eq.
  - do 2 eexists. by split_and!.
Qed.
End process_theorems.

(** ** Concrete libraries

    Bytes are escaped one by one and a list of them closed with a zero; a
    certificate is its fields in that form, with the key that signed it. *)

Fixpoint enc (l : list byte) : list byte := match l with [] => [x00] | b :: l => x01 :: b :: enc l end.
Fixpoint dec (l : list byte) : option (list byte * list byte) :=
  match l with
  | x00 :: rest => Some ([], rest)
  | x01 :: b :: l' => match dec l' with Some (bs, rest) => Some (b :: bs, rest) | None => None end
  | _ => None
  end.

Lemma dec_enc l rest : dec (enc l ++ rest) = Some (l, rest).
Proof. induction l as [|b l IH]; cbn; [done|]. by rewrite IH. Qed.

Lemma dec_shorter n l bs rest : (length l <= n)%nat → dec l = Some (bs, rest) → (length rest < length l)%nat.
Proof.
  revert l bs. induction n as [|n IH]; intros l bs Hn; [by destruct l as [|[]]; cbn in *; try lia|].
  destruct l as [|[] l]; cbn; try done; [intros [= <- <-]; lia|]. destruct l as [|b l]; [done|].
  destruct (dec l) as [[bs' rest']|] eqn:E; [|done]. intros [= <- <-]. cbn in Hn. apply IH in E; cbn; lia.
Qed.

Definition demo_decode (data : list byte) : option (string * list byte * list byte) :=
  match dec data with
  | Some (ty, rest) => match dec rest with Some (b, rest') => Some (string_of_bytes ty, b, rest') | None => None end
  | None => None
  end.

#[export, program] Instance demo_pem : PEM := {| pem_Decode := demo_decode |}.
Next Obligation.
  intros data ty bytes rest. unfold demo_decode. destruct (dec data) as [[t r1]|] eqn:E1; [|done].
  destruct (dec r1) as [[b r2]|] eqn:E2; [|done]. intros [= <- <- <-].
  apply (dec_shorter _ _ _ _ (le_n _)) in E1, E2. lia.
Qed.

#[export, program] Instance demo_pem_encoder : PEMEncoder :=
  {| EncodeToMemory ty bytes := enc (bytes_of_string ty) ++ enc bytes |}.
Next Obligation.
  intros ty bytes rest. cbn. unfold demo_decode. rewrite <-(assoc_L (++)), !dec_enc. by rewrite string_of_bytes_of_string.
Qed.

Fixpoint bits (p : positive) : list byte :=
  match p with xH => [] | xO p => x00 :: bits p | xI p => x01 :: bits p end.
Fixpoint unbits (l : list byte) : positive :=
  match l with [] => xH | x00 :: l => xO (unbits l) | _ :: l => xI (unbits l) end.
Lemma unbits_bits p : unbits (bits p) = p.
Proof. induction p; cbn; congruence. Qed.

Definition put {A} `{Countable A} (a : A) : list byte := enc (bits (encode a)).
Definition get {A} `{Countable A} (l : list byte) : option (A * list byte) :=
  match dec l with Some (b, rest) => (λ a, (a, rest)) <$> decode (unbits b) | None => None end.
Lemma get_put {A} `{Countable A} (a : A) rest : get (put a ++ rest) = Some (a, rest).
Proof. unfold get, put. by rewrite dec_enc, unbits_bits, decode_encode. Qed.

Definition put_cert (t : Template) (signer : Z * Z) : list byte :=
  put (t_CN t) ++ put (t_NotBefore t) ++ put (t_NotAfter t) ++ put (t_IsCA t) ++ put (t_BasicConstraintsValid t) ++
  put (t_KeyUsage t) ++ put (t_ExtKeyUsage t) ++ put (t_MaxPathLen t) ++ put (t_MaxPathLenZero t) ++
  put (t_DNSNames t) ++ put (t_IPAddresses t) ++ put (t_SerialNumber t) ++ put (t_Issuer t) ++ put signer.
Definition get_cert (l : list byte) : option (Template * (Z * Z)) :=
  '(cn, l) ← get l; '(nb, l) ← get l; '(na, l) ← get l; '(ca, l) ← get l; '(bc, l) ← get l; '(ku, l) ← get l;
  '(eku, l) ← get l; '(mpl, l) ← get l; '(mplz, l) ← get l; '(dns, l) ← get l; '(ips, l) ← get l;
  '(ser, l) ← get l; '(iss, l) ← get l; '(sg, _) ← get l;
  Some (mkTemplate cn nb na ca bc ku eku mpl mplz dns ips ser iss, sg).
Lemma get_put_cert t signer : get_cert (put_cert t signer) = Some (t, signer).
Proof.
  unfold get_cert, put_cert. rewrite <-(app_nil_r (put signer)). repeat (rewrite get_put; cbn [mbind option_bind]).
  by destruct t.
Qed.

#[export] Instance demo_crypto : Crypto Z := {|
  GenerateKey i := Some (Z.of_nat i); RandInt i := Some (100 + Z.of_nat i);
  CreateCertificate tmpl issuer pub key := Some (put_cert (issued tmpl issuer) (pub, key));
  ParseX509 der := fst <$> get_cert der;
  PublicKeyOf der := (λ c, c.2.1) <$> get_cert der;
  CheckSignature der key := match get_cert der with Some (_, (_, k)) => bool_decide (k = key) | None => false end;
  MarshalECPrivateKey key := Some (put key) |}.

#[export] Instance demo_crypto_laws : CryptoLaws Z.
Proof.
  split; cbn.
  - intros tmpl issuer pub key der cert _ [= <-]. rewrite get_put_cert. by intros [= <-].
  - intros tmpl issuer pub key der [= <-]. by rewrite get_put_cert.
  - intros tmpl issuer pub key der [= <-]. rewrite get_put_cert. by apply bool_decide_eq_true_2.
Qed.

Definition demo_world : World := mkWorld (1700000000 * second + 123) (Some "/tmp/atlax-testcerts-1") reverse (λ _, true).

Lemma generated_certs_witness :
  ∃ fs' d, generate demo_world ∅ = (fs', Returns (Ok "/tmp/atlax-testcerts-1")) ∧
    fs' = {[ "/tmp/atlax-testcerts-1" := d ]} ∧
    ValidateChainCertFile (dir_files d) "relay-chain.crt" = Some (Ok tt) ∧
    ∃ k : keyPair (Key := Z), dir_files d "agent.crt" = Some (EncodeToMemory "CERTIFICATE" (kp_der k)) ∧
      ParseX509 (kp_der k) = Some (kp_cert k) ∧ t_CN (kp_cert k) = "customer-dev-001" ∧ t_IsCA (kp_cert k) = false.
Proof.
  assert ((generate demo_world ∅).2 = Returns (Ok "/tmp/atlax-testcerts-1")) as Hr by (vm_compute; reflexivity).
  destruct (generate demo_world ∅) as [fs' r] eqn:E. cbn in Hr. subst r.
  destruct (generated_certs demo_world ∅ fs' _ ltac:(intros l; apply reverse_Permutation) E)
    as (d & h & Ed & Hw & _ & _ & Hf & _ & _ & _ & Hc & _).
  exists fs', d. split; [done|]. split; [by rewrite Ed|]. split; [apply Hc, list_elem_of_here|].
  exists (h_agent h). split; [apply (Hf "agent"); by repeat constructor|].
  destruct Hw as [Hp _ _ _ _ _ (_ & E1 & E2 & _) _]. rewrite !Forall_cons in Hp. destruct Hp as (_ & _ & _ & _ & Hp & _).
  exact (conj (proj1 Hp) (conj E1 E2)).
Defined.
