(* ===== verification/Config.v ===== *)
(** * Configuration: [pkg/config/config.go], [loader.go]

    The configuration types, the environment overrides, the validation, and
    the port index of the relay. The file system and the YAML parser are
    arguments of the loader; the environment is a function from names to
    values, empty when unset, as os.Getenv gives it. A float64 is the
    Standard Library's specification float. *)

From Stdlib Require Import ZArith Lia SpecFloat.
From S2P Require Import Prelude.

Abbreviation float64 := spec_float (only parsing).
Abbreviation duration := Z (only parsing).

#[export] Instance float64_eq_dec : EqDecision spec_float.
Proof. solve_decision. Defined.

(** Comparison with zero, as Go's [x > 0] and [x <= 0] on float64: both false
    on NaN. *)
Definition f64_zero : spec_float := S754_zero false.
Definition f64_pos (x : spec_float) : bool := SFltb f64_zero x.
Definition f64_nonpos (x : spec_float) : bool := SFleb x f64_zero.

(** ** Data *)

Record ServerConfig := mkServerConfig {
  sc_ListenAddr : string;
  AdminAddr : string;
  AdminSocket : string;
  AgentListenAddr : string;
  MaxAgents : Z;
  MaxStreamsPerAgent : Z;
  sc_IdleTimeout : duration;
  ShutdownGracePeriod : duration;
  StorePath : string
}.

Record TLSPaths := mkTLSPaths {
  CertFile : string;
  KeyFile : string;
  CAFile : string;
  ClientCAFile : string
}.

Record RateLimitConfig := mkRateLimitConfig {
  RequestsPerSecond : float64;
  Burst : Z
}.

Record PortConfig := mkPortConfig {
  pc_Port : Z;
  pc_Service : string;
  pc_Description : string;
  pc_ListenAddr : string
}.

Record CustomerConfig := mkCustomerConfig {
  cc_ID : string;
  cc_Ports : list PortConfig;
  cc_MaxConnections : Z;
  cc_MaxStreams : Z;
  cc_MaxBandwidthMbps : Z;
  cc_RateLimit : RateLimitConfig
}.

Record LogConfig := mkLogConfig { Level : string; Format : string; Output : string }.
Record MetricsConfig := mkMetricsConfig { mc_Enabled : bool; mc_ListenAddr : string }.

Record RelayConfig := mkRelayConfig {
  rc_Server : ServerConfig;
  rc_TLS : TLSPaths;
  rc_Customers : list CustomerConfig;
  rc_Logging : LogConfig;
  rc_Metrics : MetricsConfig
}.

Record RelayConnection := mkRelayConnection {
  Addr : string;
  ServerName : string;
  InsecureSkipVerify : bool;
  ReconnectInterval : duration;
  MaxReconnectBackoff : duration;
  KeepaliveInterval : duration;
  KeepaliveTimeout : duration
}.

Record ServiceMapping := mkServiceMapping {
  sm_Name : string;
  sm_Protocol : string;
  sm_LocalAddr : string;
  sm_RelayPort : Z
}.

Record UpdateConfig := mkUpdateConfig {
  uc_Enabled : bool;
  CheckInterval : duration;
  ManifestURL : string;
  PublicKeyPath : string
}.

Record AgentConfig := mkAgentConfig {
  ac_Relay : RelayConnection;
  ac_TLS : TLSPaths;
  ac_Services : list ServiceMapping;
  ac_Logging : LogConfig;
  ac_Update : UpdateConfig
}.

#[export] Instance PortConfig_eq_dec : EqDecision PortConfig.
Proof. solve_decision. Defined.
#[export] Instance RateLimitConfig_eq_dec : EqDecision RateLimitConfig.
Proof. solve_decision. Defined.

(** ** Environment overrides *)

(** [if v := os.Getenv(name); v != "" { field = v }] *)
Definition override (env : string → string) (name : string) (old : string) : string :=
  if bool_decide (env name = "") then old else env name.

(** [func (l *FileLoader) applyAgentEnvOverrides(cfg *AgentConfig)] *)
Definition applyAgentEnvOverrides (env : string → string) (cfg : AgentConfig) : AgentConfig :=
  let r := ac_Relay cfg in
  let t := ac_TLS cfg in
  let l := ac_Logging cfg in
  {| ac_Relay := mkRelayConnection (override env "ATLAX_RELAY_ADDR" (Addr r)) (ServerName r)
       (InsecureSkipVerify r) (ReconnectInterval r) (MaxReconnectBackoff r) (KeepaliveInterval r)
       (KeepaliveTimeout r);
     ac_TLS := mkTLSPaths (override env "ATLAX_TLS_CERT" (CertFile t))
       (override env "ATLAX_TLS_KEY" (KeyFile t)) (override env "ATLAX_TLS_CA" (CAFile t))
       (ClientCAFile t);
     ac_Services := ac_Services cfg;
     ac_Logging := mkLogConfig (override env "ATLAX_LOG_LEVEL" (Level l)) (Format l) (Output l);
     ac_Update := ac_Update cfg |}.

(** [func (l *FileLoader) applyRelayEnvOverrides(cfg *RelayConfig)] *)
Definition applyRelayEnvOverrides (env : string → string) (cfg : RelayConfig) : RelayConfig :=
  let s := rc_Server cfg in
  let t := rc_TLS cfg in
  let l := rc_Logging cfg in
  {| rc_Server := mkServerConfig (override env "ATLAX_LISTEN_ADDR" (sc_ListenAddr s)) (AdminAddr s)
       (AdminSocket s) (override env "ATLAX_AGENT_LISTEN_ADDR" (AgentListenAddr s)) (MaxAgents s)
       (MaxStreamsPerAgent s) (sc_IdleTimeout s) (ShutdownGracePeriod s) (StorePath s);
     rc_TLS := mkTLSPaths (override env "ATLAX_TLS_CERT" (CertFile t))
       (override env "ATLAX_TLS_KEY" (KeyFile t)) (override env "ATLAX_TLS_CA" (CAFile t))
       (override env "ATLAX_TLS_CLIENT_CA" (ClientCAFile t));
     rc_Customers := rc_Customers cfg;
     rc_Logging := mkLogConfig (override env "ATLAX_LOG_LEVEL" (Level l)) (Format l) (Output l);
     rc_Metrics := rc_Metrics cfg |}.

(** ** Validation *)

Inductive ConfigErr :=
| CfgRead (path : string)
| CfgParse (path : string)
| CfgRequired (field : string)
| CfgNoCustomers
| CfgCustomerID (i : nat).

#[export] Instance ConfigErr_eq_dec : EqDecision ConfigErr.
Proof. solve_decision. Defined.

Definition require (value field : string) : result ConfigErr unit :=
  if bool_decide (value = "") then Err (CfgRequired field) else Ok tt.

(** [func (l *FileLoader) validateAgentConfig(cfg *AgentConfig) error] *)
Definition validateAgentConfig (cfg : AgentConfig) : result ConfigErr unit :=
  _ ← require (Addr (ac_Relay cfg)) "relay.addr";
  _ ← require (CertFile (ac_TLS cfg)) "tls.cert_file";
  _ ← require (KeyFile (ac_TLS cfg)) "tls.key_file";
  require (CAFile (ac_TLS cfg)) "tls.ca_file".

(** [func (l *FileLoader) validateRelayConfig(cfg *RelayConfig) error] *)
Definition validateRelayConfig (cfg : RelayConfig) : result ConfigErr unit :=
  _ ← require (sc_ListenAddr (rc_Server cfg)) "server.listen_addr";
  _ ← require (CertFile (rc_TLS cfg)) "tls.cert_file";
  _ ← require (KeyFile (rc_TLS cfg)) "tls.key_file";
  _ ← require (ClientCAFile (rc_TLS cfg)) "tls.client_ca_file";
  if bool_decide (rc_Customers cfg = []) then Err CfgNoCustomers
  else
    match list_find (λ c, cc_ID c = "") (rc_Customers cfg) with
    | Some (i, _) => Err (CfgCustomerID i)
    | None => Ok tt
    end.

(** ** Loading

    [ReadFile] is what os.ReadFile finds, [Unmarshal] is yaml.Unmarshal into a
    zero value. *)

Section load.
Context (ReadFile : string → option (list byte)).
Context (env : string → string).

(** [func (l *FileLoader) LoadAgentConfig(path string) ( *AgentConfig, error)] *)
Definition LoadAgentConfig (Unmarshal : list byte → option AgentConfig) (path : string)
    : result ConfigErr AgentConfig :=
  match ReadFile path with
  | None => Err (CfgRead path)
  | Some data =>
      match Unmarshal data with
      | None => Err (CfgParse path)
      | Some cfg0 =>
          let cfg := applyAgentEnvOverrides env cfg0 in
          _ ← validateAgentConfig cfg; Ok cfg
      end
  end.

(** [func (l *FileLoader) LoadRelayConfig(path string) ( *RelayConfig, error)] *)
Definition LoadRelayConfig (Unmarshal : list byte → option RelayConfig) (path : string)
    : result ConfigErr RelayConfig :=
  match ReadFile path with
  | None => Err (CfgRead path)
  | Some data =>
      match Unmarshal data with
      | None => Err (CfgParse path)
      | Some cfg0 =>
          let cfg := applyRelayEnvOverrides env cfg0 in
          _ ← validateRelayConfig cfg; Ok cfg
      end
  end.
End load.

(** [func DefaultAgentConfig() AgentConfig] *)
Definition DefaultAgentConfig : AgentConfig :=
  mkAgentConfig (mkRelayConnection "" "" false 0 0 0 0) (mkTLSPaths "" "" "" "") []
    (mkLogConfig "info" "json" "") (mkUpdateConfig false (6 * 3600 * 1000000000) "" "").

(** ** The port index *)

Record PortIndexEntry := mkPortIndexEntry {
  ie_CustomerID : string;
  ie_Service : string;
  ie_MaxStreams : Z;
  ie_ListenAddr : string;
  ie_RateLimit : RateLimitConfig
}.

#[export] Instance PortIndexEntry_eq_dec : EqDecision PortIndexEntry.
Proof. solve_decision. Defined.

Abbreviation PortIndex := (gmap Z PortIndexEntry) (only parsing).

Record PortConflict := mkPortConflict { conflict_port : Z; conflict_first : string; conflict_second : string }.

Definition default_listen (addr : string) : string :=
  if bool_decide (addr = "") then "0.0.0.0" else addr.

Definition index_entry (c : CustomerConfig) (p : PortConfig) : PortIndexEntry :=
  mkPortIndexEntry (cc_ID c) (pc_Service p) (cc_MaxStreams c) (default_listen (pc_ListenAddr p))
    (cc_RateLimit c).

(** The two nested loops visit the pairs of a customer and a port in order. *)
Definition customer_ports (customers : list CustomerConfig) : list (CustomerConfig * PortConfig) :=
  c ← customers; p ← cc_Ports c; [(c, p)].

(** The body of the loops of BuildPortIndex, over the remaining pairs. *)
Fixpoint build_index (idx : PortIndex) (l : list (CustomerConfig * PortConfig))
    : result PortConflict PortIndex :=
  match l with
  | [] => Ok idx
  | (c, p) :: l' =>
      match idx !! pc_Port p with
      | Some existing => Err (mkPortConflict (pc_Port p) (ie_CustomerID existing) (cc_ID c))
      | None => build_index (<[pc_Port p := index_entry c p]> idx) l'
      end
  end.

(** [func BuildPortIndex(customers []CustomerConfig) ( *PortIndex, error)] *)
Definition BuildPortIndex (customers : list CustomerConfig) : result PortConflict PortIndex :=
  build_index ∅ (customer_ports customers).

(** ** Properties of loading *)

Lemma require_ok value field : require value field = Ok tt ↔ value ≠ "".
Proof. unfold require. by case_bool_decide. Qed.

Lemma validate_relay_ok cfg :
  validateRelayConfig cfg = Ok tt ↔
  sc_ListenAddr (rc_Server cfg) ≠ "" ∧ CertFile (rc_TLS cfg) ≠ "" ∧ KeyFile (rc_TLS cfg) ≠ "" ∧
  ClientCAFile (rc_TLS cfg) ≠ "" ∧ rc_Customers cfg ≠ [] ∧
  Forall (λ c, cc_ID c ≠ "") (rc_Customers cfg).
Proof.
  unfold validateRelayConfig, require. repeat case_bool_decide; cbn; try (split; [done|naive_solver]).
  destruct (list_find _ _) as [[i c]|] eqn:E.
  - apply list_find_Some in E as (Hi & Hc & _). split; [done|].
    intros (_ & _ & _ & _ & _ & Hall). rewrite Forall_lookup in Hall. by destruct (Hall _ _ Hi).
  - apply list_find_None in E. naive_solver.
Qed.

(** What the relay's loader returns: exactly when the file is readable and
    parses, and the configuration with the environment's overrides has the
    listen address, the certificate, the key, the client CA, and at least one
    customer, all with an ID. A set environment variable wins over the file and
    can repair a missing field. *)
Theorem load_relay_config ReadFile env Unmarshal path cfg :
  LoadRelayConfig ReadFile env Unmarshal path = Ok cfg ↔
  ∃ data raw, ReadFile path = Some data ∧ Unmarshal data = Some raw ∧
    cfg = applyRelayEnvOverrides env raw ∧
    sc_ListenAddr (rc_Server cfg) =
      (if bool_decide (env "ATLAX_LISTEN_ADDR" = "") then sc_ListenAddr (rc_Server raw)
       else env "ATLAX_LISTEN_ADDR") ∧
    sc_ListenAddr (rc_Server cfg) ≠ "" ∧ CertFile (rc_TLS cfg) ≠ "" ∧ KeyFile (rc_TLS cfg) ≠ "" ∧
    ClientCAFile (rc_TLS cfg) ≠ "" ∧ rc_Customers raw ≠ [] ∧
    Forall (λ c, cc_ID c ≠ "") (rc_Customers raw).
Proof.
  unfold LoadRelayConfig. destruct (ReadFile path) as [data|]; [|naive_solver].
  destruct (Unmarshal data) as [raw|] eqn:Eu; [|split; [done|naive_solver]]. cbn zeta.
  destruct (validateRelayConfig (applyRelayEnvOverrides env raw)) as [[]|e] eqn:E.
  - apply validate_relay_ok in E as (H1 & H2 & H3 & H4 & H5 & H6). cbn. split.
    + intros [= <-]. exists data, raw. by split_and!.
    + intros (? & ? & [= <-] & ? & -> & _). by simplify_eq.
  - cbn. split; [done|]. intros (? & ? & [= <-] & ? & -> & _ & H). simplify_eq.
    apply (validate_relay_ok (applyRelayEnvOverrides env raw)) in H. congruence.
Qed.

(** ** Properties of the port index *)

Abbreviation port_of := (λ cp : CustomerConfig * PortConfig, pc_Port cp.2) (only parsing).

(** The entries BuildPortIndex has to produce for the pairs [l]. *)
Definition index_of (l : list (CustomerConfig * PortConfig)) : PortIndex :=
  list_to_map ((λ cp, (pc_Port cp.2, index_entry cp.1 cp.2)) <$> l).

Lemma elem_of_customer_ports cs c p :
  (c, p) ∈ customer_ports cs ↔ c ∈ cs ∧ p ∈ cc_Ports c.
Proof. unfold customer_ports. set_solver. Qed.

Lemma index_of_keys l : ((λ cp, (pc_Port cp.2, index_entry cp.1 cp.2)) <$> l).*1 = port_of <$> l.
Proof. by rewrite <-list_fmap_compose. Qed.

Lemma index_of_lookup l port e :
  NoDup (port_of <$> l) →
  index_of l !! port = Some e ↔ ∃ c p, (c, p) ∈ l ∧ pc_Port p = port ∧ e = index_entry c p.
Proof.
  intros Hnd. unfold index_of. rewrite <-elem_of_list_to_map by (by rewrite index_of_keys).
  rewrite list_elem_of_fmap. split.
  - intros ([c p] & E & Hin). cbn in E. simplify_eq. eauto.
  - intros (c & p & Hin & <- & ->). by exists (c, p).
Qed.

Lemma index_of_None l port : index_of l !! port = None ↔ port ∉ (port_of <$> l).
Proof. unfold index_of. by rewrite <-not_elem_of_list_to_map, index_of_keys. Qed.

Lemma index_of_snoc l c p :
  pc_Port p ∉ (port_of <$> l) → index_of (l ++ [(c, p)]) = <[pc_Port p := index_entry c p]> (index_of l).
Proof.
  intros Hp. unfold index_of. rewrite fmap_app. cbn.
  by rewrite list_to_map_snoc by (by rewrite index_of_keys).
Qed.

(** What the loops make of the pairs still to come, after [pre]. *)
Lemma build_index_spec pre rest :
  NoDup (port_of <$> pre) →
  match build_index (index_of pre) rest with
  | Ok idx => NoDup (port_of <$> pre ++ rest) ∧ idx = index_of (pre ++ rest)
  | Err (mkPortConflict port first second) =>
      ∃ l c2 p2 l' c1 p1, pre ++ rest = l ++ (c2, p2) :: l' ∧ NoDup (port_of <$> l) ∧
        (c1, p1) ∈ l ∧ pc_Port p1 = port ∧ pc_Port p2 = port ∧
        first = cc_ID c1 ∧ second = cc_ID c2
  end.
Proof.
  revert pre. induction rest as [|[c p] rest IH]; intros pre Hnd; cbn [build_index].
  { by rewrite app_nil_r. }
  destruct (index_of pre !! pc_Port p) as [e|] eqn:E.
  - apply index_of_lookup in E as (c1 & p1 & Hin & Hp & ->); [|done].
    by exists pre, c, p, rest, c1, p1.
  - apply index_of_None in E. rewrite <-index_of_snoc by done.
    assert (NoDup (port_of <$> pre ++ [(c, p)])) as Hnd'.
    { rewrite fmap_app. apply NoDup_app. split_and!; [done| |apply NoDup_singleton].
      cbn. set_solver. }
    specialize (IH _ Hnd'). by rewrite <-app_assoc in IH.
Qed.

(** BuildPortIndex succeeds exactly when no port occurs twice in the
    configuration, and then the index has exactly the configured ports, each
    with its customer, service, limit and bind address (0.0.0.0 if none); it
    fails at the first pair whose port an earlier pair has, naming the port
    and the two customers. *)
Theorem port_index_correct customers :
  match BuildPortIndex customers with
  | Ok idx =>
      NoDup (port_of <$> customer_ports customers) ∧
      ∀ port e, idx !! port = Some e ↔
        ∃ c p, c ∈ customers ∧ p ∈ cc_Ports c ∧ pc_Port p = port ∧ e = index_entry c p
  | Err (mkPortConflict port first second) =>
      ¬ NoDup (port_of <$> customer_ports customers) ∧
      ∃ l c2 p2 l' c1 p1, customer_ports customers = l ++ (c2, p2) :: l' ∧
        NoDup (port_of <$> l) ∧ (c1, p1) ∈ l ∧ pc_Port p1 = port ∧ pc_Port p2 = port ∧
        first = cc_ID c1 ∧ second = cc_ID c2
  end.
Proof.
  pose proof (build_index_spec [] (customer_ports customers) NoDup_nil_2) as H.
  unfold BuildPortIndex. change (index_of []) with (∅ : PortIndex) in H. cbn [app] in H.
  destruct (build_index ∅ (customer_ports customers)) as [idx|[port a b]].
  - destruct H as [Hnd ->]. split; [done|]. intros port e. rewrite index_of_lookup by done.
    setoid_rewrite elem_of_customer_ports. naive_solver.
  - split; [|done]. destruct H as (l & c2 & p2 & l' & c1 & p1 & E & _ & Hin & H1 & H2 & _).
    rewrite E, fmap_app. intros (_ & Hd & _)%NoDup_app. apply (Hd port).
    + rewrite <-H1. by apply (list_elem_of_fmap_2 port_of l (c1, p1)).
    + cbn. rewrite H2. set_solver.
Qed.
