(* ===== verification/Registry.v ===== *)
(** * Agents and the registry: [pkg/relay/connection.go], [registry.go],
    [registry_impl.go], [metrics.go]

    LiveConnection and MemoryRegistry. The connections live in a heap: the
    registry, a router that has looked one up, and the goroutines of its mux
    session hold pointers to the same connection. The metrics are the calls
    made to the Prometheus vectors, in order; a time is a number of
    nanoseconds from the zero time. *)

From Stdlib Require Import ZArith Lia.
From S2P Require Import Prelude Frame Window WriteQueue Stream Mux MuxInv MuxOps.

(** ** Metrics *)

Inductive metric_vec := StreamsTotal | StreamsActive | ConnectionsTotal | ConnectionsActive | ClientsRejected.

#[export] Instance metric_vec_eq_dec : EqDecision metric_vec.
Proof. solve_decision. Defined.

Inductive metric_call :=
| MInc (v : metric_vec) (labels : list string)
| MDec (v : metric_vec) (labels : list string).

#[export] Instance metric_call_eq_dec : EqDecision metric_call.
Proof. solve_decision. Defined.

Abbreviation Metrics := (list metric_call) (only parsing).

(** What NewMetrics creates: the name, the labels, and whether it is a gauge. *)
Record metric_opts := mkOpts { mo_Name : string; mo_Labels : list string; mo_Gauge : bool }.

(** [func NewMetrics(prefix string, reg prometheus.Registerer) *Metrics] *)
Definition NewMetrics (v : metric_vec) : metric_opts :=
  match v with
  | StreamsTotal => mkOpts "streams_total" ["customer_id"] false
  | StreamsActive => mkOpts "streams_active" ["customer_id"] true
  | ConnectionsTotal => mkOpts "connections_total" ["customer_id"] false
  | ConnectionsActive => mkOpts "connections_active" ["customer_id"] true
  | ClientsRejected => mkOpts "clients_rejected_total" ["customer_id"; "reason"] false
  end.

(** A call that does not panic: WithLabelValues wants a value for each label,
    and only a gauge can be decremented. *)
Definition call_fits (c : metric_call) : Prop :=
  match c with
  | MInc v labels => length labels = length (mo_Labels (NewMetrics v))
  | MDec v labels => length labels = length (mo_Labels (NewMetrics v)) ∧ mo_Gauge (NewMetrics v) = true
  end.

(** The methods of Metrics. *)
Definition StreamOpened (customerID : string) (m : Metrics) : Metrics :=
  m ++ [MInc StreamsTotal [customerID]; MInc StreamsActive [customerID]].
Definition StreamClosed (customerID : string) (m : Metrics) : Metrics :=
  m ++ [MDec StreamsActive [customerID]].
Definition ConnectionRegistered (customerID : string) (m : Metrics) : Metrics :=
  m ++ [MInc ConnectionsTotal [customerID]; MInc ConnectionsActive [customerID]].
Definition ConnectionUnregistered (customerID : string) (m : Metrics) : Metrics :=
  m ++ [MDec ConnectionsActive [customerID]].
Definition ClientRejected (customerID reason : string) (m : Metrics) : Metrics :=
  m ++ [MInc ClientsRejected [customerID; reason]].

(** The five names are different, so that MustRegister accepts them, and no
    method makes a call that panics. *)
Lemma metrics_names v v' : mo_Name (NewMetrics v) = mo_Name (NewMetrics v') → v = v'.
Proof. by destruct v, v'. Qed.
Lemma metrics_fit customerID reason m :
  Forall call_fits m →
  Forall call_fits (StreamOpened customerID m) ∧ Forall call_fits (StreamClosed customerID m) ∧
  Forall call_fits (ConnectionRegistered customerID m) ∧ Forall call_fits (ConnectionUnregistered customerID m) ∧
  Forall call_fits (ClientRejected customerID reason m).
Proof. intros Hm. split_and!; apply Forall_app; (split; [done|]); repeat constructor. Qed.

(** The value of a gauge: increments less decrements. *)
Definition gauge (v : metric_vec) (labels : list string) (m : Metrics) : Z :=
  Z.of_nat (length (filter (λ c, c = MInc v labels) m)) -
  Z.of_nat (length (filter (λ c, c = MDec v labels) m)).

Lemma gauge_app v ls m m' : gauge v ls (m ++ m') = gauge v ls m + gauge v ls m'.
Proof. unfold gauge. rewrite !filter_app, !length_app. lia. Qed.

(** ** Connections *)

Record LiveConnection := mkLiveConnection {
  lc_customerID : string;
  lc_mux : MuxSession;
  lc_remoteAddr : string;
  lc_connectedAt : Z;
  lc_lastSeen : Z;
  lc_services : list string;
  lc_certNotAfter : Z
}.

(** [func NewLiveConnection(customerID, mux, remoteAddr) *LiveConnection] *)
Definition NewLiveConnection (now : Z) (customerID : string) (mux : MuxSession) (remoteAddr : string)
    : LiveConnection :=
  mkLiveConnection customerID mux remoteAddr now now [] 0.

Definition with_mux (m : MuxSession) (c : LiveConnection) : LiveConnection :=
  mkLiveConnection (lc_customerID c) m (lc_remoteAddr c) (lc_connectedAt c) (lc_lastSeen c)
    (lc_services c) (lc_certNotAfter c).

(** [UpdateLastSeen], [SetServices], [SetCertNotAfter] *)
Definition UpdateLastSeen (now : Z) (c : LiveConnection) : LiveConnection :=
  mkLiveConnection (lc_customerID c) (lc_mux c) (lc_remoteAddr c) (lc_connectedAt c) now
    (lc_services c) (lc_certNotAfter c).
Definition SetServices (services : list string) (c : LiveConnection) : LiveConnection :=
  mkLiveConnection (lc_customerID c) (lc_mux c) (lc_remoteAddr c) (lc_connectedAt c) (lc_lastSeen c)
    services (lc_certNotAfter c).
Definition SetCertNotAfter (t : Z) (c : LiveConnection) : LiveConnection :=
  mkLiveConnection (lc_customerID c) (lc_mux c) (lc_remoteAddr c) (lc_connectedAt c) (lc_lastSeen c)
    (lc_services c) t.

(** [func (c *LiveConnection) Close() error], and the GOAWAY sent before it when
    a connection is replaced. *)
Definition ConnClose (c : LiveConnection) : LiveConnection := with_mux (Mux.Close (lc_mux c)) c.
Definition ConnGoAway (code : Z) (c : LiveConnection) : LiveConnection :=
  with_mux (GoAway (lc_mux c) code) c.

(** ** The registry *)

Record MemoryRegistry := mkRegistry {
  agents : gmap string nat;
  customerLimits : gmap string Z;
  r_metrics : option Metrics;
  conns : gmap nat LiveConnection
}.

Inductive RelayErr := ErrAgentNotFound (customerID : string).

(** [func NewMemoryRegistry(logger) *MemoryRegistry], and [SetMetrics] *)
Definition NewMemoryRegistry (m : option Metrics) : MemoryRegistry := mkRegistry ∅ ∅ m ∅.

(** [func (r *MemoryRegistry) SetCustomerLimit(customerID string, maxConns int)] *)
Definition SetCustomerLimit (r : MemoryRegistry) (customerID : string) (maxConns : Z) : MemoryRegistry :=
  mkRegistry (agents r) (<[customerID := maxConns]> (customerLimits r)) (r_metrics r) (conns r).

Definition upd_metrics (f : Metrics → Metrics) (r : MemoryRegistry) : MemoryRegistry :=
  mkRegistry (agents r) (customerLimits r) (f <$> r_metrics r) (conns r).
Definition upd_conn (c : nat) (f : LiveConnection → LiveConnection) (r : MemoryRegistry) : MemoryRegistry :=
  mkRegistry (agents r) (customerLimits r) (r_metrics r) (alter f c (conns r)).
Definition set_agents (a : gmap string nat) (r : MemoryRegistry) : MemoryRegistry :=
  mkRegistry a (customerLimits r) (r_metrics r) (conns r).

(** The limit that applies to a customer: one connection by default. *)
Definition connection_limit (r : MemoryRegistry) (customerID : string) : Z :=
  let limit := default 0 (customerLimits r !! customerID) in
  if bool_decide (limit <= 0) then 1 else limit.

(** [func (r *MemoryRegistry) Register(_, customerID, conn) error], [live] being
    a LiveConnection. *)
Definition Register (r : MemoryRegistry) (customerID : string) (live : nat) : MemoryRegistry :=
  let r1 := set_agents (<[customerID := live]> (agents r)) r in
  let r2 :=
    match agents r !! customerID with
    | Some old =>
        if bool_decide (connection_limit r customerID = 1)
        then upd_conn old ConnClose (upd_conn old (ConnGoAway 0)
               (upd_metrics (ConnectionUnregistered customerID) r1))
        else r1
    | None => r1
    end in
  upd_metrics (ConnectionRegistered customerID) r2.

(** [func (r *MemoryRegistry) Unregister(_, customerID) error] *)
Definition Unregister (r : MemoryRegistry) (customerID : string) : MemoryRegistry :=
  match agents r !! customerID with
  | Some c =>
      upd_conn c ConnClose (upd_metrics (ConnectionUnregistered customerID)
        (set_agents (delete customerID (agents r)) r))
  | None => r
  end.

(** [func (r *MemoryRegistry) Lookup(_, customerID) (AgentConnection, error)] *)
Definition Lookup (r : MemoryRegistry) (customerID : string) : result RelayErr nat :=
  match agents r !! customerID with
  | Some c => Ok c
  | None => Err (ErrAgentNotFound customerID)
  end.

(** [func (r *MemoryRegistry) Heartbeat(_, customerID) error] *)
Definition Heartbeat (r : MemoryRegistry) (now : Z) (customerID : string)
    : result RelayErr MemoryRegistry :=
  match agents r !! customerID with
  | Some c => Ok (upd_conn c (UpdateLastSeen now) r)
  | None => Err (ErrAgentNotFound customerID)
  end.

Record AgentInfo := mkAgentInfo {
  ai_CustomerID : string;
  ai_RemoteAddr : string;
  ai_ConnectedAt : Z;
  ai_LastSeen : Z;
  ai_StreamCount : Z;
  ai_Services : list string;
  ai_CertNotAfter : Z
}.

Definition agent_info (c : LiveConnection) : AgentInfo :=
  mkAgentInfo (lc_customerID c) (lc_remoteAddr c) (lc_connectedAt c) (lc_lastSeen c)
    (NumStreams (lc_mux c)) (lc_services c) (lc_certNotAfter c).

(** [func (r *MemoryRegistry) ListConnectedAgents(_) ([]AgentInfo, error)]: one
    entry per agent, in the order of the map's iteration. *)
Definition ListConnectedAgents (r : MemoryRegistry) : list AgentInfo :=
  agent_info <$> omap (λ kc, conns r !! kc.2) (map_to_list (agents r)).

(** ** Histories

    A connection is made and registered by the agent listener; the sessions of
    the connections run on their own. *)

Inductive revent :=
| EConnect (customerID : string) (c : nat)
| EUnregister (customerID : string)
| EHeartbeat (customerID : string)
| ESession (c : nat) (l : mlabel).

Inductive rstep : MemoryRegistry → revent → MemoryRegistry → Prop :=
| rstep_connect r customerID c live r' :
    conns r !! c = None → lc_customerID live = customerID →
    r' = Register (mkRegistry (agents r) (customerLimits r) (r_metrics r) (<[c := live]> (conns r)))
           customerID c →
    rstep r (EConnect customerID c) r'
| rstep_unregister r customerID r' :
    r' = Unregister r customerID → rstep r (EUnregister customerID) r'
| rstep_heartbeat r now customerID r' :
    Heartbeat r now customerID = Ok r' → rstep r (EHeartbeat customerID) r'
| rstep_session r c live l m' r' :
    conns r !! c = Some live → mstep (lc_mux live) l m' →
    r' = upd_conn c (with_mux m') r → rstep r (ESession c l) r'.

Inductive rsteps : MemoryRegistry → list revent → MemoryRegistry → Prop :=
| rsteps_nil r : rsteps r [] r
| rsteps_snoc r es r1 e r2 : rsteps r es r1 → rstep r1 e r2 → rsteps r (es ++ [e]) r2.

(** ** The invariant of the default configuration

    Without SetCustomerLimit, as the relay's main function sets it up. *)

Definition conns_inv (ag : gmap string nat) (cs : gmap nat LiveConnection) : Prop :=
  (∀ id c, ag !! id = Some c → ∃ live, cs !! c = Some live ∧ lc_customerID live = id) ∧
  (∀ c live, cs !! c = Some live →
     ag !! lc_customerID live = Some c ∨ m_closeCh (lc_mux live) = true).

Definition gauge_inv (ag : gmap string nat) (ms : option Metrics) : Prop :=
  ∀ l id, ms = Some l →
    gauge ConnectionsActive [id] l = if bool_decide (is_Some (ag !! id)) then 1 else 0.

Definition reg_inv (r : MemoryRegistry) : Prop :=
  customerLimits r = ∅ ∧ conns_inv (agents r) (conns r) ∧ gauge_inv (agents r) (r_metrics r).

(** The first half for an update of one connection that keeps its customer and
    does not open it again. *)
Lemma conns_inv_alter ag cs c f :
  conns_inv ag cs →
  (∀ live, cs !! c = Some live → lc_customerID (f live) = lc_customerID live ∧
     (m_closeCh (lc_mux live) = true → m_closeCh (lc_mux (f live)) = true)) →
  conns_inv ag (alter f c cs).
Proof.
  intros [H1 H2] Hf. split.
  - intros id c' Hid. destruct (H1 _ _ Hid) as (live & Hc & Hl). rewrite lookup_alter.
    case_decide; [|by eauto]. subst. exists (f live). rewrite Hc. split; [done|]. by apply Hf.
  - intros c' live. rewrite lookup_alter. case_decide; [|by apply H2]. subst.
    intros (live0 & Hc & ->)%fmap_Some. destruct (Hf _ Hc) as [-> Hcl].
    destruct (H2 _ _ Hc); auto.
Qed.

(** Closing the connection that was taken out of the map, or replaced in it. *)
Lemma conns_inv_close ag cs c :
  (∀ id c', ag !! id = Some c' → ∃ live, cs !! c' = Some live ∧ lc_customerID live = id) →
  (∀ c' live, cs !! c' = Some live → c' ≠ c →
     ag !! lc_customerID live = Some c' ∨ m_closeCh (lc_mux live) = true) →
  conns_inv ag (alter ConnClose c cs).
Proof.
  intros H1 H2. split.
  - intros i c' (live & Hc & Hl)%H1. rewrite lookup_alter. case_decide; [|by eauto].
    subst. exists (ConnClose live). by rewrite Hc.
  - intros c' live. rewrite lookup_alter. case_decide; [|by eauto].
    intros (live0 & Hc & ->)%fmap_Some. right. apply Close_closeCh.
Qed.

(** The gauge over the calls of one registration or removal. *)
Lemma gauge_calls id i :
  gauge ConnectionsActive [i] [MInc ConnectionsTotal [id]; MInc ConnectionsActive [id]] =
    (if bool_decide (i = id) then 1 else 0) ∧
  gauge ConnectionsActive [i] [MDec ConnectionsActive [id]] = (if bool_decide (i = id) then -1 else 0).
Proof.
  unfold gauge. case_bool_decide as E; [subst|]; split.
  - rewrite filter_cons_False, filter_cons_True by congruence.
    rewrite !filter_cons_False by congruence. done.
  - rewrite filter_cons_False, filter_cons_True by congruence. done.
  - rewrite !filter_cons_False by congruence. done.
  - rewrite !filter_cons_False by congruence. done.
Qed.

Lemma is_Some_bool {A} (o : option A) : bool_decide (is_Some o) = if o then true else false.
Proof. destruct o; [by rewrite bool_decide_eq_true_2 by eauto|]. by rewrite bool_decide_eq_false_2 by apply is_Some_None. Qed.

Lemma reg_inv_connect r id c live :
  reg_inv r → conns r !! c = None → lc_customerID live = id →
  reg_inv (Register (mkRegistry (agents r) (customerLimits r) (r_metrics r) (<[c := live]> (conns r))) id c).
Proof.
  intros (Hlim & [H1 H2] & Hg) Hc Hl. unfold Register, connection_limit.
  cbn [agents customerLimits]. rewrite Hlim, lookup_empty. cbn [default].
  rewrite (bool_decide_eq_true_2 (0 <= 0)), (bool_decide_eq_true_2 (1 = 1)) by done.
  assert (∀ i, i ≠ id → <[id := c]> (agents r) !! i = agents r !! i) as Hne
    by (intros; by rewrite lookup_insert_ne).
  assert (∀ i c', agents r !! i = Some c' → c' ≠ c) as Hfresh
    by (intros i c' (? & ? & _)%H1 ->; congruence).
  assert (∀ i c', <[id := c]> (agents r) !! i = Some c' →
            ∃ live', <[c := live]> (conns r) !! c' = Some live' ∧ lc_customerID live' = i) as Hown.
  { intros i c'. rewrite (lookup_insert (agents r)). case_decide; subst.
    - intros [= <-]. exists live. by rewrite lookup_insert_eq.
    - intros Hi. destruct (H1 _ _ Hi) as (live' & ? & ?). exists live'.
      by rewrite lookup_insert_ne by (by apply not_eq_sym; eapply Hfresh). }
  destruct (agents r !! id) as [old|] eqn:Hold; (split_and!; [done|cbn|cbn]).
  - apply conns_inv_close.
    + intros i c' (live' & Hl' & Hi)%Hown. rewrite lookup_alter. case_decide; [|by eauto].
      subst c'. exists (ConnGoAway 0 live'). by rewrite Hl'.
    + intros c' live' Hl' Hc'. rewrite lookup_alter_ne in Hl' by done. revert Hl'.
      rewrite (lookup_insert (conns r)). case_decide as E.
      * intros [= <-]. subst. left. by rewrite lookup_insert_eq.
      * intros Hl'. destruct (decide (lc_customerID live' = id)) as [Ei|Ei].
        -- right. destruct (H2 _ _ Hl') as [Ha|]; [|done]. rewrite Ei in Ha. congruence.
        -- rewrite Hne by done. by apply H2.
  - intros l i El. destruct (r_metrics r) as [l0|] eqn:Em; [|done]. cbn in El. injection El as <-.
    unfold ConnectionRegistered, ConnectionUnregistered. rewrite !gauge_app, (Hg l0 i) by done.
    destruct (gauge_calls id i) as [-> ->]. rewrite !is_Some_bool.
    destruct (decide (i = id)) as [->|].
    + by rewrite Hold, lookup_insert_eq, !bool_decide_eq_true_2.
    + rewrite Hne, !bool_decide_eq_false_2 by done. lia.
  - split; [done|]. intros c' live'. rewrite (lookup_insert (conns r)). case_decide as E.
    + intros [= <-]. subst. left. by rewrite lookup_insert_eq.
    + intros Hl'. destruct (H2 _ _ Hl') as [Ha|]; [left|by right].
      rewrite Hne; [done|]. intros Ei. rewrite Ei in Ha. congruence.
  - intros l i El. destruct (r_metrics r) as [l0|] eqn:Em; [|done]. cbn in El. injection El as <-.
    unfold ConnectionRegistered. rewrite !gauge_app, (Hg l0 i) by done.
    destruct (gauge_calls id i) as [-> _]. rewrite !is_Some_bool.
    destruct (decide (i = id)) as [->|].
    + by rewrite Hold, lookup_insert_eq, !bool_decide_eq_true_2.
    + rewrite Hne, !bool_decide_eq_false_2 by done. lia.
Qed.

Lemma reg_inv_unregister r id : reg_inv r → reg_inv (Unregister r id).
Proof.
  intros (Hlim & [H1 H2] & Hg). unfold Unregister.
  destruct (agents r !! id) as [c|] eqn:Hid; [|by split_and!].
  split_and!; [exact Hlim|cbn|cbn].
  - apply conns_inv_close.
    + intros i c' [_ Hi]%lookup_delete_Some. by apply H1.
    + intros c' live Hl Hc. destruct (H2 _ _ Hl) as [Ha|]; [left|by right].
      rewrite lookup_delete_ne; [done|]. intros Ei. rewrite <-Ei in Ha. congruence.
  - intros l i El. destruct (r_metrics r) as [l0|] eqn:Em; [|done]. cbn in El. injection El as <-.
    unfold ConnectionUnregistered. rewrite gauge_app, (Hg l0 i) by done.
    destruct (gauge_calls id i) as [_ ->]. rewrite !is_Some_bool.
    destruct (decide (i = id)) as [->|].
    + by rewrite Hid, lookup_delete_eq, !bool_decide_eq_true_2.
    + rewrite lookup_delete_ne, !bool_decide_eq_false_2 by done. lia.
Qed.

Lemma rstep_inv r e r' : reg_inv r → rstep r e r' → reg_inv r'.
Proof.
  intros I Hs. destruct Hs; subst; auto using reg_inv_unregister, reg_inv_connect.
  - unfold Heartbeat in H. destruct (agents r !! customerID); [|done]. injection H as <-.
    destruct I as (Hlim & Hc & Hg). split_and!; [done| |done]. by apply conns_inv_alter.
  - destruct I as (Hlim & Hc & Hg). split_and!; [done| |done]. apply conns_inv_alter; [done|].
    intros live' E. simplify_eq. split; [done|]. cbn. by eapply mstep_closeCh.
Qed.

Lemma NewMemoryRegistry_inv : reg_inv (NewMemoryRegistry (Some [])).
Proof.
  unfold reg_inv, NewMemoryRegistry. cbn [agents conns customerLimits r_metrics].
  split_and!; [done|split|].
  - intros id c E. by rewrite lookup_empty in E.
  - intros c live E. by rewrite lookup_empty in E.
  - intros l id [= <-]. by rewrite lookup_empty, is_Some_bool.
Qed.

Lemma rsteps_inv es r : rsteps (NewMemoryRegistry (Some [])) es r → reg_inv r.
Proof.
  remember (NewMemoryRegistry (Some [])) as r0 eqn:E. induction 1; subst;
    eauto using rstep_inv, NewMemoryRegistry_inv.
Qed.

(** C13. One live connection per customer, with the default limit of one, which
    the program never changes. Whatever connects, reconnects, disconnects and
    happens inside the sessions, Lookup returns a connection of the customer it
    was asked for; every other connection that was ever made for a customer
    has its session closed; and the gauge of active connections is 1 for the
    registered customers and 0 for the others. *)
Theorem registry_one_connection es r :
  rsteps (NewMemoryRegistry (Some [])) es r →
  (∀ id c, Lookup r id = Ok c → ∃ live, conns r !! c = Some live ∧ lc_customerID live = id) ∧
  (∀ c live, conns r !! c = Some live →
     Lookup r (lc_customerID live) = Ok c ∨ m_closeCh (lc_mux live) = true) ∧
  (∀ l id, r_metrics r = Some l →
     gauge ConnectionsActive [id] l = if is_ok (Lookup r id) then 1 else 0).
Proof.
  intros (_ & [H1 H2] & Hg)%rsteps_inv. unfold Lookup. split_and!.
  - intros id c. destruct (agents r !! id) eqn:E; [|done]. intros [= <-]. by apply H1.
  - intros c live Hc. destruct (H2 _ _ Hc) as [->|]; auto.
  - intros l id El. rewrite (Hg l id El), is_Some_bool. by destruct (agents r !! id).
Qed.

(** A first connection of a customer, and its reconnection. *)
Definition demo_conn (addr : string) : LiveConnection :=
  NewLiveConnection 5 "customer-a" (NewMuxSession RoleRelay (mkMuxConfig 4 65536 1048576 0 0 0)) addr.
Definition demo_reg1 : MemoryRegistry :=
  Register (mkRegistry ∅ ∅ (Some []) {[0%nat := demo_conn "10.0.0.1:1"]}) "customer-a" 0.
Definition demo_reg2 : MemoryRegistry :=
  Register (mkRegistry (agents demo_reg1) (customerLimits demo_reg1) (r_metrics demo_reg1)
              (<[1%nat := demo_conn "10.0.0.2:1"]> (conns demo_reg1))) "customer-a" 1.

Lemma registry_one_connection_witness :
  (∃ live, conns demo_reg2 !! 1%nat = Some live ∧ lc_customerID live = "customer-a") ∧
  gauge ConnectionsActive ["customer-a"] (default [] (r_metrics demo_reg2)) = 1.
Proof.
  assert (rsteps (NewMemoryRegistry (Some []))
            (([] ++ [EConnect "customer-a" 0]) ++ [EConnect "customer-a" 1]) demo_reg2) as Hrun.
  { eapply (rsteps_snoc _ _ demo_reg1); [eapply (rsteps_snoc _ _ (NewMemoryRegistry (Some [])))|].
    - apply rsteps_nil.
    - by apply (rstep_connect _ _ _ (demo_conn "10.0.0.1:1")).
    - by apply (rstep_connect _ _ _ (demo_conn "10.0.0.2:1")). }
  destruct (registry_one_connection _ _ Hrun) as (Hl & _ & H). split.
  - exact (Hl "customer-a" 1%nat eq_refl).
  - destruct (r_metrics demo_reg2) as [l|] eqn:El; [|by vm_compute in El].
    exact (H l "customer-a" eq_refl).
Defined.

(** With a limit above one, Register neither rejects nor closes anything:
    the previous connection of the customer is dropped from the map with its
    session open and without a GOAWAY, where nothing will find it again, and
    the gauge counts both. *)
Theorem registry_limit_leaks r id old live l :
  agents r !! id = Some old → 1 < connection_limit r id → r_metrics r = Some l →
  let r' := Register r id live in
  Lookup r' id = Ok live ∧ conns r' = conns r ∧
  ∃ l', r_metrics r' = Some l' ∧
    gauge ConnectionsActive [id] l' = gauge ConnectionsActive [id] l + 1.
Proof.
  intros Hold Hlim Hm. cbn zeta. unfold Register. rewrite Hold.
  rewrite bool_decide_eq_false_2 by lia. cbn. unfold Lookup. cbn. rewrite lookup_insert_eq.
  split; [done|]. split; [done|]. rewrite Hm. eexists. split; [done|].
  unfold ConnectionRegistered. rewrite gauge_app. destruct (gauge_calls id id) as [-> _].
  by rewrite bool_decide_eq_true_2.
Qed.

Lemma registry_limit_leaks_witness :
  conns (Register (SetCustomerLimit demo_reg1 "customer-a" 2) "customer-a" 1) = conns demo_reg1.
Proof.
  destruct (r_metrics demo_reg1) as [l|] eqn:E; [|by vm_compute in E].
  exact (proj1 (proj2 (registry_limit_leaks (SetCustomerLimit demo_reg1 "customer-a" 2) "customer-a" 0 1 l
    eq_refl ltac:(by vm_compute) E))).
Defined.
