(* ===== verification/RateLimit.v ===== *)
(** * Rate limiting: [pkg/relay/ratelimit.go]

    IPRateLimiter over golang.org/x/time/rate. The token bucket of that package
    is a parameter: a type of limiter states, its constructor, and Allow at a
    time, which answers and moves the state on. *)

From Stdlib Require Import ZArith Lia SpecFloat.
From S2P Require Import Prelude Config.

Definition defaultStaleTimeout : Z := 10 * 60 * 1000000000.
Definition cleanupInterval : Z := 60 * 1000000000.

(** golang.org/x/time/rate, as far as it is used. *)
Class RateLimiter (Lim : Type) := {
  NewLimiter : spec_float → Z → Lim;
  Lim_Allow : Lim → Z → bool * Lim
}.

Section limiter.
Context `{RateLimiter Lim}.

Record ipEntry := mkIPEntry { limiter : Lim; lastSeen : Z }.

Record IPRateLimiter := mkIPRateLimiter {
  rl_rps : spec_float;
  rl_burst : Z;
  entries : gmap string ipEntry;
  rl_stopped : bool                    (* stopCh closed *)
}.

(** [func NewIPRateLimiter(rps float64, burst int) *IPRateLimiter] *)
Definition NewIPRateLimiter (rps : spec_float) (burst : Z) : IPRateLimiter :=
  mkIPRateLimiter rps burst ∅ false.

Definition set_entries (rl : IPRateLimiter) (e : gmap string ipEntry) : IPRateLimiter :=
  mkIPRateLimiter (rl_rps rl) (rl_burst rl) e (rl_stopped rl).

(** [func (rl *IPRateLimiter) Allow(ip string) bool], at the time [now] *)
Definition Allow (rl : IPRateLimiter) (now : Z) (ip : string) : bool * IPRateLimiter :=
  let lim := match entries rl !! ip with
             | Some entry => limiter entry
             | None => NewLimiter (rl_rps rl) (rl_burst rl)
             end in
  let '(ok, lim') := Lim_Allow lim now in
  (ok, set_entries rl (<[ip := mkIPEntry lim' now]> (entries rl))).

(** [func (rl *IPRateLimiter) Len() int] *)
Definition Len (rl : IPRateLimiter) : Z := Z.of_nat (size (entries rl)).

(** [func (rl *IPRateLimiter) sweep()] *)
Definition sweep (rl : IPRateLimiter) (now : Z) : IPRateLimiter :=
  set_entries rl (filter (λ kv, ¬ lastSeen kv.2 < now - defaultStaleTimeout) (entries rl)).

(** [func (rl *IPRateLimiter) Stop()], which ends cleanupLoop *)
Definition Stop (rl : IPRateLimiter) : IPRateLimiter :=
  mkIPRateLimiter (rl_rps rl) (rl_burst rl) (entries rl) true.

(** One turn of the loop of cleanupLoop: the tick sweeps, unless stopped. *)
Definition cleanupLoop_tick (rl : IPRateLimiter) (now : Z) : IPRateLimiter :=
  if rl_stopped rl then rl else sweep rl now.

(** ** Histories: requests and ticks in the order they happen *)

Inductive rlevent := RLRequest (now : Z) (ip : string) | RLTick (now : Z).

(** The answers given to one IP over a history. *)
Fixpoint answers (rl : IPRateLimiter) (ip : string) (es : list rlevent) : list bool :=
  match es with
  | [] => []
  | RLRequest now i :: es' =>
      let '(ok, rl') := Allow rl now i in
      if bool_decide (i = ip) then ok :: answers rl' ip es' else answers rl' ip es'
  | RLTick now :: es' => answers (cleanupLoop_tick rl now) ip es'
  end.

(** The reference for one IP alone: its own bucket, forgotten by a tick that
    finds it idle for longer than the timeout. *)
Fixpoint alone (rps : spec_float) (burst : Z) (st : option ipEntry) (ip : string) (es : list rlevent)
    : list bool :=
  match es with
  | [] => []
  | RLRequest now i :: es' =>
      if bool_decide (i = ip) then
        let '(ok, lim') :=
          Lim_Allow (match st with Some e => limiter e | None => NewLimiter rps burst end) now in
        ok :: alone rps burst (Some (mkIPEntry lim' now)) ip es'
      else alone rps burst st ip es'
  | RLTick now :: es' =>
      let st' := match st with
                 | Some e => if bool_decide (lastSeen e < now - defaultStaleTimeout) then None else st
                 | None => None
                 end in
      alone rps burst st' ip es'
  end.

Lemma sweep_lookup rl now ip :
  entries (sweep rl now) !! ip =
  match entries rl !! ip with
  | Some e => if bool_decide (lastSeen e < now - defaultStaleTimeout) then None else Some e
  | None => None
  end.
Proof.
  cbn. destruct (entries rl !! ip) as [e|] eqn:E.
  - case_bool_decide as Hs.
    + apply map_lookup_filter_None_2. right. intros e' He' Hn. simplify_eq. done.
    + by apply map_lookup_filter_Some_2.
  - apply map_lookup_filter_None_2. by left.
Qed.

(** C40. Clients do not share a budget: over every history of requests and
    clean-up ticks, the answers a source IP gets are those of a bucket of its
    own that sees only its own requests, whatever the other IPs do. *)
Theorem rate_limit_per_ip rps burst ip es :
  answers (NewIPRateLimiter rps burst) ip es = alone rps burst None ip es.
Proof.
  assert (∀ rl, rl_rps rl = rps → rl_burst rl = burst → rl_stopped rl = false →
            answers rl ip es = alone rps burst (entries rl !! ip) ip es) as Hgen.
  { induction es as [|[now i|now] es IH]; intros rl Hr Hb Hs; cbn [answers alone]; [done|..].
    - unfold Allow. destruct (Lim_Allow _ now) as [ok lim'] eqn:El.
      rewrite !IH by done. cbn [entries set_entries]. case_bool_decide as Hi; subst.
      + by rewrite El, lookup_insert_eq.
      + by rewrite lookup_insert_ne.
    - unfold cleanupLoop_tick. rewrite Hs, IH by done. rewrite sweep_lookup.
      by destruct (entries rl !! ip). }
  by rewrite (Hgen (NewIPRateLimiter rps burst)).
Qed.
End limiter.

Arguments IPRateLimiter Lim : clear implicits.
Arguments ipEntry Lim : clear implicits.
