(* ===== verification/Router.v ===== *)
(** * Routing: [pkg/relay/router.go], [router_impl.go]

    PortRouter: the port map with its operations, and Route, which looks up the
    agent of a customer and opens a stream to it. Route is written against the
    interface AgentRegistry, of which the code allows other implementations;
    MemoryRegistry is shown to be one. *)

From Stdlib Require Import ZArith Lia.
From S2P Require Import Prelude Frame Window WriteQueue Stream Mux MuxInv Registry.

(** ** The interface of the registry, as the router uses it *)

Class AgentRegistry (R : Type) := {
  rg_Lookup : R → string → result RelayErr nat;
  rg_conn : R → nat → option LiveConnection;
  rg_set_mux : R → nat → MuxSession → R;        (* what happens to the session *)
  rg_metrics : (list metric_call → list metric_call) → R → R
}.

(** What it promises: the connection it returns for a customer is that
    customer's; a session is changed only through its connection. *)
Class AgentRegistryLaws (R : Type) `{AgentRegistry R} := {
  rg_ok : R → Prop;
  rg_owner r id c : rg_ok r → rg_Lookup r id = Ok c →
    ∃ live, rg_conn r c = Some live ∧ lc_customerID live = id;
  rg_set_conn r c m c' : rg_conn (rg_set_mux r c m) c' =
    if decide (c' = c) then with_mux m <$> rg_conn r c' else rg_conn r c';
  rg_set_Lookup r c m id : rg_Lookup (rg_set_mux r c m) id = rg_Lookup r id;
  rg_metrics_conn f r c : rg_conn (rg_metrics f r) c = rg_conn r c
}.

#[export] Instance MemoryRegistry_AgentRegistry : AgentRegistry MemoryRegistry := {
  rg_Lookup := Lookup;
  rg_conn r c := conns r !! c;
  rg_set_mux r c m := upd_conn c (with_mux m) r;
  rg_metrics := upd_metrics
}.

#[export] Instance MemoryRegistry_laws : AgentRegistryLaws MemoryRegistry.
Proof.
  refine {| rg_ok := reg_inv |}; cbn; [|intros r c m c'|done|done].
  - intros r id c (_ & [H1 _] & _). unfold Lookup. destruct (agents r !! id) eqn:E; [|done].
    intros [= <-]. by apply H1.
  - rewrite lookup_alter. repeat case_decide; congruence.
Defined.

(** ** The port map *)

Record portEntry := mkPortEntry {
  customerID : string;
  service : string;
  maxStreams : Z;
  listenAddr : string
}.

#[export] Instance portEntry_eq_dec : EqDecision portEntry.
Proof. solve_decision. Defined.

Record PortInfo := mkPortInfo {
  pi_Port : Z;
  pi_CustomerID : string;
  pi_Service : string;
  pi_MaxStreams : Z;
  pi_ListenAddr : string
}.

(** The mutable part of PortRouter. *)
Abbreviation portMap := (gmap Z portEntry) (only parsing).

Inductive RouterErr :=
| ErrPortNotFound
| ErrNoMapping (port : Z) (customerID : string).

#[export] Instance RouterErr_eq_dec : EqDecision RouterErr.
Proof. solve_decision. Defined.

(** [func (r *PortRouter) AddPortMapping(customerID, port, service, listenAddr, maxStreams) error] *)
Definition AddPortMapping (r : portMap) (customer : string) (port : Z) (svc addr : string) (max : Z)
    : portMap :=
  <[port := mkPortEntry customer svc max addr]> r.

Definition port_info (port : Z) (entry : portEntry) : PortInfo :=
  mkPortInfo port (customerID entry) (service entry) (maxStreams entry) (listenAddr entry).

(** [func (r *PortRouter) GetPort(port int) (PortInfo, bool)] *)
Definition GetPort (r : portMap) (port : Z) : option PortInfo := port_info port <$> r !! port.

(** [func (r *PortRouter) ListPorts() []PortInfo], in the order of the map's iteration *)
Definition ListPorts (r : portMap) : list PortInfo :=
  (λ kv, port_info kv.1 kv.2) <$> map_to_list r.

(** [func (r *PortRouter) UpdatePortMapping(port, service, listenAddr, maxStreams) error] *)
Definition UpdatePortMapping (r : portMap) (port : Z) (svc addr : string) (max : Z)
    : result RouterErr portMap :=
  match r !! port with
  | None => Err ErrPortNotFound
  | Some entry => Ok (<[port := mkPortEntry (customerID entry) svc max addr]> r)
  end.

(** [func (r *PortRouter) RemovePortMapping(customerID string, port int) error] *)
Definition RemovePortMapping (r : portMap) (customer : string) (port : Z) : result RouterErr portMap :=
  match r !! port with
  | Some entry =>
      if bool_decide (customerID entry ≠ customer) then Err (ErrNoMapping port customer)
      else Ok (delete port r)
  | None => Err (ErrNoMapping port customer)
  end.

(** [func (r *PortRouter) LookupPort(port int) (customerID, service string, ok bool)] *)
Definition LookupPort (r : portMap) (port : Z) : option (string * string) :=
  (λ e, (customerID e, service e)) <$> r !! port.

(** ** Route *)

Inductive RouteErr :=
| RouteNoAgent (e : RelayErr)
| ErrStreamLimitExceeded (customer : string) (n max : Z)
| RouteOpenFailed (e : ProtoErr).

Section route.
Context `{AgentRegistry R}.

(** The service name as the payload of STREAM_OPEN. *)
Definition service_payload (svc : string) : list byte :=
  if bool_decide (svc = "") then [] else bytes_of_string svc.

(** [func (r *PortRouter) Route(ctx, customerID, clientConn, port) error], until
    OpenStreamWithPayload waits for the acknowledgement: the connection and the
    stream that was opened on it. *)
Definition Route (r : portMap) (reg : R) (customer : string) (port : Z)
    : R * result RouteErr (nat * nat) :=
  let svc := default "" (service <$> r !! port) in
  let max := default 0 (maxStreams <$> r !! port) in
  match rg_Lookup reg customer with
  | Err e => (reg, Err (RouteNoAgent e))
  | Ok c =>
      match rg_conn reg c with
      | None => (reg, Err (RouteNoAgent (ErrAgentNotFound customer)))
      | Some live =>
          let n := NumStreams (lc_mux live) in
          if bool_decide (max > 0 ∧ n >= max)
          then (rg_metrics (ClientRejected customer "stream_limit") reg,
                Err (ErrStreamLimitExceeded customer n max))
          else
            match OpenStream_begin (lc_mux live) (service_payload svc) with
            | Err e => (reg, Err (RouteOpenFailed e))
            | Ok (s, m') => (rg_set_mux reg c m', Ok (c, s))
            end
      end
  end.

(** The acknowledgement arrived: the stream counts, until the copy ends. *)
Definition Route_opened (reg : R) (customer : string) : R := rg_metrics (StreamOpened customer) reg.
Definition Route_closed (reg : R) (customer : string) : R := rg_metrics (StreamClosed customer) reg.
End route.
