(* ===== verification/Pump.v ===== *)
(** * Copying between a connection and a stream

    What [pkg/agent/forwarder_impl.go] and the copy of
    [pkg/relay/router_impl.go] share: a net.Conn, and two goroutines running
    io.Copy in opposite directions between it and a stream. A goroutine is a
    program counter; reads return what has arrived, up to the size of the
    buffer; either side of the connection can break at any moment, as when the
    peer resets it or a deadline passes. *)

From Stdlib Require Import ZArith Lia.
From S2P Require Import Prelude Frame Stream.

(** ** Connections *)

(** A TCP connection as its owner sees it: what has arrived and was not read,
    whether the peer has finished sending, everything written so far, which
    sides the owner has closed, and which directions are broken. *)
Record Conn := mkConn {
  c_in : list byte;
  c_eof : bool;
  c_out : list byte;
  c_wclosed : bool;
  c_closed : bool;
  c_rfault : bool;
  c_wfault : bool
}.

Definition new_conn : Conn := mkConn [] false [] false false false false.

Definition conn_recv (bytes : list byte) (c : Conn) : Conn :=
  mkConn (c_in c ++ bytes) (c_eof c) (c_out c) (c_wclosed c) (c_closed c) (c_rfault c) (c_wfault c).
Definition conn_recv_eof (c : Conn) : Conn :=
  mkConn (c_in c) true (c_out c) (c_wclosed c) (c_closed c) (c_rfault c) (c_wfault c).
Definition conn_wrote (bytes : list byte) (c : Conn) : Conn :=
  mkConn (c_in c) (c_eof c) (c_out c ++ bytes) (c_wclosed c) (c_closed c) (c_rfault c) (c_wfault c).
Definition conn_fault (reading : bool) (c : Conn) : Conn :=
  mkConn (c_in c) (c_eof c) (c_out c) (c_wclosed c) (c_closed c)
    (reading || c_rfault c) (negb reading || c_wfault c).

(** [Close] and, of a TCPConn, [CloseWrite]. *)
Definition conn_Close (c : Conn) : Conn :=
  mkConn (c_in c) (c_eof c) (c_out c) (c_wclosed c) true (c_rfault c) (c_wfault c).
Definition conn_CloseWrite (c : Conn) : Conn :=
  if c_closed c then c
  else mkConn (c_in c) (c_eof c) (c_out c) true (c_closed c) (c_rfault c) (c_wfault c).

Inductive ConnRead := ConnWait | ConnEOF | ConnErr | ConnData (bytes : list byte) (c : Conn).

Definition conn_Read (c : Conn) (n : nat) : ConnRead :=
  if c_closed c || c_rfault c then ConnErr
  else
    match c_in c with
    | [] => if c_eof c then ConnEOF else ConnWait
    | _ :: _ =>
        ConnData (take n (c_in c))
          (mkConn (drop n (c_in c)) (c_eof c) (c_out c) (c_wclosed c) (c_closed c) (c_rfault c) (c_wfault c))
    end.

Definition conn_Write (c : Conn) (p : list byte) : option Conn :=
  if c_closed c || c_wclosed c || c_wfault c then None else Some (conn_wrote p c).

(** ** The two copies *)

(** Where an io.Copy is: about to read, about to write what it read, returned
    with or without an error, and its goroutine at its end. *)
Inductive CopyPC :=
| CopyRead
| CopyWrite (p : list byte)
| CopyReturned (err : bool)
| CopyDone (err : bool).

#[export] Instance CopyPC_eq_dec : EqDecision CopyPC.
Proof. solve_decision. Defined.

Record Pump := mkPump {
  p_stream : StreamSession;
  p_conn : Conn;
  p_toConn : CopyPC;                (* io.Copy(conn, stream) *)
  p_toStream : CopyPC               (* io.Copy(stream, conn) *)
}.

Definition new_pump (s : StreamSession) (c : Conn) : Pump := mkPump s c CopyRead CopyRead.

Inductive plabel :=
| PStream (e : sevent)              (* something happened to the stream *)
| PRecv (bytes : list byte)         (* bytes arrived on the connection *)
| PRecvEOF
| PConnRead (bytes : list byte)
| PConnWrite (bytes : list byte)
| PFault                            (* a direction of the connection broke *)
| PEnd.                             (* an io.Copy returned *)

(** The steps of the copies. *)
Inductive copy_step : Pump → plabel → Pump → Prop :=
| copy_stream_read s c q n p s' :
    (0 < n)%nat → Stream.Read s n = ReadData p s' →
    copy_step (mkPump s c CopyRead q) (PStream (SRead p)) (mkPump s' c (CopyWrite p) q)
| copy_stream_eof s c q n :
    Stream.Read s n = ReadEOF →
    copy_step (mkPump s c CopyRead q) PEnd (mkPump s c (CopyReturned false) q)
| copy_conn_write s c c' q p :
    conn_Write c p = Some c' →
    copy_step (mkPump s c (CopyWrite p) q) (PConnWrite p) (mkPump s c' CopyRead q)
| copy_conn_write_err s c q p done :
    conn_Write c p = None → done `prefix_of` p → (c_closed c || c_wclosed c = true → done = []) →
    copy_step (mkPump s c (CopyWrite p) q) (PConnWrite done)
      (mkPump s (conn_wrote done c) (CopyReturned true) q)
| copy_conn_read s c q n p c' :
    (0 < n)%nat → conn_Read c n = ConnData p c' →
    copy_step (mkPump s c q CopyRead) (PConnRead p) (mkPump s c' q (CopyWrite p))
| copy_conn_eof s c q n :
    conn_Read c n = ConnEOF →
    copy_step (mkPump s c q CopyRead) PEnd (mkPump s c q (CopyReturned false))
| copy_conn_read_err s c q n :
    conn_Read c n = ConnErr →
    copy_step (mkPump s c q CopyRead) PEnd (mkPump s c q (CopyReturned true))
| copy_stream_write s c q p s' :
    Stream.Write s p = WriteOk s' →
    copy_step (mkPump s c q (CopyWrite p)) (PStream (SWrite p)) (mkPump s' c q CopyRead)
| copy_stream_write_err s c q p :
    Stream.Write s p = WriteErr →
    copy_step (mkPump s c q (CopyWrite p)) PEnd (mkPump s c q (CopyReturned true)).

(** What the rest of the program and the other ends do meanwhile: the mux
    delivers, closes, resets and drains the stream, bytes arrive. *)
Definition outside (e : sevent) : bool :=
  match e with SDeliver _ | SRemoteClose | SReset | STakeChunk _ | STakeFIN => true | _ => false end.

Inductive env_step : Pump → plabel → Pump → Prop :=
| env_stream s c q1 q2 e s' :
    outside e = true → sstep s e s' →
    env_step (mkPump s c q1 q2) (PStream e) (mkPump s' c q1 q2)
| env_recv s c q1 q2 bytes :
    c_eof c = false →
    env_step (mkPump s c q1 q2) (PRecv bytes) (mkPump s (conn_recv bytes c) q1 q2)
| env_recv_eof s c q1 q2 :
    env_step (mkPump s c q1 q2) PRecvEOF (mkPump s (conn_recv_eof c) q1 q2)
| env_fault s c q1 q2 reading :
    env_step (mkPump s c q1 q2) PFault (mkPump s (conn_fault reading c) q1 q2).

(** ** Histories *)

Definition stream_events (ls : list plabel) : list sevent :=
  omap (λ l, match l with PStream e => Some e | _ => None end) ls.
Definition conn_read (ls : list plabel) : list byte :=
  mjoin (omap (λ l, match l with PConnRead b => Some b | _ => None end) ls).
Definition conn_written (ls : list plabel) : list byte :=
  mjoin (omap (λ l, match l with PConnWrite b => Some b | _ => None end) ls).
Definition conn_received (ls : list plabel) : list byte :=
  mjoin (omap (λ l, match l with PRecv b => Some b | _ => None end) ls).

(** What a copy holds between its read and its write, and whether it has given
    up on an error. *)
Definition in_hand (q : CopyPC) : list byte := match q with CopyWrite p => p | _ => [] end.
Definition failed (q : CopyPC) : bool :=
  match q with CopyReturned e | CopyDone e => e | _ => false end.
Definition returned (q : CopyPC) : bool :=
  match q with CopyReturned _ | CopyDone _ => true | _ => false end.

(** Projections distribute over a history extended by one step. *)
Lemma stream_events_app ls ls' : stream_events (ls ++ ls') = stream_events ls ++ stream_events ls'.
Proof. apply omap_app. Qed.
Lemma conn_read_app ls ls' : conn_read (ls ++ ls') = conn_read ls ++ conn_read ls'.
Proof. unfold conn_read. rewrite omap_app. apply join_app. Qed.
Lemma conn_written_app ls ls' : conn_written (ls ++ ls') = conn_written ls ++ conn_written ls'.
Proof. unfold conn_written. rewrite omap_app. apply join_app. Qed.
Lemma conn_received_app ls ls' : conn_received (ls ++ ls') = conn_received ls ++ conn_received ls'.
Proof. unfold conn_received. rewrite omap_app. apply join_app. Qed.
Lemma bytes_read_app es es' : bytes_read (es ++ es') = bytes_read es ++ bytes_read es'.
Proof. induction es as [|[] es IH]; cbn; rewrite ?IH, <-?(assoc_L (++)); done. Qed.
Lemma chunks_written_app es es' : chunks_written (es ++ es') = chunks_written es ++ chunks_written es'.
Proof. induction es as [|[] es IH]; cbn; rewrite ?IH; done. Qed.

Create Rewrite HintDb history.
#[export] Hint Rewrite stream_events_app conn_read_app conn_written_app conn_received_app
  bytes_read_app chunks_written_app : history.

(** ** The invariant

    Neither copy loses, repeats or reorders a byte: what was read is what was
    written, what is in hand, and, only after an error, what was given up. A
    copy that returned without an error has written everything that was sent
    up to the end it saw. *)

(** The peer's FIN is in the history, and [bytes] is all it had delivered; or
    the stream was reset, which a Read reports as the end as well. *)
Definition delivered_all (ls : list plabel) (bytes : list byte) : Prop :=
  SReset ∈ stream_events ls ∨
  SRemoteClose ∈ stream_events ls ∧ bytes_delivered (stream_events ls) = bytes.

Record flow_inv (ls : list plabel) (p : Pump) : Prop := mkFlowInv {
  fl_out : c_out (p_conn p) = conn_written ls;
  fl_in : conn_read ls ++ c_in (p_conn p) = conn_received ls;
  fl_toConn : ∃ lost, conn_written ls ++ in_hand (p_toConn p) ++ lost = bytes_read (stream_events ls) ∧
                      (failed (p_toConn p) = false → lost = []);
  fl_toStream : ∃ lost, mjoin (chunks_written (stream_events ls)) ++ in_hand (p_toStream p) ++ lost
                        = conn_read ls ∧
                      (failed (p_toStream p) = false → lost = []);
  fl_conn_eof : returned (p_toStream p) = true → failed (p_toStream p) = false →
    c_eof (p_conn p) = true ∧ c_in (p_conn p) = []
}.

Record pump_inv (ls : list plabel) (s0 : StreamSession) (p : Pump) : Prop := mkPumpInv {
  pi_stream : ssteps s0 (stream_events ls) (p_stream p);
  pi_flow : flow_inv ls p;
  pi_eof : returned (p_toConn p) = true → failed (p_toConn p) = false →
    ∃ ls1 ls2, ls = ls1 ++ ls2 ∧ delivered_all ls1 (conn_written ls)
}.

(** What is passed on is an initial part of what was read. *)
Lemma flow_toConn ls p : flow_inv ls p → c_out (p_conn p) `prefix_of` bytes_read (stream_events ls).
Proof. intros [-> _ (lost & <- & _) _ _]. by apply prefix_app_r. Qed.
Lemma flow_toStream ls p : flow_inv ls p → mjoin (chunks_written (stream_events ls)) `prefix_of` conn_received ls.
Proof. intros [_ <- _ (lost & <- & _) _]. rewrite <-(assoc_L (++)). by apply prefix_app_r. Qed.

Lemma ssteps_snoc s es s1 e s2 : ssteps s es s1 → sstep s1 e s2 → ssteps s (es ++ [e]) s2.
Proof.
  intros Hs He. induction Hs; cbn; [by eapply ssteps_cons, ssteps_nil|by eapply ssteps_cons; eauto].
Qed.

Lemma new_pump_inv s : pump_inv [] s (new_pump s new_conn).
Proof. split; [constructor| |done]. by split; cbn; eauto. Qed.

Lemma extend_split {A} (P : list A → Prop) ls l :
  (∃ ls1 ls2, ls = ls1 ++ ls2 ∧ P ls1) → ∃ ls1 ls2, ls ++ [l] = ls1 ++ ls2 ∧ P ls1.
Proof. intros (ls1 & ls2 & -> & HP). exists ls1, (ls2 ++ [l]). by rewrite <-(assoc_L (++)). Qed.

#[local] Hint Resolve extend_split : core.

(** Events that neither read from the stream nor write to it. *)
Definition quiet (e : sevent) : bool := match e with SRead _ | SWrite _ => false | _ => true end.

Lemma flow_inv_quiet ls s c q1 q2 e s' :
  flow_inv ls (mkPump s c q1 q2) → quiet e = true → flow_inv (ls ++ [PStream e]) (mkPump s' c q1 q2).
Proof.
  intros [H1 H2 H3 H4 H5] He. cbn in *.
  assert (bytes_read [e] = [] ∧ chunks_written [e] = []) as [E1 E2] by (by destruct e).
  split; cbn; autorewrite with history;
    change (conn_written [PStream e]) with (@nil byte); change (conn_read [PStream e]) with (@nil byte);
    change (conn_received [PStream e]) with (@nil byte); change (stream_events [PStream e]) with [e];
    rewrite ?E1, ?E2, ?app_nil_r; done.
Qed.

Lemma pump_inv_quiet ls s0 s c q1 q2 e s' :
  pump_inv ls s0 (mkPump s c q1 q2) → quiet e = true → sstep s e s' →
  pump_inv (ls ++ [PStream e]) s0 (mkPump s' c q1 q2).
Proof.
  intros [H1 H2 H3] He Hs. split; cbn in *; autorewrite with history;
    change (conn_written [PStream e]) with (@nil byte); change (stream_events [PStream e]) with [e];
    rewrite ?app_nil_r; eauto using ssteps_snoc, flow_inv_quiet.
Qed.

(** The counter of a copy that has returned, and that of its goroutine at its
    end, are alike in this. *)
Definition same_pc (q q' : CopyPC) : Prop :=
  in_hand q' = in_hand q ∧ failed q' = failed q ∧ returned q' = returned q.

(** Closing the connection or a side of it moves no byte, and neither does the
    end of a goroutine. *)
Lemma flow_inv_same ls s s' c c' q1 q1' q2 q2' :
  flow_inv ls (mkPump s c q1 q2) → c_in c' = c_in c → c_out c' = c_out c → c_eof c' = c_eof c →
  same_pc q1 q1' → same_pc q2 q2' → flow_inv ls (mkPump s' c' q1' q2').
Proof.
  intros [H1 H2 H3 H4 H5] E1 E2 E3 (F1 & F2 & F3) (G1 & G2 & G3). cbn in *.
  split; cbn; rewrite ?E1, ?E2, ?E3, ?F1, ?F2, ?G1, ?G2, ?G3; done.
Qed.

Lemma pump_inv_conn ls s0 s c q1 q2 c' :
  pump_inv ls s0 (mkPump s c q1 q2) → c_in c' = c_in c → c_out c' = c_out c → c_eof c' = c_eof c →
  pump_inv ls s0 (mkPump s c' q1 q2).
Proof. intros [H1 H2 H3] E1 E2 E3. split; [done| |done]. by eapply flow_inv_same. Qed.

Lemma env_step_flow ls p l p' : flow_inv ls p → env_step p l p' → flow_inv (ls ++ [l]) p'.
Proof.
  intros I Hs. destruct Hs as [s c q1 q2 e s' He Hs|s c q1 q2 bytes Hn|s c q1 q2|s c q1 q2 reading];
    [eapply flow_inv_quiet; [done|by destruct e]|..]; destruct I as [H1 H2 H3 H4 H5]; cbn in *;
    split; cbn; autorewrite with history; cbn; rewrite ?app_nil_r; try done.
  - by rewrite (assoc_L (++)), H2.
  - intros Hr Hf. destruct (H5 Hr Hf). congruence.
  - intros Hr Hf. by destruct (H5 Hr Hf).
Qed.

Lemma env_step_inv ls s0 p l p' : pump_inv ls s0 p → env_step p l p' → pump_inv (ls ++ [l]) s0 p'.
Proof.
  intros [H1 H2 H3] Hs. split; [|by eapply env_step_flow|]; destruct Hs; cbn in *;
    autorewrite with history; cbn; rewrite ?app_nil_r; eauto using ssteps_snoc.
Qed.

Lemma conn_Write_Some c p c' : conn_Write c p = Some c' → c' = conn_wrote p c.
Proof. unfold conn_Write. case_match; naive_solver. Qed.

Lemma conn_Read_data c n p c' :
  conn_Read c n = ConnData p c' → c_out c' = c_out c ∧ p ++ c_in c' = c_in c.
Proof.
  unfold conn_Read. destruct (c_closed c || c_rfault c); [done|].
  destruct (c_in c) as [|b l] eqn:E; [by destruct (c_eof c)|]. intros [= <- <-]. cbn.
  split; [done|]. apply (take_drop n (b :: l)).
Qed.

Lemma conn_Read_EOF c n : conn_Read c n = ConnEOF → c_eof c = true ∧ c_in c = [].
Proof.
  unfold conn_Read. destruct (c_closed c || c_rfault c), (c_in c); try done. by destruct (c_eof c).
Qed.

Lemma copy_step_flow ls p l p' : flow_inv ls p → copy_step p l p' → flow_inv (ls ++ [l]) p'.
Proof.
  intros [H2 H3 (lost1 & H4 & H4') (lost2 & H5 & H5') H7] Hs.
  destruct Hs as [s c q n p s' Hn Hr|s c q n Hr|s c c' q p ->%conn_Write_Some|s c q p done Hf [rest ->] Hd
    |s c q n p c' Hn (E1 & E2)%conn_Read_data|s c q n Hr%conn_Read_EOF| |s c q p s' Hw|s c q p Hw]; cbn in *;
    split; cbn; autorewrite with history; cbn; rewrite ?app_nil_r; try (by intros); eauto.
  - exists []. rewrite <-H4, (H4' eq_refl), !app_nil_r. done.
  - by rewrite H2.
  - exists []. rewrite <-H4, (H4' eq_refl), !app_nil_r. done.
  - by rewrite H2.
  - exists (rest ++ lost1). by rewrite <-H4, <-!(assoc_L (++)).
  - congruence.
  - rewrite <-H3, <-E2. by rewrite (assoc_L (++)).
  - exists []. rewrite <-H5, (H5' eq_refl), !app_nil_r. done.
  - exists []. rewrite <-H5, (H5' eq_refl), join_app. cbn. by rewrite !app_nil_r.
  - by exists (p ++ lost2).
Qed.

Lemma copy_step_inv ls id cfg pl p l p' :
  pump_inv ls (opened id cfg pl) p → copy_step p l p' → pump_inv (ls ++ [l]) (opened id cfg pl) p'.
Proof.
  intros [H1 H2 H3] Hs. pose proof (copy_step_flow _ _ _ _ H2 Hs) as H2'. split; [|done|];
    destruct Hs as [s c q n p s' Hn Hr|s c q n Hr| | | | | |s c q p s' Hw|]; cbn in *;
    autorewrite with history; cbn; rewrite ?app_nil_r; try (by intros); eauto.
  - by eapply ssteps_snoc, sstep_read.
  - by eapply ssteps_snoc, sstep_write.
  - intros _ _. exists ls, [PEnd]. split; [done|]. unfold delivered_all.
    destruct (decide (SReset ∈ stream_events ls)) as [|Hn]; [by left|right].
    destruct (read_eof_complete _ _ _ _ _ _ Hn H1 Hr) as [<- ?].
    destruct H2 as [_ _ (lost & H4 & H4') _ _]. cbn in *. by rewrite <-H4, (H4' eq_refl), app_nil_r.
Qed.

(** ** What stays as it is *)

(** A stream that is over: closed on both sides, or reset. *)
Definition over (s : StreamSession) : bool :=
  match s_state s with StateClosed | StateReset => true | _ => false end.

Lemma sstep_over s e s' :
  sstep s e s' →
  (over s = true → over s' = true) ∧ (isWriteClosed s = true → isWriteClosed s' = true).
Proof.
  intros Hs. unfold over, isWriteClosed.
  destruct Hs as [s n bytes s' Hr|s p s' Hw|s bytes s' ->|s s' ->|s s' ->|s s' ->|s p rest s' Ht ->|s s' Hf ->];
    try done.
  - unfold Read in Hr. destruct (readBuf s); [by destruct (isReadClosed s)|]. by simplify_eq.
  - unfold Write in Hw. destruct (Stream.isWriteClosed s); [done|].
    case_bool_decide; [by simplify_eq|]. by destruct (closedCh s).
  - unfold Close, Close_locked, Close_notify.
    destruct (s_state s) eqn:E; cbn; rewrite ?E; try done; by destruct (localCloseOnce s).
  - unfold RemoteClose. by destruct (s_state s) eqn:E; cbn; rewrite ?E.
  - unfold Reset, Reset_locked, Reset_notify.
    destruct (s_state s) eqn:E; cbn; rewrite ?E; try done; by destruct (resetOnce s).
Qed.

Lemma Close_write_closed s : s_state s ≠ StateIdle → isWriteClosed (Stream.Close s).1 = true.
Proof.
  intros Hi. unfold isWriteClosed, Close, Close_locked, Close_notify.
  destruct (s_state s) eqn:E; cbn; rewrite ?E; try done; by destruct (localCloseOnce s).
Qed.

Lemma Reset_over s : over (Stream.Reset s).1 = true.
Proof.
  unfold over, Reset, Reset_locked, Reset_notify.
  destruct (s_state s) eqn:E; cbn; rewrite ?E; try done; by destruct (resetOnce s).
Qed.

Lemma over_write_closed s : over s = true → isWriteClosed s = true.
Proof. unfold over, isWriteClosed. by destruct (s_state s). Qed.

Lemma pump_inv_live ls id cfg pl p :
  pump_inv ls (opened id cfg pl) p → stream_inv (p_stream p).
Proof. intros I. eapply ssteps_inv; [apply opened_inv|apply (pi_stream _ _ _ I)]. Qed.

(** A copy step and an outside step keep what is closed closed. *)
Lemma copy_step_closed p l p' :
  copy_step p l p' →
  (c_closed (p_conn p) = true → c_closed (p_conn p') = true) ∧
  (over (p_stream p) = true → over (p_stream p') = true) ∧
  (isWriteClosed (p_stream p) = true → isWriteClosed (p_stream p') = true).
Proof.
  intros Hs.
  destruct Hs as [s c q n p s' Hn Hr| |s c c' q p ->%conn_Write_Some| |s c q n p c' Hn Hr| | |s c q p s' Hw|];
    cbn; try done.
  - split; [done|]. by eapply sstep_over, sstep_read.
  - split; [|done]. unfold conn_Read in Hr. by destruct (c_closed c).
  - split; [done|]. by eapply sstep_over, sstep_write.
Qed.

Lemma env_step_closed p l p' :
  env_step p l p' →
  c_closed (p_conn p') = c_closed (p_conn p) ∧
  (over (p_stream p) = true → over (p_stream p') = true) ∧
  (isWriteClosed (p_stream p) = true → isWriteClosed (p_stream p') = true).
Proof. intros []; cbn; try done. split; [done|]. by eapply sstep_over. Qed.

(** ** Ending

    Once the connection is closed and the stream is over, both copies run to
    their ends without blocking. *)

Definition ended (q : CopyPC) : nat := match q with CopyDone _ => 1 | _ => 0 end.

(** How far a copy is from its end then. *)
Definition copy_rank (q : CopyPC) : nat :=
  match q with CopyRead => 3 | CopyWrite _ => 2 | CopyReturned _ => 1 | CopyDone _ => 0 end.

Lemma copy_step_ended p l p' :
  copy_step p l p' →
  ended (p_toConn p') = ended (p_toConn p) ∧ ended (p_toStream p') = ended (p_toStream p).
Proof. by intros []. Qed.

Lemma env_step_pcs p l p' :
  env_step p l p' → p_toConn p' = p_toConn p ∧ p_toStream p' = p_toStream p.
Proof. by intros []. Qed.

(** Neither copy can block once both ends are torn down. *)
Lemma copy_unblocked p :
  c_closed (p_conn p) = true → over (p_stream p) = true →
  ended (p_toConn p) = 0%nat ∨ ended (p_toStream p) = 0%nat →
  (∃ l p', copy_step p l p') ∨
  (∃ err, p_toConn p = CopyReturned err) ∨ (∃ err, p_toStream p = CopyReturned err).
Proof.
  intros Hc Ho He. destruct p as [s c q1 q2]. cbn in *.
  assert (isReadClosed s = true) as Hr by (unfold over, isReadClosed in *; by destruct (s_state s)).
  destruct He as [He|He].
  - destruct q1 as [|w|err|err]; [| |by eauto|done]; left.
    + destruct (readBuf s) eqn:E.
      * do 2 eexists. apply (copy_stream_eof _ _ _ 1). unfold Read. by rewrite E, Hr.
      * do 2 eexists. apply (copy_stream_read _ _ _ 1); [lia|]. unfold Read. by rewrite E.
    + do 2 eexists. apply (copy_conn_write_err _ _ _ w []); [|by apply prefix_nil|done].
      unfold conn_Write. by rewrite Hc.
  - destruct q2 as [|w|err|err]; [| |by eauto|done]; left.
    + do 2 eexists. apply (copy_conn_read_err _ _ _ 1). unfold conn_Read. by rewrite Hc.
    + do 2 eexists. apply copy_stream_write_err. unfold Write. by rewrite over_write_closed.
Qed.

(** With both ends torn down, every step of a copy brings it nearer its end. *)
Lemma copy_step_rank p l p' :
  c_closed (p_conn p) = true → over (p_stream p) = true → copy_step p l p' →
  (copy_rank (p_toConn p') + copy_rank (p_toStream p') < copy_rank (p_toConn p) + copy_rank (p_toStream p))%nat.
Proof.
  intros Hc Ho Hs. destruct Hs as [| |s c c' q p Hw| |s c q n p c' Hn Hr| | |s c q p s' Hw|]; cbn in *; try lia.
  - unfold conn_Write in Hw. by rewrite Hc in Hw.
  - unfold Write in Hw. by rewrite over_write_closed in Hw.
Qed.
