(* ===== verification/MuxSim.v ===== *)
(** * A session runs the streams of Stream.v

    Every object of a session moves by the steps of the stream machine: the
    owner's Read, Write and Close appear in its history exactly when they
    appear in the session's, everything else the session does to it is a step
    from outside (a delivery, the peer's FIN, a reset, the drain goroutine) or
    a WINDOW_UPDATE, which no operation of a stream looks at. *)

From Stdlib Require Import ZArith Lia.
From S2P Require Import Prelude Frame Window WriteQueue Stream Mux MuxInv MuxOps MuxOrder MuxView Link Pump.

(** Steps of a stream, and window updates in between. *)
Inductive osteps : StreamSession → list sevent → StreamSession → Prop :=
| osteps_nil s : osteps s [] s
| osteps_event s e s1 es s2 : sstep s e s1 → osteps s1 es s2 → osteps s (e :: es) s2
| osteps_window s n es s2 : osteps (set_recvWindow n s) es s2 → osteps s es s2.

Lemma osteps_one s e s' : sstep s e s' → osteps s [e] s'.
Proof. intros. by eapply osteps_event, osteps_nil. Qed.
Lemma osteps_app s es s1 es' s2 : osteps s es s1 → osteps s1 es' s2 → osteps s (es ++ es') s2.
Proof. induction 1; cbn; eauto using osteps. Qed.

(** ** What a step does to the objects *)

(** Each object [r] of [m] moves by the events [E r]. *)
Definition moves (E : nat → list sevent) (m m' : MuxSession) : Prop :=
  ∀ r s, m_heap m !! r = Some s → ∃ s', m_heap m' !! r = Some s' ∧ osteps s (E r) s'.

(** Only the object [r]. *)
Definition only_obj (r : nat) (evs : list sevent) : nat → list sevent :=
  λ r', if decide (r' = r) then evs else [].

Lemma only_eq r evs : only_obj r evs r = evs.
Proof. unfold only_obj. by rewrite decide_True. Qed.
Lemma only_ne r r' evs : r' ≠ r → only_obj r evs r' = [].
Proof. intros H. unfold only_obj. by rewrite decide_False. Qed.

Lemma moves_heap m m' : m_heap m' = m_heap m → moves (λ _, []) m m'.
Proof. intros E r s Hr. exists s. rewrite E. split; [done|constructor]. Qed.

Lemma moves_trans E1 E2 m1 m2 m3 :
  moves E1 m1 m2 → moves E2 m2 m3 → moves (λ r, E1 r ++ E2 r) m1 m3.
Proof.
  intros H12 H23 r s Hr. destruct (H12 r s Hr) as (s1 & Hr1 & Ho1). destruct (H23 r s1 Hr1) as (s2 & Hr2 & Ho2).
  exists s2. split; [done|by eapply osteps_app].
Qed.

Lemma moves_ext E E' m m' : moves E m m' → (∀ r, E r = E' r) → moves E' m m'.
Proof. intros H HE r s Hr. rewrite <-HE. by apply H. Qed.

(** Then nothing more happens to the objects. *)
Lemma moves_then E m m1 m2 : moves E m m1 → m_heap m2 = m_heap m1 → moves E m m2.
Proof. intros H Eh r s Hr. rewrite Eh. by apply H. Qed.

Lemma moves_upd m r f evs :
  (∀ s, m_heap m !! r = Some s → osteps s evs (f s)) → moves (only_obj r evs) m (upd_stream r f m).
Proof.
  intros Hf r' s Hr'. cbn. destruct (decide (r' = r)) as [->|Hne].
  - rewrite lookup_alter_eq, Hr', only_eq. exists (f s). auto.
  - rewrite lookup_alter_ne, only_ne by done. exists s. split; [done|constructor].
Qed.

Lemma moves_insert m r s e s' :
  m_heap m !! r = Some s → sstep s e s' → moves (only_obj r [e]) m (set_heap (<[r := s']> (m_heap m)) m).
Proof.
  intros Hr Hs r' s0 Hr'. cbn. rewrite lookup_insert. case_decide; subst.
  - simplify_eq. exists s'. rewrite only_eq. split; [done|by apply osteps_one].
  - rewrite only_ne by done. exists s0. split; [done|constructor].
Qed.

Lemma heap_deleteStream m id : m_heap (deleteStream m id) = m_heap m.
Proof. unfold deleteStream, freeID. by case_bool_decide. Qed.
Lemma heap_maybeRemove m id r : m_heap (maybeRemoveStream m id r) = m_heap m.
Proof. unfold maybeRemoveStream. repeat case_match; try done. apply heap_deleteStream. Qed.
Lemma heap_onReset m id code : m_heap (onReset m id code) = m_heap m.
Proof. unfold onReset. repeat case_match; try done. cbn. apply heap_deleteStream. Qed.

Lemma moves_StreamReset m r code : moves (only_obj r [SReset]) m (StreamReset m r code).
Proof.
  unfold StreamReset. destruct (m_heap m !! r) as [s|] eqn:Hr.
  - destruct (Stream.Reset s) as [s' b] eqn:E.
    assert (moves (only_obj r [SReset]) m (set_heap (<[r := s']> (m_heap m)) m)) as Q
      by (eapply moves_insert; [done|apply sstep_reset; by rewrite E]).
    destruct b; [|done]. eapply moves_then; [exact Q|]. apply heap_onReset.
  - intros r' s' Hr'. rewrite only_ne by congruence. exists s'. split; [done|constructor].
Qed.

(** The events of a Close: every stream in the table is reset. *)
Definition close_events (m : MuxSession) (r : nat) : list sevent :=
  if m_closeCh m then [] else if bool_decide (r ∈ (map_to_list (m_streams m)).*2) then [SReset] else [].

Lemma table_nodup m : mux_inv m → NoDup (map_to_list (m_streams m)).*2.
Proof.
  intros I. apply (NoDup_fmap_2_strong snd); [|apply NoDup_map_to_list].
  intros [i1 r1] [i2 r2] H1%elem_of_map_to_list H2%elem_of_map_to_list E. cbn in E. subst r2.
  destruct (inv_lookup m _ _ I H1) as (s1 & Hr1 & Hs1 & _), (inv_lookup m _ _ I H2) as (s2 & Hr2 & Hs2 & _).
  by simplify_eq.
Qed.

Lemma moves_Close m : mux_inv m → moves (close_events m) m (Close m).
Proof.
  intros I. unfold Close, close_events. destruct (m_closeCh m); [by apply moves_heap|]. cbn zeta.
  set (m1 := set_writeQueue _ _). assert (moves (λ _, []) m m1) as Q1 by by apply moves_heap.
  change (m_streams m1) with (m_streams m). generalize (table_nodup m I). clearbody m1.
  generalize (map_to_list (m_streams m)).*2. intros l Hnd.
  assert (moves (λ r, if bool_decide (r ∈ l) then [SReset] else []) m (foldr (λ r acc, StreamReset acc r 0) m1 l)) as Q; [|exact Q].
  induction Hnd as [|r l Hn Hnd Q]; cbn [foldr].
  - eapply moves_ext; [exact Q1|]. intros r. by rewrite bool_decide_eq_false_2 by set_solver.
  - eapply moves_ext; [eapply moves_trans; [exact Q|apply moves_StreamReset]|]. intros r'. cbn.
    destruct (decide (r' = r)) as [->|Hne].
    + rewrite only_eq, (bool_decide_eq_false_2 (r ∈ l)), bool_decide_eq_true_2 by set_solver. done.
    + rewrite only_ne, app_nil_r by done. by rewrite (bool_decide_ext (r' ∈ r :: l) (r' ∈ l)) by set_solver.
Qed.

Lemma moves_newStream m id p : mux_inv m → moves (λ _, []) m (newStream m id p).2.
Proof.
  intros I r s Hr. apply (ci_fresh _ _ _ _ _ _ _ _ I) in Hr as Hlt. cbn.
  rewrite lookup_insert_ne by lia. exists s. split; [done|constructor].
Qed.

(** The events of a frame for the stream that its ID names. *)
Definition frame_events (f : Frame) : list sevent :=
  if decide (FCommand f = CmdStreamData) then
    (if bool_decide (zlen (Payload f) > 0) then [SDeliver (Payload f)] else []) ++
    (if has_flag (Flags f) FlagFIN then [SRemoteClose] else [])
  else if decide (FCommand f = CmdStreamClose) then [SRemoteClose]
  else if decide (FCommand f = CmdStreamReset) then [SReset]
  else [].

Definition handled_events (m : MuxSession) (f : Frame) (r : nat) : list sevent :=
  if decide (m_streams m !! StreamID f = Some r) then frame_events f else [].

Lemma handled_only m f r : m_streams m !! StreamID f = Some r → ∀ r', only_obj r (frame_events f) r' = handled_events m f r'.
Proof.
  intros Hm r'. unfold only_obj, handled_events. rewrite Hm. destruct (decide (r' = r)) as [->|Hne].
  - by rewrite decide_True.
  - rewrite decide_False; [done|]. congruence.
Qed.

Lemma moves_deliverData m f r :
  FCommand f = CmdStreamData → m_streams m !! StreamID f = Some r → moves (handled_events m f) m (deliverData m f r).
Proof.
  intros Ef Hm. eapply moves_ext; [|by apply handled_only]. unfold frame_events. rewrite decide_True by done.
  unfold deliverData. cbn zeta.
  set (e1 := if bool_decide (zlen (Payload f) > 0) then [SDeliver (Payload f)] else []).
  set (m1 := if bool_decide (zlen (Payload f) > 0) then upd_stream _ _ _ else _).
  assert (moves (only_obj r e1) m m1) as Q1.
  { unfold m1, e1. case_bool_decide.
    - apply moves_upd. intros s _. apply osteps_one. by constructor.
    - eapply moves_ext; [by apply (moves_heap m m)|]. intros r'. unfold only_obj. by case_decide. }
  clearbody m1. destruct (has_flag (Flags f) FlagFIN).
  - eapply moves_then; [|apply heap_maybeRemove].
    eapply moves_ext; [eapply moves_trans; [exact Q1|]|].
    + apply (moves_upd m1 r RemoteClose [SRemoteClose]). intros s _. apply osteps_one. by constructor.
    + intros r'. cbn. unfold only_obj. by case_decide.
  - rewrite app_nil_r. done.
Qed.

Lemma frame_events_other f :
  FCommand f ≠ CmdStreamData → FCommand f ≠ CmdStreamClose → FCommand f ≠ CmdStreamReset → frame_events f = [].
Proof. intros H1 H2 H3. unfold frame_events. by rewrite !decide_False. Qed.

Lemma moves_other m m' f : frame_events f = [] → m_heap m' = m_heap m → moves (handled_events m f) m m'.
Proof.
  intros Ef Eh. eapply moves_ext; [by apply moves_heap|]. intros r. unfold handled_events. rewrite Ef. by case_decide.
Qed.

Lemma moves_none m f : m_streams m !! StreamID f = None → moves (handled_events m f) m m.
Proof.
  intros Hn. eapply moves_ext; [by apply moves_heap|]. intros r. unfold handled_events. by rewrite Hn.
Qed.

Lemma moves_handleFrame m f : mux_inv m → moves (handled_events m f) m (handleFrame m f).
Proof.
  intros I. unfold handleFrame.
  case_decide as E1.
  { assert (frame_events f = []) as Ef by (apply frame_events_other; by rewrite E1).
    unfold handleStreamOpen, acceptPeerOpen. destruct (has_flag _ _).
    { apply moves_other; [done|]. by case_match. }
    destruct (m_streams m !! StreamID f); [by apply moves_other|].
    destruct (ownsID m (StreamID f)); [by apply moves_other|].
    eapply moves_ext; [apply (moves_newStream m (StreamID f) (Payload f) I)|].
    intros r. unfold handled_events. rewrite Ef. by case_decide. }
  case_decide as E2.
  { unfold handleStreamData. destruct (m_streams m !! StreamID f) as [r|] eqn:Hm; [by apply moves_deliverData|by apply moves_none]. }
  case_decide as E3.
  { unfold handleStreamClose. destruct (m_streams m !! StreamID f) as [r|] eqn:Hm; [|by apply moves_none].
    eapply moves_then; [|apply heap_maybeRemove]. eapply moves_ext; [|by apply handled_only].
    unfold frame_events. rewrite decide_False, decide_True by done. apply moves_upd. intros s _. apply osteps_one. by constructor. }
  case_decide as E4.
  { unfold handleStreamReset. destruct (m_streams m !! StreamID f) as [r|] eqn:Hm; [|by apply moves_none]. cbn zeta.
    generalize (if bool_decide (zlen (Payload f) >= 4) then Uint32 (take 4 (Payload f)) else 0). intros code.
    assert (moves (handled_events m f) m (StreamReset m r code)) as Q.
    { eapply moves_ext; [apply moves_StreamReset|]. intros r'. rewrite <-(handled_only m f r Hm).
      unfold frame_events. by rewrite !decide_False, decide_True by done. }
    case_match; [|done]. eapply moves_then; [exact Q|apply heap_deleteStream]. }
  assert (frame_events f = []) as Ef by by apply frame_events_other.
  repeat case_decide; try by apply moves_other.
  - apply moves_other; [done|]. unfold handlePong. by case_match.
  - unfold handleWindowUpdate. do 2 (case_bool_decide; [by apply moves_other|]).
    case_match; [|by apply moves_other].
    eapply moves_ext; [apply moves_upd with (evs := [])|].
    + intros s _. eapply osteps_window, osteps_nil.
    + intros r'. unfold only_obj, handled_events. rewrite Ef. by repeat case_decide.
  - apply moves_other; [done|]. unfold handleServiceList. by case_match.
Qed.

Lemma moves_OpenStream m payload r m' : mux_inv m → OpenStream_begin m payload = Ok (r, m') → moves (λ _, []) m m'.
Proof.
  intros I (_ & _ & id & m1 & m2 & Ha & Hn & ->)%OpenStream_begin_ok.
  apply allocID_frame in Ha. pose proof (moves_newStream m id [] I) as Q.
  rewrite Ha in Hn. injection Hn as <- <-. exact Q.
Qed.

(** A step of a drain goroutine takes the chunk it puts out, or the token of
    the local close. *)
Definition drain_events (s : StreamSession) (out : option Frame) (evs : list sevent) : Prop :=
  match out with
  | Some f => f = fin_frame (s_id s) ∧ evs = [] ∨ ∃ p, f = data_frame (s_id s) p ∧ evs = [STakeChunk p]
  | None => evs = [] ∨ evs = [STakeFIN]
  end.

Lemma moves_drain m r s c m' :
  m_heap m !! r = Some s → drainStream m r c = Some m' →
  ∃ evs, moves (only_obj r evs) m m' ∧ drain_events s (drain_output m r c) evs.
Proof.
  intros Hr. unfold drainStream, drain_output. rewrite Hr. destruct (m_drain m !! r) as [pc|]; [|done].
  assert (∀ m', m_heap m' = m_heap m → moves (only_obj r []) m m') as Hsame.
  { intros m1 E. eapply moves_ext; [by apply moves_heap|]. intros r'. unfold only_obj. by case_decide. }
  assert (∀ p rest, writeOut s = p :: rest →
    moves (only_obj r [STakeChunk p]) m (enqueueStreamData (set_heap (<[r := set_writeOut rest s]> (m_heap m)) m) s p)) as Hchunk.
  { intros p rest Hw. eapply moves_then; [by eapply (moves_insert m r s (STakeChunk p)); [|by eapply sstep_take_chunk]|done]. }
  assert (finCh s = true →
    moves (only_obj r [STakeFIN]) m (set_drain_pc r DrainFlush (set_heap (<[r := set_finCh false s]> (m_heap m)) m))) as Hfin.
  { intros Hf. eapply moves_then; [by eapply (moves_insert m r s STakeFIN); [|by eapply sstep_take_fin]|done]. }
  destruct c, pc; try done;
    try (destruct (writeOut s) as [|p rest] eqn:Ew; [done|]; intros [= <-]; exists [STakeChunk p]; split; [by eauto|right; by exists p]);
    try (destruct (finCh s); [|done]; intros [= <-]; exists [STakeFIN]; split; [by eauto|by right]);
    repeat case_match; try done; intros [= <-]; exists []; (split; [by apply Hsame|by left]).
Qed.

(** ** The events of an object in a step of the session

    The calls of its owner, the frames that name it, its own drain goroutine,
    and the close of the session; nothing else. A call of OpenStream that is
    canceled resets the stream that has its ID. *)
Definition events_of (m : MuxSession) (r : nat) (s : StreamSession) (e : mlabel) (evs : list sevent) : Prop :=
  match e with
  | LRead r' p => evs = if decide (r = r') then [SRead p] else []
  | LWrite r' p => evs = if decide (r = r') then [SWrite p] else []
  | LClose r' => evs = if decide (r = r') then [SClose] else []
  | LReset r' _ => evs = if decide (r = r') then [SReset] else []
  | LDrain r' out => if decide (r = r') then drain_events s out evs else evs = []
  | LFrame f => evs = handled_events m f r
  | LReadError | LSendError | LMuxClose => evs = close_events m r
  | LOpenFailed r' => evs = [] ∨ m_streams m !! stream_id m r' = Some r ∧ evs = [SReset]
  | _ => evs = []
  end.

Lemma moves_events E m e m' r s :
  moves E m m' → m_heap m !! r = Some s → events_of m r s e (E r) →
  ∃ evs s', m_heap m' !! r = Some s' ∧ osteps s evs s' ∧ events_of m r s e evs.
Proof. intros Hm Hr He. destruct (Hm r s Hr) as (s' & ? & ?). by exists (E r), s'. Qed.

(** Each step of the session moves each object by its events. *)
Lemma mstep_events m e m' r s :
  mux_inv m → mstep m e m' → m_heap m !! r = Some s →
  ∃ evs s', m_heap m' !! r = Some s' ∧ osteps s evs s' ∧ events_of m r s e evs.
Proof.
  intros I Hs Hr. destruct Hs; subst;
    try (eapply moves_events; [by apply moves_heap|done|done]);
    try (eapply moves_events; [by eauto using moves_OpenStream, moves_handleFrame, moves_Close|done|done]).
  - unfold OpenStream_canceled. cbn zeta. unfold removeStream. cbn [m_streams cleanupPendingOpen].
    destruct (m_streams (cleanupPendingOpen m (stream_id m r0)) !! stream_id m r0) as [r1|] eqn:Hm.
    + eapply moves_events; [eapply (moves_trans (λ _, []) _ _ (deleteStream (cleanupPendingOpen m (stream_id m r0)) (stream_id m r0)));
        [apply moves_heap; by rewrite heap_deleteStream|apply moves_StreamReset]|done|]. cbn.
      unfold only_obj. case_decide; [subst; right; by split|by left].
    + eapply moves_events; [by apply moves_heap|done|by left].
  - eapply moves_events; [by apply moves_heap|done|by left].
  - eapply moves_events; [|done|done]. apply moves_heap. unfold AcceptStream in H. case_match; by simplify_eq.
  - eapply moves_events; [|done|done]. apply moves_heap. unfold deliverAccept in H. repeat case_match; by simplify_eq.
  - eapply moves_events; [eapply moves_insert; [done|by eapply sstep_write]|done|].
    cbn. unfold only_obj. by repeat case_decide.
  - eapply moves_events; [eapply moves_insert; [done|by eapply sstep_read]|done|].
    cbn. unfold only_obj. by repeat case_decide.
  - unfold StreamClose. destruct (m_heap m !! r0) as [s0|] eqn:Hr0.
    + destruct (Stream.Close s0) as [s1 b] eqn:E.
      assert (moves (only_obj r0 [SClose]) m (set_heap (<[r0 := s1]> (m_heap m)) m)) as Q
        by (eapply moves_insert; [done|apply sstep_close; by rewrite E]).
      eapply moves_events; [destruct b; [eapply moves_then; [exact Q|]; unfold onLocalClose; apply heap_maybeRemove|exact Q]|done|].
      cbn. unfold only_obj. by repeat case_decide.
    + eapply moves_events; [by apply moves_heap|done|]. cbn. rewrite decide_False by congruence. done.
  - eapply moves_events; [apply moves_StreamReset|done|]. cbn. unfold only_obj. by repeat case_decide.
  - destruct (m_heap m !! r0) as [s0|] eqn:Hr0.
    + destruct (moves_drain _ _ _ _ _ Hr0 H) as (evs & Q & Hd). eapply moves_events; [exact Q|done|]. cbn.
      unfold only_obj. repeat case_decide; by simplify_eq.
    + unfold drainStream in H. by rewrite Hr0 in H.
  - assert (mux_inv (set_writeQueue q m)) as I' by exact I.
    eapply moves_events; [apply (moves_Close (set_writeQueue q m) I')|done|done].
  - eapply moves_events; [|done|done]. apply moves_heap. unfold Ping_end in H. case_match; by simplify_eq.
  - eapply moves_events; [|done|done]. apply moves_heap. unfold SendServiceList. by repeat case_match.
Qed.

(** ** Histories *)

Ltac no_close := rewrite ?elem_of_app, ?elem_of_cons, ?elem_of_nil; naive_solver.

Lemma frame_events_silent f : bytes_read (frame_events f) = [] ∧ chunks_written (frame_events f) = [] ∧ SClose ∉ frame_events f.
Proof.
  unfold frame_events. destruct (bool_decide _), (has_flag _ _); repeat case_decide; split_and!; try done; no_close.
Qed.

Lemma events_history m r s e evs :
  events_of m r s e evs →
  bytes_read evs = reads r [e] ∧ chunks_written evs = written r [e] ∧ (SClose ∈ evs ↔ e = LClose r).
Proof.
  assert (bytes_read [SReset] = [] ∧ chunks_written [SReset] = [] ∧ SClose ∉ [SReset]) as Hreset by (split_and!; try done; no_close).
  destruct e as [| | | |f| | |r' p|r' p|r'|r' code|r' out| | | | | | | |]; cbn; try (intros ->; split_and!; try done; no_close).
  - intros [-> |[_ ->]]; (split_and!; [done..|]); no_close.
  - intros ->. unfold handled_events. case_decide; [|split_and!; try done; no_close].
    destruct (frame_events_silent f) as (-> & -> & ?). split_and!; [done..|naive_solver].
  - intros ->. unfold close_events. repeat case_match; (split_and!; [done..|]); no_close.
  - intros ->. case_decide; subst; cbn; (split_and!; [done..|]); no_close.
  - intros ->. case_decide; subst; cbn; rewrite ?app_nil_r; (split_and!; [done..|]); no_close.
  - intros ->. case_decide; subst; cbn; (split_and!; [done..|]); [no_close|]. split; [no_close|congruence].
  - intros ->. case_decide; subst; cbn; (split_and!; [done..|]); no_close.
  - case_decide; [|intros ->; split_and!; try done; no_close]. unfold drain_events.
    destruct out; [intros [[_ ->]|(p & _ & ->)]|intros [-> | ->]]; (split_and!; [done..|]); no_close.
  - intros ->. unfold close_events. repeat case_match; (split_and!; [done..|]); no_close.
  - intros ->. unfold close_events. repeat case_match; (split_and!; [done..|]); no_close.
Qed.

(** A new object is one the mux has just opened. *)
Definition stream_config (m : MuxSession) : StreamConfig := mkStreamConfig (InitialStreamWindow (m_config m)) 0.

Lemma made_opened m e m' r s' :
  mux_inv m → mstep m e m' → m_heap m !! r = None → m_heap m' !! r = Some s' →
  ∃ payload, s' = opened (s_id s') (stream_config m) payload.
Proof.
  intros I Hs Hn Hr. pose proof (mstep_view _ _ _ I Hs) as Hv.
  destruct (view_made _ _ _ _ _ Hv Hr) as [(? & ? & _)|(_ & _ & _ & [[-> _]|(f & -> & _ & Ef & Eack & Hown)])]; [congruence|..].
  - inversion Hs; subst. rename select (OpenStream_begin _ _ = _) into Ho.
    apply OpenStream_begin_ok in Ho as (_ & _ & id & m1 & m2 & Ha & Hnew & ->).
    apply allocID_frame in Ha. rewrite Ha in Hnew. injection Hnew as <- <-. cbn in Hr.
    rewrite lookup_insert_eq in Hr. simplify_eq. by exists [].
  - inversion Hs; subst. revert Hr. unfold handleFrame. rewrite decide_True by done.
    unfold handleStreamOpen, acceptPeerOpen. rewrite Eack.
    destruct (m_streams m !! StreamID f); [congruence|]. destruct (ownsID m (StreamID f)); [cbn; congruence|].
    cbn. rewrite lookup_insert. case_decide; [|congruence]. intros [= <-]. by eexists.
Qed.

(** The events of an object over a history of the session. *)
Inductive object_trace (role : MuxRole) (config : MuxConfig) (r : nat)
    : list mlabel → MuxSession → list sevent → Prop :=
| trace_new : object_trace role config r [] (NewMuxSession role config) []
| trace_step es m evs e m' evs' :
    object_trace role config r es m evs → mstep m e m' →
    match m_heap m !! r with Some s => events_of m r s e evs' | None => evs' = [] end →
    object_trace role config r (es ++ [e]) m' (evs ++ evs').

(** The history of an object. *)
Definition object_history (role : MuxRole) (config : MuxConfig) (es : list mlabel) (m : MuxSession) (r : nat) : Prop :=
  ∃ evs, object_trace role config r es m evs ∧
    bytes_read evs = reads r es ∧ chunks_written evs = written r es ∧ (SClose ∈ evs ↔ LClose r ∈ es) ∧
    match m_heap m !! r with
    | None => evs = []
    | Some s => ∃ payload, osteps (opened (s_id s) (mkStreamConfig (InitialStreamWindow config) 0) payload) evs s
    end.

Lemma object_history_step role config es m e m' r :
  mux_inv m → m_config m = config → mstep m e m' →
  object_history role config es m r → object_history role config (es ++ [e]) m' r.
Proof.
  intros I <- Hs. unfold object_history. intros (evs & Ht & H1 & H2 & H3 & Ho).
  destruct (m_heap m !! r) as [s|] eqn:Hr.
  - destruct Ho as (payload & Ho). destruct (mstep_events _ _ _ _ _ I Hs Hr) as (evs' & s' & Hr' & Ho' & He). rewrite Hr'.
    destruct (events_history _ _ _ _ _ He) as (F1 & F2 & F3).
    assert (s_id s' = s_id s) as -> by (destruct (view_grows _ _ _ _ _ (mstep_view _ _ _ I Hs) Hr) as (? & ? & ?); congruence).
    exists (evs ++ evs'). autorewrite with history. rewrite reads_app, written_app, H1, H2, F1, F2.
    split_and!; [eapply trace_step; [done..|by rewrite Hr]|done|done| |exists payload; by eapply osteps_app].
    rewrite !elem_of_app, list_elem_of_singleton. naive_solver.
  - subst evs. assert (reads r [e] = [] ∧ written r [e] = [] ∧ e ≠ LClose r) as (E1 & E2 & E3).
    { split_and!; [destruct Hs; try done; cbn; rewrite decide_False; try done; congruence..|].
      intros ->. inversion Hs; subst. rename select (is_Some _) into Hsome. rewrite Hr in Hsome. by destruct Hsome. }
    exists []. rewrite reads_app, written_app, E1, E2, !app_nil_r.
    split_and!; [apply (trace_step role _ r es m [] e m' []); [done..|by rewrite Hr]|done|done| |].
    { rewrite elem_of_app, list_elem_of_singleton. naive_solver. }
    destruct (m_heap m' !! r) as [s'|] eqn:Hr'; [|done].
    destruct (made_opened _ _ _ _ _ I Hs Hr Hr') as (payload & E). exists payload. rewrite E at 2. constructor.
Qed.

Lemma reachable_history role config es m r :
  fits_ids role config → reachable role config es m → object_history role config es m r.
Proof.
  intros Hfit Hr. remember (NewMuxSession role config) as m0. unfold reachable in Hr. rewrite <-Heqm0 in Hr.
  induction Hr as [|m0 es m1 e m2 Hr IH Hs]; subst; [exists []; split_and!; [constructor|done..|by rewrite !elem_of_nil|done]|]. specialize (IH eq_refl).
  assert (reachable role config es m1) as Hr1 by done.
  eapply object_history_step; [by eapply reachable_inv|by apply (reachable_setup _ _ _ _ Hr1)|done..].
Qed.

(** C7. A session is the product of its streams. Over every interleaving of
    calls, frames and goroutine steps, each one step, each object of the session
    is one that was opened and then moved by exactly its own events, and by
    window updates: the bytes its owner read, the chunks it wrote and its Close
    and Reset, as they stand in the session's history; for each frame that named
    it while it was in the table, the delivery of its bytes, the peer's FIN or
    the peer's reset; the chunks its drain goroutine put out; and a reset when
    the session closed, or when a canceled OpenStream took the stream of its ID
    for its own. No other stream's traffic and no other caller moves it. *)
Theorem session_refines_streams role config es m r s :
  fits_ids role config → reachable role config es m → m_heap m !! r = Some s →
  ∃ payload evs,
    osteps (opened (s_id s) (mkStreamConfig (InitialStreamWindow config) 0) payload) evs s ∧
    object_trace role config r es m evs ∧
    bytes_read evs = reads r es ∧ chunks_written evs = written r es ∧ (SClose ∈ evs ↔ LClose r ∈ es).
Proof.
  intros Hfit Hr Hs. destruct (reachable_history _ _ _ _ r Hfit Hr) as (evs & Ht & H1 & H2 & H3 & Ho).
  rewrite Hs in Ho. destruct Ho as (payload & Ho). by exists payload, evs.
Qed.

(** ** FIN is only sent for a stream that its owner closed *)

Lemma sstep_sets_fin s e s' : sstep s e s' → finCh s' = true → finCh s = true ∨ e = SClose.
Proof.
  intros Hs. destruct Hs as [s n bytes s' Hr|s p s' Hw|s bytes s' ->|s s' ->|s s' ->|s s' ->|s p rest s' Ht ->|s s' Hf ->];
    cbn; auto.
  - unfold Read in Hr. destruct (readBuf s); [by destruct (isReadClosed s)|]. simplify_eq. by left.
  - unfold Write in Hw. destruct (isWriteClosed s); [done|]. repeat case_match; simplify_eq; by left.
  - unfold RemoteClose. destruct (s_state s); cbn; auto.
  - unfold Reset, Reset_locked, Reset_notify. destruct (s_state s); cbn; auto; destruct (resetOnce s); cbn; auto.
Qed.

Lemma osteps_fin s evs s' : osteps s evs s' → finCh s' = true → finCh s = true ∨ SClose ∈ evs.
Proof.
  induction 1 as [|s e s1 es s2 Hs _ IH|s n es s2 _ IH]; [by left| |done]. intros Hf.
  destruct (IH Hf) as [H1|?]; [|right; set_solver]. destruct (sstep_sets_fin _ _ _ Hs H1) as [?| ->]; [by left|right; set_solver].
Qed.

Definition fin_inv (es : list mlabel) (m : MuxSession) : Prop :=
  ∀ r s, m_heap m !! r = Some s →
    m_drain m !! r = Some DrainFlush ∨ (∃ id, fin_frame id ∈ output r es) → LClose r ∈ es.

Lemma drain_moves m r c m' :
  drainStream m r c = Some m' →
  (∀ r', r' ≠ r → m_drain m' !! r' = m_drain m !! r') ∧
  (m_drain m' !! r = Some DrainFlush →
     m_drain m !! r = Some DrainFlush ∨ ∃ s, m_heap m !! r = Some s ∧ finCh s = true) ∧
  (c = DrainFlushed → m_drain m !! r = Some DrainFlush).
Proof.
  unfold drainStream. destruct (m_heap m !! r) as [s|] eqn:Hr, (m_drain m !! r) as [pc|] eqn:Hd; try done.
  assert (∀ m1 pc', m_drain m1 = m_drain m → m_drain (set_drain_pc r pc' m1) = <[r := pc']> (m_drain m)) as Hset
    by (intros m1 pc' E; cbn; by rewrite E).
  destruct c, pc; try done; repeat case_match; try done; intros [= <-]; cbn;
    (split_and!; [intros r' Hne; by rewrite ?lookup_insert_ne by done|rewrite ?lookup_insert_eq, ?Hd; eauto|done || eauto]);
    intros [=].
Qed.

Lemma fin_inv_step role config es m e m' :
  mux_inv m → order_inv es m → (∀ r, object_history role config es m r) → mstep m e m' →
  fin_inv es m → fin_inv (es ++ [e]) m'.
Proof.
  intros I O Hh Hs Hf r s' Hr'. rewrite output_app. pose proof (mstep_view _ _ _ I Hs) as Hv.
  assert (∀ r, LClose r ∈ es → LClose r ∈ es ++ [e]) as Hup by set_solver.
  destruct (mstep_quiet _ _ _ I Hs) as [(r0 & p & ->)|[(r0 & out & ->)|[Q Hq]]].
  - inversion Hs; subst. rewrite app_nil_r.
    destruct (view_made _ _ _ _ _ Hv Hr') as [(s1 & Hr & _)|(_ & _ & _ & [[? _]|(? & ? & _)])]; try done. eauto.
  - inversion Hs as [| | | | | | | | | | | | |? ? c ? ? Hd Eo| | | | | | | |]; subst.
    destruct (view_made _ _ _ _ _ Hv Hr') as [(s & Hr & _)|(_ & _ & _ & [[? _]|(? & ? & _)])]; try done.
    destruct (drain_moves _ _ _ _ Hd) as (Hne & Hfl & Hfd). intros Hor. apply Hup.
    destruct (decide (r = r0)) as [->|Hn].
    2:{ rewrite Hne in Hor by done. apply (Hf _ _ Hr). destruct Hor as [?|[id Hid]]; [by left|right; exists id].
        revert Hid. cbn. destruct (drain_output m r0 c); [rewrite decide_False by done|]; by rewrite app_nil_r. }
    assert (finCh s = true → LClose r0 ∈ es) as Hclose.
    { intros Hfin. destruct (Hh r0) as (evs & _ & _ & _ & Hc & Ho). rewrite Hr in Ho. destruct Ho as (payload & Ho).
      by destruct (osteps_fin _ _ _ Ho Hfin) as [|?%Hc]. }
    destruct Hor as [[?|(s0 & ? & ?)]%Hfl|[id Hid]]; [by eauto|simplify_eq; by auto|]. apply (Hf _ _ Hr).
    apply elem_of_app in Hid as [?|Hid]; [right; by exists id|left]. apply Hfd. revert Hid. cbn.
    unfold drain_output. rewrite Hr. destruct c; cbn; try by intros ?%not_elem_of_nil. 2: done.
    destruct (head (writeOut s)); cbn; [|by intros ?%not_elem_of_nil].
    rewrite decide_True by done. by intros ?%list_elem_of_singleton.
  - destruct (Hq r) as [_ Eo]. rewrite Eo, app_nil_r. specialize (Q r). intros Hor. apply Hup.
    specialize (O r). destruct (m_heap m !! r) as [s|] eqn:Hr.
    + destruct Q as [E _]. rewrite E in Hor. by eapply Hf.
    + destruct O as [_ Eout]. destruct Hor as [Hd|[id Hid]]; [|rewrite Eout in Hid; by apply not_elem_of_nil in Hid].
      destruct Q as [?|[? _]]; congruence.
Qed.

Lemma reachable_fin role config es m : fits_ids role config → reachable role config es m → fin_inv es m.
Proof.
  intros Hfit Hr. remember (NewMuxSession role config) as m0. unfold reachable in Hr. rewrite <-Heqm0 in Hr.
  induction Hr as [|m0 es m1 e m2 Hr IH Hs]; subst; [done|]. specialize (IH eq_refl).
  assert (reachable role config es m1) as Hr1 by done.
  eapply (fin_inv_step role config); [by eapply reachable_inv|by eapply reachable_order|intros r; by eapply reachable_history|done..].
Qed.
