(* ===== verification/RouteCopy.v ===== *)
(** * The relay's copy: copyBidirectional of [pkg/relay/router_impl.go]

    Route copies between the client's connection and the stream with two
    goroutines (Pump.v), each of which cancels the context when its copy ends;
    a third closes the connection and resets the stream when the context is
    done; the caller takes both results. *)

From Stdlib Require Import ZArith Lia.
From S2P Require Import Prelude Frame Stream Pump.

(** ** Goroutines *)

Inductive CopyMain := WaitFirst | WaitSecond (first : bool) | CopyResult (err : bool).

Record BiCopy := mkBiCopy {
  b_pump : Pump;
  b_ctx : bool;                    (* the derived context is done *)
  b_closer : bool;                 (* the third goroutine has run *)
  b_errCh : list bool;             (* chan error, 2: whether there is an error *)
  b_main : CopyMain
}.

Definition copyBidirectional (s : StreamSession) (client : Conn) : BiCopy :=
  mkBiCopy (new_pump s client) false false [] WaitFirst.

Definition with_pump (p : Pump) (b : BiCopy) : BiCopy :=
  mkBiCopy p (b_ctx b) (b_closer b) (b_errCh b) (b_main b).

(** The end of a goroutine: [cancel(); errCh <- err]. *)
Definition toClient_end (b : BiCopy) (err : bool) : BiCopy :=
  let p := b_pump b in
  mkBiCopy (mkPump (p_stream p) (p_conn p) (CopyDone err) (p_toStream p)) true (b_closer b)
    (b_errCh b ++ [err]) (b_main b).
Definition toAgent_end (b : BiCopy) (err : bool) : BiCopy :=
  let p := b_pump b in
  mkBiCopy (mkPump (p_stream p) (p_conn p) (p_toConn p) (CopyDone err)) true (b_closer b)
    (b_errCh b ++ [err]) (b_main b).

(** The goroutine that waits for the context. *)
Definition closer (b : BiCopy) : option BiCopy :=
  let p := b_pump b in
  if b_ctx b && negb (b_closer b)
  then Some (mkBiCopy (mkPump (Stream.Reset (p_stream p)).1 (conn_Close (p_conn p)) (p_toConn p) (p_toStream p))
               (b_ctx b) true (b_errCh b) (b_main b))
  else None.

(** [firstErr := <-errCh; <-errCh; ...], with the deferred cancel. *)
Definition copy_main (b : BiCopy) : option BiCopy :=
  match b_errCh b with
  | [] => None
  | e :: rest =>
      match b_main b with
      | WaitFirst => Some (mkBiCopy (b_pump b) (b_ctx b) (b_closer b) rest (WaitSecond e))
      | WaitSecond first =>
          Some (mkBiCopy (b_pump b) true (b_closer b) rest
                  (CopyResult (if first && b_ctx b then false else first)))
      | CopyResult _ => None
      end
  end.

Inductive bstep : BiCopy → list plabel → BiCopy → Prop :=
| bstep_copy b l p : copy_step (b_pump b) l p → bstep b [l] (with_pump p b)
| bstep_toClient b err : p_toConn (b_pump b) = CopyReturned err → bstep b [] (toClient_end b err)
| bstep_toAgent b err : p_toStream (b_pump b) = CopyReturned err → bstep b [] (toAgent_end b err)
| bstep_closer b b' : closer b = Some b' → bstep b [PStream SReset] b'
| bstep_main b b' : copy_main b = Some b' → bstep b [] b'.

(** What happens around: the other ends, and the caller's context. *)
Inductive benv : BiCopy → list plabel → BiCopy → Prop :=
| benv_pump b l p : env_step (b_pump b) l p → benv b [l] (with_pump p b)
| benv_cancel b : benv b [] (mkBiCopy (b_pump b) true (b_closer b) (b_errCh b) (b_main b)).

Inductive bsteps : BiCopy → list plabel → BiCopy → Prop :=
| bsteps_nil b : bsteps b [] b
| bsteps_step b ls b1 l b2 : bsteps b ls b1 → bstep b1 l b2 → bsteps b (ls ++ l) b2
| bsteps_env b ls b1 l b2 : bsteps b ls b1 → benv b1 l b2 → bsteps b (ls ++ l) b2.

(** ** The invariant *)

Definition got (m : CopyMain) : nat :=
  match m with WaitFirst => 0 | WaitSecond _ => 1 | CopyResult _ => 2 end.

(** The owner has not closed its side of the stream. *)
Definition no_local_close (s : StreamSession) : Prop :=
  finCh s = false ∧ localCloseOnce s = false ∧
  s_state s ≠ StateHalfClosedLocal ∧ s_state s ≠ StateClosed.

Lemma sstep_no_local_close s e s' :
  e ≠ SClose → sstep s e s' → no_local_close s → no_local_close s'.
Proof.
  intros He Hs (H1 & H2 & H3 & H4). unfold no_local_close.
  destruct Hs as [s n bytes s' Hr|s p s' Hw|s bytes s' ->|s s' ->|s s' ->|s s' ->|s p rest s' Ht ->|s s' Hf ->];
    try done.
  - unfold Read in Hr. destruct (readBuf s); [by destruct (isReadClosed s)|]. by simplify_eq.
  - unfold Write in Hw. destruct (Stream.isWriteClosed s); [done|].
    case_bool_decide; [by simplify_eq|]. by destruct (closedCh s).
  - unfold RemoteClose. by destruct (s_state s) eqn:E; cbn; rewrite ?E.
  - unfold Reset, Reset_locked, Reset_notify. destruct (s_state s) eqn:E; cbn; rewrite ?E; try done;
      by destruct (resetOnce s).
Qed.

Section invariant.
Context (id : Z) (cfg : StreamConfig) (payload : list byte).

Record bicopy_inv (ls : list plabel) (b : BiCopy) : Prop := {
  bi_pump : pump_inv ls (opened id cfg payload) (b_pump b);
  bi_closer : b_closer b = true →
    c_closed (p_conn (b_pump b)) = true ∧ over (p_stream (b_pump b)) = true ∧ b_ctx b = true;
  bi_errs : (length (b_errCh b) + got (b_main b) =
             ended (p_toConn (b_pump b)) + ended (p_toStream (b_pump b)))%nat;
  bi_cancel : (0 < ended (p_toConn (b_pump b)) + ended (p_toStream (b_pump b)))%nat → b_ctx b = true;
  bi_open : no_local_close (p_stream (b_pump b));
  bi_result : match b_main b with CopyResult err => err = false | _ => True end
}.

Lemma bicopy_inv_init : bicopy_inv [] (copyBidirectional (opened id cfg payload) new_conn).
Proof. split; try done; [apply new_pump_inv|cbn; lia]. Qed.

Lemma copy_step_no_close p l p' :
  copy_step p l p' → no_local_close (p_stream p) → no_local_close (p_stream p').
Proof.
  intros Hs. destruct Hs as [s c q n w s' Hn Hr| | | | | | |s c q w s' Hw|]; cbn; try done.
  - by eapply sstep_no_local_close, sstep_read.
  - by eapply sstep_no_local_close, sstep_write.
Qed.

Lemma bicopy_inv_copy ls b l p :
  bicopy_inv ls b → copy_step (b_pump b) l p → bicopy_inv (ls ++ [l]) (with_pump p b).
Proof.
  intros [I1 I2 I3 I4 I5 I6] Hs. pose proof (copy_step_ended _ _ _ Hs) as [E1 E2].
  pose proof (copy_step_closed _ _ _ Hs) as (C1 & C2 & C3).
  split; cbn; rewrite ?E1, ?E2; try done;
    [by eapply copy_step_inv|naive_solver|by eapply copy_step_no_close].
Qed.

Lemma bicopy_inv_end ls b err :
  bicopy_inv ls b →
  (p_toConn (b_pump b) = CopyReturned err → bicopy_inv ls (toClient_end b err)) ∧
  (p_toStream (b_pump b) = CopyReturned err → bicopy_inv ls (toAgent_end b err)).
Proof.
  intros [I1 I2 I3 I4 I5 I6]. destruct b as [[s c q1 q2] ctx cl errs m]. cbn in *.
  split; intros ->; (split; cbn; [by destruct I1; split; [done|by eapply flow_inv_same|done]|naive_solver|rewrite length_app; cbn in *; lia|done..]).
Qed.

Lemma bicopy_inv_closer ls b b' :
  bicopy_inv ls b → closer b = Some b' → bicopy_inv (ls ++ [PStream SReset]) b'.
Proof.
  intros [I1 I2 I3 I4 I5 I6]. unfold closer. destruct (b_ctx b) eqn:Ec, (b_closer b) eqn:El; try done.
  intros [= <-]. destruct b as [[s c q1 q2] ctx cl errs m]. cbn in *.
  split; cbn; try done.
  - eapply pump_inv_quiet; [by eapply pump_inv_conn|done|by apply sstep_reset].
  - by rewrite Reset_over.
  - by eapply sstep_no_local_close, I5; [|by apply sstep_reset].
Qed.

Lemma bicopy_inv_main ls b b' : bicopy_inv ls b → copy_main b = Some b' → bicopy_inv ls b'.
Proof.
  intros [I1 I2 I3 I4 I5 I6]. unfold copy_main. destruct (b_errCh b) as [|e rest] eqn:Ee; [done|].
  cbn in I3. destruct (b_main b) as [|first|] eqn:Em; [..|done]; intros [= <-]; cbn in I3.
  - split; cbn; try done. lia.
  - rewrite I4 by lia. split; cbn; try done; [naive_solver|lia|by destruct first].
Qed.

Lemma bstep_inv ls b l b' : bicopy_inv ls b → bstep b l b' → bicopy_inv (ls ++ l) b'.
Proof.
  intros I Hs. destruct Hs as [| | | |]; rewrite ?app_nil_r; eauto using bicopy_inv_copy, bicopy_inv_closer, bicopy_inv_main.
  - by apply bicopy_inv_end.
  - by apply bicopy_inv_end.
Qed.

Lemma benv_inv ls b l b' : bicopy_inv ls b → benv b l b' → bicopy_inv (ls ++ l) b'.
Proof.
  intros [I1 I2 I3 I4 I5 I6] He. destruct He as [b l p Hs|b]; cbn; rewrite ?app_nil_r;
    [|split; cbn; try done; naive_solver].
  pose proof (env_step_pcs _ _ _ Hs) as [E1 E2]. pose proof (env_step_closed _ _ _ Hs) as (C1 & C2 & C3).
  split; cbn; rewrite ?E1, ?E2, ?C1; try done; [by eapply env_step_inv|naive_solver|].
  destruct Hs as [s c q1 q2 e s' He Hs| | |]; cbn in *; try done.
  eapply sstep_no_local_close; [|done|done]. by intros ->.
Qed.

Lemma bsteps_inv ls b : bsteps (copyBidirectional (opened id cfg payload) new_conn) ls b → bicopy_inv ls b.
Proof.
  intros Hs. remember (copyBidirectional _ _) as b0. induction Hs; subst;
    eauto using bicopy_inv_init, bstep_inv, benv_inv.
Qed.
End invariant.

(** ** Theorems *)

Definition bicopy_returned (b : BiCopy) : bool := match b_main b with CopyResult _ => true | _ => false end.

(** How far the goroutines are from their ends. *)
Definition bicopy_rank (b : BiCopy) : nat :=
  copy_rank (p_toConn (b_pump b)) + copy_rank (p_toStream (b_pump b)) + (2 - got (b_main b)).

Section ending.
Context (id : Z) (cfg : StreamConfig) (payload : list byte).

Lemma bstep_rank ls b l b' :
  bicopy_inv id cfg payload ls b → b_closer b = true → bstep b l b' →
  (bicopy_rank b' < bicopy_rank b)%nat ∧ b_closer b' = true.
Proof.
  intros [_ I2 _ _ _ _] Hcl Hs. destruct (I2 Hcl) as (Hc & Ho & Hx). unfold bicopy_rank.
  destruct Hs as [b l p Hs|b err E|b err E|b b' E|b b' E]; cbn.
  - pose proof (copy_step_rank _ _ _ Hc Ho Hs). split; [lia|done].
  - rewrite E. cbn. split; [lia|done].
  - rewrite E. cbn. split; [lia|done].
  - unfold closer in E. rewrite Hcl, andb_false_r in E. done.
  - unfold copy_main in E. destruct (b_errCh b); [done|].
    destruct (b_main b); simplify_eq/=; (split; [lia|done]).
Qed.

Lemma bstep_progress ls b :
  bicopy_inv id cfg payload ls b → b_closer b = true → bicopy_returned b = false → ∃ l b', bstep b l b'.
Proof.
  intros [_ I2 I3 _ _ _] Hcl Hn. destruct (I2 Hcl) as (Hc & Ho & Hx). unfold bicopy_returned in Hn.
  destruct (b_errCh b) as [|e rest] eqn:Ee.
  - assert (ended (p_toConn (b_pump b)) = 0 ∨ ended (p_toStream (b_pump b)) = 0)%nat as He.
    { destruct (p_toConn (b_pump b)), (p_toStream (b_pump b)), (b_main b); cbn in *; auto; lia. }
    destruct (copy_unblocked _ Hc Ho He) as [(l & p' & Hs)|[[err E]|[err E]]].
    + do 2 eexists. by apply bstep_copy.
    + do 2 eexists. by apply bstep_toClient.
    + do 2 eexists. by apply bstep_toAgent.
  - destruct (copy_main b) as [b'|] eqn:E; [do 2 eexists; by apply bstep_main|].
    unfold copy_main in E. rewrite Ee in E. by destruct (b_main b).
Qed.
End ending.

(** C33. The copy ends when one direction ends. As soon as either copy has
    ended, or the caller's context is done, the goroutine that tears both ends
    down can run; once it has, nothing blocks: until the copy has returned some
    goroutine can take a step, every step brings them nearer their ends,
    nothing from outside takes them back, and at most 8 steps are left. *)
Theorem route_copy_terminates id cfg payload ls b :
  bsteps (copyBidirectional (opened id cfg payload) new_conn) ls b →
  ((0 < ended (p_toConn (b_pump b)) + ended (p_toStream (b_pump b)))%nat ∨ b_ctx b = true →
     b_closer b = true ∨ is_Some (closer b)) ∧
  (b_closer b = true →
     (bicopy_rank b <= 8)%nat ∧
     (bicopy_returned b = false → ∃ l b', bstep b l b') ∧
     (∀ l b', bstep b l b' → (bicopy_rank b' < bicopy_rank b)%nat ∧ b_closer b' = true) ∧
     (∀ l b', benv b l b' → bicopy_rank b' = bicopy_rank b ∧ b_closer b' = true)).
Proof.
  intros I%bsteps_inv. split.
  - intros Hor. assert (b_ctx b = true) as Hx by (destruct Hor; [by apply (bi_cancel _ _ _ _ _ I)|done]).
    unfold closer. rewrite Hx. destruct (b_closer b); [by left|right; by eexists].
  - intros Hcl. split_and!; eauto using bstep_progress, bstep_rank.
    + unfold bicopy_rank. destruct (p_toConn (b_pump b)), (p_toStream (b_pump b)), (b_main b); cbn; lia.
    + intros l b' Hs. destruct Hs as [b l p Hs|]; [|done].
      destruct (env_step_pcs _ _ _ Hs) as [E1 E2]. unfold bicopy_rank. cbn. by rewrite E1, E2.
Qed.

(** The relay passes bytes on faithfully but never half-closes. Over every
    interleaving what the client was sent is what was read from the stream, in
    order, short of what the copy holds and, after an error, of what it gave
    up, and likewise towards the stream; the relay never closes its side of the
    stream, so no FIN is ever sent: after the tear-down the stream is reset;
    and the result is never an error. *)
Theorem route_copy_resets id cfg payload ls b :
  bsteps (copyBidirectional (opened id cfg payload) new_conn) ls b →
  let p := b_pump b in
  let es := stream_events ls in
  (∃ lost, c_out (p_conn p) ++ in_hand (p_toConn p) ++ lost = bytes_read es ∧
           (failed (p_toConn p) = false → lost = [])) ∧
  (∃ lost, mjoin (chunks_written es) ++ in_hand (p_toStream p) ++ lost ++ c_in (p_conn p)
           = conn_received ls ∧
           (failed (p_toStream p) = false → lost = [])) ∧
  finCh (p_stream p) = false ∧
  (b_closer b = true → s_state (p_stream p) = StateReset ∧ c_closed (p_conn p) = true) ∧
  (∀ err, b_main b = CopyResult err → err = false ∧ b_ctx b = true).
Proof.
  intros [[H1 [H2 H3 H4 (lost & H5 & H5') H7] H6] I2 I3 I4 (F1 & F2 & F3 & F4) I6]%bsteps_inv. cbn zeta.
  rewrite H2. split_and!; [done| |done| |].
  - exists lost. split; [|done]. by rewrite <-H3, <-H5, <-!(assoc_L (++)).
  - intros Hcl. destruct (I2 Hcl) as (Hc & Ho & _). split; [|done]. unfold over in Ho.
    by destruct (s_state (p_stream (b_pump b))).
  - intros err E. rewrite E in I3, I6. split; [done|]. apply I4. cbn in I3. lia.
Qed.
