(* ===== verification/ClientListener.v ===== *)
(** * Client connections: [pkg/relay/client_listener.go]

    ClientListener: the TCP listeners of the relay's ports, their accept loops,
    and handleClient, which checks the rate limit of the port's customer and
    routes. A net.Listener is an object that can be closed; whether the
    operating system grants an address is an argument. *)

From Stdlib Require Import ZArith Lia SpecFloat.
From S2P Require Import Prelude Frame Window WriteQueue Stream Mux MuxInv Config Registry RateLimit Router.

(** ** Data *)

Record Listener := mkListener { ln_addr : string; ln_open : bool }.

Section client_listener.
Context `{RateLimiter Lim}.

Record ClientListener := mkClientListener {
  rateLimiters : gmap string (IPRateLimiter Lim);
  listeners : gmap Z nat;                  (* port -> net.Listener *)
  lns : gmap nat Listener                  (* the listener objects *)
}.

(** [func NewClientListener(cfg ClientListenerConfig) *ClientListener] *)
Definition NewClientListener : ClientListener := mkClientListener ∅ ∅ ∅.

(** [func (cl *ClientListener) SetRateLimiter(customerID, rps, burst)] *)
Definition SetRateLimiter (cl : ClientListener) (customer : string) (rps : spec_float) (burst : Z)
    : ClientListener :=
  if f64_nonpos rps then cl
  else mkClientListener (<[customer := NewIPRateLimiter rps burst]> (rateLimiters cl))
         (listeners cl) (lns cl).

(** The addresses something listens on. *)
Definition bound_addrs (cl : ClientListener) : list string :=
  ln_addr <$> filter (λ ln, ln_open ln = true) (map_to_list (lns cl)).*2.

(** [net.Listen("tcp", addr)], which the operating system decides by the
    addresses in use. *)
Context (can_listen : list string → string → bool).

(** [func (cl *ClientListener) StartPort(ctx, addr, port) error], and the first
    part of StartPortWithListener: [None] is the error of net.Listen. *)
Definition StartPort (cl : ClientListener) (addr : string) (port : Z) : option ClientListener :=
  if can_listen (bound_addrs cl) addr
  then let ln := fresh (dom (lns cl)) in
       Some (mkClientListener (rateLimiters cl) (<[port := ln]> (listeners cl))
               (<[ln := mkListener addr true]> (lns cl)))
  else None.

Definition close_listener (ln : Listener) : Listener := mkListener (ln_addr ln) false.

(** [func (cl *ClientListener) StopPort(port int) error]: [None] is its error. *)
Definition StopPort (cl : ClientListener) (port : Z) : option ClientListener :=
  ln ← listeners cl !! port;
  Some (mkClientListener (rateLimiters cl) (delete port (listeners cl))
          (alter close_listener ln (lns cl))).

(** [func (cl *ClientListener) Stop()] *)
Definition StopAll (cl : ClientListener) : ClientListener :=
  mkClientListener ∅ ∅ (foldr (λ kv acc, alter close_listener kv.2 acc) (lns cl)
                           (map_to_list (listeners cl))).

(** [func (cl *ClientListener) Addr(port int) net.Addr]: nil without a listener. *)
Definition PortAddr (cl : ClientListener) (port : Z) : option string :=
  match listeners cl !! port with
  | Some ln => ln_addr <$> lns cl !! ln
  | None => None
  end.

(** A started port has the address it was started with until it is stopped, and
    starting or stopping it leaves the addresses of the other ports alone. *)
Lemma start_stop_addr cl addr port cl' :
  (∀ p ln, listeners cl !! p = Some ln → is_Some (lns cl !! ln)) → StartPort cl addr port = Some cl' →
  PortAddr cl' port = Some addr ∧ (∀ p, p ≠ port → PortAddr cl' p = PortAddr cl p) ∧
  ∃ cl2, StopPort cl' port = Some cl2 ∧ PortAddr cl2 port = None.
Proof.
  intros Hin. unfold StartPort. case_match; [|done]. intros [= <-]. unfold PortAddr, StopPort. cbn.
  rewrite !lookup_insert_eq. split_and!; [done| |].
  - intros p Hp. rewrite lookup_insert_ne by done. destruct (listeners cl !! p) as [ln|] eqn:E; [|done].
    rewrite lookup_insert_ne; [done|]. intros <-. destruct (Hin _ _ E) as [x Hx].
    apply (is_fresh (dom (lns cl))). by apply elem_of_dom_2 in Hx.
  - eexists. split; [done|]. cbn. by rewrite lookup_delete_eq.
Qed.

(** ** The accept loop *)

(** What a turn of the loop of StartPortWithListener does with the result of
    Accept: return, or go on, with a goroutine for the connection if there is
    one. *)
Inductive accept_turn (Conn : Type) := AcceptReturn | AcceptContinue (spawned : option Conn).
#[global] Arguments AcceptReturn {Conn}.
#[global] Arguments AcceptContinue {Conn}.

Definition accept_body {Conn} (accepted : option Conn) (ctxDone : bool) : accept_turn Conn :=
  match accepted with
  | None => if ctxDone then AcceptReturn else AcceptContinue None
  | Some conn => AcceptContinue (Some conn)
  end.

(** The loop from its [i]-th turn on: [accept i] and [ctxDone i] are what that
    turn meets. [None] when it does not return within [fuel] turns. *)
Fixpoint acceptLoop {Conn} (fuel : nat) (accept : nat → option Conn) (ctxDone : nat → bool) (i : nat)
    : option (list Conn) :=
  match fuel with
  | O => None
  | S fuel' =>
      match accept_body (accept i) (ctxDone i) with
      | AcceptReturn => Some []
      | AcceptContinue spawned =>
          conns ← acceptLoop fuel' accept ctxDone (S i); Some (option_list spawned ++ conns)
      end
  end.

(** ** Clients *)

Inductive ClientOutcome :=
| ClientNoMapping
| ClientRateLimited
| ClientRouted (res : result RouteErr (nat * nat)).

Context `{AgentRegistryLaws R}.

(** [func (cl *ClientListener) handleClient(ctx, conn, port)], for a client from
    the address [ip] at the time [now]. *)
Definition handleClient (cl : ClientListener) (r : gmap Z portEntry) (reg : R) (now : Z)
    (ip : string) (port : Z) : ClientListener * R * ClientOutcome :=
  match LookupPort r port with
  | None => (cl, reg, ClientNoMapping)
  | Some (customer, _) =>
      match rateLimiters cl !! customer with
      | None => let '(reg', res) := Route r reg customer port in (cl, reg', ClientRouted res)
      | Some rl =>
          let '(ok, rl') := Allow rl now ip in
          let cl' := mkClientListener (<[customer := rl']> (rateLimiters cl)) (listeners cl) (lns cl) in
          if ok
          then let '(reg', res) := Route r reg customer port in (cl', reg', ClientRouted res)
          else (cl', rg_metrics (ClientRejected customer "rate_limited") reg, ClientRateLimited)
      end
  end.

(** Route touches no session but that of the customer it is called for. *)
Lemma Route_spec r reg customer port reg' res :
  rg_ok reg → Route r reg customer port = (reg', res) →
  (∀ c live, rg_conn reg c = Some live → lc_customerID live ≠ customer → rg_conn reg' c = Some live) ∧
  match res with
  | Ok (c, s) =>
      ∃ live m', rg_conn reg c = Some live ∧ lc_customerID live = customer ∧
        OpenStream_begin (lc_mux live) (service_payload (default "" (service <$> r !! port))) = Ok (s, m') ∧
        (0 < default 0 (maxStreams <$> r !! port) →
         NumStreams (lc_mux live) < default 0 (maxStreams <$> r !! port)) ∧
        reg' = rg_set_mux reg c m'
  | Err e => ∀ c, rg_conn reg' c = rg_conn reg c
  end.
Proof.
  intros Hok. unfold Route. destruct (rg_Lookup reg customer) as [c|e] eqn:El; [|by intros [= <- <-]].
  destruct (rg_owner _ _ _ Hok El) as (live & Hc & Hl). rewrite Hc. cbn zeta.
  case_bool_decide as Hlim.
  { intros [= <- <-]. split; intros; by rewrite rg_metrics_conn. }
  destruct (OpenStream_begin _ _) as [[s m']|e] eqn:Eo; intros [= <- <-]; [|done]. split.
  - intros c' live' Hc' Hl'. rewrite rg_set_conn. case_decide; [|done]. subst. simplify_eq.
  - exists live, m'. split_and!; try done. lia.
Qed.

(** C11. Tenants are isolated at the relay: whatever a client on a port does,
    no session of a customer other than the one the port is mapped to
    changes. On every branch: without a mapping nothing happens; a client
    over the rate limit of that customer only costs a rejection; a routed
    client either fails and leaves all sessions alone, or opens one stream,
    on the session of the port's customer, with the port's service as its
    payload, and only below the port's stream limit. *)
Theorem client_isolation cl r reg now ip port cl' reg' out :
  rg_ok reg → handleClient cl r reg now ip port = (cl', reg', out) →
  match r !! port with
  | None => out = ClientNoMapping ∧ reg' = reg ∧ cl' = cl
  | Some e =>
      (∀ c live, rg_conn reg c = Some live → lc_customerID live ≠ customerID e →
         rg_conn reg' c = Some live) ∧
      match out with
      | ClientNoMapping => False
      | ClientRateLimited =>
          (∃ rl, rateLimiters cl !! customerID e = Some rl ∧ (Allow rl now ip).1 = false) ∧
          ∀ c, rg_conn reg' c = rg_conn reg c
      | ClientRouted (Err _) => ∀ c, rg_conn reg' c = rg_conn reg c
      | ClientRouted (Ok (c, s)) =>
          ∃ live m', rg_conn reg c = Some live ∧ lc_customerID live = customerID e ∧
            OpenStream_begin (lc_mux live) (service_payload (service e)) = Ok (s, m') ∧
            (0 < maxStreams e → NumStreams (lc_mux live) < maxStreams e) ∧
            reg' = rg_set_mux reg c m'
      end
  end.
Proof.
  intros Hok. unfold handleClient, LookupPort.
  destruct (r !! port) as [e|] eqn:Ep; cbn [fmap option_fmap option_map]; [|by intros [= <- <- <-]].
  destruct (Route r reg (customerID e) port) as [reg1 res] eqn:Er.
  pose proof (Route_spec r reg (customerID e) port reg1 res Hok Er) as Hr. rewrite Ep in Hr.
  destruct (rateLimiters cl !! customerID e) as [rl|] eqn:El.
  - destruct (Allow rl now ip) as [[] rl'] eqn:Ea; intros [= <- <- <-]; [by destruct res as [[]|]|].
    split; [intros; by rewrite rg_metrics_conn|]. split; [exists rl; by rewrite Ea|].
    intros c. by rewrite rg_metrics_conn.
  - intros [= <- <- <-]. by destruct res as [[]|].
Qed.

(** The accept loop of a port returns exactly when some Accept fails after
    the context was canceled. In particular StopPort, which closes the listener
    while the relay goes on running, does not end it: from then on every Accept
    fails at once, and the loop turns for ever without returning. *)
Theorem accept_loop_returns {Conn} (accept : nat → option Conn) (ctxDone : nat → bool) i :
  (∃ fuel l, acceptLoop fuel accept ctxDone i = Some l) ↔
  ∃ j, (i <= j)%nat ∧ accept j = None ∧ ctxDone j = true.
Proof.
  split.
  - intros (fuel & l & E). revert i l E. induction fuel as [|fuel IH]; intros i l E; cbn in E; [done|].
    destruct (accept i) eqn:Ea; cbn in E; [|destruct (ctxDone i) eqn:Ed; cbn in E; [by eauto|]].
    all: destruct (acceptLoop fuel accept ctxDone (S i)) as [l'|] eqn:El; [|done].
    all: destruct (IH _ _ El) as (j & ? & ?); exists j; split; [lia|done].
  - intros (j & Hj & Ha & Hd). remember (j - i)%nat as n eqn:En. revert i Hj En.
    induction n as [|n IH]; intros i Hj En.
    + assert (i = j) as -> by lia. exists 1%nat, []. cbn. by rewrite Ha, Hd.
    + destruct (IH (S i)) as (fuel & l & El); [lia..|]. 
      destruct (accept i) eqn:Ea; [|destruct (ctxDone i) eqn:Ed].
      all: eexists (S fuel), _; cbn; rewrite Ea, ?Ed; cbn; rewrite ?El; done.
Qed.
End client_listener.

Arguments ClientListener Lim : clear implicits.
