(* ===== verification/Store.v ===== *)
(** * The sidecar store: [pkg/relay/store.go]

    SidecarStore keeps the port mappings in a JSON file that it replaces by
    writing a temporary file and renaming it. The text of the file is that of
    Json.v; the file system is a map from paths to contents; which calls into
    the operating system fail is an argument. *)

From Stdlib Require Import ZArith Lia.
From S2P Require Import Prelude Text Json Frame Window WriteQueue Stream Mux MuxInv Registry Router.

Definition sidecarVersion : string := "1".

Record SidecarPort := mkSidecarPort {
  sp_Port : Z;
  sp_CustomerID : string;
  sp_Service : string;
  sp_ListenAddr : string;
  sp_MaxStreams : Z
}.

(** [sd_Ports] is [None] for a nil slice, which JSON null decodes to. *)
Record SidecarData := mkSidecarData { sd_Version : string; sd_Ports : option (list SidecarPort) }.

Inductive StoreErr :=
| SErrRead
| SErrParse (path : string)
| SErrVersion (got : string)
| SErrCreateTemp
| SErrWriteTemp
| SErrCloseTemp
| SErrRename.

(** ** The text of the file *)

Definition port_json (p : SidecarPort) : json :=
  jobj [("port", jint (sp_Port p)); ("customer_id", jstr (sp_CustomerID p)); ("service", jstr (sp_Service p));
        ("listen_addr", jstr (sp_ListenAddr p)); ("max_streams", jint (sp_MaxStreams p))].

Definition sidecar_json (d : SidecarData) : json :=
  jobj [("version", jstr (sd_Version d));
        ("ports", match sd_Ports d with Some l => JArr (port_json <$> l) | None => JNull end)].

(** [json.MarshalIndent(data, "", "  ")] *)
Definition Marshal (d : SidecarData) : list byte := json_MarshalIndent (sidecar_json d).

(** The fields of SidecarPort, by the names in their tags. *)
Definition port_fields : setters SidecarPort :=
  [("port", λ p v, (λ z, mkSidecarPort z (sp_CustomerID p) (sp_Service p) (sp_ListenAddr p) (sp_MaxStreams p))
                     <$> int_field (sp_Port p) v);
   ("customer_id", λ p v, (λ s, mkSidecarPort (sp_Port p) s (sp_Service p) (sp_ListenAddr p) (sp_MaxStreams p))
                     <$> string_field (sp_CustomerID p) v);
   ("service", λ p v, (λ s, mkSidecarPort (sp_Port p) (sp_CustomerID p) s (sp_ListenAddr p) (sp_MaxStreams p))
                     <$> string_field (sp_Service p) v);
   ("listen_addr", λ p v, (λ s, mkSidecarPort (sp_Port p) (sp_CustomerID p) (sp_Service p) s (sp_MaxStreams p))
                     <$> string_field (sp_ListenAddr p) v);
   ("max_streams", λ p v, (λ z, mkSidecarPort (sp_Port p) (sp_CustomerID p) (sp_Service p) (sp_ListenAddr p) z)
                     <$> int_field (sp_MaxStreams p) v)].

Definition zero_port : SidecarPort := mkSidecarPort 0 "" "" "" 0.

(** SidecarData while it is decoded: [ld_array] is what the array of the slice
    holds, some of it perhaps beyond the length of the slice. *)
Record Loading := mkLoading { ld_Version : string; ld_Ports : option (list SidecarPort); ld_array : list SidecarPort }.

Definition set_ports (x : Loading) (v : json) : option Loading :=
  match v with
  | JNull => Some (mkLoading (ld_Version x) None [])
  | JArr [] => Some (mkLoading (ld_Version x) (Some []) [])
  | JArr l => (λ ps, mkLoading (ld_Version x) (Some ps) (ps ++ drop (length ps) (ld_array x)))
                <$> decode_elems (decode_struct port_fields) zero_port (ld_array x) l
  | _ => None
  end.

Definition data_fields : setters Loading :=
  [("version", λ x v, (λ s, mkLoading s (ld_Ports x) (ld_array x)) <$> string_field (ld_Version x) v);
   ("ports", set_ports)].

(** [json.Unmarshal(b, &data)] *)
Definition Unmarshal (b : list byte) : option SidecarData :=
  match json_Unmarshal b with
  | None => None
  | Some v => (λ x, mkSidecarData (ld_Version x) (ld_Ports x)) <$> decode_struct data_fields (mkLoading "" None []) v
  end.

(** Data that survives encoding: valid UTF-8, and numbers of type int. *)
Definition port_text (p : SidecarPort) : Prop :=
  (is_i64 (sp_Port p) ∧ is_i64 (sp_MaxStreams p)) ∧ text (sp_CustomerID p) ∧ text (sp_Service p) ∧ text (sp_ListenAddr p).
Definition data_text (d : SidecarData) : Prop :=
  text (sd_Version d) ∧ Forall port_text (default [] (sd_Ports d)).

Lemma port_json_wf p : port_text p → json_wf (port_json p) ∧ height (port_json p) = 1.
Proof.
  intros (_ & H1 & H2 & H3). split; [|done]. cbn [port_json jobj jint jstr fmap list_fmap json_wf foldr fst snd].
  split_and!; try done; try (by apply utf8_check_sound with 64%nat); by eexists.
Qed.

Ltac set_field fields i := erewrite (set_member_field fields i); [|reflexivity|by vm_compute]; cbv beta.

Lemma port_read_back p x : port_text p → decode_struct port_fields x (port_json p) = Some p.
Proof.
  intros ((H1 & H2) & _). unfold port_json, jobj. cbn [decode_struct fmap list_fmap foldl fst snd].
  set_field port_fields 0%nat. rewrite int_field_jint by done. cbn [fmap option_fmap option_map].
  set_field port_fields 1%nat. rewrite string_field_jstr. cbn [fmap option_fmap option_map].
  set_field port_fields 2%nat. rewrite string_field_jstr. cbn [fmap option_fmap option_map].
  set_field port_fields 3%nat. rewrite string_field_jstr. cbn [fmap option_fmap option_map].
  set_field port_fields 4%nat. rewrite int_field_jint by done. by destruct p.
Qed.

Lemma ports_read_back l old :
  Forall port_text l → decode_elems (decode_struct port_fields) zero_port old (port_json <$> l) = Some l.
Proof.
  intros Hl. revert old. induction Hl as [|p l Hp _ IH]; intros old; [done|].
  cbn [fmap list_fmap decode_elems]. by rewrite port_read_back, IH.
Qed.

(** What Marshal writes, Unmarshal reads back. *)
Lemma sidecar_roundtrip d : data_text d → Unmarshal (Marshal d) = Some d.
Proof.
  intros [Hv Hp]. assert (json_wf (sidecar_json d) ∧ height (sidecar_json d) <= 3) as [Hwf Hh].
  { destruct d as [ver [l|]]; cbn [sidecar_json jobj jstr fmap list_fmap json_wf height foldr fst snd sd_Version sd_Ports] in *.
    - assert (foldr (λ x P, json_wf x ∧ P) True (port_json <$> l) ∧
        foldr (λ x h, Z.max (height x) h) 0 (port_json <$> l) <= 1) as [Hw Hm].
      { cbn in Hp. induction Hp as [|p l Hp _ [IH1 IH2]]; cbn [fmap list_fmap foldr]; [done|].
        destruct (port_json_wf p Hp) as [Hwp ->]. split; [done|lia]. }
      split_and!; try done; try lia; by apply utf8_check_sound with 64%nat.
    - split_and!; try done; by apply utf8_check_sound with 64%nat. }
  unfold Unmarshal, Marshal, json_MarshalIndent. rewrite json_roundtrip; [|apply indent2_ok|done|unfold maxNestingDepth; lia].
  unfold sidecar_json, jobj. cbn [decode_struct fmap list_fmap foldl fst snd].
  set_field data_fields 0%nat. rewrite string_field_jstr. cbn [fmap option_fmap option_map].
  set_field data_fields 1%nat. destruct d as [ver [l|]]; [|done]. cbn [sd_Ports sd_Version default] in *.
  unfold set_ports. destruct l as [|p l]; [done|]. cbn [fmap list_fmap].
  change (port_json p :: _) with (port_json <$> (p :: l)). by rewrite ports_read_back.
Qed.

(** What is read is valid, whatever the file holds. *)
Lemma port_fields_text x v y : port_text x → json_text v → decode_struct port_fields x v = Some y → port_text y.
Proof.
  intros Hx Hv. apply (decode_struct_keeps port_fields port_text); [|done..]. clear.
  unfold port_fields. rewrite !Forall_cons. split_and!; [..|apply Forall_nil_2];
    cbn; intros x v y ((H1 & H2) & H3 & H4 & H5) Hv;
    (destruct (int_field _ _) eqn:E || destruct (string_field _ _) eqn:E); try done; intros [= <-];
    (apply int_field_range in E || apply string_field_text in E); done.
Qed.

Lemma decode_elems_text l old ps :
  Forall port_text old → json_text (JArr l) →
  decode_elems (decode_struct port_fields) zero_port old l = Some ps → Forall port_text ps.
Proof.
  revert old ps. induction l as [|v l IH]; intros old ps Ho Hl; cbn; [by intros [= <-]|].
  destruct Hl as [Hv Hl]. destruct (decode_struct _ _ v) as [p|] eqn:Ep; [|done].
  destruct (decode_elems _ _ _ l) as [ps'|] eqn:El; [|done]. intros [= <-]. constructor.
  - eapply port_fields_text; [|exact Hv|exact Ep]. destruct Ho; cbn; [|done].
    split_and!; try done; by apply text_check.
  - eapply IH; [|done|done]. destruct Ho; cbn; [constructor|done].
Qed.

Lemma Unmarshal_text b d : Unmarshal b = Some d → data_text d.
Proof.
  unfold Unmarshal. destruct (json_Unmarshal b) as [v|] eqn:Eb; [|done]. apply json_Unmarshal_text in Eb.
  destruct (decode_struct _ _ _) as [x|] eqn:E; [|done]. intros [= <-].
  apply (decode_struct_keeps data_fields (λ x, text (ld_Version x) ∧ Forall port_text (default [] (ld_Ports x)) ∧
    Forall port_text (ld_array x))) in E; [by destruct E as (? & ? & _)| |split_and!; [by apply text_check|constructor..]|done].
  clear. unfold data_fields. rewrite !Forall_cons. split_and!; [..|apply Forall_nil_2];
    cbn; intros x v y (H1 & H2 & H3) Hv.
  - destruct (string_field _ _) eqn:E; [|done]. intros [= <-]. by apply string_field_text in E.
  - unfold set_ports. destruct v as [| | | |l|]; try done; [by intros [= <-]|].
    destruct l as [|v l]; [by intros [= <-]|].
    destruct (decode_elems _ _ _ _) as [ps|] eqn:E; [|done]. intros [= <-]. cbn.
    apply decode_elems_text in E; [|done..]. split_and!; try done. apply Forall_app. split; [done|by apply Forall_drop].
Qed.

Abbreviation filesystem := (gmap string (list byte)) (only parsing).

(** Which of the calls of Save fail: CreateTemp, Write (after how many bytes),
    Close, Rename. The removal of the temporary file is best-effort. *)
Record io_faults := mkFaults {
  fail_create : bool;
  fail_write : option nat;
  fail_close : bool;
  fail_rename : bool;
  fail_remove : bool
}.

(** [func (s *SidecarStore) Load() ( *SidecarData, error)]; [unreadable] says that
    os.ReadFile fails for another reason than a missing file. *)
Definition Load (fs : filesystem) (unreadable : bool) (path : string)
    : result StoreErr (list SidecarPort) :=
  if unreadable then Err SErrRead
  else
    match fs !! path with
    | None => Ok []
    | Some b =>
        match Unmarshal b with
        | None => Err (SErrParse path)
        | Some data =>
            if bool_decide (sd_Version data ≠ sidecarVersion) then Err (SErrVersion (sd_Version data))
            else Ok (default [] (sd_Ports data))
        end
    end.

Lemma Load_text fs unreadable path ports : Load fs unreadable path = Ok ports → Forall port_text ports.
Proof.
  unfold Load. case_match; [done|]. case_match; [|intros [= <-]; constructor].
  destruct (Unmarshal _) as [d|] eqn:E; [|done]. case_bool_decide; [done|]. intros [= <-].
  by apply Unmarshal_text in E as [_ ?].
Qed.

Definition remove_tmp (fs : filesystem) (tmp : string) (fault : bool) : filesystem :=
  if fault then fs else delete tmp fs.

(** [func (s *SidecarStore) Save(data *SidecarData) error], with the temporary
    name [tmp] that os.CreateTemp picks: the states the file system goes
    through, the last one being the final state, and the result. *)
Definition Save (fs : filesystem) (path tmp : string) (faults : io_faults) (data : SidecarData)
    : list filesystem * result StoreErr unit :=
  let b := Marshal data in
  if fail_create faults then ([fs], Err SErrCreateTemp)
  else
    let fs1 := <[tmp := []]> fs in
    let written := match fail_write faults with Some n => take n b | None => b end in
    let fs2 := <[tmp := written]> fs1 in
    match fail_write faults, fail_close faults with
    | Some _, _ => ([fs; fs1; fs2; remove_tmp fs2 tmp (fail_remove faults)], Err SErrWriteTemp)
    | None, true => ([fs; fs1; fs2; remove_tmp fs2 tmp (fail_remove faults)], Err SErrCloseTemp)
    | None, false =>
        if fail_rename faults
        then ([fs; fs1; fs2; remove_tmp fs2 tmp (fail_remove faults)], Err SErrRename)
        else ([fs; fs1; fs2; <[path := written]> (delete tmp fs2)], Ok tt)
    end.

Definition sidecar_port (p : PortInfo) : SidecarPort :=
  mkSidecarPort (pi_Port p) (pi_CustomerID p) (pi_Service p) (pi_ListenAddr p) (pi_MaxStreams p).

(** [func (s *SidecarStore) SaveCurrentState(ports []PortInfo) error] *)
Definition SaveCurrentState (fs : filesystem) (path tmp : string) (faults : io_faults)
    (ports : list PortInfo) : list filesystem * result StoreErr unit :=
  Save fs path tmp faults (mkSidecarData sidecarVersion (Some (sidecar_port <$> ports))).

(** C37. Saving the sidecar is atomic: at every moment of SaveCurrentState, and
    so also after a crash, the sidecar file is either as it was or complete;
    it is the new one at the end exactly when no error is returned; no other
    file but the temporary one is touched; and what a restart then loads is
    the list of ports that was saved, when their names are valid UTF-8 and
    their numbers of type int. *)
Theorem sidecar_save_atomic fs path tmp faults ports states res :
  path ≠ tmp → Forall port_text (sidecar_port <$> ports) →
  SaveCurrentState fs path tmp faults ports = (states, res) →
  let new := Marshal (mkSidecarData sidecarVersion (Some (sidecar_port <$> ports))) in
  Forall (λ fs', fs' !! path = fs !! path ∨ fs' !! path = Some new) states ∧
  (∀ fs' f, fs' ∈ states → f ≠ path → f ≠ tmp → fs' !! f = fs !! f) ∧
  ∃ fs', last states = Some fs' ∧
    match res with
    | Ok _ => fs' !! tmp = None ∧ Load fs' false path = Ok (sidecar_port <$> ports)
    | Err _ => fs' !! path = fs !! path
    end.
Proof.
  intros Hne Htext. unfold SaveCurrentState, Save. cbn zeta.
  set (new := Marshal _).
  assert (∀ w, <[tmp := w]> (<[tmp := []]> fs) !! path = fs !! path) as Hp
    by (intros; by rewrite !lookup_insert_ne).
  assert (∀ w b, remove_tmp (<[tmp := w]> (<[tmp := []]> fs)) tmp b !! path = fs !! path) as Hr
    by (intros w []; cbn; rewrite ?lookup_delete_ne by done; apply Hp).
  assert (∀ f w, f ≠ tmp → <[tmp := w]> (<[tmp := []]> fs) !! f = fs !! f) as Hf
    by (intros; by rewrite !lookup_insert_ne).
  assert (∀ f w b, f ≠ tmp → remove_tmp (<[tmp := w]> (<[tmp := []]> fs)) tmp b !! f = fs !! f) as Hrf
    by (intros f w [] ?; cbn; rewrite ?lookup_delete_ne by done; by apply Hf).
  assert (<[tmp := []]> fs !! path = fs !! path) as H0 by by rewrite lookup_insert_ne.
  repeat case_match; intros [= <- <-]; (split_and!; [repeat (apply Forall_cons; split); auto using Forall_nil_2|..]).
  all: try (intros fs' f Hin Hf1 Hf2; repeat (apply elem_of_cons in Hin as [->|Hin]; 
         [by rewrite ?lookup_insert_ne, ?lookup_delete_ne, ?Hrf, ?Hf by done|]); by apply not_elem_of_nil in Hin).
  all: try (eexists; split; [done|by rewrite ?Hr]).
  - right. by rewrite lookup_insert_eq.
  - eexists. split; [done|]. split; [by rewrite lookup_insert_ne, lookup_delete_eq by done|].
    unfold Load. rewrite lookup_insert_eq. unfold new. rewrite sidecar_roundtrip; [done|]. split; [by apply text_check|done].
Qed.
