(* ===== verification/Net.v ===== *)
(** * net.ParseIP of the Go standard library

    The admin API and the sidecar merge accept a listen address only when
    net.ParseIP does not return nil; here is that decision, on the bytes of the
    string: the first of the characters [.], [:] and [%] selects IPv4, IPv6 or
    failure, and an address with a zone is never accepted. *)

From Stdlib Require Import ZArith Lia.
From S2P Require Import Prelude Text.

(** parseIPv4Fields: [pos] fields are complete, the current octet has [digLen]
    digits and the value [val]; [prev_dot] says that the last byte was a dot or
    there was none. *)
Fixpoint parseIPv4Fields (s : list byte) (pos : nat) (val : Z) (digLen : nat) (prev_dot : bool) : bool :=
  match s with
  | [] => bool_decide (pos = 3%nat) && negb prev_dot
  | b :: s' =>
      if is_digit b then
        if bool_decide (digLen = 1%nat ∧ val = 0) then false
        else
          let val' := val * 10 + (byteZ b - 48) in
          if bool_decide (val' > 255) then false
          else parseIPv4Fields s' pos val' (S digLen) false
      else if bool_decide (b = x2e) then
        if prev_dot then false
        else match s' with
             | [] => false
             | _ => if bool_decide (pos = 3%nat) then false
                    else parseIPv4Fields s' (S pos) 0 0 true
             end
      else false
  end.

Definition parseIPv4 (s : list byte) : bool := parseIPv4Fields s 0 0 0 true.

(** The hexadecimal digits at the head of [s]: how many, or [None] when there
    are more than four. *)
Fixpoint hex_run (s : list byte) (off : nat) : option (nat * list byte) :=
  match s with
  | b :: s' =>
      match hex_value b with
      | Some _ => if bool_decide (3 < off)%nat then None else hex_run s' (S off)
      | None => Some (off, s)
      end
  | [] => Some (off, [])
  end.

(** The loop of parseIPv6 over the groups, [i] bytes of the address being
    filled: [Some] is the final position, whether an ellipsis was seen, and what
    is left of the string. *)
Fixpoint ipv6_groups (fuel : nat) (s : list byte) (i : nat) (ellipsis : bool)
    : option (nat * bool * list byte) :=
  match fuel with
  | O => Some (i, ellipsis, s)
  | S fuel' =>
      if bool_decide (16 <= i)%nat then Some (i, ellipsis, s)
      else
        match hex_run s 0 with
        | None => None
        | Some (O, _) => None
        | Some (_, rest) =>
            match rest with
            | [] => Some ((i + 2)%nat, ellipsis, [])
            | b :: rest' =>
                if bool_decide (b = x2e) then
                  if bool_decide (ellipsis = false ∧ i ≠ 12%nat) then None
                  else if bool_decide (16 < i + 4)%nat then None
                  else if parseIPv4Fields s 0 0 0 true then Some ((i + 4)%nat, ellipsis, [])
                  else None
                else if bool_decide (b = x3a) then
                  match rest' with
                  | [] => None
                  | b2 :: rest'' =>
                      if bool_decide (b2 = x3a) then
                        if ellipsis then None
                        else match rest'' with
                             | [] => Some ((i + 2)%nat, true, [])
                             | _ => ipv6_groups fuel' rest'' (i + 2) true
                             end
                      else ipv6_groups fuel' rest' (i + 2) ellipsis
                  end
                else None
            end
        end
  end.

(** parseIPv6, for a string without zone. *)
Definition parseIPv6 (s : list byte) : bool :=
  let '(lead, s') := match s with
                     | b1 :: b2 :: r => if bool_decide (b1 = x3a ∧ b2 = x3a) then (true, r) else (false, s)
                     | _ => (false, s)
                     end in
  if bool_decide (lead = true ∧ s' = []) then true
  else
    match ipv6_groups 8 s' 0 lead with
    | None => false
    | Some (i, ellipsis, rest) =>
        if bool_decide (rest ≠ []) then false
        else if bool_decide (i < 16)%nat then ellipsis else negb ellipsis
    end.

(** The dispatch of ParseAddr. *)
Fixpoint first_special (s : list byte) : option byte :=
  match s with
  | [] => None
  | b :: s' => if bool_decide (b = x2e ∨ b = x3a ∨ b = x25) then Some b else first_special s'
  end.

(** [net.ParseIP(s) != nil] *)
Definition ParseIP (s : string) : bool :=
  let b := bytes_of_string s in
  match first_special b with
  | Some x2e => parseIPv4 b
  | Some x3a => if bool_decide (x25 ∈ b) then false else parseIPv6 b
  | _ => false
  end.

Example ParseIP_yes :
  forallb ParseIP ["0.0.0.0"; "127.0.0.1"; "255.255.255.255"; "::"; "::1"; "fe80::1"; "2001:db8::"; "::ffff:1.2.3.4";
             "1:2:3:4:5:6:7:8"; "1:2:3:4:5:6:1.2.3.4"; "1::8"] = true.
Proof. by vm_compute. Qed.

Example ParseIP_no :
  forallb (λ s, negb (ParseIP s))
    [""; "localhost"; "1.2.3"; "1.2.3.4.5"; "256.0.0.1"; "01.2.3.4"; "1..2.3"; "1.2.3."; ":"; ":::"; "1::2::3";
     "12345::"; "1:2:3:4:5:6:7"; "1:2:3:4:5:6:7:8:9"; "fe80::1%eth0"; "1:2:3:4:5:6:7:8::"; "::1.2.3"; "1.2.3.4 "] = true.
Proof. by vm_compute. Qed.
