(* ===== verification/Admin.v ===== *)
(** * The admin API on ports and agents: [pkg/relay/admin.go]

    AdminServer with the handlers that read and change the port mappings and
    the agents. The handlers are given the decoded body, [None] standing for one
    that encoding/json does not decode; a response is its status code and what it carries. The clock, the
    name of the temporary file of the sidecar and the failing system calls are
    the [Env] of a request. *)

From Stdlib Require Import ZArith Lia SpecFloat.
From stdpp Require Import pretty.
From S2P Require Import Prelude Text Json Frame Window WriteQueue Stream Mux MuxInv Config Registry RateLimit Router ClientListener Store Net AuditLog.

(** ** Requests and responses *)

Record PortCreateRequest := mkPortCreateRequest {
  cr_Port : Z;
  cr_CustomerID : string;
  cr_Service : string;
  cr_MaxStreams : Z;
  cr_ListenAddr : string
}.

Record PortUpdateRequest := mkPortUpdateRequest {
  ur_Service : string;
  ur_MaxStreams : option Z;
  ur_ListenAddr : string
}.

(** json.NewDecoder(r.Body).Decode into the two request types. *)
Definition create_fields : setters PortCreateRequest :=
  [("port", λ r v, (λ z, mkPortCreateRequest z (cr_CustomerID r) (cr_Service r) (cr_MaxStreams r) (cr_ListenAddr r))
                     <$> int_field (cr_Port r) v);
   ("customer_id", λ r v, (λ s, mkPortCreateRequest (cr_Port r) s (cr_Service r) (cr_MaxStreams r) (cr_ListenAddr r))
                     <$> string_field (cr_CustomerID r) v);
   ("service", λ r v, (λ s, mkPortCreateRequest (cr_Port r) (cr_CustomerID r) s (cr_MaxStreams r) (cr_ListenAddr r))
                     <$> string_field (cr_Service r) v);
   ("max_streams", λ r v, (λ z, mkPortCreateRequest (cr_Port r) (cr_CustomerID r) (cr_Service r) z (cr_ListenAddr r))
                     <$> int_field (cr_MaxStreams r) v);
   ("listen_addr", λ r v, (λ s, mkPortCreateRequest (cr_Port r) (cr_CustomerID r) (cr_Service r) (cr_MaxStreams r) s)
                     <$> string_field (cr_ListenAddr r) v)].

Definition decode_create (body : list byte) : option PortCreateRequest :=
  json_Decode body ≫= decode_struct create_fields (mkPortCreateRequest 0 "" "" 0 "").

(** A pointer to an int: null sets it to nil. *)
Definition int_pointer (old : option Z) (v : json) : option (option Z) :=
  match v with JNull => Some None | _ => Some <$> int_field (default 0 old) v end.

Definition update_fields : setters PortUpdateRequest :=
  [("service", λ r v, (λ s, mkPortUpdateRequest s (ur_MaxStreams r) (ur_ListenAddr r)) <$> string_field (ur_Service r) v);
   ("max_streams", λ r v, (λ z, mkPortUpdateRequest (ur_Service r) z (ur_ListenAddr r)) <$> int_pointer (ur_MaxStreams r) v);
   ("listen_addr", λ r v, (λ s, mkPortUpdateRequest (ur_Service r) (ur_MaxStreams r) s) <$> string_field (ur_ListenAddr r) v)].

Definition decode_update (body : list byte) : option PortUpdateRequest :=
  json_Decode body ≫= decode_struct update_fields (mkPortUpdateRequest "" None "").

(** A request that was decoded holds valid UTF-8 and numbers of type int. *)
Definition create_text (r : PortCreateRequest) : Prop :=
  is_i64 (cr_MaxStreams r) ∧ text (cr_CustomerID r) ∧ text (cr_Service r) ∧ text (cr_ListenAddr r).
Definition update_text (r : PortUpdateRequest) : Prop :=
  is_i64 (default 0 (ur_MaxStreams r)) ∧ text (ur_Service r) ∧ text (ur_ListenAddr r).

Lemma default_listen_text addr : text addr → text (default_listen addr).
Proof. unfold default_listen. case_bool_decide; [|done]. intros _. by apply text_check. Qed.

Lemma decode_create_text body r : decode_create body = Some r → create_text r.
Proof.
  unfold decode_create. destruct (json_Decode body) as [v|] eqn:Eb; [|done]. apply json_Decode_text in Eb. cbn.
  apply (decode_struct_keeps create_fields create_text); [|split_and!; [done|by apply text_check..]|done]. clear.
  unfold create_fields. rewrite !Forall_cons. split_and!; [..|apply Forall_nil_2];
    cbn; intros r v y (H1 & H2 & H3 & H4) Hv;
    (destruct (int_field _ _) eqn:E || destruct (string_field _ _) eqn:E); try done; intros [= <-];
    try (apply string_field_text in E; [|done..]); [done..| |done].
  by apply int_field_range in E.
Qed.

Lemma decode_update_text body r : decode_update body = Some r → update_text r.
Proof.
  unfold decode_update. destruct (json_Decode body) as [v|] eqn:Eb; [|done]. apply json_Decode_text in Eb. cbn.
  apply (decode_struct_keeps update_fields update_text); [|split_and!; [done|by apply text_check..]|done]. clear.
  unfold update_fields. rewrite !Forall_cons. split_and!; [..|apply Forall_nil_2];
    cbn; intros r v y (H1 & H2 & H3) Hv.
  - destruct (string_field _ _) eqn:E; [|done]. intros [= <-]. by apply string_field_text in E.
  - unfold int_pointer. destruct v; cbn; try done; [by intros [= <-]|].
    destruct (Atoi lit) as [z|] eqn:E; [|done]. intros [= <-]. by apply Atoi_range in E.
  - destruct (string_field _ _) eqn:E; [|done]. intros [= <-]. by apply string_field_text in E.
Qed.

(** PortResponse has the fields of PortInfo, by portInfoToResponse. *)
Inductive Response :=
| RespError (code : Z) (msg : string)
| RespPort (code : Z) (p : PortInfo)
| RespPorts (ps : list PortInfo)
| RespAgents (l : list AgentInfo)
| RespAgent (info : AgentInfo)
| RespCounts (agents streams : Z)
| RespNoContent.

Record Env := mkEnv { env_now : Z; env_tmp : string; env_faults : io_faults }.

Section admin.
Context `{RateLimiter Lim}.
Context (can_listen : list string → string → bool).

Record AdminServer := mkAdmin {
  a_router : gmap Z portEntry;
  a_clientListener : ClientListener Lim;
  a_registry : MemoryRegistry;
  a_emitter : option (list Event);          (* the events emitted *)
  a_store : option string;                  (* the path of the sidecar *)
  a_fs : gmap string (list byte);
  a_configPath : string;
  a_currentCfg : option RelayConfig
}.

Definition set_router (r : gmap Z portEntry) (a : AdminServer) : AdminServer :=
  mkAdmin r (a_clientListener a) (a_registry a) (a_emitter a) (a_store a) (a_fs a) (a_configPath a)
    (a_currentCfg a).
Definition set_clientListener (cl : ClientListener Lim) (a : AdminServer) : AdminServer :=
  mkAdmin (a_router a) cl (a_registry a) (a_emitter a) (a_store a) (a_fs a) (a_configPath a)
    (a_currentCfg a).
Definition set_registry (r : MemoryRegistry) (a : AdminServer) : AdminServer :=
  mkAdmin (a_router a) (a_clientListener a) r (a_emitter a) (a_store a) (a_fs a) (a_configPath a)
    (a_currentCfg a).
Definition set_fs (fs : gmap string (list byte)) (a : AdminServer) : AdminServer :=
  mkAdmin (a_router a) (a_clientListener a) (a_registry a) (a_emitter a) (a_store a) fs (a_configPath a)
    (a_currentCfg a).
Definition set_currentCfg (cfg : RelayConfig) (a : AdminServer) : AdminServer :=
  mkAdmin (a_router a) (a_clientListener a) (a_registry a) (a_emitter a) (a_store a) (a_fs a)
    (a_configPath a) (Some cfg).

(** [func (a *AdminServer) emitAudit(ctx, action, target, customerID, metadata)] *)
Definition emitAudit (env : Env) (action target customer : string) (metadata : gmap string string)
    (a : AdminServer) : AdminServer :=
  mkAdmin (a_router a) (a_clientListener a) (a_registry a)
    ((λ l, l ++ [mkEvent action "admin-api" target (env_now env) "" customer metadata]) <$> a_emitter a)
    (a_store a) (a_fs a) (a_configPath a) (a_currentCfg a).

(** [if a.store != nil { a.store.SaveCurrentState(a.router.ListPorts()) }]; an
    error is only logged. *)
Definition persist (env : Env) (a : AdminServer) : AdminServer :=
  match a_store a with
  | None => a
  | Some path =>
      let states := (SaveCurrentState (a_fs a) path (env_tmp env) (env_faults env)
                       (ListPorts (a_router a))).1 in
      set_fs (default (a_fs a) (last states)) a
  end.

(** ** Ports *)

Definition listPorts (a : AdminServer) : Response := RespPorts (ListPorts (a_router a)).

Definition getPort (a : AdminServer) (port : Z) : Response :=
  match GetPort (a_router a) port with
  | None => RespError 404 "port not found"
  | Some info => RespPort 200 info
  end.

Definition host_port (addr : string) (port : Z) : string := addr +:+ ":" +:+ pretty port.

(** [AddPortMapping], StartPort in its goroutine, and the rollback when it fails
    at once: the common part of createPort and of addPort in a reload. *)
Definition map_and_listen (a : AdminServer) (customer : string) (port : Z) (svc addr : string) (max : Z)
    : AdminServer * bool :=
  let r1 := AddPortMapping (a_router a) customer port svc addr max in
  match StartPort can_listen (a_clientListener a) (host_port addr port) port with
  | None =>
      (set_router (match RemovePortMapping r1 customer port with Ok r2 => r2 | Err _ => r1 end) a, false)
  | Some cl' => (set_clientListener cl' (set_router r1 a), true)
  end.

(** [func (a *AdminServer) createPort(w, r)] *)
Definition createPort (env : Env) (a : AdminServer) (body : option PortCreateRequest)
    : AdminServer * Response :=
  match body with
  | None => (a, RespError 400 "invalid JSON")
  | Some req =>
      if bool_decide (cr_Port req <= 0 ∨ cr_Port req > 65535)
      then (a, RespError 400 "port must be between 1 and 65535")
      else if bool_decide (cr_CustomerID req = "" ∨ cr_Service req = "")
      then (a, RespError 400 "customer_id and service are required")
      else if bool_decide (cr_ListenAddr req ≠ "" ∧ ParseIP (cr_ListenAddr req) = false)
      then (a, RespError 400 "listen_addr must be a valid IP address")
      else if bool_decide (cr_MaxStreams req < 0)
      then (a, RespError 400 "max_streams must be non-negative")
      else
        let addr := default_listen (cr_ListenAddr req) in
        match map_and_listen a (cr_CustomerID req) (cr_Port req) (cr_Service req) addr (cr_MaxStreams req) with
        | (a1, false) => (a1, RespError 409 "listen")
        | (a1, true) =>
            let a2 := persist env a1 in
            (emitAudit env ActionAdminPortAdded (pretty (cr_Port req)) (cr_CustomerID req)
               {["service" := cr_Service req; "listen_addr" := host_port addr (cr_Port req)]} a2,
             RespPort 201 (mkPortInfo (cr_Port req) (cr_CustomerID req) (cr_Service req)
                             (cr_MaxStreams req) addr))
        end
  end.

(** [func decodePortUpdateRequest(w, r) (PortUpdateRequest, bool)] *)
Definition decodePortUpdateRequest (body : option PortUpdateRequest) : result Response PortUpdateRequest :=
  match body with
  | None => Err (RespError 400 "invalid JSON")
  | Some req =>
      if bool_decide (ur_Service req = "" ∧ ur_ListenAddr req = "" ∧ ur_MaxStreams req = None)
      then Err (RespError 400 "at least one of service, listen_addr, max_streams must be set")
      else if bool_decide (ur_ListenAddr req ≠ "" ∧ ParseIP (ur_ListenAddr req) = false)
      then Err (RespError 400 "listen_addr must be a valid IP address")
      else if bool_decide (default 0 (ur_MaxStreams req) < 0)
      then Err (RespError 400 "max_streams must be non-negative")
      else Ok req
  end.

(** [func mergePortUpdate(existing PortInfo, req PortUpdateRequest) (service, listenAddr, maxStreams)] *)
Definition mergePortUpdate (existing : PortInfo) (req : PortUpdateRequest) : string * string * Z :=
  (if bool_decide (ur_Service req = "") then pi_Service existing else ur_Service req,
   if bool_decide (ur_ListenAddr req = "") then pi_ListenAddr existing else ur_ListenAddr req,
   default (pi_MaxStreams existing) (ur_MaxStreams req)).

(** [func (a *AdminServer) updatePort(w, r, port)] *)
Definition updatePort (env : Env) (a : AdminServer) (body : option PortUpdateRequest) (port : Z)
    : AdminServer * Response :=
  match decodePortUpdateRequest body with
  | Err resp => (a, resp)
  | Ok req =>
      match GetPort (a_router a) port with
      | None => (a, RespError 404 "port not found")
      | Some existing =>
          let '(svc, addr, max) := mergePortUpdate existing req in
          match UpdatePortMapping (a_router a) port svc addr max with
          | Err _ => (a, RespError 404 "port not found")
          | Ok r' =>
              let a1 := persist env (set_router r' a) in
              (emitAudit env ActionAdminPortUpdated (pretty port) (pi_CustomerID existing)
                 {["service" := svc; "listen_addr" := addr; "max_streams" := pretty max]} a1,
               RespPort 200 (mkPortInfo port (pi_CustomerID existing) svc max addr))
          end
      end
  end.

(** [func (a *AdminServer) deletePort(w, r, port)] *)
Definition deletePort (env : Env) (a : AdminServer) (port : Z) : AdminServer * Response :=
  match LookupPort (a_router a) port with
  | None => (a, RespError 404 "port not found")
  | Some (customer, _) =>
      match RemovePortMapping (a_router a) customer port with
      | Err _ => (a, RespError 500 "no mapping")
      | Ok r' =>
          let a1 := set_router r' a in
          let a2 := match StopPort (a_clientListener a1) port with
                    | Some cl' => set_clientListener cl' a1
                    | None => a1
                    end in
          (emitAudit env ActionAdminPortRemoved (pretty port) customer ∅ (persist env a2), RespNoContent)
      end
  end.

(** ** Agents, health *)

(** [func (a *AdminServer) handleAgents(w, r)]: the registry never reports an
    error here. *)
Definition handleAgents (a : AdminServer) (method : string) : Response :=
  if bool_decide (method ≠ "GET") then RespError 405 "method not allowed"
  else RespAgents (ListConnectedAgents (a_registry a)).

Definition getAgent (a : AdminServer) (customer : string) : Response :=
  match list_find (λ i, ai_CustomerID i = customer) (ListConnectedAgents (a_registry a)) with
  | Some (_, info) => RespAgent info
  | None => RespError 404 "agent not found"
  end.

Definition deleteAgent (env : Env) (a : AdminServer) (customer : string) : AdminServer * Response :=
  (emitAudit env ActionAdminAgentDisconnected customer customer ∅
     (set_registry (Unregister (a_registry a) customer) a), RespNoContent).

(** The sum over the agents that /healthz, /stats and /status report. *)
Definition total_streams (agents : list AgentInfo) : Z := foldr Z.add 0 (ai_StreamCount <$> agents).

(** [func (a *AdminServer) handleHealth(w, r)] *)
Definition handleHealth (a : AdminServer) : Response :=
  let agents := ListConnectedAgents (a_registry a) in RespCounts (zlen agents) (total_streams agents).

(** ** Properties *)

Lemma persist_router env a : a_router (persist env a) = a_router a.
Proof. unfold persist. by case_match. Qed.

Lemma persist_clientListener env a : a_clientListener (persist env a) = a_clientListener a.
Proof. unfold persist. by case_match. Qed.

Lemma persist_emitter env a : a_emitter (persist env a) = a_emitter a.
Proof. unfold persist. by case_match. Qed.

(** Adding a mapping and taking it back. *)
Lemma add_remove r customer port svc addr max :
  RemovePortMapping (AddPortMapping r customer port svc addr max) customer port = Ok (delete port r).
Proof.
  unfold RemovePortMapping, AddPortMapping. rewrite lookup_insert_eq. cbn.
  rewrite bool_decide_eq_false_2 by naive_solver. by rewrite delete_insert_eq.
Qed.

Lemma map_and_listen_spec a customer port svc addr max a1 ok :
  map_and_listen a customer port svc addr max = (a1, ok) →
  (ok = can_listen (bound_addrs (a_clientListener a)) (host_port addr port)) ∧
  a_router a1 = (if ok then <[port := mkPortEntry customer svc max addr]> (a_router a)
                 else delete port (a_router a)) ∧
  a_registry a1 = a_registry a ∧ a_emitter a1 = a_emitter a ∧ a_fs a1 = a_fs a ∧
  (ok = false → a_clientListener a1 = a_clientListener a) ∧
  (ok = true → ∃ ln, listeners (a_clientListener a1) = <[port := ln]> (listeners (a_clientListener a)) ∧
     lns (a_clientListener a1) = <[ln := mkListener (host_port addr port) true]> (lns (a_clientListener a)) ∧
     lns (a_clientListener a) !! ln = None).
Proof.
  unfold map_and_listen. cbn zeta. rewrite add_remove. unfold StartPort.
  destruct (can_listen _ _) eqn:E; intros [= <- <-]; (split_and!; [done..|done|]); [|done].
  intros _. eexists. split_and!; [done..|]. apply not_elem_of_dom, is_fresh.
Qed.

(** C36. Creating a port, on every branch: a request that is not JSON or fails
    a check is answered with 400 and changes nothing; when the listener starts
    the port is mapped to the requested customer, service, limit and address,
    every other mapping is as it was, a listener on the address is registered
    for the port and one audit event is emitted; when it does not start the
    answer is 409 and, every other mapping being as it was, the port is not
    mapped at all, even if it was mapped, to whomever, before. *)
Theorem create_port_branches env a body a' resp :
  createPort env a body = (a', resp) →
  match resp with
  | RespError 400 _ => a' = a
  | RespError code _ =>
      code = 409 ∧ ∃ req, body = Some req ∧
        can_listen (bound_addrs (a_clientListener a))
          (host_port (default_listen (cr_ListenAddr req)) (cr_Port req)) = false ∧
        a_router a' = delete (cr_Port req) (a_router a) ∧
        a_clientListener a' = a_clientListener a ∧ a_emitter a' = a_emitter a
  | RespPort code info =>
      code = 201 ∧ ∃ req ln, body = Some req ∧
        info = mkPortInfo (cr_Port req) (cr_CustomerID req) (cr_Service req) (cr_MaxStreams req)
                 (default_listen (cr_ListenAddr req)) ∧
        1 <= cr_Port req <= 65535 ∧ cr_CustomerID req ≠ "" ∧ cr_Service req ≠ "" ∧ 0 <= cr_MaxStreams req ∧
        a_router a' = <[cr_Port req := mkPortEntry (cr_CustomerID req) (cr_Service req) (cr_MaxStreams req)
                          (default_listen (cr_ListenAddr req))]> (a_router a) ∧
        listeners (a_clientListener a') !! cr_Port req = Some ln ∧
        lns (a_clientListener a') !! ln =
          Some (mkListener (host_port (default_listen (cr_ListenAddr req)) (cr_Port req)) true) ∧
        (∀ l, a_emitter a = Some l → ∃ e, a_emitter a' = Some (l ++ [e]) ∧
           Action e = ActionAdminPortAdded ∧ ev_CustomerID e = cr_CustomerID req)
  | _ => False
  end.
Proof.
  unfold createPort. destruct body as [req|]; [|by intros [= <- <-]].
  case_bool_decide as H1; [by intros [= <- <-]|]. case_bool_decide as H2; [by intros [= <- <-]|].
  case_bool_decide as H3; [by intros [= <- <-]|]. case_bool_decide as H4; [by intros [= <- <-]|].
  cbn zeta. destruct (map_and_listen _ _ _ _ _ _) as [a1 ok] eqn:E.
  apply map_and_listen_spec in E as (Hok & Hr & _ & He & _ & Hf & Ht).
  destruct ok; intros [= <- <-].
  - destruct (Ht eq_refl) as (ln & Hl & Hln & _). split; [done|]. exists req, ln.
    cbn [a_router a_clientListener a_emitter emitAudit].
    rewrite persist_router, persist_clientListener, persist_emitter, Hr, Hl, Hln, He, !lookup_insert_eq.
    split_and!; try done; try lia; [naive_solver..|].
    intros l ->. eexists. by split_and!.
  - split; [done|]. exists req. by split_and!; auto.
Qed.

(** Updating a port, on every branch: a refused request, or one for a
    port that is not mapped, changes nothing; an accepted one replaces exactly
    the fields it sets, keeps the others and the customer of the port, leaves
    every other mapping as it was, and emits one audit event naming that
    customer. *)
Theorem update_port_branches env a body port a' resp :
  updatePort env a body port = (a', resp) →
  match resp with
  | RespError code _ => a' = a ∧ (code = 400 ∨ code = 404 ∧ a_router a !! port = None)
  | RespPort code info =>
      code = 200 ∧ ∃ req e, body = Some req ∧ a_router a !! port = Some e ∧
        a_router a' = <[port := mkPortEntry (customerID e)
          (if bool_decide (ur_Service req = "") then service e else ur_Service req)
          (default (maxStreams e) (ur_MaxStreams req))
          (if bool_decide (ur_ListenAddr req = "") then listenAddr e else ur_ListenAddr req)]>
          (a_router a) ∧
        GetPort (a_router a') port = Some info ∧
        (∀ l, a_emitter a = Some l → ∃ ev, a_emitter a' = Some (l ++ [ev]) ∧
           Action ev = ActionAdminPortUpdated ∧ ev_CustomerID ev = customerID e)
  | _ => False
  end.
Proof.
  unfold updatePort, decodePortUpdateRequest. destruct body as [req|]; [|intros [= <- <-]; auto].
  case_bool_decide; [intros [= <- <-]; auto|]. case_bool_decide; [intros [= <- <-]; auto|].
  case_bool_decide; [intros [= <- <-]; auto|]. unfold GetPort, UpdatePortMapping.
  destruct (a_router a !! port) as [e|] eqn:Ep; cbn; [|intros [= <- <-]; auto].
  intros [= <- <-]. split; [done|]. exists req, e. cbn.
  rewrite persist_router, persist_emitter. cbn. split_and!; try done.
  - by rewrite lookup_insert_eq.
  - intros l Hl. cbn in *. rewrite Hl. eexists. by split_and!.
Qed.
End admin.

Arguments AdminServer Lim : clear implicits.
