(* ===== verification/Reload.v ===== *)
(** * Hot reload: [pkg/relay/admin_reload.go]

    Reload re-reads the configuration and reconciles the router, the listeners
    and the rate limiters with it. Go iterates over maps in any order, so the
    loops take the order as an argument: any permutation of the map's pairs. *)

From Stdlib Require Import ZArith Lia SpecFloat.
From stdpp Require Import pretty sorting.
From S2P Require Import Prelude Text Json Frame Window WriteQueue Stream Mux MuxInv Config Registry RateLimit Router ClientListener Store Net AuditLog Admin.

Record ReloadSummary := mkSummary {
  PortsAdded : Z;
  PortsRemoved : Z;
  PortsUpdated : Z;
  PortsRejected : Z;
  RateLimitsChanged : Z;
  RestartRequired : list string
}.

(** ** Helpers *)

(** [func indexPorts(cfg *config.RelayConfig) map[int]config.PortIndexEntry]: a
    later pair overwrites an earlier one. *)
Definition indexPorts (cfg : option RelayConfig) : gmap Z PortIndexEntry :=
  match cfg with
  | None => ∅
  | Some cfg =>
      foldl (λ out cp, <[pc_Port cp.2 := index_entry cp.1 cp.2]> out) ∅ (customer_ports (rc_Customers cfg))
  end.

(** [func portMutableFieldsDiffer(a, b config.PortIndexEntry) bool] *)
Definition portMutableFieldsDiffer (a b : PortIndexEntry) : bool :=
  bool_decide (ie_Service a ≠ ie_Service b ∨ ie_ListenAddr a ≠ ie_ListenAddr b ∨ ie_MaxStreams a ≠ ie_MaxStreams b).

(** [func rateLimitEqual(a, b config.RateLimitConfig) bool] *)
Definition rateLimitEqual (a b : RateLimitConfig) : bool :=
  SFeqb (RequestsPerSecond a) (RequestsPerSecond b) && bool_decide (Burst a = Burst b).

(** [func rateLimits(cfg *config.RelayConfig) map[string]config.RateLimitConfig] *)
Definition rateLimits (cfg : option RelayConfig) : gmap string RateLimitConfig :=
  match cfg with
  | None => ∅
  | Some cfg => foldl (λ out c, <[cc_ID c := cc_RateLimit c]> out) ∅ (rc_Customers cfg)
  end.

(** sort.Strings: by bytes. *)
Definition string_le (a b : string) : Prop := String.leb a b = true.
#[export] Instance string_le_dec : RelDecision string_le.
Proof. intros a b. unfold string_le. apply _. Defined.

(** [func joinSortedStrings(s []string) string]: the JSON of the sorted list. *)
Definition joinSortedStrings (l : list string) : string :=
  string_of_bytes (json_Marshal (JArr (jstr <$> merge_sort string_le l))).

Definition changed (a b name : string) : list string := if bool_decide (a = b) then [] else [name].

(** [func diffRestartRequired(oldCfg, newCfg *config.RelayConfig) []string] *)
Definition diffRestartRequired (oldCfg : option RelayConfig) (newCfg : RelayConfig) : list string :=
  match oldCfg with
  | None => []
  | Some old =>
      let o := rc_TLS old in let n := rc_TLS newCfg in
      merge_sort string_le
        (changed (CertFile o) (CertFile n) "tls.cert_file" ++
         changed (KeyFile o) (KeyFile n) "tls.key_file" ++
         changed (CAFile o) (CAFile n) "tls.ca_file" ++
         changed (ClientCAFile o) (ClientCAFile n) "tls.client_ca_file" ++
         changed (sc_ListenAddr (rc_Server old)) (sc_ListenAddr (rc_Server newCfg)) "server.listen_addr" ++
         changed (AgentListenAddr (rc_Server old)) (AgentListenAddr (rc_Server newCfg)) "server.agent_listen_addr")
  end.

(** A loop over a map whose turns only affect the key they are for: the turn for
    a key sees what the loop started with there, and nothing else happens to it. *)
Lemma foldl_local {S E V} (f : S → Z * V → S) (look : S → Z → option E)
    (spec : Z → V → option E → option E → Prop) (l : list (Z * V)) :
  (∀ s kv p, p ≠ kv.1 → look (f s kv) p = look s p) →
  (∀ s k v, spec k v (look s k) (look (f s (k, v)) k)) →
  NoDup l.*1 → ∀ s p,
  (∀ v, (p, v) ∈ l → spec p v (look s p) (look (foldl f s l) p)) ∧
  (p ∉ l.*1 → look (foldl f s l) p = look s p).
Proof.
  intros Hne Hsp. induction l as [|[k v] l IH]; intros Hnd s p; cbn [foldl].
  - split; [by intros v ?%not_elem_of_nil|done].
  - apply NoDup_cons in Hnd as [Hk Hnd]. destruct (IH Hnd (f s (k, v)) p) as [IH1 IH2]. split.
    + intros v' [[= -> ->]|Hin]%elem_of_cons; [by rewrite IH2|].
      assert (p ≠ k) by (intros ->; apply Hk; by eapply list_elem_of_fmap_2').
      specialize (IH1 v' Hin). by rewrite Hne in IH1.
    + intros Hp. rewrite IH2 by set_solver. apply Hne. set_solver.
Qed.

Section reload.
Context `{RateLimiter Lim}.
Context (can_listen : list string → string → bool).

Abbreviation server := (AdminServer Lim) (only parsing).

Definition count_added (s : ReloadSummary) :=
  mkSummary (PortsAdded s + 1) (PortsRemoved s) (PortsUpdated s) (PortsRejected s) (RateLimitsChanged s) (RestartRequired s).
Definition count_removed (s : ReloadSummary) :=
  mkSummary (PortsAdded s) (PortsRemoved s + 1) (PortsUpdated s) (PortsRejected s) (RateLimitsChanged s) (RestartRequired s).
Definition count_updated (s : ReloadSummary) :=
  mkSummary (PortsAdded s) (PortsRemoved s) (PortsUpdated s + 1) (PortsRejected s) (RateLimitsChanged s) (RestartRequired s).

(** [func (a *AdminServer) addPort(ctx, port, entry, summary)] *)
Definition addPort (st : server * ReloadSummary) (port : Z) (entry : PortIndexEntry)
    : server * ReloadSummary :=
  match map_and_listen can_listen st.1 (ie_CustomerID entry) port (ie_Service entry)
          (ie_ListenAddr entry) (ie_MaxStreams entry) with
  | (a', true) => (a', count_added st.2)
  | (a', false) => (a', st.2)
  end.

(** [func (a *AdminServer) removePort(port, entry, summary)] *)
Definition removePort (st : server * ReloadSummary) (port : Z) (entry : PortIndexEntry)
    : server * ReloadSummary :=
  match RemovePortMapping (a_router st.1) (ie_CustomerID entry) port with
  | Err _ => st
  | Ok r' =>
      let a1 := set_router r' st.1 in
      (match StopPort (a_clientListener a1) port with
       | Some cl' => set_clientListener cl' a1
       | None => a1
       end, count_removed st.2)
  end.

(** [func (a *AdminServer) updatePortReload(port, entry, summary)] *)
Definition updatePortReload (st : server * ReloadSummary) (port : Z) (entry : PortIndexEntry)
    : server * ReloadSummary :=
  match UpdatePortMapping (a_router st.1) port (ie_Service entry) (ie_ListenAddr entry) (ie_MaxStreams entry) with
  | Err _ => st
  | Ok r' => (set_router r' st.1, count_updated st.2)
  end.

(** [func (a *AdminServer) rejectCustomerChange(port, oldEntry, newEntry, summary)] *)
Definition rejectCustomerChange (st : server * ReloadSummary) : server * ReloadSummary :=
  (st.1, mkSummary (PortsAdded st.2) (PortsRemoved st.2) (PortsUpdated st.2) (PortsRejected st.2 + 1)
           (RateLimitsChanged st.2) (RestartRequired st.2)).

(** The body of the loop over the new index, and of the loop over the old one. *)
Definition reload_new (oldIdx : gmap Z PortIndexEntry) (st : server * ReloadSummary)
    (kv : Z * PortIndexEntry) : server * ReloadSummary :=
  match oldIdx !! kv.1 with
  | None => addPort st kv.1 kv.2
  | Some oldEntry =>
      if bool_decide (ie_CustomerID oldEntry ≠ ie_CustomerID kv.2) then rejectCustomerChange st
      else if portMutableFieldsDiffer oldEntry kv.2 then updatePortReload st kv.1 kv.2
      else st
  end.
Definition reload_old (newIdx : gmap Z PortIndexEntry) (st : server * ReloadSummary)
    (kv : Z * PortIndexEntry) : server * ReloadSummary :=
  match newIdx !! kv.1 with
  | None => removePort st kv.1 kv.2
  | Some _ => st
  end.

(** The body of the loop of applyRateLimitChanges. *)
Definition reload_limit (oldLimits : gmap string RateLimitConfig) (st : ClientListener Lim * Z)
    (kv : string * RateLimitConfig) : ClientListener Lim * Z :=
  let skip := match oldLimits !! kv.1 with Some oldLim => rateLimitEqual oldLim kv.2 | None => false end in
  if skip then st
  else if f64_pos (RequestsPerSecond kv.2)
  then (SetRateLimiter st.1 kv.1 (RequestsPerSecond kv.2) (Burst kv.2), st.2 + 1)
  else st.

(** [func (a *AdminServer) applyRateLimitChanges(oldCfg, newCfg) int] *)
Definition applyRateLimitChanges (cl : ClientListener Lim) (oldCfg : option RelayConfig)
    (order : list (string * RateLimitConfig)) : ClientListener Lim * Z :=
  foldl (reload_limit (rateLimits oldCfg)) (cl, 0) order.

(** The orders in which a run iterates over the three maps. *)
Record orders := mkOrders {
  ord_new : list (Z * PortIndexEntry);
  ord_old : list (Z * PortIndexEntry);
  ord_limits : list (string * RateLimitConfig)
}.
Definition orders_ok (o : orders) (oldCfg : option RelayConfig) (newCfg : RelayConfig) : Prop :=
  ord_new o ≡ₚ map_to_list (indexPorts (Some newCfg)) ∧
  ord_old o ≡ₚ map_to_list (indexPorts oldCfg) ∧
  ord_limits o ≡ₚ map_to_list (rateLimits (Some newCfg)).

(** [func (a *AdminServer) applyReload(ctx, oldCfg, newCfg) ReloadSummary] *)
Definition applyReload (a : server) (oldCfg : option RelayConfig) (newCfg : RelayConfig) (o : orders)
    : server * ReloadSummary :=
  let oldIdx := indexPorts oldCfg in
  let newIdx := indexPorts (Some newCfg) in
  let st1 := foldl (reload_new oldIdx) (a, mkSummary 0 0 0 0 0 []) (ord_new o) in
  let st2 := foldl (reload_old newIdx) st1 (ord_old o) in
  let '(cl, changed) := applyRateLimitChanges (a_clientListener st2.1) oldCfg (ord_limits o) in
  (set_clientListener cl st2.1,
   mkSummary (PortsAdded st2.2) (PortsRemoved st2.2) (PortsUpdated st2.2) (PortsRejected st2.2) changed
     (diffRestartRequired oldCfg newCfg)).

Inductive ReloadErr := ReloadNoPath | ReloadLoad (e : ConfigErr) | ReloadConflict (e : PortConflict).

(** [func (a *AdminServer) emitReloadAudit(ctx, summary)]; the list of fields is
    joined by json.Marshal, an argument. *)
Definition emitReloadAudit (env : Env) (s : ReloadSummary)
    (a : server) : server :=
  emitAudit env ActionAdminReload (a_configPath a) ""
    {["ports_added" := pretty (PortsAdded s); "ports_removed" := pretty (PortsRemoved s);
      "ports_updated" := pretty (PortsUpdated s); "ports_rejected" := pretty (PortsRejected s);
      "rate_limits_changed" := pretty (RateLimitsChanged s);
      "restart_required" := match RestartRequired s with [] => "" | l => joinSortedStrings l end]} a.

(** [func (a *AdminServer) Reload(ctx) (ReloadSummary, error)]: [load] is
    LoadRelayConfig with the file and the environment as they are now. *)
Definition Reload (env : Env) (a : server)
    (load : string → result ConfigErr RelayConfig) (o : orders) : server * result ReloadErr ReloadSummary :=
  if bool_decide (a_configPath a = "") then (a, Err ReloadNoPath)
  else
    match load (a_configPath a) with
    | Err e => (a, Err (ReloadLoad e))
    | Ok newCfg =>
        match BuildPortIndex (rc_Customers newCfg) with
        | Err e => (a, Err (ReloadConflict e))
        | Ok _ =>
            let '(a1, summary) := applyReload a (a_currentCfg a) newCfg o in
            (emitReloadAudit env summary (persist env (set_currentCfg newCfg a1)),
             Ok summary)
        end
    end.

(** ** What a reload does to one port *)

Definition reload_entry (customer : string) (e : PortIndexEntry) : portEntry :=
  mkPortEntry customer (ie_Service e) (ie_MaxStreams e) (ie_ListenAddr e).

(** By the entries of the port in the old and the new configuration, whether its
    listener starts when it is a new one, and its mapping before: the mapping
    after. *)
Definition reload_port (starts : bool) (old new : option PortIndexEntry) (before after : option portEntry) : Prop :=
  match new, old with
  | Some n, None => after = if starts then Some (reload_entry (ie_CustomerID n) n) else None
  | Some n, Some o =>
      if bool_decide (ie_CustomerID o ≠ ie_CustomerID n) then after = before
      else if portMutableFieldsDiffer o n then after = (λ e, reload_entry (customerID e) n) <$> before
      else after = before
  | None, Some o =>
      after = if bool_decide (customerID <$> before = Some (ie_CustomerID o)) then None else before
  | None, None => after = before
  end.

Abbreviation look := (λ (st : server * ReloadSummary) p, a_router st.1 !! p) (only parsing).

Lemma reload_new_ne oldIdx st kv p : p ≠ kv.1 → look (reload_new oldIdx st kv) p = look st p.
Proof.
  intros Hne. unfold reload_new. destruct (oldIdx !! kv.1).
  - case_bool_decide; [done|]. case_match; [|done].
    unfold updatePortReload, UpdatePortMapping. destruct (a_router st.1 !! kv.1); cbn; [|done].
    by rewrite lookup_insert_ne.
  - unfold addPort. destruct (map_and_listen _ _ _ _ _ _ _) as [a' []] eqn:E;
      apply map_and_listen_spec in E as (_ & Hr & _); cbn; rewrite Hr;
      by rewrite ?lookup_insert_ne, ?lookup_delete_ne by done.
Qed.

Lemma reload_new_eq oldIdx st k v :
  reload_port (can_listen (bound_addrs (a_clientListener st.1)) (host_port (ie_ListenAddr v) k))
    (oldIdx !! k) (Some v) (look st k) (look (reload_new oldIdx st (k, v)) k).
Proof.
  unfold reload_port, reload_new. cbn. destruct (oldIdx !! k) as [o|].
  - case_bool_decide; [done|]. case_match; [|done].
    unfold updatePortReload, UpdatePortMapping. destruct (a_router st.1 !! k) as [e|] eqn:E; cbn.
    + by rewrite lookup_insert_eq.
    + done.
  - unfold addPort. destruct (map_and_listen _ _ _ _ _ _ _) as [a' []] eqn:E;
      apply map_and_listen_spec in E as (<- & Hr & _); cbn; rewrite Hr.
    + by rewrite lookup_insert_eq.
    + by rewrite lookup_delete_eq.
Qed.

(** ** The listeners a reload opens *)

(** The addresses of those ports of a list that are new and, in the end, mapped. *)
Definition opened_ports (oldIdx : gmap Z PortIndexEntry) (router : gmap Z portEntry)
    (l : list (Z * PortIndexEntry)) : list string :=
  (λ kv, host_port (ie_ListenAddr kv.2) kv.1) <$>
    filter (λ kv, oldIdx !! kv.1 = None ∧ is_Some (router !! kv.1)) l.

Lemma opened_ports_ext (oldIdx : gmap Z PortIndexEntry) r r' l :
  (∀ k, k ∈ l.*1 → oldIdx !! k = None → r !! k = r' !! k) → opened_ports oldIdx r l = opened_ports oldIdx r' l.
Proof.
  intros Hr. unfold opened_ports. f_equal. induction l as [|[k v] l IH]; [done|].
  rewrite !filter_cons, IH by (intros; apply Hr; set_solver). cbn.
  assert (oldIdx !! k = None → r !! k = r' !! k) as Hk by (apply Hr; set_solver).
  destruct (decide (oldIdx !! k = None)) as [E|E]; [rewrite (Hk E); done|].
  by rewrite !decide_False by naive_solver.
Qed.

Lemma bound_addrs_insert (cl : ClientListener Lim) ln addr listeners' :
  lns cl !! ln = None →
  bound_addrs (mkClientListener (rateLimiters cl) listeners' (<[ln := mkListener addr true]> (lns cl)))
  ≡ₚ addr :: bound_addrs cl.
Proof.
  intros Hn. unfold bound_addrs. cbn. rewrite map_to_list_insert by done. cbn. by rewrite decide_True.
Qed.

Lemma reload_new_bound oldIdx st k v :
  bound_addrs (a_clientListener (reload_new oldIdx st (k, v)).1) ≡ₚ
  opened_ports oldIdx (a_router (reload_new oldIdx st (k, v)).1) [(k, v)] ++ bound_addrs (a_clientListener st.1).
Proof.
  unfold opened_ports. rewrite filter_cons, filter_nil. cbn. unfold reload_new. cbn. destruct (oldIdx !! k) as [o|] eqn:Eo.
  - rewrite decide_False by naive_solver. cbn. case_bool_decide; [done|]. case_match; [|done].
    unfold updatePortReload. by case_match.
  - unfold addPort, map_and_listen. rewrite add_remove. unfold StartPort. destruct (can_listen _ _); cbn.
    + rewrite decide_True by (split; [done|unfold AddPortMapping; rewrite lookup_insert_eq; eauto]). cbn.
      apply bound_addrs_insert, not_elem_of_dom, is_fresh.
    + rewrite decide_False; [done|]. rewrite lookup_delete_eq. intros [_ [? [=]]].
Qed.

Lemma reload_new_opened oldIdx st l :
  NoDup l.*1 →
  bound_addrs (a_clientListener (foldl (reload_new oldIdx) st l).1) ≡ₚ
  opened_ports oldIdx (a_router (foldl (reload_new oldIdx) st l).1) l ++ bound_addrs (a_clientListener st.1).
Proof.
  induction l as [|[k v] l IH] using rev_ind; [done|]. rewrite fmap_app, foldl_app. cbn. intros (Hnd & Hk & _)%NoDup_app.
  rewrite reload_new_bound, IH by done. rewrite (assoc_L (++)). apply Permutation_app_tail.
  unfold opened_ports at 3. rewrite filter_app, fmap_app, (comm (++)). apply Permutation_app_tail, reflexive_eq.
  apply opened_ports_ext. intros k' Hk' _. symmetry. apply (reload_new_ne oldIdx _ (k, v)). cbn. intros ->.
  by apply (Hk k); [|apply list_elem_of_singleton].
Qed.

(** Whether the listener of a new port starts: what net.Listen says when the
    addresses in use are those from before the reload and those of the new
    ports that came before this one and were mapped. *)
Definition listener_starts (a a' : server) (oldIdx : gmap Z PortIndexEntry) (order : list (Z * PortIndexEntry))
    (port : Z) (n : PortIndexEntry) (starts : bool) : Prop :=
  ∃ earlier later used, order = earlier ++ (port, n) :: later ∧
    used ≡ₚ opened_ports oldIdx (a_router a') earlier ++ bound_addrs (a_clientListener a) ∧
    starts = can_listen used (host_port (ie_ListenAddr n) port).

Lemma removePort_router st k v :
  a_router (removePort st k v).1 =
  if bool_decide (customerID <$> a_router st.1 !! k = Some (ie_CustomerID v))
  then delete k (a_router st.1) else a_router st.1.
Proof.
  unfold removePort, RemovePortMapping. destruct (a_router st.1 !! k) as [e|] eqn:E; cbn; [|done].
  destruct (decide (customerID e = ie_CustomerID v)) as [Ec|Ec].
  - rewrite bool_decide_eq_false_2 by naive_solver. rewrite bool_decide_eq_true_2 by congruence.
    cbn. by case_match.
  - rewrite bool_decide_eq_true_2 by done. by rewrite bool_decide_eq_false_2 by congruence.
Qed.

Lemma reload_old_ne newIdx st kv p : p ≠ kv.1 → look (reload_old newIdx st kv) p = look st p.
Proof.
  intros Hne. unfold reload_old. case_match; [done|]. cbn. rewrite removePort_router.
  case_bool_decide; [|done]. by rewrite lookup_delete_ne.
Qed.

Lemma reload_old_eq (newIdx : gmap Z PortIndexEntry) st k v :
  match newIdx !! k with
  | Some _ => look (reload_old newIdx st (k, v)) k = look st k
  | None => ∀ starts, reload_port starts (Some v) None (look st k) (look (reload_old newIdx st (k, v)) k)
  end.
Proof.
  unfold reload_old. cbn. destruct (newIdx !! k); [done|]. cbn. rewrite removePort_router.
  case_bool_decide; [|done]. by rewrite lookup_delete_eq.
Qed.

Lemma perm_keys (m : gmap Z PortIndexEntry) l :
  l ≡ₚ map_to_list m → NoDup l.*1 ∧ (∀ k v, (k, v) ∈ l ↔ m !! k = Some v) ∧
  (∀ k, k ∉ l.*1 ↔ m !! k = None).
Proof.
  intros Hp. assert (∀ k v, (k, v) ∈ l ↔ m !! k = Some v) as Hin
    by (intros k v; by rewrite Hp, elem_of_map_to_list).
  split_and!; [rewrite Hp; apply NoDup_fst_map_to_list|done|]. intros k.
  rewrite eq_None_not_Some, <-elem_of_dom. rewrite list_elem_of_fmap.
  split; intros Hn Hk; apply Hn.
  - apply elem_of_dom in Hk as [v Hk]. exists (k, v). by rewrite Hin.
  - destruct Hk as ([k' v] & -> & Hk%Hin). apply elem_of_dom. by exists v.
Qed.

(** The two loops, for one port. *)
Lemma reload_new_port oldIdx st l p :
  NoDup l.*1 →
  (∀ v earlier later, l = earlier ++ (p, v) :: later →
     let st1 := foldl (reload_new oldIdx) st earlier in
     reload_port (can_listen (bound_addrs (a_clientListener st1.1)) (host_port (ie_ListenAddr v) p))
       (oldIdx !! p) (Some v) (look st p) (look (foldl (reload_new oldIdx) st l) p)) ∧
  (p ∉ l.*1 → look (foldl (reload_new oldIdx) st l) p = look st p).
Proof.
  assert (∀ l st, p ∉ l.*1 → look (foldl (reload_new oldIdx) st l) p = look st p) as Hout.
  { intros l'. induction l' as [|[k v] l' IH]; intros st' Hp; [done|]. cbn. apply not_elem_of_cons in Hp as [Hne Hp].
    rewrite IH by done. by apply reload_new_ne. }
  intros Hnd. split; [|by apply Hout]. intros v earlier later ->. cbn zeta.
  rewrite fmap_app in Hnd. apply NoDup_app in Hnd as (_ & Hd & [Hl _]%NoDup_cons).
  assert (p ∉ earlier.*1) as He by (intros Hin; apply (Hd _ Hin); by left).
  rewrite foldl_app. cbn [foldl]. rewrite (Hout later) by done. rewrite <-(Hout earlier st He). apply reload_new_eq.
Qed.

Lemma reload_old_port newIdx st l p :
  NoDup l.*1 →
  (∀ v, (p, v) ∈ l →
     match newIdx !! p with
     | Some _ => look (foldl (reload_old newIdx) st l) p = look st p
     | None => ∀ starts, reload_port starts (Some v) None (look st p) (look (foldl (reload_old newIdx) st l) p)
     end) ∧
  (p ∉ l.*1 → look (foldl (reload_old newIdx) st l) p = look st p).
Proof.
  intros Hnd.
  exact (foldl_local (reload_old newIdx) look (λ k v b af,
    match newIdx !! k with Some _ => af = b | None => ∀ starts, reload_port starts (Some v) None b af end) l
    (reload_old_ne newIdx) (reload_old_eq newIdx) Hnd st p).
Qed.

Lemma applyReload_port a oldCfg newCfg o a' summary port :
  orders_ok o oldCfg newCfg → applyReload a oldCfg newCfg o = (a', summary) →
  ∃ starts, reload_port starts (indexPorts oldCfg !! port) (indexPorts (Some newCfg) !! port)
      (a_router a !! port) (a_router a' !! port) ∧
    ∀ n, indexPorts (Some newCfg) !! port = Some n →
      indexPorts oldCfg !! port = None → listener_starts a a' (indexPorts oldCfg) (ord_new o) port n starts.
Proof.
  intros (Hn & Ho & _). unfold applyReload. cbn zeta.
  set (newIdx := indexPorts (Some newCfg)) in *. set (oldIdx := indexPorts oldCfg) in *.
  set (st1 := foldl (reload_new oldIdx) _ _). set (st2 := foldl (reload_old newIdx) st1 _).
  destruct (applyRateLimitChanges _ _ _) as [cl changed]. intros [= <- <-].
  cbn [a_router set_clientListener]. clearbody newIdx oldIdx.
  destruct (perm_keys newIdx _ Hn) as (Hnd1 & Hin1 & Hno1). destruct (perm_keys oldIdx _ Ho) as (Hnd2 & Hin2 & Hno2).
  assert (∀ k, oldIdx !! k = None → look st2 k = look st1 k) as Hkeep
    by (intros k Hk; apply (reload_old_port newIdx st1 (ord_old o) k Hnd2), Hno2, Hk).
  destruct (reload_new_port oldIdx (a, mkSummary 0 0 0 0 0 []) (ord_new o) port Hnd1) as [L1 L1'].
  destruct (reload_old_port newIdx st1 (ord_old o) port Hnd2) as [L2 L2'].
  fold st1 in L1, L1'. fold st2 in L2, L2'. cbn [fst] in *.
  destruct (newIdx !! port) as [n|] eqn:En.
  - apply Hin1, list_elem_of_split in En as (earlier & later & E). specialize (L1 n earlier later E). cbn zeta in L1.
    set (st0 := foldl (reload_new oldIdx) _ earlier) in L1. eexists. split.
    + destruct (oldIdx !! port) as [ol|] eqn:Eo; [rewrite (L2 ol) by (by apply Hin2)|rewrite L2' by (by apply Hno2)]; exact L1.
    + intros n' [= <-] Eo. exists earlier, later, (bound_addrs (a_clientListener st0.1)). split_and!; [done| |done].
      rewrite E, fmap_app in Hnd1. apply NoDup_app in Hnd1 as (Hnd & Hd & Hnd').
      unfold st0. rewrite reload_new_opened by done. fold st0. cbn [fst]. apply Permutation_app_tail, reflexive_eq, opened_ports_ext.
      intros k Hk Hko. cbn. rewrite Hkeep by done. unfold st1. rewrite E, foldl_app. fold st0. symmetry.
      apply (reload_new_port oldIdx st0 _ k Hnd'), Hd, Hk.
  - exists false. split; [|done]. rewrite <-L1' by by apply Hno1. destruct (oldIdx !! port) as [ol|] eqn:Eo.
    + apply L2. by apply Hin2.
    + cbn. apply L2'. by apply Hno2.
Qed.

(** A reload touches neither the agents nor the audit log by itself. *)
Abbreviation kept := (λ st : server * ReloadSummary, (a_emitter st.1, a_registry st.1)) (only parsing).

Lemma reload_new_kept oldIdx st kv : kept (reload_new oldIdx st kv) = kept st.
Proof.
  unfold reload_new. destruct (oldIdx !! kv.1).
  - case_bool_decide; [done|]. case_match; [|done].
    unfold updatePortReload. by destruct (UpdatePortMapping _ _ _ _ _).
  - unfold addPort. destruct (map_and_listen _ _ _ _ _ _ _) as [a' []] eqn:E;
      apply map_and_listen_spec in E as (_ & _ & Hg & He & _); cbn; by rewrite Hg, He.
Qed.

Lemma reload_old_kept newIdx st kv : kept (reload_old newIdx st kv) = kept st.
Proof.
  unfold reload_old, removePort. case_match; [done|]. destruct (RemovePortMapping _ _ _); [|done].
  cbn. by case_match.
Qed.

Lemma applyReload_kept a oldCfg newCfg o : kept (applyReload a oldCfg newCfg o) = (a_emitter a, a_registry a).
Proof.
  unfold applyReload. cbn zeta. destruct (applyRateLimitChanges _ _ _) as [cl changed]. cbn [fst].
  etrans; [apply (foldl_keeps _ kept); intros; apply reload_old_kept|].
  apply (foldl_keeps _ kept). intros. apply reload_new_kept.
Qed.

(** C35. What a reload does to the port mappings, whatever the order in which
    it goes through the configurations: a port of the new configuration only
    is mapped as configured when its listener starts, and left unmapped when it
    does not, which is decided by net.Listen with the addresses that were in use
    before the reload and those of the new ports that came before it and were
    mapped; a port of both keeps its customer, and takes over the new service,
    limit and address exactly when the two configurations agree on its
    customer; a port of the old one only is unmapped if it still belongs to
    the customer it was configured for; every other mapping, such as one made
    through the API, stays as it is. *)
Theorem reload_ports a oldCfg newCfg o a' summary port :
  orders_ok o oldCfg newCfg → applyReload a oldCfg newCfg o = (a', summary) →
  ∃ starts, reload_port starts (indexPorts oldCfg !! port) (indexPorts (Some newCfg) !! port)
      (a_router a !! port) (a_router a' !! port) ∧
    ∀ n, indexPorts (Some newCfg) !! port = Some n →
      indexPorts oldCfg !! port = None → listener_starts a a' (indexPorts oldCfg) (ord_new o) port n starts.
Proof. apply applyReload_port. Qed.

(** A reload that fails changes nothing: without a configuration path, with
    a file that cannot be loaded or validated, and with a port that is
    configured twice, the server is exactly as before. A reload that succeeds
    commits the configuration it loaded, which has no port twice. *)
Theorem reload_error_unchanged env a load o a' res :
  Reload env a load o = (a', res) →
  match res with
  | Err _ => a' = a
  | Ok _ => ∃ newCfg, load (a_configPath a) = Ok newCfg ∧ a_currentCfg a' = Some newCfg ∧
              NoDup (port_of <$> customer_ports (rc_Customers newCfg))
  end.
Proof.
  unfold Reload. case_bool_decide; [by intros [= <- <-]|].
  destruct (load (a_configPath a)) as [newCfg|e]; [|by intros [= <- <-]].
  destruct (BuildPortIndex (rc_Customers newCfg)) as [idx|e] eqn:Eb; [|by intros [= <- <-]].
  destruct (applyReload _ _ _ _) as [a1 summary]. intros [= <- <-]. exists newCfg.
  split_and!; [done|unfold persist; by case_match|].
  unfold BuildPortIndex in Eb.
  pose proof (build_index_spec [] (customer_ports (rc_Customers newCfg)) NoDup_nil_2) as Hb.
  change (index_of []) with (∅ : gmap Z PortIndexEntry) in Hb. rewrite Eb in Hb. by destruct Hb.
Qed.

(** A reload that tries to move a port to another customer is refused, and
    yet remembered: when the port is then dropped from the configuration, the
    next reload compares with the refused customer and leaves the port mapped
    to the customer it had. *)
Theorem rejected_port_survives a cfg0 cfg1 cfg2 o1 o2 a1 a2 s1 s2 port e0 e1 e :
  orders_ok o1 (Some cfg0) cfg1 → orders_ok o2 (Some cfg1) cfg2 →
  indexPorts (Some cfg0) !! port = Some e0 → indexPorts (Some cfg1) !! port = Some e1 →
  indexPorts (Some cfg2) !! port = None → ie_CustomerID e0 ≠ ie_CustomerID e1 →
  a_router a !! port = Some e → customerID e = ie_CustomerID e0 →
  applyReload a (Some cfg0) cfg1 o1 = (a1, s1) → applyReload a1 (Some cfg1) cfg2 o2 = (a2, s2) →
  a_router a2 !! port = Some e.
Proof.
  intros Ho1 Ho2 E0 E1 E2 Hne Hr Hc Ha1 Ha2.
  destruct (applyReload_port _ _ _ _ _ _ port Ho1 Ha1) as (b1 & R1 & _).
  destruct (applyReload_port _ _ _ _ _ _ port Ho2 Ha2) as (b2 & R2 & _).
  rewrite E0, E1 in R1. rewrite E1, E2 in R2. unfold reload_port in R1, R2.
  rewrite bool_decide_eq_true_2 in R1 by done. rewrite R1, Hr in R2. cbn in R2.
  rewrite bool_decide_eq_false_2 in R2 by congruence. done.
Qed.

(** A port that was mapped through the API is not protected: when a reload
    finds it configured for another customer, and the address it is configured
    with can be bound, the port is moved to that customer. *)
Theorem reload_moves_runtime_port a oldCfg newCfg o a' summary port n :
  orders_ok o oldCfg newCfg → indexPorts oldCfg !! port = None →
  indexPorts (Some newCfg) !! port = Some n →
  (∀ used, can_listen used (host_port (ie_ListenAddr n) port) = true) →
  applyReload a oldCfg newCfg o = (a', summary) →
  a_router a' !! port = Some (reload_entry (ie_CustomerID n) n).
Proof.
  intros (Hn & Ho & _) Eo En Hl. unfold applyReload. cbn zeta.
  set (newIdx := indexPorts (Some newCfg)) in *. set (oldIdx := indexPorts oldCfg) in *.
  set (st1 := foldl (reload_new oldIdx) _ _). set (st2 := foldl (reload_old newIdx) st1 _).
  destruct (applyRateLimitChanges _ _ _) as [cl changed]. intros [= <- <-].
  cbn [a_router set_clientListener]. clearbody newIdx oldIdx.
  destruct (perm_keys newIdx _ Hn) as (Hnd1 & Hin1 & Hno1).
  destruct (perm_keys oldIdx _ Ho) as (Hnd2 & Hin2 & Hno2).
  destruct (foldl_local (reload_old newIdx) look (λ _ _ _ _, True) (ord_old o)
    (reload_old_ne newIdx) (λ _ _ _, I) Hnd2 st1 port) as [_ L2].
  fold st2 in L2. rewrite L2 by by apply Hno2.
  apply (foldl_local (reload_new oldIdx) look
    (λ k v _ af, oldIdx !! k = None → (∀ used, can_listen used (host_port (ie_ListenAddr v) k) = true) →
       af = Some (reload_entry (ie_CustomerID v) v)) (ord_new o) (reload_new_ne oldIdx)); try done; [|by apply Hin1].
  intros st k v Ek Hk. unfold reload_new. cbn. rewrite Ek. unfold addPort.
  destruct (map_and_listen _ _ _ _ _ _ _) as [a1 ok] eqn:E. apply map_and_listen_spec in E as (-> & Hr & _).
  rewrite Hk in *. cbn. rewrite Hr. by rewrite lookup_insert_eq.
Qed.
End reload.
