(* ===== verification/RelayServer.v ===== *)
(** * The relay process: [cmd/relay/main.go], [pkg/relay/server_impl.go],
    [listener.go]

    The merge of the sidecar into the port index at start, Relay.Start and
    Relay.Stop, and the admission of agents: identity from the certificate,
    session, registration. *)

From Stdlib Require Import ZArith Lia SpecFloat.
From S2P Require Import Prelude Text Json Frame Window WriteQueue Stream Mux MuxInv Config Registry RateLimit Router ClientListener Store Net AuditLog Auth Admin.

(** ** Merging the sidecar *)

(** The checks an entry must pass, in the order of the loop. *)
Definition sidecar_valid (sp : SidecarPort) : bool :=
  if bool_decide (sp_Port sp <= 0 ∨ sp_Port sp > 65535) then false
  else if bool_decide (sp_CustomerID sp = "" ∨ sp_Service sp = "") then false
  else if bool_decide (sp_ListenAddr sp ≠ "" ∧ ParseIP (sp_ListenAddr sp) = false) then false
  else negb (bool_decide (sp_MaxStreams sp < 0)).

Definition no_rate_limit : RateLimitConfig := mkRateLimitConfig f64_zero 0.

Definition sidecar_entry (sp : SidecarPort) : PortIndexEntry :=
  mkPortIndexEntry (sp_CustomerID sp) (sp_Service sp) (sp_MaxStreams sp) (default_listen (sp_ListenAddr sp))
    no_rate_limit.

(** The loop over the entries of the sidecar in [run], with [seen] and the index. *)
Definition merge_turn (st : gset Z * gmap Z PortIndexEntry) (sp : SidecarPort)
    : gset Z * gmap Z PortIndexEntry :=
  let '(seen, idx) := st in
  if negb (sidecar_valid sp) then st
  else if bool_decide (sp_Port sp ∈ seen) then st
  else
    let seen' := {[sp_Port sp]} ∪ seen in
    match idx !! sp_Port sp with
    | Some _ => (seen', idx)
    | None => (seen', <[sp_Port sp := sidecar_entry sp]> idx)
    end.

Definition mergeSidecar (idx : gmap Z PortIndexEntry) (ports : list SidecarPort) : gmap Z PortIndexEntry :=
  (foldl merge_turn (∅, idx) ports).2.

(** ** Start and Stop *)

(** The mappings Relay.Start registers, in the order [order] of the index. *)
Definition start_mappings (order : list (Z * PortIndexEntry)) (r : gmap Z portEntry) : gmap Z portEntry :=
  foldl (λ r kv, AddPortMapping r (ie_CustomerID kv.2) kv.1 (ie_Service kv.2) (ie_ListenAddr kv.2)
                   (ie_MaxStreams kv.2)) r order.

Section server.
Context `{RateLimiter Lim}.

(** The loops of [Relay.Stop] over the agents it listed. *)
Definition stop_goaway (r : MemoryRegistry) (customer : string) : MemoryRegistry :=
  match Lookup r customer with
  | Err _ => r
  | Ok c => upd_conn c (ConnGoAway 0) r
  end.

(** [func (s *Relay) Stop(ctx) error] *)
Definition RelayStop (cl : ClientListener Lim) (r : MemoryRegistry) : ClientListener Lim * MemoryRegistry :=
  let ids := ai_CustomerID <$> ListConnectedAgents r in
  (StopAll cl, foldl Unregister (foldl stop_goaway r ids) ids).
End server.

(** ** Agents *)

Section admission.
(** The hexadecimal SHA-256 of the certificate. *)
Context (fingerprint : list byte → string).

(** [func NewAgentListener(cfg) *AgentListener]: its limits, defaulted. *)
Definition listener_limits (maxAgents maxStreamsPerAgent : Z) : Z * Z :=
  (if bool_decide (maxAgents <= 0) then 1000 else maxAgents,
   if bool_decide (maxStreamsPerAgent <= 0) then 50 else maxStreamsPerAgent).

Definition agent_mux_config (maxStreams : Z) : MuxConfig :=
  mkMuxConfig maxStreams 262144 1048576 30000000000 5000000000 60000000000.

Definition listener_event (now : Z) (action target customer : string) : Event :=
  mkEvent action "relay" target now "" customer ∅.

(** [func (l *AgentListener) handleConnection(ctx, conn)], of a TLS connection
    from [addr]: [handshake] is the peer's chain, or [None] when the handshake
    fails; [services] is the list that arrived while it waited, if any. The
    result is the registry, the events, and the connection made, if any. *)
Definition handleConnection (reg : MemoryRegistry) (maxStreamsPerAgent : Z) (now : Z) (addr : string)
    (handshake : option (list Certificate)) (services : option (list string))
    : MemoryRegistry * list Event * option nat :=
  match handshake with
  | None => (reg, [listener_event now ActionAuthFailure addr ""], None)
  | Some chain =>
      match ExtractIdentity fingerprint chain with
      | Err _ => (reg, [listener_event now ActionAuthFailure addr ""], None)
      | Ok identity =>
          let customer := id_CustomerID identity in
          if bool_decide (customer = "") then (reg, [], None)
          else
            let mux := NewMuxSession RoleRelay (agent_mux_config maxStreamsPerAgent) in
            let live0 := NewLiveConnection now customer mux addr in
            let live1 := match chain with c :: _ => SetCertNotAfter (cert_NotAfter c) live0 | [] => live0 end in
            let live2 := match services with Some l => SetServices l live1 | None => live1 end in
            let c := fresh (dom (conns reg)) in
            let reg1 := mkRegistry (agents reg) (customerLimits reg) (r_metrics reg) (<[c := live2]> (conns reg)) in
            (Register reg1 customer c,
             [listener_event now ActionAuthSuccess addr customer;
              listener_event now ActionAgentConnected addr customer], Some c)
      end
  end.
End admission.

(** [func (l *AgentListener) Start(ctx) error], with the loop of
    StartWithListener, the same as that of a client port: [bound] tells whether
    the address can be listened on; the result is the connections for which
    handleConnection was started, once the loop returns. *)
Definition AgentListenerStart {Conn} (bound : bool) (fuel : nat) (accept : nat → option Conn)
    (ctxDone : nat → bool) : option (result unit (list Conn)) :=
  if bound then Ok <$> acceptLoop fuel accept ctxDone 0 else Some (Err tt).

(** ** Properties: the sidecar *)

(** The first valid entry for a port. *)
Definition sidecar_find (ports : list SidecarPort) (port : Z) : option SidecarPort :=
  snd <$> list_find (λ sp, sidecar_valid sp = true ∧ sp_Port sp = port) ports.

Lemma sidecar_find_cons sp ports port :
  sidecar_find (sp :: ports) port =
  if decide (sidecar_valid sp = true ∧ sp_Port sp = port) then Some sp else sidecar_find ports port.
Proof.
  unfold sidecar_find. cbn [list_find]. case_decide; [done|].
  rewrite <-option_fmap_compose. by destruct (list_find _ ports) as [[]|].
Qed.

Lemma merge_lookup ports seen idx port :
  (∀ p, p ∈ seen → is_Some (idx !! p)) →
  (foldl merge_turn (seen, idx) ports).2 !! port =
  match idx !! port with
  | Some e => Some e
  | None => sidecar_entry <$> sidecar_find ports port
  end.
Proof.
  revert seen idx. induction ports as [|sp ports IH]; intros seen idx Hseen; cbn [foldl].
  { cbn. by destruct (idx !! port). }
  rewrite sidecar_find_cons. unfold merge_turn at 2.
  destruct (sidecar_valid sp) eqn:Ev; cbn [negb].
  2:{ rewrite IH by done. by rewrite decide_False by naive_solver. }
  case_bool_decide as Hs.
  { rewrite IH by done. destruct (idx !! port) eqn:Ep; [done|]. rewrite decide_False; [done|].
    intros [_ <-]. apply Hseen in Hs as [? ?]. congruence. }
  assert (∀ idx' : gmap Z PortIndexEntry, (∀ p, is_Some (idx !! p) → is_Some (idx' !! p)) → is_Some (idx' !! sp_Port sp) →
            ∀ p, p ∈ ({[sp_Port sp]} ∪ seen : gset Z) → is_Some (idx' !! p)) as Hseen'
    by (intros idx' Hsub Hnew p; rewrite elem_of_union, elem_of_singleton; intros [->|?%Hseen]; auto).
  destruct (idx !! sp_Port sp) as [e|] eqn:Ei; rewrite IH;
    [|apply Hseen'; [done|by rewrite Ei]|
     |apply Hseen'; [intros p ?; by apply lookup_insert_is_Some'; right|by rewrite lookup_insert_eq]].
  - destruct (idx !! port) eqn:Ep; [done|]. rewrite decide_False; [done|]. intros [_ <-]. congruence.
  - destruct (decide (sp_Port sp = port)) as [<-|Hne].
    + rewrite lookup_insert_eq, Ei. by rewrite decide_True by done.
    + rewrite lookup_insert_ne by done. by rewrite decide_False by naive_solver.
Qed.

(** The merge of the sidecar into the index of relay.yaml: a port of
    relay.yaml keeps its entry; any other port gets that of the first entry of
    the sidecar for it that passes the checks (range, customer and service
    set, address valid, limit not negative), without a rate limit, or none. *)
Theorem sidecar_merge idx ports port :
  mergeSidecar idx ports !! port =
  match idx !! port with
  | Some e => Some e
  | None => sidecar_entry <$> sidecar_find ports port
  end.
Proof. apply merge_lookup. set_solver. Qed.

Definition index_mapping (e : PortIndexEntry) : portEntry :=
  mkPortEntry (ie_CustomerID e) (ie_Service e) (ie_MaxStreams e) (ie_ListenAddr e).

(** What Start registers is the index. *)
Lemma start_mappings_lookup idx order port :
  order ≡ₚ map_to_list idx → start_mappings order ∅ !! port = index_mapping <$> idx !! port.
Proof.
  intros Hp.
  assert (∀ l r, NoDup l.*1 → start_mappings l r !! port =
            match list_to_map (M := gmap Z PortIndexEntry) l !! port with
            | Some e => Some (index_mapping e) | None => r !! port end) as Hgen.
  { unfold start_mappings. induction l as [|[k e] l IH]; intros r Hnd; cbn [foldl]; [done|].
    apply NoDup_cons in Hnd as [Hk Hnd]. rewrite IH by done. cbn.
    destruct (decide (k = port)) as [->|Hne].
    - rewrite not_elem_of_list_to_map_1, !lookup_insert_eq by done. done.
    - by rewrite !lookup_insert_ne. }
  rewrite Hgen by (rewrite Hp; apply NoDup_fst_map_to_list).
  rewrite (list_to_map_proper order (map_to_list idx)), list_to_map_to_list
    by (rewrite ?Hp; done || apply NoDup_fst_map_to_list).
  by destruct (idx !! port).
Qed.

(** A mapping as the API creates it, with a bind address, and with names that a
    file can hold. *)
Definition mapping_valid (p : Z) (e : portEntry) : Prop :=
  sidecar_valid (sidecar_port (port_info p e)) = true ∧ listenAddr e ≠ "" ∧ port_text (sidecar_port (port_info p e)).

Lemma sidecar_find_saved r port :
  map_Forall mapping_valid r →
  sidecar_find (sidecar_port <$> ListPorts r) port = (λ e, sidecar_port (port_info port e)) <$> r !! port.
Proof.
  intros Hv. unfold sidecar_find, ListPorts. rewrite <-list_fmap_compose.
  destruct (list_find _ _) as [[i sp]|] eqn:E; cbn.
  - apply list_find_Some in E as (Hi & [_ Hp] & _). apply list_lookup_fmap_Some in Hi as ([k e] & -> & Hk).
    cbn in Hp. subst k. apply list_elem_of_lookup_2, elem_of_map_to_list in Hk. by rewrite Hk.
  - apply list_find_None in E. destruct (r !! port) as [e|] eqn:Er; [|done]. exfalso.
    rewrite Forall_forall in E. apply (E (sidecar_port (port_info port e))).
    + apply list_elem_of_fmap. exists (port, e). split; [done|]. by apply elem_of_map_to_list.
    + split; [|done]. by apply (Hv port e).
Qed.

(** A valid mapping survives the sidecar. *)
Lemma saved_mapping p e : mapping_valid p e → index_mapping (sidecar_entry (sidecar_port (port_info p e))) = e.
Proof.
  intros (_ & Hl & _).
  assert (default_listen (listenAddr e) = listenAddr e) as Hd
    by (unfold default_listen; by rewrite bool_decide_eq_false_2).
  unfold index_mapping. cbn -[default_listen]. rewrite Hd. by destruct e.
Qed.

Lemma restart_lookup r idx order port :
  map_Forall mapping_valid r →
  order ≡ₚ map_to_list (mergeSidecar idx (sidecar_port <$> ListPorts r)) →
  start_mappings order ∅ !! port =
  match idx !! port with
  | Some e => Some (index_mapping e)
  | None => r !! port
  end.
Proof.
  intros Hv Ho. rewrite (start_mappings_lookup _ _ _ Ho). unfold mergeSidecar.
  rewrite merge_lookup by set_solver. destruct (idx !! port) as [e|]; [done|].
  rewrite sidecar_find_saved by done. destruct (r !! port) as [e|] eqn:Er; [|done].
  cbn [fmap option_fmap option_map]. by rewrite saved_mapping by by apply Hv.
Qed.

(** Runtime mappings survive a restart. When the mappings of the router
    have been saved to the sidecar and the relay starts again, with whatever
    relay.yaml it finds then and in whatever order it registers the ports, a
    port of relay.yaml is mapped as configured there, and every other port is
    mapped exactly as it was before; a port that was in relay.yaml when the
    sidecar was written and has been dropped from it since is mapped again. *)
Theorem restart_restores r idx order port :
  map_Forall mapping_valid r →
  order ≡ₚ map_to_list (mergeSidecar idx (sidecar_port <$> ListPorts r)) →
  start_mappings order ∅ !! port =
  match idx !! port with
  | Some e => Some (index_mapping e)
  | None => r !! port
  end.
Proof. apply restart_lookup. Qed.

(** ** Properties: shutdown *)

Lemma stop_goaway_inv r id : reg_inv r → reg_inv (stop_goaway r id) ∧ agents (stop_goaway r id) = agents r.
Proof.
  intros (Hlim & Hc & Hg). unfold stop_goaway. destruct (Lookup r id); [|done].
  split; [|done]. split_and!; [done| |done]. by apply conns_inv_alter.
Qed.

Lemma stop_goaway_all l r :
  reg_inv r → reg_inv (foldl stop_goaway r l) ∧ agents (foldl stop_goaway r l) = agents r.
Proof.
  revert r. induction l as [|id l IH]; intros r I; cbn [foldl]; [done|].
  destruct (stop_goaway_inv r id I) as [I1 <-]. by apply IH.
Qed.

Lemma unregister_all l r :
  reg_inv r → reg_inv (foldl Unregister r l) ∧
  ∀ id, agents (foldl Unregister r l) !! id = if decide (id ∈ l) then None else agents r !! id.
Proof.
  revert r. induction l as [|i l IH]; intros r I; cbn [foldl].
  - split; [done|]. intros id. by rewrite decide_False by apply not_elem_of_nil.
  - destruct (IH (Unregister r i) (reg_inv_unregister r i I)) as [I1 Ha]. split; [done|].
    intros id. rewrite Ha.
    assert (∀ j, agents (Unregister r i) !! j = if decide (j = i) then None else agents r !! j) as Hu.
    { intros j. unfold Unregister. destruct (agents r !! i) as [c|] eqn:E; cbn.
      - rewrite lookup_delete. repeat case_decide; congruence.
      - case_decide; congruence. }
    rewrite Hu. destruct (decide (id ∈ l)), (decide (id = i)), (decide (id ∈ i :: l)) as [Hi|Hi];
      try done; set_solver.
Qed.

Lemma listed_agents r id c :
  reg_inv r → agents r !! id = Some c → id ∈ (ai_CustomerID <$> ListConnectedAgents r).
Proof.
  intros (_ & [H1 _] & _) Hid. destruct (H1 _ _ Hid) as (live & Hc & Hl).
  unfold ListConnectedAgents. rewrite <-list_fmap_compose. apply list_elem_of_fmap.
  exists live. split; [done|]. apply list_elem_of_omap. exists (id, c).
  split; [by apply elem_of_map_to_list|done].
Qed.

(** Closing a set of listeners. *)
Lemma close_listeners (l : list (Z * nat)) (h : gmap nat Listener) ln x :
  foldr (λ kv acc, alter close_listener kv.2 acc) h l !! ln = Some x →
  ln ∈ l.*2 → ln_open x = false.
Proof.
  revert x. induction l as [|[p k] l IH]; intros x; cbn; [by intros _ ?%not_elem_of_nil|].
  rewrite lookup_alter. case_decide; subst.
  - by intros (y & _ & ->)%fmap_Some _.
  - intros Hx [->|Hin]%elem_of_cons; [done|by eapply IH].
Qed.

Lemma RelayStop_closes `{RateLimiter Lim} es r (cl cl' : ClientListener Lim) r' :
  rsteps (NewMemoryRegistry (Some [])) es r → RelayStop cl r = (cl', r') →
  agents r' = ∅ ∧ (∀ c live, conns r' !! c = Some live → m_closeCh (lc_mux live) = true) ∧
  listeners cl' = ∅ ∧
  (∀ port ln x, listeners cl !! port = Some ln → lns cl' !! ln = Some x → ln_open x = false).
Proof.
  intros I%rsteps_inv. unfold RelayStop. cbn zeta. set (ids := ai_CustomerID <$> _). intros [= <- <-].
  destruct (stop_goaway_all ids r I) as [I1 Ha1]. destruct (unregister_all ids _ I1) as [I2 Ha2].
  assert (agents (foldl Unregister (foldl stop_goaway r ids) ids) = ∅) as Hempty.
  { apply map_empty. intros id. rewrite Ha2. case_decide as Hin; [done|]. rewrite Ha1.
    destruct (agents r !! id) eqn:E; [|done]. destruct Hin. by eapply listed_agents. }
  split_and!; [done| |done|].
  - intros c live Hc. destruct I2 as (_ & [_ H2] & _). destruct (H2 _ _ Hc) as [Ha|]; [|done].
    rewrite Hempty, lookup_empty in Ha. done.
  - intros port ln x Hp Hx. eapply close_listeners; [exact Hx|].
    apply list_elem_of_fmap. exists (port, ln). split; [done|]. by apply elem_of_map_to_list.
Qed.

(** A shutdown leaves nothing open: after Relay.Stop, for every registry that
    connections, disconnections and session activity can lead to, no agent is
    registered, the session of every connection that was ever made is closed,
    no listener is registered and all those that were have been closed. *)
Theorem relay_stop_closes `{RateLimiter Lim} es r (cl cl' : ClientListener Lim) r' :
  rsteps (NewMemoryRegistry (Some [])) es r → RelayStop cl r = (cl', r') →
  agents r' = ∅ ∧ (∀ c live, conns r' !! c = Some live → m_closeCh (lc_mux live) = true) ∧
  listeners cl' = ∅ ∧
  (∀ port ln x, listeners cl !! port = Some ln → lns cl' !! ln = Some x → ln_open x = false).
Proof. apply RelayStop_closes. Qed.

(** ** Properties: admission *)

(** Registering a new connection for one customer leaves the others alone. *)
Lemma Register_lookup r id c : Lookup (Register r id c) id = Ok c.
Proof.
  unfold Register, Lookup. repeat case_match; cbn in *;
    rewrite ?lookup_insert_eq in *; by simplify_eq.
Qed.

Lemma Register_other r id c id' : id' ≠ id → Lookup (Register r id c) id' = Lookup r id'.
Proof.
  intros Hne. unfold Register, Lookup.
  assert (agents (upd_metrics (ConnectionRegistered id)
    match agents r !! id with
    | Some old =>
        if bool_decide (connection_limit r id = 1)
        then upd_conn old ConnClose (upd_conn old (ConnGoAway 0)
               (upd_metrics (ConnectionUnregistered id) (set_agents (<[id := c]> (agents r)) r)))
        else set_agents (<[id := c]> (agents r)) r
    | None => set_agents (<[id := c]> (agents r)) r
    end) = <[id := c]> (agents r)) as E by (by repeat case_match).
  cbn zeta. rewrite E. by rewrite lookup_insert_ne.
Qed.

Lemma Register_new_conn r id c live :
  conns r !! c = Some live → agents r !! id ≠ Some c → conns (Register r id c) !! c = Some live.
Proof.
  intros Hc Hne. unfold Register. destruct (agents r !! id) as [old|]; cbn; [|done].
  case_bool_decide; cbn; [|done]. by rewrite !lookup_alter_ne by congruence.
Qed.

(** What registering a connection does to the connection objects: the one the
    customer had says goodbye and is closed, and no other is touched. *)
Lemma Register_conns r id c c' :
  customerLimits r = ∅ →
  conns (Register r id c) !! c' =
    if bool_decide (agents r !! id = Some c') then ConnClose <$> (ConnGoAway 0 <$> conns r !! c') else conns r !! c'.
Proof.
  intros Hlim. assert (connection_limit r id = 1) as E by (unfold connection_limit; by rewrite Hlim, lookup_empty).
  unfold Register. rewrite E, (bool_decide_eq_true_2 (1 = 1)) by done. destruct (agents r !! id) as [old|]; cbn; [|done].
  destruct (decide (old = c')) as [->|Hne].
  - rewrite (bool_decide_eq_true_2 (Some c' = _)) by done. by rewrite !lookup_alter_eq.
  - rewrite (bool_decide_eq_false_2 (Some old = _)) by congruence. by rewrite !lookup_alter_ne.
Qed.

(** C12. Who is admitted as an agent: a connection is registered exactly after a
    handshake with a certificate whose common name starts with customer-, under
    exactly that name, with a fresh session in the relay's role, whose ID space
    fits its stream limit. The connection the customer had before is sent a
    GOAWAY and closed; every other customer is looked up as before, and every
    other connection object, its session included, is left exactly as it was. In
    all other cases the registry is unchanged and no connection is reported. *)
Theorem agent_admission fingerprint reg maxStreams now addr handshake services reg' evs out :
  reg_inv reg → 0 < maxStreams < 2 ^ 31 - 1 →
  handleConnection fingerprint reg maxStreams now addr handshake services = (reg', evs, out) →
  match out with
  | None =>
      reg' = reg ∧ (∀ e, e ∈ evs → Action e ≠ ActionAgentConnected) ∧
      ∀ cert chain, handshake = Some (cert :: chain) → String.prefix "customer-" (cert_CN cert) = false
  | Some c =>
      ∃ cert chain live, handshake = Some (cert :: chain) ∧ String.prefix "customer-" (cert_CN cert) = true ∧
        evs = [listener_event now ActionAuthSuccess addr (cert_CN cert);
               listener_event now ActionAgentConnected addr (cert_CN cert)] ∧
        conns reg !! c = None ∧ Lookup reg' (cert_CN cert) = Ok c ∧ conns reg' !! c = Some live ∧
        lc_customerID live = cert_CN cert ∧ lc_certNotAfter live = cert_NotAfter cert ∧
        reachable RoleRelay (agent_mux_config maxStreams) [] (lc_mux live) ∧
        fits_ids RoleRelay (agent_mux_config maxStreams) ∧
        (∀ id, id ≠ cert_CN cert → Lookup reg' id = Lookup reg id) ∧
        (∀ c', c' ≠ c → Lookup reg (cert_CN cert) ≠ Ok c' → conns reg' !! c' = conns reg !! c') ∧
        (∀ old, Lookup reg (cert_CN cert) = Ok old →
           conns reg' !! old = ConnClose <$> (ConnGoAway 0 <$> conns reg !! old)) ∧
        reg_inv reg'
  end.
Proof.
  intros I Hmax. unfold handleConnection, ExtractIdentity.
  assert (∀ a t e, a ≠ ActionAgentConnected → e ∈ [listener_event now a t ""] → Action e ≠ ActionAgentConnected) as Hev
    by (by intros a t e ? ->%list_elem_of_singleton).
  destruct handshake as [[|cert chain]|];
    [by intros [= <- <- <-]; split_and!; [|intros e; by apply Hev|] | |by intros [= <- <- <-]; split_and!; [|intros e; by apply Hev|]].
  destruct (String.prefix "customer-" (cert_CN cert)) eqn:Ep.
  2:{ destruct (String.prefix "relay" (cert_CN cert)); intros [= <- <- <-]; split_and!;
        first [done|by intros ? ?%elem_of_nil|by intros e; apply Hev|by intros ? ? [= <- <-]]. }
  cbn [id_CustomerID]. case_bool_decide as En; [by rewrite En in Ep|].
  set (c := fresh _). set (live := match services with Some _ => _ | None => _ end).
  assert (conns reg !! c = None) as Hfresh by apply not_elem_of_dom, is_fresh.
  assert (lc_customerID live = cert_CN cert ∧ lc_certNotAfter live = cert_NotAfter cert ∧
          lc_mux live = NewMuxSession RoleRelay (agent_mux_config maxStreams)) as (Hl & Hn & Hm)
    by (unfold live; by destruct services).
  clearbody live. pose proof I as (Hlim & [H1 _] & _). intros [= <- <- <-]. exists cert, chain, live. split_and!; try done.
  - apply Register_lookup.
  - apply Register_new_conn; [cbn; by rewrite lookup_insert_eq|]. cbn. intros (? & ? & _)%H1. congruence.
  - rewrite Hm. apply msteps_nil.
  - unfold fits_ids. cbn. lia.
  - intros id Hne. by rewrite Register_other.
  - intros c' Hne Hl'. rewrite Register_conns by done. cbn. rewrite lookup_insert_ne by done.
    rewrite bool_decide_eq_false_2; [done|]. intros E. apply Hl'. unfold Lookup. by rewrite E.
  - intros old Ho. unfold Lookup in Ho. destruct (agents reg !! cert_CN cert) as [o|] eqn:E; [|done]. injection Ho as ->.
    rewrite Register_conns by done. cbn. rewrite bool_decide_eq_true_2 by done.
    destruct (H1 _ _ E) as (? & ? & _). rewrite lookup_insert_ne; [done|]. congruence.
  - by apply reg_inv_connect.
Qed.
