(* ===== verification/AdminHttp.v ===== *)
(** * The admin API over HTTP: [pkg/relay/admin.go], [admin_status.go],
    [admin_reload.go]

    The dispatch of a request by path and method, the read-only endpoints, and
    the report of /status. A request is its method, its path (decoded, as in
    URL.Path) and its body; a reply is its status code and the value that is
    encoded. *)

From Stdlib Require Import ZArith Lia SpecFloat.
From stdpp Require Import pretty sorting.
From S2P Require Import Prelude Text Float Frame Window WriteQueue Stream Mux MuxInv MuxOps Config Registry RateLimit Router ClientListener Store Net AuditLog Auth Admin Reload.

Record Request := mkRequest { rq_Method : string; rq_Path : list byte; rq_Body : list byte }.

(** ** http.ServeMux *)

Definition seg_dot : list byte := [x2e].
Definition seg_dotdot : list byte := [x2e; x2e].

(** path.Clean on the parts of a rooted path, [acc] holding the parts kept, the
    last one first. *)
Fixpoint clean_parts (parts acc : list (list byte)) : list (list byte) :=
  match parts with
  | [] => reverse acc
  | p :: parts' =>
      if bool_decide (p = [] ∨ p = seg_dot) then clean_parts parts' acc
      else if bool_decide (p = seg_dotdot) then clean_parts parts' (tail acc)
      else clean_parts parts' (p :: acc)
  end.

Definition rooted (parts : list (list byte)) : list byte :=
  match parts with
  | [] => [x2f]
  | _ => mjoin ((λ p, x2f :: p) <$> parts)
  end.

(** cleanPath of net/http: rooted, cleaned, a trailing slash kept. *)
Definition cleanPath (p : list byte) : list byte :=
  let np := rooted (clean_parts (split_on x2f p) []) in
  if bool_decide (last p = Some x2f ∧ np ≠ [x2f]) then np ++ [x2f] else np.

(** [strings.TrimPrefix] when the prefix is there. *)
Fixpoint trim (prefix s : list byte) : option (list byte) :=
  match prefix, s with
  | [], _ => Some s
  | b :: prefix', c :: s' => if bool_decide (b = c) then trim prefix' s' else None
  | _ :: _, [] => None
  end.

Inductive Endpoint :=
| EHealthz | EReadyz | EMetrics | EPorts | EPortByID (rest : list byte)
| EAgents | EAgentByID (rest : list byte) | EStats | EStatus | EConfig | EReload.

(** The patterns NewAdminServer registers: a pattern that ends in a slash stands
    for all paths below it. *)
Definition exact_patterns : list (string * Endpoint) :=
  [("/healthz", EHealthz); ("/readyz", EReadyz); ("/metrics", EMetrics); ("/ports", EPorts);
   ("/agents", EAgents); ("/stats", EStats); ("/status", EStatus); ("/config", EConfig); ("/reload", EReload)].

Definition endpoint (path : list byte) : option Endpoint :=
  match list_find (λ p, bytes_of_string p.1 = path) exact_patterns with
  | Some (_, (_, e)) => Some e
  | None =>
      match trim (bytes_of_string "/ports/") path with
      | Some rest => Some (EPortByID rest)
      | None => EAgentByID <$> trim (bytes_of_string "/agents/") path
      end
  end.

(** ** Status *)

Record CertNamePath := mkCertNamePath { cn_Name : string; cn_Path : string }.

(** ExpiresAt is the time the text is made of. *)
Record CertExpiry := mkCertExpiry { ce_Name : string; ExpiresAt : Z; DaysLeft : option Z }.

Record StatusResponse := mkStatus {
  sr_Uptime : Z;
  AgentsConnected : Z;
  StreamsActive : Z;
  PortsActive : Z;
  ConfigVersion : string;
  RelayCerts : list CertExpiry;
  AgentCerts : list CertExpiry
}.

(** [t.Sub(u)], saturated to an int64. *)
Definition time_Sub (t u : Z) : Z := Z.max (- 2 ^ 63) (Z.min (2 ^ 63 - 1) (t - u)).

Definition Hour : Z := 3600 * 1000000000.

(** [d.Hours()] *)
Definition Hours (d : Z) : spec_float :=
  f64_add (f64_of_Z (Z.quot d Hour)) (f64_div (f64_of_Z (Z.rem d Hour)) (f64_of_Z Hour)).

(** [int(notAfter.Sub(now).Hours() / 24)] *)
Definition days_left (notAfter now : Z) : option Z :=
  trunc_f64 (f64_div (Hours (time_Sub notAfter now)) (f64_of_Z 24)).

Definition cert_expiry (name : string) (notAfter now : Z) : CertExpiry :=
  mkCertExpiry name notAfter (days_left notAfter now).

(** [func collectAgentCerts(agents []AgentInfo) []CertExpiry] *)
Definition collectAgentCerts (now : Z) (agents : list AgentInfo) : list CertExpiry :=
  omap (λ ag, if bool_decide (ai_CertNotAfter ag = 0) then None
              else Some (cert_expiry (ai_CustomerID ag) (ai_CertNotAfter ag) now)) agents.

Inductive CertErr := ErrReadCert | ErrNoBlock | ErrBlockType (ty : string) | ErrParseCert.

Section certs.
Context `{PEM} `{X509 Cert Pool}.

(** [func parseCertExpiry(name, path string) (CertExpiry, error)] *)
Definition parseCertExpiry (fs : files) (now : Z) (name path : string) : result CertErr CertExpiry :=
  match fs path with
  | None => Err ErrReadCert
  | Some data =>
      match pem_Decode data with
      | None => Err ErrNoBlock
      | Some (ty, bytes, _) =>
          if bool_decide (ty ≠ "CERTIFICATE") then Err (ErrBlockType ty)
          else match ParseCertificate bytes with
               | None => Err ErrParseCert
               | Some notAfter => Ok (cert_expiry name notAfter now)
               end
      end
  end.

(** [func (a *AdminServer) collectRelayCerts() []CertExpiry] *)
Definition collectRelayCerts (fs : files) (now : Z) (certPaths : list CertNamePath) : list CertExpiry :=
  omap (λ cp, match parseCertExpiry fs now (cn_Name cp) (cn_Path cp) with
              | Ok entry => Some entry
              | Err _ => None
              end) certPaths.
End certs.

(** ** The handlers *)

(** config.RelayConfig{} *)
Definition zero_relay_config : RelayConfig :=
  mkRelayConfig (mkServerConfig "" "" "" "" 0 0 0 0 "") (Config.mkTLSPaths "" "" "" "") []
    (mkLogConfig "" "" "") (mkMetricsConfig false "").

Inductive Reply :=
| RApi (r : Response)
| RReady
| RStats (uptime agents streams : Z)
| RStatus (s : StatusResponse)
| RConfig (cfg : RelayConfig)
| RReload (s : ReloadSummary)
| RReloadFailed (e : ReloadErr)
| RMetrics
| RNotFound
| RMoved (path : list byte).

(** The status code; that of a redirect depends on the version of net/http. *)
Definition reply_code (r : Reply) : option Z :=
  match r with
  | RApi (RespError code _) | RApi (RespPort code _) => Some code
  | RApi RespNoContent => Some 204
  | RReloadFailed _ => Some 422
  | RNotFound => Some 404
  | RMoved _ => None
  | _ => Some 200
  end.

(** What a request finds around the server: clock, temporary name and faults,
    LoadRelayConfig with the file as it is, the orders in which a reload runs
    through its maps, and the certificate files. *)
Record World := mkWorld {
  w_env : Env;
  w_load : string → result ConfigErr RelayConfig;
  w_orders : orders;
  w_files : files
}.

Section http.
Context `{RateLimiter Lim} `{PEM} `{X509 Cert Pool}.
Context (can_listen : list string → string → bool).

(** AdminServer with the fields that no request changes. *)
Record AdminHttp := mkAdminHttp {
  h_admin : AdminServer Lim;
  h_startTime : Z;
  h_certPaths : list CertNamePath;
  h_configVersion : string
}.

(** [func NewAdminServer(cfg *AdminConfig) *AdminServer] *)
Definition NewAdminServer (now : Z) (router : gmap Z portEntry) (cl : ClientListener Lim) (reg : MemoryRegistry)
    (emitter : option (list Event)) (store : option string) (fs : gmap string (list byte))
    (certPaths : list CertNamePath) (configVersion configPath : string) (initial : option RelayConfig)
    : AdminHttp :=
  mkAdminHttp (mkAdmin router cl reg emitter store fs configPath initial) now certPaths configVersion.

Definition with_admin (a : AdminServer Lim) (h : AdminHttp) : AdminHttp :=
  mkAdminHttp a (h_startTime h) (h_certPaths h) (h_configVersion h).

Definition not_allowed : Response := RespError 405 "method not allowed".

(** [func (a *AdminServer) handlePorts(w, r)] *)
Definition handlePorts (env : Env) (a : AdminServer Lim) (method : string) (body : list byte)
    : AdminServer Lim * Response :=
  if bool_decide (method = "GET") then (a, listPorts a)
  else if bool_decide (method = "POST") then createPort can_listen env a (decode_create body)
  else (a, not_allowed).

(** The switch of handlePortByID. *)
Definition port_request (env : Env) (a : AdminServer Lim) (method : string) (body : list byte) (port : Z)
    : AdminServer Lim * Response :=
  if bool_decide (method = "GET") then (a, getPort a port)
  else if bool_decide (method = "PUT") then updatePort env a (decode_update body) port
  else if bool_decide (method = "DELETE") then deletePort env a port
  else (a, not_allowed).

(** [func (a *AdminServer) handlePortByID(w, r)] *)
Definition handlePortByID (env : Env) (a : AdminServer Lim) (method : string) (body rest : list byte)
    : AdminServer Lim * Response :=
  match Atoi rest with
  | None => (a, RespError 400 "invalid port number")
  | Some port => port_request env a method body port
  end.

(** [func (a *AdminServer) handleAgentByID(w, r)] *)
Definition handleAgentByID (env : Env) (a : AdminServer Lim) (method : string) (rest : list byte)
    : AdminServer Lim * Response :=
  let customer := string_of_bytes rest in
  if bool_decide (customer = "") then (a, RespError 400 "customer_id required")
  else if bool_decide (method = "GET") then (a, getAgent a customer)
  else if bool_decide (method = "DELETE") then deleteAgent env a customer
  else (a, not_allowed).

(** [func (a *AdminServer) handleStats(w, r)] *)
Definition handleStats (now : Z) (h : AdminHttp) (method : string) : Reply :=
  if bool_decide (method ≠ "GET") then RApi not_allowed
  else
    let agents := ListConnectedAgents (a_registry (h_admin h)) in
    RStats (time_Sub now (h_startTime h)) (zlen agents) (total_streams agents).

(** [func (a *AdminServer) handleStatus(w, r)] *)
Definition handleStatus (fs : files) (now : Z) (h : AdminHttp) (method : string) : Reply :=
  if bool_decide (method ≠ "GET") then RApi not_allowed
  else
    let agents := ListConnectedAgents (a_registry (h_admin h)) in
    RStatus (mkStatus (time_Sub now (h_startTime h)) (zlen agents) (total_streams agents)
               (zlen (ListPorts (a_router (h_admin h)))) (h_configVersion h)
               (collectRelayCerts fs now (h_certPaths h)) (collectAgentCerts now agents)).

(** [func (a *AdminServer) handleConfig(w, r)] *)
Definition handleConfig (a : AdminServer Lim) (method : string) : Reply :=
  if bool_decide (method ≠ "GET") then RApi not_allowed
  else RConfig (default zero_relay_config (a_currentCfg a)).

(** [func (a *AdminServer) handleReload(w, r)] *)
Definition handleReload (w : World) (a : AdminServer Lim) (method : string) : AdminServer Lim * Reply :=
  if bool_decide (method ≠ "POST") then (a, RApi not_allowed)
  else
    match Reload can_listen (w_env w) a (w_load w) (w_orders w) with
    | (a', Ok summary) => (a', RReload summary)
    | (a', Err e) => (a', RReloadFailed e)
    end.

Definition api (p : AdminServer Lim * Response) : AdminServer Lim * Reply := (p.1, RApi p.2).

(** The handler of an endpoint. *)
Definition handle (w : World) (h : AdminHttp) (e : Endpoint) (method : string) (body : list byte)
    : AdminServer Lim * Reply :=
  let a := h_admin h in
  match e with
  | EHealthz => (a, RApi (handleHealth a))
  | EReadyz => (a, RReady)
  | EMetrics => (a, RMetrics)
  | EPorts => api (handlePorts (w_env w) a method body)
  | EPortByID rest => api (handlePortByID (w_env w) a method body rest)
  | EAgents => (a, RApi (handleAgents a method))
  | EAgentByID rest => api (handleAgentByID (w_env w) a method rest)
  | EStats => (a, handleStats (env_now (w_env w)) h method)
  | EStatus => (a, handleStatus (w_files w) (env_now (w_env w)) h method)
  | EConfig => (a, handleConfig a method)
  | EReload => handleReload w a method
  end.

(** A request: the path is cleaned first, except for CONNECT, and a path that
    was not clean is answered with a redirect. *)
Definition serve (w : World) (h : AdminHttp) (rq : Request) : AdminHttp * Reply :=
  let path := if bool_decide (rq_Method rq = "CONNECT") then rq_Path rq else cleanPath (rq_Path rq) in
  if bool_decide (path ≠ rq_Path rq) then (h, RMoved path)
  else
    match endpoint path with
    | None => (h, RNotFound)
    | Some e =>
        let '(a, reply) := handle w h e (rq_Method rq) (rq_Body rq) in (with_admin a h, reply)
    end.
End http.

Arguments AdminHttp Lim : clear implicits.

(** ** Start *)

Inductive AdminListener := AdminUnix | AdminTCP.
Inductive AdminStartErr := ErrUnixSocket | ErrServe (l : AdminListener) (msg : string).

(** [func (a *AdminServer) serve(ln) error], and the end of ListenAndServe:
    [None] stands for http.ErrServerClosed. *)
Definition serve_result (l : AdminListener) (closed : option string) : result AdminStartErr unit :=
  match closed with
  | None => Ok tt
  | Some msg => Err (ErrServe l msg)
  end.

(** [func (a *AdminServer) Start(ctx) error]: the listeners that are served, and
    what Start returns once they end; [unix_ok] tells whether the socket could
    be listened on, [ended] how serving each listener ended. *)
Definition AdminStart (socketPath addr : string) (unix_ok : bool) (ended : AdminListener → option string)
    : list AdminListener * result AdminStartErr unit :=
  let tcp (before : list AdminListener) :=
    if bool_decide (addr ≠ "") then (before ++ [AdminTCP], serve_result AdminTCP (ended AdminTCP))
    else (before, Ok tt) in
  if bool_decide (socketPath ≠ "") then
    if unix_ok then
      if bool_decide (addr = "") then ([AdminUnix], serve_result AdminUnix (ended AdminUnix)) else tcp [AdminUnix]
    else if bool_decide (addr = "") then ([], Err ErrUnixSocket) else tcp []
  else tcp [].

(** The API is reachable over every way that is configured, except over a socket
    that cannot be listened on; Start fails at once exactly when that leaves
    nothing. *)
Lemma admin_start_serves socketPath addr unix_ok ended ls r :
  AdminStart socketPath addr unix_ok ended = (ls, r) →
  (AdminTCP ∈ ls ↔ addr ≠ "") ∧ (AdminUnix ∈ ls ↔ socketPath ≠ "" ∧ unix_ok = true) ∧
  (r = Err ErrUnixSocket ↔ ls = [] ∧ socketPath ≠ "").
Proof.
  unfold AdminStart, serve_result.
  repeat case_bool_decide; destruct unix_ok; cbn; intros [= <- <-]; simplify_eq; set_unfold;
    repeat case_match; naive_solver.
Qed.

(** ** Paths *)

(** A part of a path that cleaning keeps. *)
Definition plain (p : list byte) : Prop := p ≠ [] ∧ p ≠ seg_dot ∧ p ≠ seg_dotdot ∧ x2f ∉ p.

Lemma clean_parts_plain ps acc : Forall plain ps → clean_parts ps acc = reverse acc ++ ps.
Proof.
  revert acc. induction ps as [|p ps IH]; intros acc Hp; cbn [clean_parts]; [by rewrite app_nil_r|].
  apply Forall_cons in Hp as [(H1 & H2 & H3 & _) Hp].
  rewrite !bool_decide_eq_false_2 by naive_solver. rewrite IH by done.
  by rewrite reverse_cons, <-(assoc_L (++)).
Qed.

Lemma last_plain p q : plain p → last (q ++ p) ≠ Some x2f.
Proof.
  intros (Hne & _ & _ & Hs) Hl. rewrite last_app in Hl.
  destruct (last p) as [b|] eqn:E; [|by apply last_None in E].
  injection Hl as ->. apply Hs. by apply last_Some_elem_of.
Qed.

Lemma cleanPath_two p q : plain p → plain q → cleanPath (x2f :: p ++ x2f :: q) = x2f :: p ++ x2f :: q.
Proof.
  intros Hp Hq. unfold cleanPath.
  rewrite bool_decide_eq_false_2.
  2:{ intros [Hl _]. revert Hl. rewrite app_comm_cons, (app_assoc (x2f :: p) [x2f] q : _ ++ x2f :: q = _).
      by apply last_plain. }
  change (x2f :: p ++ x2f :: q) with ([] ++ [x2f] ++ (p ++ [x2f] ++ q)).
  rewrite !split_on_app by (apply not_elem_of_nil || apply Hp). rewrite split_on_word by apply Hq.
  change (clean_parts [[]; p; q] []) with (clean_parts [p; q] []).
  rewrite clean_parts_plain by auto. cbn. by rewrite app_nil_r.
Qed.

Lemma pretty_plain (z : Z) : plain (bytes_of_string (pretty z)).
Proof.
  destruct (pretty_Z_bytes z) as (ds & -> & [Hne Hds] & _).
  destruct ds as [|d ds]; [done|]. pose proof Hds as [Hd _]%Forall_cons.
  assert (∀ c, is_digit c = false → c ∉ d :: ds) as Hno.
  { intros c Hc Hin. rewrite Forall_forall in Hds. specialize (Hds c Hin). congruence. }
  pose proof (digit_not _ x2e Hd eq_refl).
  case_bool_decide; cbn; split_and!; unfold seg_dot, seg_dotdot; try (intros [=]; congruence); try congruence.
  - apply not_elem_of_cons. split; [done|]. by apply Hno.
  - by apply Hno.
Qed.

(** ** Properties *)

Section properties.
Context `{RateLimiter Lim} `{PEM} `{X509 Cert Pool}.
Context (can_listen : list string → string → bool).

Abbreviation serve := (serve can_listen).

(** The action a request is recorded under, when it may change something. *)
Definition mutation (method : string) (e : Endpoint) : option string :=
  match e with
  | EPorts => if bool_decide (method = "POST") then Some ActionAdminPortAdded else None
  | EPortByID _ => if bool_decide (method = "PUT") then Some ActionAdminPortUpdated
                   else if bool_decide (method = "DELETE") then Some ActionAdminPortRemoved else None
  | EAgentByID _ => if bool_decide (method = "DELETE") then Some ActionAdminAgentDisconnected else None
  | EReload => if bool_decide (method = "POST") then Some ActionAdminReload else None
  | _ => None
  end.

(** One audit record was appended, when there is an emitter. *)
Definition recorded (now : Z) (action : string) (a a' : AdminServer Lim) : Prop :=
  ∀ l, a_emitter a = Some l → ∃ ev, a_emitter a' = Some (l ++ [ev]) ∧
    Action ev = action ∧ Actor ev = "admin-api" ∧ Timestamp ev = now.

Lemma emitAudit_recorded env action target customer metadata a b :
  a_emitter b = a_emitter a →
  recorded (env_now env) action a (emitAudit env action target customer metadata b).
Proof. intros E l Hl. cbn. rewrite E, Hl. eexists. by split_and!. Qed.

(** The outcome of a handler that may change the server: nothing changed and
    the reply is an error; or the listener of a new port did not start; or the
    change was recorded. *)
Definition outcome (now : Z) (action : string) (a a' : AdminServer Lim) (r : Reply) : Prop :=
  match reply_code r with
  | Some code =>
      if bool_decide (code < 300) then recorded now action a a'
      else if bool_decide (code = 409) then
        action = ActionAdminPortAdded ∧ ∃ port, a' = set_router (delete port (a_router a)) a
      else a' = a
  | None => False
  end.

Lemma createPort_outcome env a body :
  outcome (env_now env) ActionAdminPortAdded a (createPort can_listen env a body).1
    (RApi (createPort can_listen env a body).2).
Proof.
  unfold createPort. destruct body as [req|]; [|done].
  case_bool_decide; [done|]. case_bool_decide; [done|]. case_bool_decide; [done|]. case_bool_decide; [done|].
  cbn zeta. destruct (map_and_listen _ _ _ _ _ _ _) as [a1 []] eqn:E; cbn.
  - apply map_and_listen_spec in E as (_ & _ & _ & He & _). apply emitAudit_recorded.
    by rewrite persist_emitter.
  - split; [done|]. exists (cr_Port req). revert E. unfold map_and_listen. cbn zeta. rewrite add_remove.
    by destruct (StartPort _ _ _ _); intros [= <-].
Qed.

Lemma updatePort_outcome env a body port :
  outcome (env_now env) ActionAdminPortUpdated a (updatePort env a body port).1
    (RApi (updatePort env a body port).2).
Proof.
  unfold updatePort, decodePortUpdateRequest. destruct body as [req|]; [|done].
  case_bool_decide; [done|]. case_bool_decide; [done|]. case_bool_decide; [done|].
  unfold GetPort, UpdatePortMapping. destruct (a_router a !! port) as [e|] eqn:Ep; cbn; [|done].
  apply emitAudit_recorded. by rewrite persist_emitter.
Qed.

Lemma deletePort_outcome env a port :
  outcome (env_now env) ActionAdminPortRemoved a (deletePort env a port).1 (RApi (deletePort env a port).2).
Proof.
  unfold deletePort. destruct (LookupPort _ _) as [[customer svc]|]; [|done].
  destruct (RemovePortMapping _ _ _); [|done]. cbn. apply emitAudit_recorded.
  rewrite persist_emitter. by case_match.
Qed.

Lemma reload_outcome w a :
  let r := handleReload can_listen w a "POST" in
  outcome (env_now (w_env w)) ActionAdminReload a r.1 r.2.
Proof.
  cbn zeta. unfold handleReload, Reload. rewrite (bool_decide_eq_false_2 ("POST" ≠ "POST")%string) by naive_solver.
  case_bool_decide; [done|]. destruct (w_load w _) as [newCfg|]; [|done].
  destruct (BuildPortIndex _); [|done].
  pose proof (applyReload_kept can_listen a (a_currentCfg a) newCfg (w_orders w)) as Hk.
  destruct (applyReload _ _ _ _ _) as [a1 summary]. injection Hk as He _.
  apply emitAudit_recorded. by rewrite persist_emitter.
Qed.

Lemma handle_outcome w (h : AdminHttp Lim) e method body :
  match mutation method e with
  | None => (handle can_listen w h e method body).1 = h_admin h
  | Some action =>
      let r := handle can_listen w h e method body in
      outcome (env_now (w_env w)) action (h_admin h) r.1 r.2
  end.
Proof.
  destruct e as [ | | | |rest| |rest| | | | ]; cbn [mutation handle]; try done.
  - unfold handlePorts. repeat case_bool_decide; subst; try done. apply createPort_outcome.
  - unfold handlePortByID. destruct (Atoi rest) as [port|]; [|by repeat case_bool_decide].
    unfold port_request. repeat case_bool_decide; subst; try done.
    + apply updatePort_outcome.
    + apply deletePort_outcome.
  - unfold handleAgentByID. cbn zeta. repeat case_bool_decide; subst; try done.
    by apply emitAudit_recorded.
  - case_bool_decide as Hp; [subst; apply reload_outcome|].
    unfold handleReload. by rewrite bool_decide_eq_true_2.
Qed.

Lemma mutation_method method e : is_Some (mutation method e) → method ≠ "CONNECT".
Proof. intros [action Hm] ->. by destruct e. Qed.


(** A path of two plain parts below /ports/ or /agents/ is not redirected. *)
Lemma serve_below w (h : AdminHttp Lim) method body (agents : bool) d :
  plain d →
  let path := bytes_of_string (if agents then "/agents/" else "/ports/") ++ d in
  let r := handle can_listen w h
             (if agents then EAgentByID d else EPortByID d) method body in
  endpoint path = Some (if agents then EAgentByID d else EPortByID d) ∧
  serve w h (mkRequest method path body) = (with_admin r.1 h, r.2).
Proof.
  intros Hd path r.
  assert (path = x2f :: bytes_of_string (if agents then "agents" else "ports") ++ x2f :: d) as Hb
    by by destruct agents.
  assert (plain (bytes_of_string (if agents then "agents" else "ports"))) as Hplain.
  { destruct agents; (split_and!; [done..|]); intros Hin;
      by repeat (apply elem_of_cons in Hin as [?|Hin]; [done|]); apply not_elem_of_nil in Hin. }
  assert (endpoint path = Some (if agents then EAgentByID d else EPortByID d)) as He.
  { subst path. destruct d as [|b d']; [by destruct Hd|]. by destruct agents. }
  split; [done|]. unfold AdminHttp.serve. cbn [rq_Method rq_Path rq_Body].
  rewrite Hb, cleanPath_two, <-Hb by done.
  replace (if bool_decide (method = "CONNECT") then path else path) with path by (by case_bool_decide).
  rewrite bool_decide_eq_false_2 by naive_solver. rewrite He.
  subst r. by destruct (handle _ _ _ _ _ _).
Qed.

(** The path of a port is read back: for every number an int can hold, a
    request for /ports/ followed by its decimal is not redirected, reaches the
    handler of single ports, and is handled there for exactly that number. *)
Theorem port_path_roundtrip w (h : AdminHttp Lim) method body (port : Z) :
  is_i64 port →
  serve w h (mkRequest method (bytes_of_string "/ports/" ++ bytes_of_string (pretty port)) body) =
  (with_admin (port_request (w_env w) (h_admin h) method body port).1 h,
   RApi (port_request (w_env w) (h_admin h) method body port).2).
Proof.
  intros Hp. destruct (serve_below w h method body false _ (pretty_plain port)) as [_ Hs].
  cbn [handle] in Hs. unfold handlePortByID in Hs. by rewrite Atoi_pretty in Hs.
Qed.

Lemma port_request_local env (a : AdminServer Lim) method body port p a' resp :
  port_request env a method body port = (a', resp) →
  a_router a' !! p = a_router a !! p ∨
  p = port ∧ ∀ e', a_router a' !! p = Some e' → ∃ e, a_router a !! p = Some e ∧ customerID e = customerID e'.
Proof.
  unfold port_request. case_bool_decide; [intros [= <- <-]; auto|]. case_bool_decide; [|case_bool_decide].
  - unfold updatePort. destruct (decodePortUpdateRequest _); [|intros [= <- <-]; auto].
    unfold GetPort, UpdatePortMapping. destruct (a_router a !! port) as [e|] eqn:Ep; cbn; [|intros [= <- <-]; auto].
    intros [= <- <-]. cbn. rewrite persist_router. cbn.
    destruct (decide (p = port)) as [->|Hne]; [|left; by rewrite lookup_insert_ne].
    right. split; [done|]. intros e'. rewrite lookup_insert_eq. intros [= <-]. by exists e.
  - unfold deletePort. destruct (LookupPort _ _) as [[customer svc]|]; [|intros [= <- <-]; auto].
    unfold RemovePortMapping. destruct (a_router a !! port) as [e|] eqn:Ep; [|intros [= <- <-]; auto].
    case_bool_decide; [intros [= <- <-]; auto|]. intros [= <- <-]. cbn. rewrite persist_router.
    assert (∀ o, a_router (match o with Some cl' => set_clientListener cl' (set_router (delete port (a_router a)) a)
              | None => set_router (delete port (a_router a)) a end) = delete port (a_router a)) as -> by by intros [].
    destruct (decide (p = port)) as [->|Hne]; [|left; by rewrite lookup_delete_ne].
    right. split; [done|]. by rewrite lookup_delete_eq.
  - intros [= <- <-]; auto.
Qed.

(** C17. Tenants keep their ports. A request with any method but POST leaves
    every mapping as it is, except that of the port its path names, which keeps
    its customer if it stays mapped. *)
Theorem admin_tenant_binding w (h : AdminHttp Lim) rq h' reply port :
  serve w h rq = (h', reply) → rq_Method rq ≠ "POST" →
  a_router (h_admin h') !! port = a_router (h_admin h) !! port ∨
  (∃ rest, endpoint (rq_Path rq) = Some (EPortByID rest) ∧ Atoi rest = Some port) ∧
  ∀ e', a_router (h_admin h') !! port = Some e' →
    ∃ e, a_router (h_admin h) !! port = Some e ∧ customerID e = customerID e'.
Proof.
  unfold AdminHttp.serve. cbn zeta. intros Hs Hm. revert Hs.
  case_bool_decide as Hpath; [intros [= <- <-]; by left|]. rewrite Hpath.
  destruct (endpoint (rq_Path rq)) as [e|]; [|intros [= <- <-]; by left].
  destruct e as [ | | | |rest| |rest| | | | ]; cbn; try (intros [= <- <-]; by left).
  - unfold handlePorts. rewrite (bool_decide_eq_false_2 (_ = "POST")) by done.
    intros Hq. left. revert Hq. destruct (bool_decide (rq_Method rq = "GET")); by intros [= <- <-].
  - unfold handlePortByID. destruct (Atoi rest) as [p|] eqn:Ea; [|intros [= <- <-]; by left].
    destruct (port_request _ _ _ _ _) as [a resp] eqn:Ep. intros [= <- <-]. cbn.
    destruct (port_request_local _ _ _ _ _ port _ _ Ep) as [Hl|[-> Hl]]; [auto|]. right. eauto.
  - unfold handleAgentByID. cbn zeta.
    repeat match goal with |- context [bool_decide ?P] => destruct (bool_decide P) end; intros [= <- <-]; by left.
  - unfold handleReload. rewrite bool_decide_eq_true_2 by done. intros [= <- <-]; by left.
Qed.

(** Disconnecting an agent: DELETE /agents/ followed by a customer always
    answers 204, whether or not an agent is connected, and then the customer
    has no agent, the session it had is closed, and every other customer has
    the connection it had. *)
Theorem admin_disconnects w (h : AdminHttp Lim) customer body :
  plain (bytes_of_string customer) →
  let r := serve w h (mkRequest "DELETE" (bytes_of_string "/agents/" ++ bytes_of_string customer) body) in
  let reg := a_registry (h_admin h) in
  let reg' := a_registry (h_admin r.1) in
  r.2 = RApi RespNoContent ∧
  Registry.Lookup reg' customer = Err (ErrAgentNotFound customer) ∧
  (∀ c live, Registry.Lookup reg customer = Ok c → conns reg' !! c = Some live →
     m_closeCh (lc_mux live) = true) ∧
  (∀ other, other ≠ customer → Registry.Lookup reg' other = Registry.Lookup reg other).
Proof.
  intros Hc. destruct (serve_below w h "DELETE" body true _ Hc) as [_ Hs]. rewrite Hs. clear Hs.
  cbn [handle]. unfold handleAgentByID. rewrite string_of_bytes_of_string.
  rewrite (bool_decide_eq_false_2 (customer = "")) by (intros ->; by destruct Hc).
  rewrite (bool_decide_eq_false_2 (_ = "GET")), (bool_decide_eq_true_2 (_ = "DELETE")) by done.
  cbn. unfold Registry.Lookup, Unregister.
  destruct (agents (a_registry (h_admin h)) !! customer) as [c|] eqn:Ea; cbn.
  - rewrite lookup_delete_eq. split_and!; [done..| |].
    + intros c' live [= <-] Hl. apply lookup_alter_Some in Hl as [(_ & l0 & _ & ->)|[? _]]; [|done].
      apply Close_closeCh.
    + intros other Hne. by rewrite lookup_delete_ne.
  - rewrite Ea. by split_and!.
Qed.

(** The report of /status: it counts the agents, their streams and the
    mapped ports as they are; it lists, in the order of the configured paths, an
    entry for exactly the files that can be read and hold a certificate first,
    whatever is wrong with the others; and, of the agents, exactly those whose
    certificate is known. *)
Theorem status_report w (h : AdminHttp Lim) body :
  (∀ kc, kc ∈ map_to_list (agents (a_registry (h_admin h))) → is_Some (conns (a_registry (h_admin h)) !! kc.2)) →
  ∃ s, serve w h (mkRequest "GET" (bytes_of_string "/status") body) = (h, RStatus s) ∧
    AgentsConnected s = Z.of_nat (size (agents (a_registry (h_admin h)))) ∧
    PortsActive s = Z.of_nat (size (a_router (h_admin h))) ∧
    (∀ entry, entry ∈ RelayCerts s ↔
       ∃ cp data bytes rest notAfter, cp ∈ h_certPaths h ∧ w_files w (cn_Path cp) = Some data ∧
         pem_Decode data = Some ("CERTIFICATE", bytes, rest) ∧ ParseCertificate bytes = Some notAfter ∧
         entry = cert_expiry (cn_Name cp) notAfter (env_now (w_env w))) ∧
    sublist (ce_Name <$> RelayCerts s) (cn_Name <$> h_certPaths h) ∧
    (∀ customer, customer ∈ ce_Name <$> AgentCerts s ↔
       ∃ ag, ag ∈ ListConnectedAgents (a_registry (h_admin h)) ∧ ai_CustomerID ag = customer ∧ ai_CertNotAfter ag ≠ 0).
Proof.
  intros Hlive. eexists. split; [unfold AdminHttp.serve; cbn; by destruct h|]. cbn.
  split_and!.
  - f_equal. unfold ListConnectedAgents. rewrite length_fmap, <-length_map_to_list.
    induction (map_to_list _) as [|kc l IH]; [done|]. cbn.
    destruct (Hlive kc ltac:(set_solver)) as [live ->]. cbn. f_equal. apply IH. set_solver.
  - unfold ListPorts. by rewrite length_fmap, length_map_to_list.
  - intros entry. unfold collectRelayCerts. rewrite list_elem_of_omap. split.
    + intros (cp & Hin & Hp). exists cp. unfold parseCertExpiry in Hp.
      destruct (w_files w (cn_Path cp)) as [data|]; [|done].
      destruct (pem_Decode data) as [[[ty bytes] rest]|] eqn:Ed; [|done]. case_bool_decide as Ht; [done|].
      destruct (ParseCertificate bytes) as [na|] eqn:Ep; [|done]. injection Hp as <-.
      subst ty. by eexists _, _, _, _.
    + intros (cp & data & bytes & rest & na & Hin & Hf & Hd & Hp & ->). exists cp. split; [done|].
      unfold parseCertExpiry. rewrite Hf, Hd, bool_decide_eq_false_2 by naive_solver. by rewrite Hp.
  - unfold collectRelayCerts. induction (h_certPaths h) as [|cp l IH]; cbn; [done|].
    destruct (parseCertExpiry _ _ _ _) as [entry|] eqn:Ep; cbn; [|by constructor].
    replace (ce_Name entry) with (cn_Name cp); [by constructor|]. unfold parseCertExpiry in Ep.
    repeat (case_match || case_bool_decide); by simplify_eq/=.
  - intros customer. rewrite list_elem_of_fmap. unfold collectAgentCerts. split.
    + intros (entry & -> & (ag & Hin & Ha)%list_elem_of_omap). case_bool_decide; [done|].
      injection Ha as <-. by exists ag.
    + intros (ag & Hin & <- & Hna). exists (cert_expiry (ai_CustomerID ag) (ai_CertNotAfter ag) (env_now (w_env w))).
      split; [done|]. apply list_elem_of_omap. exists ag. by rewrite bool_decide_eq_false_2.
Qed.
End properties.
