(* ===== verification/Expiry.v ===== *)
(** * The days left on a certificate: [pkg/relay/admin_status.go]

    GET /status reports int(notAfter.Sub(now).Hours() / 24), computed in
    floating point. What that number is, for certificates that are valid and
    for those that have expired. *)

From Stdlib Require Import ZArith Lia SpecFloat.
From S2P Require Import Prelude Text Json Float Frame Window WriteQueue Stream Mux MuxInv MuxOps Config Registry RateLimit Router ClientListener Store Net AuditLog Auth Admin Reload AdminHttp.

Section scaled.
Context (B : Z) (HB : 3000 <= B).

#[local] Notation scaled := (scaled B).
#[local] Notation pow_B := (pow_B_pos B HB).

(** The part of an hour: a float above 0 and at most 1. *)
Lemma hour_part r :
  0 < r < Hour →
  ∃ m e, f64_div (f64_of_Z r) (f64_of_Z Hour) = S754_finite false m e ∧ wf (S754_finite false m e) ∧
    scaled (Z.pos m) e <= 2 ^ B <= scaled (Z.pos m) e * 2 ^ 100.
Proof.
  intros Hr. pose proof pow_B. unfold Hour in Hr.
  assert (1 * 2 ^ B <= r * 2 ^ B) as R1 by (apply Z.mul_le_mono_nonneg_r; lia).
  assert (r * 2 ^ B <= Hour * 2 ^ B) as R2 by (apply Z.mul_le_mono_nonneg_r; unfold Hour; lia).
  destruct (of_Z_exact B HB r) as (m1 & e1 & -> & S1 & _ & E1); [lia|].
  destruct (of_Z_exact B HB Hour) as (m2 & e2 & -> & S2 & _ & E2); [unfold Hour; lia|].
  pose proof (exponent_bound B HB m1 e1 r ltac:(lia) ltac:(lia) E1).
  pose proof (exponent_bound B HB m2 e2 Hour ltac:(unfold Hour; lia) ltac:(lia) E2).
  destruct (div_pack B HB m1 m2 e1 e2) as (c & e & -> & Hc & He & Hlt & Hs); [lia..| | |].
  { rewrite S1, S2. lia. } { rewrite S1, S2. unfold Hour. lia. }
  destruct (pack_finite B HB c e) as (m & e' & Ep & Es & Hw & _ & _); [lia..|].
  exists m, e'. rewrite Ep in Hw |- *. split_and!; [done..| |]; rewrite Es.
  - assert (c <= 2 ^ (- e)) as Hle.
    { apply Hs. rewrite S1, S2. unfold Float.scaled. rewrite <-(Z.pow_add_r 2 (- e)) by lia.
      replace (- e + (e + B)) with B by lia. rewrite (Z.mul_comm (2 ^ B)). by apply Z.mul_le_mono_nonneg_r; [lia|]. }
    unfold Float.scaled. replace B with (- e + (e + B)) at 2 by lia. rewrite (Z.pow_add_r 2 (- e)) by lia.
    apply Z.mul_le_mono_nonneg_r; [apply Z.pow_nonneg; lia|done].
  - rewrite S1, S2 in Hlt. unfold Float.scaled in *. assert (B < 95 + (e + B)) as He95.
    { apply (Z.pow_lt_mono_r_iff 2); [lia..|]. rewrite (Z.pow_add_r 2 95) by lia.
      assert (0 < 2 ^ (e + B)) by (apply Z.pow_pos_nonneg; lia).
      apply (Z.mul_lt_mono_pos_r (2 ^ B)); [done|]. eapply Z.le_lt_trans; [|eapply Z.lt_le_trans; [exact Hlt|]].
      - apply Z.mul_le_mono_nonneg_r; lia.
      - rewrite Z.mul_assoc. apply Z.mul_le_mono_nonneg_r; [lia|]. unfold Hour. lia. }
    trans (2 ^ 52 * 2 ^ (e + B) * 2 ^ 100); [|apply Z.mul_le_mono_nonneg_r; [lia|]; apply Z.mul_le_mono_nonneg_r; [apply Z.pow_nonneg|]; lia].
    rewrite <-!Z.pow_add_r by lia. apply Z.pow_le_mono_r; lia.
Qed.

(** A duration in hours lies between whole hours. *)
Lemma hours_between d :
  0 < d < 2 ^ 63 →
  ∃ m e, Hours d = S754_finite false m e ∧ wf (S754_finite false m e) ∧
    d / Hour * 2 ^ B <= scaled (Z.pos m) e <= (d / Hour + 1) * 2 ^ B ∧ 2 ^ B <= scaled (Z.pos m) e * 2 ^ 100.
Proof.
  intros Hd. pose proof pow_B. unfold Hours. rewrite Z.quot_div_nonneg, Z.rem_mod_nonneg by (unfold Hour; lia).
  pose proof (Z.div_mod d Hour ltac:(done)) as Edm. pose proof (Z.mod_pos_bound d Hour ltac:(done)) as Hr.
  assert (0 <= d / Hour < 2 ^ 40) as Hh.
  { split; [apply Z.div_pos; unfold Hour; lia|apply Z.div_lt_upper_bound; unfold Hour; lia]. }
  set (h := d / Hour) in *. set (r := d mod Hour) in *. assert (r = 0 → 0 < h) as Hpos by (unfold Hour in Edm; lia).
  clearbody h r.
  assert (∀ m e, h * 2 ^ B <= scaled (Z.pos m) e → 0 < h → 2 ^ B <= scaled (Z.pos m) e * 2 ^ 100) as Hlow.
  { intros m e Hs H0. assert (1 * 2 ^ B <= h * 2 ^ B) by (apply Z.mul_le_mono_nonneg_r; lia). lia. }
  destruct (Z.eq_dec r 0) as [Er|Er].
  - destruct (of_Z_exact B HB h) as (m & e & -> & Hs & Hm & He); [lia|]. rewrite Er.
    exists m, e. split; [done|]. split; [split; lia|]. split; [lia|]. apply Hlow; lia.
  - destruct (hour_part r ltac:(lia)) as (m2 & e2 & -> & W2 & H2 & L2). destruct (Z.eq_dec h 0) as [Eh|Eh].
    + rewrite Eh. exists m2, e2. split; [done|]. split; [done|]. split; [|done].
      rewrite Z.mul_0_l, Z.mul_1_l. split; [|done]. by apply scaled_nonneg.
    + destruct (of_Z_exact B HB h) as (m1 & e1 & -> & Hs & Hm & He); [lia|].
      destruct (add_bounds B HB (S754_finite false m1 e1) (S754_finite false m2 e2) h 1 h) as (W & Hmost & Hleast);
        [split; lia|done|cbn; lia..|].
      destruct (f64_add _ _) as [[]|[]| |[] m e]; try done; [cbn in Hleast; lia|].
      exists m, e. cbn in Hmost, Hleast. split; [done|]. split; [done|]. split; [lia|]. apply Hlow; lia.
Qed.

(** A twenty-fourth of it, cut to an integer. *)
Lemma days_between (m : positive) e h :
  0 <= h < 2 ^ 40 → wf (S754_finite false m e) →
  h * 2 ^ B <= scaled (Z.pos m) e <= (h + 1) * 2 ^ B → 2 ^ B <= scaled (Z.pos m) e * 2 ^ 100 →
  ∃ n m' e', f64_div (S754_finite false m e) (f64_of_Z 24) = S754_finite false m' e' ∧
    trunc_f64 (S754_finite false m' e') = Some n ∧ h / 24 <= n <= h / 24 + 1 ∧ (h mod 24 < 23 → n = h / 24).
Proof.
  intros Hh [_ He] Hs Hl. pose proof pow_B.
  destruct (of_Z_exact B HB 24) as (m2 & e2 & -> & S2 & _ & E2); [lia|].
  pose proof (exponent_bound B HB m e (h + 1) ltac:(lia) ltac:(lia) He).
  pose proof (exponent_bound B HB m2 e2 24 ltac:(lia) ltac:(lia) E2).
  assert ((h + 1) * 2 ^ B <= 2 ^ 40 * 2 ^ B) by (apply Z.mul_le_mono_nonneg_r; lia).
  destruct (div_pack B HB m m2 e e2) as (c & E & -> & Hc & HE & _ & Hsides); [lia..|].
  destruct (pack_finite B HB c E) as (m' & e' & Ep & _ & _ & _ & Et); [lia..|].
  exists (c / 2 ^ (- E)), m', e'. rewrite Ep in Et. split; [done|]. split; [done|].
  assert (0 < 2 ^ (- E)) as HD by (apply Z.pow_pos_nonneg; lia).
  pose proof (Z.div_mod h 24 ltac:(lia)) as Eh. pose proof (Z.mod_pos_bound h 24 ltac:(lia)) as Hj.
  set (k := h / 24) in *. set (j := h mod 24) in *. clearbody k j. subst h.
  assert (∀ N, scaled (N * 2 ^ (- E)) E = N * 2 ^ B) as Hwhole.
  { intros N. rewrite scaled_shift by lia. unfold Float.scaled. do 2 f_equal. lia. }
  assert (24 * k * 2 ^ B <= (24 * k + j) * 2 ^ B) by (apply Z.mul_le_mono_nonneg_r; lia).
  assert (k * 2 ^ (- E) <= c) as Hlo.
  { apply Hsides. rewrite Hwhole, S2, Z.mul_assoc. apply Z.mul_le_mono_nonneg_r; lia. }
  assert ((24 * k + j + 1) * 2 ^ B <= 24 * (k + 1) * 2 ^ B) by (apply Z.mul_le_mono_nonneg_r; lia).
  assert (c <= (k + 1) * 2 ^ (- E)) as Hhi.
  { apply Hsides. rewrite Hwhole, S2, Z.mul_assoc. apply Z.mul_le_mono_nonneg_r; lia. }
  split; [split; [apply Z.div_le_lower_bound; lia|apply Z.div_le_upper_bound; lia]|].
  intros Hj'. assert (2 ^ (- E) = 32 * 2 ^ (- E - 5)) as E5.
  { change 32 with (2 ^ 5). rewrite <-Z.pow_add_r by lia. f_equal. lia. }
  assert (2 ^ B = 32 * 2 ^ (B - 5)) as B5 by (change 32 with (2 ^ 5); rewrite <-Z.pow_add_r by lia; f_equal; lia).
  assert (0 < 2 ^ (- E - 5)) by (apply Z.pow_pos_nonneg; lia).
  assert (0 < 2 ^ (B - 5)) by (apply Z.pow_pos_nonneg; lia).
  assert ((24 * k + j + 1) * 2 ^ B <= (24 * k + 23) * 2 ^ B) by (apply Z.mul_le_mono_nonneg_r; lia).
  assert (c <= (32 * k + 31) * 2 ^ (- E - 5)) as Hfrac.
  { assert (scaled ((32 * k + 31) * 2 ^ (- E - 5)) E = (32 * k + 31) * 2 ^ (B - 5)) as Efr.
    { rewrite scaled_shift by lia. unfold Float.scaled. do 2 f_equal. lia. }
    apply Hsides. rewrite S2, Z.mul_assoc, Efr. apply Z.mul_le_mono_nonneg_r; [lia|].
    trans ((24 * k + 23) * 2 ^ B); [lia|]. rewrite B5. lia. }
  enough (c / 2 ^ (- E) < k + 1 ∧ k <= c / 2 ^ (- E)) by lia.
  split; [|apply Z.div_le_lower_bound; lia]. apply Z.div_lt_upper_bound; [done|]. rewrite E5. lia.
Qed.

End scaled.

Definition Day : Z := 24 * Hour.

(** ** Durations of either sign *)

Lemma whole_opp p : Z.pos p < 2 ^ 53 →
  ∃ m e, f64_of_Z (Z.pos p) = S754_finite false m e ∧ f64_of_Z (Z.neg p) = S754_finite true m e.
Proof.
  intros Hp. destruct (of_Z_exact 3000 ltac:(lia) (Z.pos p) ltac:(lia)) as (m & e & E & _).
  exists m, e. by rewrite of_Z_opp, E.
Qed.

Lemma hour_part_opp p : Z.pos p < Hour →
  ∃ m e, f64_div (f64_of_Z (Z.pos p)) (f64_of_Z Hour) = S754_finite false m e ∧
         f64_div (f64_of_Z (Z.neg p)) (f64_of_Z Hour) = S754_finite true m e.
Proof.
  intros Hp. destruct (hour_part 3000 ltac:(lia) (Z.pos p) ltac:(lia)) as (m & e & E & _). exists m, e. split; [done|].
  destruct (whole_opp p) as (m1 & e1 & E1 & ->); [unfold Hour in Hp; lia|].
  destruct (of_Z_exact 3000 ltac:(lia) Hour ltac:(unfold Hour; lia)) as (m2 & e2 & E2 & _).
  rewrite E1, E2 in E. by rewrite E2, div_opp, E.
Qed.

Lemma Hours_opp d : 0 < d < 2 ^ 63 → Hours (- d) = SFopp (Hours d).
Proof.
  intros Hd. unfold Hours. rewrite Z.quot_opp_l, Z.rem_opp_l by done.
  rewrite Z.quot_div_nonneg, Z.rem_mod_nonneg by (unfold Hour; lia).
  pose proof (Z.mod_pos_bound d Hour ltac:(done)) as Hr. pose proof (Z.div_mod d Hour ltac:(done)) as Edm.
  assert (0 <= d / Hour < 2 ^ 53) as Hh.
  { split; [apply Z.div_pos; unfold Hour; lia|apply Z.div_lt_upper_bound; unfold Hour; lia]. }
  destruct (d / Hour) as [|h|h], (d mod Hour) as [|r|r]; try lia; rewrite ?Z.opp_0, ?Pos2Z.opp_pos.
  - by destruct (hour_part_opp r ltac:(lia)) as (m & e & -> & ->).
  - by destruct (whole_opp h ltac:(lia)) as (m & e & -> & ->).
  - destruct (whole_opp h ltac:(lia)) as (m & e & -> & ->), (hour_part_opp r ltac:(lia)) as (m2 & e2 & -> & ->).
    apply add_opp.
Qed.

Lemma days_positive d :
  0 <= d < 2 ^ 63 → ∃ n, trunc_f64 (f64_div (Hours d) (f64_of_Z 24)) = Some n ∧
    trunc_f64 (f64_div (Hours (- d)) (f64_of_Z 24)) = Some (- n) ∧
    d / Day <= n <= d / Day + 1 ∧ (d mod Day < 23 * Hour → n = d / Day).
Proof.
  intros Hd. destruct (Z.eq_dec d 0) as [->|Hd0]; [exists 0; by split_and!|].
  rewrite Hours_opp by lia.
  destruct (hours_between 3000 ltac:(lia) d ltac:(lia)) as (m & e & -> & Hw & Hb & Hl).
  assert (0 <= d / Hour < 2 ^ 40) as Hh.
  { split; [apply Z.div_pos; unfold Hour; lia|apply Z.div_lt_upper_bound; unfold Hour; lia]. }
  destruct (days_between 3000 ltac:(lia) m e (d / Hour) Hh Hw Hb Hl) as (n & m' & e' & E & Et & Hn & Hex).
  assert (Day = Hour * 24) as -> by done. rewrite <-Z.div_div, Z.rem_mul_r by done.
  exists n. rewrite E. split; [done|]. split; [|split; [done|]].
  - destruct (of_Z_exact 3000 ltac:(lia) 24 ltac:(lia)) as (m2 & e2 & E2 & _). rewrite E2 in E |- *. cbn [SFopp negb].
    rewrite div_opp, E. apply trunc_opp; [|done]. assert (d / Hour / 24 <= d / Hour) by (apply Z.div_le_upper_bound; lia).
    assert (0 <= d / Hour / 24) by (apply Z.div_pos; lia). lia.
  - intros Hlt. apply Hex. pose proof (Z.mod_pos_bound d Hour ltac:(done)). unfold Hour in *. lia.
Qed.

(** The days_left that GET /status reports for a certificate: the number of
    whole days to its expiry, or since it, cut towards zero; in the last hour of
    a day the floating-point division may round it up to the next. *)
Theorem days_left_whole notAfter now :
  let d := Z.abs (notAfter - now) in
  d < 2 ^ 63 →
  ∃ n, days_left notAfter now = Some (if bool_decide (now <= notAfter) then n else - n) ∧
    d / Day <= n <= d / Day + 1 ∧ (d mod Day < 23 * Hour → n = d / Day).
Proof.
  intros d Hd. destruct (days_positive d ltac:(lia)) as (n & E1 & E2 & Hn). exists n. split; [|done].
  unfold days_left, time_Sub. rewrite Z.min_r, Z.max_r by lia. case_bool_decide.
  - by replace (notAfter - now) with d by lia.
  - by replace (notAfter - now) with (- d) by lia.
Qed.

(** A nanosecond short of three years is reported as three years. *)
Example days_left_rounds_up : days_left (1095 * Day - 1) 0 = Some 1095 ∧ days_left (90 * Day - 1) 0 = Some 89.
Proof. split; vm_compute; reflexivity. Qed.

Lemma days_left_whole_witness : days_left 0 (3 * Day + Hour) = Some (-3).
Proof.
  destruct (days_left_whole 0 (3 * Day + Hour)) as (n & -> & _ & Hn); [done|].
  rewrite (Hn eq_refl). reflexivity.
Defined.
