(* ===== verification/AdminText.v ===== *)
(** * The texts of the admin API: [pkg/relay/admin.go], [admin_reload.go]

    The response types with the names in their tags, and the body of a reply as
    writeJSON, writeError and http.Error write it: one line of JSON. The
    replies of /status, /config and /metrics, and the errors whose message
    comes from the operating system, have no text here. *)

From Stdlib Require Import ZArith Lia SpecFloat.
From stdpp Require Import pretty sorting.
From S2P Require Import Prelude Text Json Float Frame Window WriteQueue Stream Mux MuxInv MuxOps Config Registry RateLimit Router ClientListener Store Net AuditLog Auth Admin Reload AdminHttp.

Record PortResponse := mkPortResponse {
  pr_Port : Z;
  pr_CustomerID : string;
  pr_Service : string;
  pr_ListenAddr : string;
  pr_MaxStreams : Z
}.

(** [func portInfoToResponse(info PortInfo) PortResponse] *)
Definition portInfoToResponse (info : PortInfo) : PortResponse :=
  mkPortResponse (pi_Port info) (pi_CustomerID info) (pi_Service info) (pi_ListenAddr info) (pi_MaxStreams info).

Definition port_response_json (r : PortResponse) : json :=
  jobj [("port", jint (pr_Port r)); ("customer_id", jstr (pr_CustomerID r)); ("service", jstr (pr_Service r));
        ("listen_addr", jstr (pr_ListenAddr r)); ("max_streams", jint (pr_MaxStreams r))].

Record AgentResponse := mkAgentResponse {
  ar_CustomerID : string;
  ar_RemoteAddr : string;
  ar_ConnectedAt : string;
  ar_LastSeen : string;
  ar_StreamCount : Z;
  ar_Services : list string;
  ar_CertNotAfter : string
}.

Definition agent_response_json (r : AgentResponse) : json :=
  jobj [("customer_id", jstr (ar_CustomerID r)); ("remote_addr", jstr (ar_RemoteAddr r));
        ("connected_at", jstr (ar_ConnectedAt r)); ("last_seen", jstr (ar_LastSeen r));
        ("stream_count", jint (ar_StreamCount r));
        ("services", match ar_Services r with [] => JNull | l => JArr (jstr <$> l) end);
        ("cert_not_after", jstr (ar_CertNotAfter r))].

Record HealthResponse := mkHealthResponse { hr_Status : string; hr_Agents : Z; hr_Streams : Z }.

Definition health_json (r : HealthResponse) : json :=
  jobj [("status", jstr (hr_Status r)); ("agents", jint (hr_Agents r)); ("streams", jint (hr_Streams r))].

Definition summary_json (s : ReloadSummary) : json :=
  jobj [("ports_added", jint (PortsAdded s)); ("ports_removed", jint (PortsRemoved s));
        ("ports_updated", jint (PortsUpdated s)); ("ports_rejected", jint (PortsRejected s));
        ("rate_limits_changed", jint (RateLimitsChanged s));
        ("restart_required", JArr (jstr <$> RestartRequired s))].

(** [json.NewEncoder(w).Encode(v)]: the text and a newline. *)
Definition writeJSON (v : json) : list byte := json_Marshal v ++ [x0a].

(** [func writeError(w, msg, code)], and http.Error with the same text. *)
Definition writeError (msg : string) : list byte := writeJSON (jobj [("error", jstr msg)]).

(** [d.Round(time.Second)], for a duration that is not negative. *)
Definition round_second (d : Z) : Z :=
  let r := d mod 1000000000 in
  if bool_decide (r + r < 1000000000) then d - r else Z.min (2 ^ 63 - 1) (d + 1000000000 - r).

(** [d.String()], for whole seconds. *)
Definition duration_string (d : Z) : string :=
  let n := d / 1000000000 in
  let s := pretty (n mod 60) +:+ "s" in
  if bool_decide (n < 60) then s
  else if bool_decide (n < 3600) then pretty (n / 60) +:+ "m" +:+ s
  else pretty (n / 3600) +:+ "h" +:+ pretty (n / 60 mod 60) +:+ "m" +:+ s.

(** [d.Seconds()] *)
Definition uptime_seconds (d : Z) : spec_float :=
  f64_add (f64_of_Z (Z.quot d 1000000000)) (f64_div (f64_of_Z (Z.rem d 1000000000)) (f64_of_Z 1000000000)).

Section text.
(** [t.Format(time.RFC3339)], in the zone of the time, and the text that
    encoding/json gives a float64. *)
Context (rfc3339 : Z → string) (float_text : spec_float → list byte).

Record StatsResponse := mkStatsResponse {
  str_Status : string;
  str_Uptime : string;
  str_UptimeSeconds : spec_float;
  str_Agents : Z;
  str_Streams : Z
}.

(** What handleStats puts in it. *)
Definition stats_response (uptime agents streams : Z) : StatsResponse :=
  mkStatsResponse "ok" (duration_string (round_second uptime)) (uptime_seconds uptime) agents streams.

Definition stats_json (r : StatsResponse) : json :=
  jobj [("status", jstr (str_Status r)); ("uptime", jstr (str_Uptime r));
        ("uptime_seconds", JNum (float_text (str_UptimeSeconds r)));
        ("agents", jint (str_Agents r)); ("streams", jint (str_Streams r))].

(** [func agentInfoToResponse(ag *AgentInfo) AgentResponse] *)
Definition agentInfoToResponse (ag : AgentInfo) : AgentResponse :=
  mkAgentResponse (ai_CustomerID ag) (ai_RemoteAddr ag) (rfc3339 (ai_ConnectedAt ag)) (rfc3339 (ai_LastSeen ag))
    (ai_StreamCount ag) (ai_Services ag) (rfc3339 (ai_CertNotAfter ag)).

Definition response_body (r : Response) : option (list byte) :=
  match r with
  | RespError code msg => if bool_decide (code = 409 ∨ code = 500) then None else Some (writeError msg)
  | RespPort _ p => Some (writeJSON (port_response_json (portInfoToResponse p)))
  | RespPorts ps => Some (writeJSON (JArr ((λ p, port_response_json (portInfoToResponse p)) <$> ps)))
  | RespAgents l => Some (writeJSON (JArr ((λ ag, agent_response_json (agentInfoToResponse ag)) <$> l)))
  | RespAgent ag => Some (writeJSON (agent_response_json (agentInfoToResponse ag)))
  | RespCounts agents streams => Some (writeJSON (health_json (mkHealthResponse "ok" agents streams)))
  | RespNoContent => Some []
  end.

(** [func (a *AdminServer) handleReady(w, r)], among others. *)
Definition reply_body (r : Reply) : option (list byte) :=
  match r with
  | RApi resp => response_body resp
  | RReady => Some (writeJSON (jobj [("status", jstr "ready")]))
  | RReload s => Some (writeJSON (summary_json s))
  | RStats uptime agents streams => Some (writeJSON (stats_json (stats_response uptime agents streams)))
  | _ => None
  end.
End text.

(** ** Requests as a client writes them *)

Definition create_json (r : PortCreateRequest) : json :=
  jobj [("port", jint (cr_Port r)); ("customer_id", jstr (cr_CustomerID r)); ("service", jstr (cr_Service r));
        ("max_streams", jint (cr_MaxStreams r)); ("listen_addr", jstr (cr_ListenAddr r))].

Lemma create_read_back st r rest :
  style_ok st → create_text r → is_i64 (cr_Port r) → delim rest →
  decode_create (print st 0 (create_json r) ++ rest) = Some r.
Proof.
  intros Hst (Hi & H1 & H2 & H3) Hp Hr. unfold decode_create. rewrite json_decode_print; [|done| |done|done].
  - cbn [mbind option_bind]. unfold create_json, jobj. cbn [decode_struct fmap list_fmap foldl fst snd].
    set_field create_fields 0%nat. rewrite int_field_jint by done. cbn [fmap option_fmap option_map].
    set_field create_fields 1%nat. rewrite string_field_jstr. cbn [fmap option_fmap option_map].
    set_field create_fields 2%nat. rewrite string_field_jstr. cbn [fmap option_fmap option_map].
    set_field create_fields 3%nat. rewrite int_field_jint by done. cbn [fmap option_fmap option_map].
    set_field create_fields 4%nat. rewrite string_field_jstr. by destruct r.
  - cbn [create_json jobj jint jstr fmap list_fmap json_wf foldr fst snd].
    split_and!; try done; try (by apply utf8_check_sound with 64%nat); by eexists.
Qed.

(** What a client reads from the reply for a port, with the names of its tags. *)
Definition read_port (body : list byte) : option SidecarPort :=
  json_Decode body ≫= decode_struct port_fields zero_port.

Lemma port_body_read_back p :
  port_text (sidecar_port p) → read_port (writeJSON (port_response_json (portInfoToResponse p))) = Some (sidecar_port p).
Proof.
  intros Hp. unfold read_port, writeJSON, json_Marshal.
  change (port_response_json (portInfoToResponse p)) with (port_json (sidecar_port p)).
  destruct (port_json_wf _ Hp) as [Hw Hh]. rewrite json_decode_print; [|apply compact_ok|done|by rewrite Hh|done].
  cbn [mbind option_bind]. by apply port_read_back.
Qed.

Section api.
Context `{RateLimiter Lim} `{PEM} `{X509 Cert Pool}.
Context (can_listen : list string → string → bool) (rfc3339 : Z → string) (float_text : spec_float → list byte).

Lemma createPort_created env (a : AdminServer Lim) r a' resp :
  createPort can_listen env a (Some r) = (a', resp) → reply_code (RApi resp) = Some 201 →
  let p := mkPortInfo (cr_Port r) (cr_CustomerID r) (cr_Service r) (cr_MaxStreams r) (default_listen (cr_ListenAddr r)) in
  resp = RespPort 201 p ∧ GetPort (a_router a') (cr_Port r) = Some p.
Proof.
  unfold createPort. repeat (case_bool_decide; [by intros [= <- <-]|]). cbn zeta.
  destruct (map_and_listen _ _ _ _ _ _ _) as [a1 ok] eqn:E. apply map_and_listen_spec in E as (_ & Hr & _).
  destruct ok; intros [= <- <-]; [|done]. intros _. split; [done|]. cbn. unfold GetPort. rewrite persist_router, Hr.
  by rewrite lookup_insert_eq.
Qed.

(** C15. A port goes through the API as text. A client that posts a port as JSON,
    with or without indentation and whatever follows that is not part of a
    number, and is answered 201, reads the mapping back from the body of that
    answer, and from the body of the answer to a later GET of the path that its
    decimal port number makes: the fields it sent, with the default address
    where it sent none. *)
Theorem port_api_roundtrip w w' (h : AdminHttp Lim) r st rest h1 reply :
  style_ok st → create_text r → is_i64 (cr_Port r) → delim rest →
  serve can_listen w h (mkRequest "POST" (bytes_of_string "/ports") (print st 0 (create_json r) ++ rest)) = (h1, reply) →
  reply_code reply = Some 201 →
  let sp := mkSidecarPort (cr_Port r) (cr_CustomerID r) (cr_Service r) (default_listen (cr_ListenAddr r)) (cr_MaxStreams r) in
  (reply_body rfc3339 float_text reply ≫= read_port) = Some sp ∧
  ∃ got, serve can_listen w' h1 (mkRequest "GET" (bytes_of_string "/ports/" ++ Itoa (cr_Port r)) []) = (h1, got) ∧
    reply_code got = Some 200 ∧ (reply_body rfc3339 float_text got ≫= read_port) = Some sp.
Proof.
  intros Hst Hr Hp Hd Hs Hc sp.
  assert (port_text sp) as Hsp.
  { destruct Hr as (? & ? & ? & ?). split_and!; try done. by apply default_listen_text. }
  unfold serve in Hs. cbn [rq_Method rq_Path rq_Body] in Hs.
  rewrite (bool_decide_eq_false_2 ("POST" = "CONNECT")) in Hs by done.
  change (cleanPath _) with (bytes_of_string "/ports") in Hs. rewrite bool_decide_eq_false_2 in Hs by naive_solver.
  change (endpoint _) with (Some EPorts) in Hs. cbn [handle api] in Hs. unfold handlePorts, api in Hs.
  rewrite (bool_decide_eq_false_2 ("POST" = "GET")), bool_decide_eq_true_2, create_read_back in Hs by done.
  destruct (createPort _ _ _ _) as [a' resp] eqn:Ec. injection Hs as <- <-.
  destruct (createPort_created _ _ _ _ _ Ec Hc) as [-> Hg]. split; [by apply (port_body_read_back (mkPortInfo _ _ _ _ _))|].
  eexists. unfold Itoa. rewrite port_path_roundtrip by done. unfold port_request. rewrite bool_decide_eq_true_2 by done.
  split; [done|]. cbn [fst snd with_admin h_admin]. unfold getPort. rewrite Hg. split; [done|].
  by apply (port_body_read_back (mkPortInfo _ _ _ _ _)).
Qed.
End api.
