(* ===== verification/RelayMain.v ===== *)
(** * The relay process: [cmd/relay/main.go]

    [run]: loading and checking the configuration, building the parts, merging
    the sidecar, starting the server; then the life of the process, in which
    HTTP requests, SIGHUP, agents and sessions come in any order; and the
    shutdown. *)

From Stdlib Require Import ZArith Lia SpecFloat.
From stdpp Require Import pretty sorting.
From S2P Require Import Prelude Text Json Float Frame Window WriteQueue Stream Mux MuxInv MuxOps Config Registry RateLimit Router ClientListener Store Net AuditLog Auth Admin Reload RelayServer AdminHttp.

(** ** Starting *)

Inductive RunErr :=
| RunLoadConfig (e : ConfigErr)
| RunPortIndex (e : PortConflict)
| RunValidateCert (e : AuthErr)
| RunTLSConfig (e : AuthErr).

(** [func collectRelayCertPaths(paths config.TLSPaths) []relay.CertNamePath] *)
Definition collectRelayCertPaths (paths : Config.TLSPaths) : list CertNamePath :=
  filter (λ c, cn_Path c ≠ "")
    [mkCertNamePath "relay" (CertFile paths); mkCertNamePath "relay_ca" (CAFile paths);
     mkCertNamePath "client_ca" (ClientCAFile paths)].

(** [func initLogger(cfg config.LogConfig) *slog.Logger]: its level, and whether
    it writes text. *)
Inductive LogLevel := LevelDebug | LevelInfo | LevelWarn | LevelError.
Definition initLogger (cfg : LogConfig) : LogLevel * bool :=
  (if bool_decide (Level cfg = "debug") then LevelDebug
   else if bool_decide (Level cfg = "warn") then LevelWarn
   else if bool_decide (Level cfg = "error") then LevelError else LevelInfo,
   bool_decide (Format cfg = "text")).

Section relay_main.
Context `{RateLimiter Lim} `{PEM} `{X509 Cert Pool}.
Context (can_listen : list string → string → bool).

(** The loop over the customers that sets their rate limiters. *)
Definition initial_limits (customers : list CustomerConfig) : ClientListener Lim :=
  foldl (λ cl c, let rl := cc_RateLimit c in
           if f64_pos (RequestsPerSecond rl) then SetRateLimiter cl (cc_ID c) (RequestsPerSecond rl) (Burst rl)
           else cl)
    NewClientListener customers.

(** The sidecar: the path of the store that is kept, if any, and the index with
    the sidecar's ports merged in. *)
Definition load_sidecar (fs : gmap string (list byte)) (unreadable : bool) (storePath : string)
    (idx : gmap Z PortIndexEntry) : option string * gmap Z PortIndexEntry :=
  if bool_decide (storePath = "") then (None, idx)
  else match Load fs unreadable storePath with
       | Err _ => (None, idx)
       | Ok ports => (Some storePath, mergeSidecar idx ports)
       end.

(** The relay once [run] has built it: the admin server, which holds the
    router, the client listener and the registry, the index Start works on,
    and the TLS configurator. *)
Record RelayProc := mkProc {
  rp_admin : AdminHttp Lim;
  rp_index : gmap Z PortIndexEntry;
  rp_tls : Configurator (Cert := Cert)
}.

(** What [run] builds from the parts: the event of the start, and the admin
    server on an empty router, the listener with its limits, and an empty
    registry. *)
Definition boot_proc (cfg : RelayConfig) (store : option string) (idx : gmap Z PortIndexEntry)
    (conf : Configurator) (fs : gmap string (list byte)) (now : Z) (version configPath : string) : RelayProc :=
  let started := mkEvent ActionAgentConnected "relay" (sc_ListenAddr (rc_Server cfg)) now "" "" ∅ in
  mkProc (NewAdminServer now ∅ (initial_limits (rc_Customers cfg)) (NewMemoryRegistry (Some []))
            (Some [started]) store fs (collectRelayCertPaths (rc_TLS cfg)) version configPath (Some cfg))
    idx conf.

(** With the flag -validate, [run] returns after the checks, with the counts it
    prints. *)
Inductive RunResult :=
| RunFailed (e : RunErr)
| RunValid (customers ports : Z)
| RunStarted (p : RelayProc).

(** [func run() error], up to the start of its goroutines; [None] when the fuel
    of the check of the chain file does not suffice. *)
Definition run_boot (load : string → result ConfigErr RelayConfig) (certs : files)
    (fs : gmap string (list byte)) (unreadable validate : bool) (now : Z) (version configPath : string)
    : option RunResult :=
  match load configPath with
  | Err e => Some (RunFailed (RunLoadConfig e))
  | Ok cfg =>
      match BuildPortIndex (rc_Customers cfg) with
      | Err e => Some (RunFailed (RunPortIndex e))
      | Ok idx =>
          match ValidateChainCertFile certs (CertFile (rc_TLS cfg)) with
          | None => None
          | Some (Err e) => Some (RunFailed (RunValidateCert e))
          | Some (Ok _) =>
              if validate then Some (RunValid (zlen (rc_Customers cfg)) (Z.of_nat (size idx)))
              else
                let paths := Auth.mkTLSPaths (CertFile (rc_TLS cfg)) (KeyFile (rc_TLS cfg))
                               (CAFile (rc_TLS cfg)) (ClientCAFile (rc_TLS cfg)) "" in
                match ServerTLSConfig certs (NewConfigurator paths) [] with
                | (_, Err e) => Some (RunFailed (RunTLSConfig e))
                | (conf, Ok _) =>
                    let '(store, idx') := load_sidecar fs unreadable (StorePath (rc_Server cfg)) idx in
                    Some (RunStarted (boot_proc cfg store idx' conf fs now version configPath))
                end
          end
      end
  end.

(** [func (s *Relay) Start(ctx) error], up to the agent listener: the loop that
    registers the mappings and the one that starts the listeners, each in its
    own order of the map; a listener that does not start is only logged. *)
Definition RelayStart (order1 order2 : list (Z * PortIndexEntry)) (a : AdminServer Lim) : AdminServer Lim :=
  set_clientListener
    (foldl (λ cl kv, default cl (StartPort can_listen cl (host_port (ie_ListenAddr kv.2) kv.1) kv.1))
       (a_clientListener a) order2)
    (set_router (start_mappings order1 (a_router a)) a).

(** ** The life of the process *)

Inductive pevent :=
| PRequest (w : World) (rq : Request) (reply : Reply)
| PHup (w : World)
| PRegistry (e : revent).

(** A reload iterates over the maps of the configurations it compares. *)
Definition orders_fit (w : World) (a : AdminServer Lim) : Prop :=
  ∀ newCfg, w_load w (a_configPath a) = Ok newCfg → orders_ok (w_orders w) (a_currentCfg a) newCfg.

Inductive pstep : AdminHttp Lim → pevent → AdminHttp Lim → Prop :=
| pstep_request h w rq h' reply :
    orders_fit w (h_admin h) → serve can_listen w h rq = (h', reply) →
    pstep h (PRequest w rq reply) h'
| pstep_hup h w a' r :
    orders_fit w (h_admin h) →
    Reload can_listen (w_env w) (h_admin h) (w_load w) (w_orders w) = (a', r) →
    pstep h (PHup w) (with_admin a' h)
| pstep_registry h e reg' :
    rstep (a_registry (h_admin h)) e reg' →
    pstep h (PRegistry e) (with_admin (set_registry reg' (h_admin h)) h).

Inductive psteps : AdminHttp Lim → list pevent → AdminHttp Lim → Prop :=
| psteps_nil h : psteps h [] h
| psteps_snoc h es h1 e h2 : psteps h es h1 → pstep h1 e h2 → psteps h (es ++ [e]) h2.

(** The end of [run]: server.Stop, with nothing else going on; its steps among
    those of the rest of the process are in Shutdown.v. *)
Definition run_stop (h : AdminHttp Lim) : AdminHttp Lim :=
  let '(cl, reg) := RelayStop (a_clientListener (h_admin h)) (a_registry (h_admin h)) in
  with_admin (set_clientListener cl (set_registry reg (h_admin h))) h.

(** ** Mappings stay valid *)

(** What relay.yaml is expected to say of a port. *)
Definition port_valid (c : CustomerConfig) (p : PortConfig) : Prop :=
  1 <= pc_Port p <= 65535 ∧ cc_ID c ≠ "" ∧ pc_Service p ≠ "" ∧
  (pc_ListenAddr p = "" ∨ ParseIP (pc_ListenAddr p) = true) ∧ 0 <= cc_MaxStreams c ∧
  is_i64 (cc_MaxStreams c) ∧ text (cc_ID c) ∧ text (pc_Service p) ∧ text (pc_ListenAddr p).
Definition config_valid (cfg : RelayConfig) : Prop :=
  ∀ c p, (c, p) ∈ customer_ports (rc_Customers cfg) → port_valid c p.

Definition mapping_text (e : portEntry) : Prop :=
  is_i64 (maxStreams e) ∧ text (customerID e) ∧ text (service e) ∧ text (listenAddr e).

Lemma mapping_valid_iff p e :
  mapping_valid p e ↔
  1 <= p <= 65535 ∧ customerID e ≠ "" ∧ service e ≠ "" ∧
  (listenAddr e ≠ "" ∧ ParseIP (listenAddr e) = true) ∧ 0 <= maxStreams e ∧ mapping_text e.
Proof.
  unfold mapping_valid, sidecar_valid, port_text, mapping_text. cbn -[is_i64]. unfold is_i64.
  case_bool_decide; [split; [naive_solver|lia]|]. case_bool_decide; [split; naive_solver|].
  destruct (ParseIP (listenAddr e)); case_bool_decide; [naive_solver| |naive_solver|naive_solver].
  case_bool_decide; cbn; split; naive_solver lia.
Qed.

Definition entry_valid (p : Z) (n : PortIndexEntry) : Prop := mapping_valid p (index_mapping n).

Lemma default_listen_valid addr :
  addr = "" ∨ ParseIP addr = true → default_listen addr ≠ "" ∧ ParseIP (default_listen addr) = true.
Proof.
  unfold default_listen. case_bool_decide as E; [intros _; split; [done|by vm_compute]|].
  intros [?|?]; [done|]. done.
Qed.

Lemma listen_checked addr :
  ¬ (addr ≠ "" ∧ ParseIP addr = false) → addr = "" ∨ ParseIP addr = true.
Proof.
  intros Hn. destruct (decide (addr = "")); [by left|right].
  destruct (ParseIP addr) eqn:E; [done|]. by destruct Hn.
Qed.

Lemma index_entry_valid c p : port_valid c p → entry_valid (pc_Port p) (index_entry c p).
Proof.
  intros (Hr & Hc & Hs & Ha & Hm & Hi & Htc & Hts & Hta). apply mapping_valid_iff. unfold mapping_text. cbn -[default_listen].
  split_and!; try done; try lia; try by apply default_listen_valid. by apply default_listen_text.
Qed.

Lemma indexPorts_valid cfg p n :
  config_valid cfg → indexPorts (Some cfg) !! p = Some n → entry_valid p n.
Proof.
  unfold config_valid. cbn. intros Hv. 
  assert (∀ l (m : gmap Z PortIndexEntry), (∀ c p, (c, p) ∈ l → port_valid c p) → map_Forall entry_valid m →
    map_Forall entry_valid (foldl (λ out cp, <[pc_Port cp.2 := index_entry cp.1 cp.2]> out) m l)) as Hgen.
  { induction l as [|[c q] l IH]; intros m Hl Hm; cbn; [done|]. apply IH; [set_solver|].
    apply map_Forall_insert_2; [|done]. apply index_entry_valid, Hl. set_solver. }
  apply (Hgen _ ∅ Hv), map_Forall_empty.
Qed.

Abbreviation valid_router a := (map_Forall mapping_valid (a_router a)) (only parsing).

Lemma createPort_valid env (a : AdminServer Lim) body :
  (∀ r, body = Some r → create_text r) → valid_router a → valid_router (createPort can_listen env a body).1.
Proof.
  intros Hb Hv. unfold createPort. destruct body as [req|]; [|done]. destruct (Hb req eq_refl) as (Hi & Htc & Hts & Hta).
  case_bool_decide; [done|]. case_bool_decide as Hcs; [done|]. case_bool_decide as Hip; [done|]. case_bool_decide; [done|].
  cbn zeta. destruct (map_and_listen _ _ _ _ _ _ _) as [a1 ok] eqn:E.
  apply map_and_listen_spec in E as (_ & Hr & _). destruct ok; cbn; rewrite ?persist_router, Hr.
  - apply map_Forall_insert_2; [|done]. apply mapping_valid_iff. unfold mapping_text. cbn -[ParseIP]. apply Decidable.not_or in Hcs as [Hc Hs].
    apply listen_checked, default_listen_valid in Hip.
    split_and!; try done; try lia; try by apply Hip. by apply default_listen_text.
  - by apply map_Forall_delete.
Qed.

Lemma updatePort_valid env (a : AdminServer Lim) body port :
  (∀ r, body = Some r → update_text r) → valid_router a → valid_router (updatePort env a body port).1.
Proof.
  intros Hb Hv. unfold updatePort, decodePortUpdateRequest. destruct body as [req|]; [|done].
  destruct (Hb req eq_refl) as (Hi & Hts & Hta).
  case_bool_decide; [done|]. case_bool_decide as Hip; [done|]. case_bool_decide; [done|].
  unfold GetPort, UpdatePortMapping. destruct (a_router a !! port) as [e|] eqn:Ep; cbn; [|done].
  rewrite persist_router. apply map_Forall_insert_2; [|done].
  specialize (Hv _ _ Ep). apply mapping_valid_iff in Hv as (Hr & Hc & Hs & [Hl Ha] & Hm & Hmi & Hmc & Hms & Hma).
  apply mapping_valid_iff. unfold mapping_text. cbn -[ParseIP]. split_and!; try lia; try done.
  - by case_bool_decide.
  - by case_bool_decide.
  - case_bool_decide; [done|]. by apply listen_checked in Hip as [?|?].
  - destruct (ur_MaxStreams req); cbn in *; [lia|done].
  - by destruct (ur_MaxStreams req).
  - by case_bool_decide.
  - by case_bool_decide.
Qed.

Lemma deletePort_valid env (a : AdminServer Lim) port :
  valid_router a → valid_router (deletePort env a port).1.
Proof.
  intros Hv. unfold deletePort. destruct (LookupPort _ _) as [[customer svc]|]; [|done].
  unfold RemovePortMapping. destruct (a_router a !! port); [|done]. case_bool_decide; [done|].
  cbn. rewrite persist_router. case_match; by apply map_Forall_delete.
Qed.

Lemma reload_valid w (a : AdminServer Lim) a' r :
  orders_fit w a → (∀ newCfg, w_load w (a_configPath a) = Ok newCfg → config_valid newCfg) →
  Reload can_listen (w_env w) a (w_load w) (w_orders w) = (a', r) →
  valid_router a → valid_router a'.
Proof.
  unfold Reload. intros Ho Hcfg. case_bool_decide; [by intros [= <- <-]|].
  destruct (w_load w (a_configPath a)) as [newCfg|] eqn:El; [|by intros [= <- <-]].
  destruct (BuildPortIndex _); [|by intros [= <- <-]].
  destruct (applyReload _ _ _ _ _) as [a1 summary] eqn:Ea. intros [= <- <-] Hv p e.
  cbn [a_router emitReloadAudit emitAudit]. rewrite persist_router. cbn. intros He.
  destruct (applyReload_port _ _ _ _ _ _ _ p (Ho _ El) Ea) as (starts & Hp & _). rewrite He in Hp.
  unfold reload_port in Hp.
  destruct (indexPorts (Some newCfg) !! p) as [n|] eqn:En, (indexPorts (a_currentCfg a) !! p) as [o|].
  - pose proof (indexPorts_valid _ _ _ (Hcfg _ eq_refl) En) as Hn.
    case_bool_decide; [by apply Hv|]. case_match; [|by apply Hv].
    destruct (a_router a !! p) as [e0|] eqn:E0; [|done]. injection Hp as ->.
    specialize (Hv _ _ E0). apply mapping_valid_iff in Hv. apply mapping_valid_iff in Hn.
    apply mapping_valid_iff. unfold mapping_text in *. cbn -[ParseIP] in *.
    destruct Hv as (? & ? & _ & _ & _ & _ & ? & _), Hn as (? & _ & ? & [? ?] & ? & ? & _ & ? & ?).
    split_and!; done || lia.
  - destruct starts; [|done]. injection Hp as ->. exact (indexPorts_valid _ _ _ (Hcfg _ eq_refl) En).
  - case_bool_decide; [done|]. by apply Hv.
  - by apply Hv.
Qed.

(** The configurations a run of the process loads. *)
Definition loads_valid (e : pevent) : Prop :=
  match e with
  | PRequest w _ _ | PHup w => ∀ path newCfg, w_load w path = Ok newCfg → config_valid newCfg
  | PRegistry _ => True
  end.

Lemma serve_valid w (h : AdminHttp Lim) rq h' reply :
  orders_fit w (h_admin h) →
  (∀ newCfg, w_load w (a_configPath (h_admin h)) = Ok newCfg → config_valid newCfg) →
  serve can_listen w h rq = (h', reply) →
  valid_router (h_admin h) → valid_router (h_admin h').
Proof.
  intros Ho Hcfg. unfold serve. cbn zeta. case_bool_decide as Hpath; [by intros [= <- <-]|]. clear Hpath.
  destruct (endpoint _) as [e|]; [|by intros [= <- <-]].
  destruct (handle _ _ _ _ _ _) as [a r] eqn:Eh. intros [= <- <-] Hv. cbn. revert Eh.
  destruct e as [ | | | |rest| |rest| | | | ]; cbn; try (by intros [= <- <-]).
  - intros [= <- _]. unfold handlePorts. repeat case_bool_decide; done || (apply createPort_valid; [apply decode_create_text|done]).
  - intros [= <- _]. unfold handlePortByID. destruct (Atoi rest); [|done]. unfold port_request.
    repeat case_bool_decide; done || (apply updatePort_valid; [apply decode_update_text|done]) || by apply deletePort_valid.
  - intros [= <- _]. unfold handleAgentByID. cbn zeta. by repeat case_bool_decide.
  - unfold handleReload. case_bool_decide; [by intros [= <- <-]|].
    destruct (Reload _ _ _ _ _) as [a1 res] eqn:Er. intros Hq.
    assert (a = a1) as -> by (destruct res; congruence). by eapply reload_valid.
Qed.

Definition proc_inv (h : AdminHttp Lim) : Prop :=
  valid_router (h_admin h) ∧ ∃ es, rsteps (NewMemoryRegistry (Some [])) es (a_registry (h_admin h)).

Lemma persist_registry env (a : AdminServer Lim) : a_registry (persist env a) = a_registry a.
Proof. unfold persist. by case_match. Qed.

Lemma createPort_registry env (a : AdminServer Lim) body :
  a_registry (createPort can_listen env a body).1 = a_registry a.
Proof.
  unfold createPort. destruct body as [req|]; [|done]. repeat (case_bool_decide; [done|]). cbn zeta.
  destruct (map_and_listen _ _ _ _ _ _ _) as [a1 ok] eqn:E.
  apply map_and_listen_spec in E as (_ & _ & Hr & _). destruct ok; cbn; by rewrite ?persist_registry.
Qed.

Lemma updatePort_registry env (a : AdminServer Lim) body port :
  a_registry (updatePort env a body port).1 = a_registry a.
Proof.
  unfold updatePort. destruct (decodePortUpdateRequest body); [|done].
  unfold GetPort, UpdatePortMapping. destruct (a_router a !! port); cbn; [|done]. by rewrite persist_registry.
Qed.

Lemma deletePort_registry env (a : AdminServer Lim) port :
  a_registry (deletePort env a port).1 = a_registry a.
Proof.
  unfold deletePort. destruct (LookupPort _ _) as [[customer svc]|]; [|done].
  destruct (RemovePortMapping _ _ _); [|done]. cbn. rewrite persist_registry. by case_match.
Qed.

Lemma Reload_registry w (a : AdminServer Lim) a' r :
  Reload can_listen (w_env w) a (w_load w) (w_orders w) = (a', r) →
  a_registry a' = a_registry a.
Proof.
  unfold Reload. case_bool_decide; [by intros [= <- <-]|].
  destruct (w_load w _) as [newCfg|]; [|by intros [= <- <-]]. destruct (BuildPortIndex _); [|by intros [= <- <-]].
  pose proof (applyReload_kept can_listen a (a_currentCfg a) newCfg (w_orders w)) as Hk.
  destruct (applyReload _ _ _ _ _) as [a1 summary]. intros [= <- <-]. injection Hk as _ Hr. cbn.
  by rewrite persist_registry.
Qed.

Lemma handle_registry w (h : AdminHttp Lim) e method body :
  let a' := (handle can_listen w h e method body).1 in
  a_registry a' = a_registry (h_admin h) ∨
  ∃ customer, a_registry a' = Unregister (a_registry (h_admin h)) customer.
Proof.
  destruct e as [ | | | |rest| |rest| | | | ]; cbn; auto.
  - left. unfold handlePorts. repeat case_bool_decide; done || apply createPort_registry.
  - left. unfold handlePortByID. destruct (Atoi rest); [|done]. unfold port_request.
    repeat case_bool_decide; done || apply updatePort_registry || apply deletePort_registry.
  - unfold handleAgentByID. cbn zeta. repeat case_bool_decide; auto. right. by eexists.
  - left. unfold handleReload. case_bool_decide; [done|].
    destruct (Reload _ _ _ _ _) as [a1 []] eqn:Er; cbn; by eapply Reload_registry.
Qed.

(** A step of the process is at most one of the registry. *)
Lemma pstep_reg h e h' :
  pstep h e h' →
  a_registry (h_admin h') = a_registry (h_admin h) ∨
  ∃ re, rstep (a_registry (h_admin h)) re (a_registry (h_admin h')).
Proof.
  intros Hs. destruct Hs as [h w rq h' reply Ho Hserve|h w a' r Ho Hr|h e reg' Hs]; [| |by eauto].
  - revert Hserve. unfold serve. cbn zeta.
    case_bool_decide; [intros [= <- <-]; eauto|]. destruct (endpoint _) as [e|]; [|intros [= <- <-]; eauto].
    pose proof (handle_registry w h e (rq_Method rq) (rq_Body rq)) as Hh.
    destruct (handle _ _ _ _ _ _) as [a r]. intros [= <- <-]. cbn in *.
    destruct Hh as [->|[customer ->]]; [eauto|]. right. eexists. by constructor.
  - left. exact (Reload_registry _ _ _ _ Hr).
Qed.

Lemma pstep_inv h e h' : pstep h e h' → loads_valid e → proc_inv h → proc_inv h'.
Proof.
  intros Hs Hl [Hv [es Hes]]. split.
  - destruct Hs as [h w rq h' reply Ho Hserve|h w a' r Ho Hr|h e reg' Hs]; [| |done].
    + eapply serve_valid; [done|intros ? Hq; by eapply Hl|done..].
    + eapply reload_valid; [done|intros ? Hq; by eapply Hl|done..].
  - destruct (pstep_reg _ _ _ Hs) as [->|[re Hr]]; [eauto|]. eexists. by eapply rsteps_snoc.
Qed.

Lemma psteps_inv h es h' : psteps h es h' → Forall loads_valid es → proc_inv h → proc_inv h'.
Proof.
  induction 1 as [|h es h1 e h2 _ IH Hs]; [done|]. intros [He Hl]%Forall_app I.
  apply Forall_cons in Hl as [Hl _]. eapply pstep_inv; [exact Hs|exact Hl|by apply IH].
Qed.

(** ** Theorems *)

(** The rate limiter of a customer: that of its last entry with a positive rate. *)
Lemma initial_limits_lookup customers customer :
  rateLimiters (initial_limits customers) !! customer =
  (λ c, NewIPRateLimiter (RequestsPerSecond (cc_RateLimit c)) (Burst (cc_RateLimit c))) <$>
    last (filter (λ c, cc_ID c = customer ∧ f64_pos (RequestsPerSecond (cc_RateLimit c)) = true) customers).
Proof.
  unfold initial_limits. induction customers as [|c l IH] using rev_ind; cbn; [by rewrite lookup_empty|].
  rewrite foldl_app, filter_app, filter_cons, filter_nil. cbn. set (cl := foldl _ _ l) in *.
  destruct (f64_pos _) eqn:Ef; [|rewrite decide_False, app_nil_r by naive_solver; exact IH].
  unfold SetRateLimiter. replace (f64_nonpos (RequestsPerSecond (cc_RateLimit c))) with false
    by (revert Ef; unfold f64_pos, f64_nonpos, f64_zero; by destruct (RequestsPerSecond _) as [[]|[]| |[]]).
  cbn. destruct (decide (cc_ID c = customer)) as [<-|Hne].
  - rewrite lookup_insert_eq, decide_True, last_snoc by done. done.
  - rewrite lookup_insert_ne, decide_False, app_nil_r by naive_solver. exact IH.
Qed.

(** What the result of [run_boot] tells: each failure is that of the first check
    that fails, the ones before it having passed. *)
Definition boot_outcome (load : string → result ConfigErr RelayConfig) (certs : files)
    (fs : gmap string (list byte)) (unreadable : bool) (path : string) (r : RunResult) : Prop :=
  match r with
  | RunValid _ _ => False
  | RunFailed (RunLoadConfig e) => load path = Err e
  | RunFailed (RunPortIndex e) => ∃ cfg, load path = Ok cfg ∧ BuildPortIndex (rc_Customers cfg) = Err e
  | RunFailed (RunValidateCert e) => ∃ cfg idx, load path = Ok cfg ∧ BuildPortIndex (rc_Customers cfg) = Ok idx ∧
      ValidateChainCertFile certs (CertFile (rc_TLS cfg)) = Some (Err e)
  | RunFailed (RunTLSConfig e) => ∃ cfg idx, load path = Ok cfg ∧ BuildPortIndex (rc_Customers cfg) = Ok idx ∧
      ValidateChainCertFile certs (CertFile (rc_TLS cfg)) = Some (Ok tt) ∧
      match LoadCertificate certs (CertFile (rc_TLS cfg)) (KeyFile (rc_TLS cfg)) with
      | Err e' => e = ErrServerTLS e'
      | Ok _ => ∃ e', LoadCertificateAuthority certs (ClientCAFile (rc_TLS cfg)) = Err e' ∧ e = ErrServerTLSClientCA e'
      end
  | RunStarted p => ∃ cfg idx cert, load path = Ok cfg ∧ BuildPortIndex (rc_Customers cfg) = Ok idx ∧
      ValidateChainCertFile certs (CertFile (rc_TLS cfg)) = Some (Ok tt) ∧
      LoadCertificate certs (CertFile (rc_TLS cfg)) (KeyFile (rc_TLS cfg)) = Ok cert ∧
      is_ok (LoadCertificateAuthority certs (ClientCAFile (rc_TLS cfg))) = true ∧
      currentCert (rp_tls p) = Some cert ∧
      (∀ customer, rateLimiters (a_clientListener (h_admin (rp_admin p))) !! customer =
         (λ c, NewIPRateLimiter (RequestsPerSecond (cc_RateLimit c)) (Burst (cc_RateLimit c))) <$>
           last (filter (λ c, cc_ID c = customer ∧ f64_pos (RequestsPerSecond (cc_RateLimit c)) = true)
                   (rc_Customers cfg))) ∧
      (∀ order1 order2 port, order1 ≡ₚ map_to_list (rp_index p) →
         a_router (RelayStart order1 order2 (h_admin (rp_admin p))) !! port =
         match idx !! port with
         | Some e => Some (index_mapping e)
         | None =>
             if bool_decide (StorePath (rc_Server cfg) = "") then None
             else match Load fs unreadable (StorePath (rc_Server cfg)) with
                  | Ok ports => (λ sp, index_mapping (sidecar_entry sp)) <$> sidecar_find ports port
                  | Err _ => None
                  end
         end)
  end.

Lemma relay_boot_spec load certs fs unreadable now version path :
  ∃ r, run_boot load certs fs unreadable false now version path = Some r ∧
    boot_outcome load certs fs unreadable path r.
Proof.
  unfold run_boot, boot_outcome. destruct (load path) as [cfg|e] eqn:El; [|by eexists].
  destruct (BuildPortIndex (rc_Customers cfg)) as [idx|e] eqn:Ei; [|by eexists; split; [done|]; exists cfg].
  destruct (chain_checked certs (CertFile (rc_TLS cfg))) as [[[]|e] Hc]; rewrite Hc;
    [|by eexists; split; [done|]; exists cfg, idx].
  unfold ServerTLSConfig. cbn [cf_paths NewConfigurator p_CertFile p_KeyFile p_ClientCAFile].
  destruct (LoadCertificate _ _ _) as [cert|e] eqn:Ec;
    [|eexists; split; [done|]; exists cfg, idx; split_and!; [done..|by rewrite Ec]].
  destruct (LoadCertificateAuthority _ _) as [cas|e] eqn:Ea;
    [|eexists; split; [done|]; exists cfg, idx; split_and!; [done..|rewrite Ec; eauto]].
  destruct (load_sidecar _ _ _ _) as [store idx'] eqn:Es. eexists. split; [done|]. exists cfg, idx, cert.
  rewrite Ea. split_and!; try done; cbn -[start_mappings]; [apply initial_limits_lookup|].
  intros order1 order2 port Ho. rewrite (start_mappings_lookup _ _ _ Ho).
  revert Es. unfold load_sidecar. case_bool_decide; [intros [= _ <-]; by destruct (idx !! port)|].
  destruct (Load _ _ _) as [ports|e]; intros [= _ <-]; [|by destruct (idx !! port)].
  unfold mergeSidecar. rewrite merge_lookup by set_solver.
  destruct (idx !! port); [done|]. by rewrite <-option_fmap_compose.
Qed.

(** C24. What a start of the relay does. It always comes to a result, and the
    result says why. It fails exactly with the first check that fails, in this
    order: the configuration does not load, it has a port twice, the
    certificate file is not a chain, the certificate with its key does not
    load, the CA of the agents does not load. Otherwise the relay is built with
    that certificate and with exactly the rate limiters that are configured: a
    customer has one when an entry of it has a positive rate, with the rate and
    the burst of the last such entry; and once Start has registered the
    mappings, in whatever order, a port of relay.yaml is mapped as it says there
    and any other port as the first valid entry of the sidecar for it says, when
    there is a sidecar that loads. *)
Theorem relay_boot load certs fs unreadable now version path :
  ∃ r, run_boot load certs fs unreadable false now version path = Some r ∧
    boot_outcome load certs fs unreadable path r.
Proof. apply relay_boot_spec. Qed.

Lemma sidecar_entry_valid sp : sidecar_valid sp = true → port_text sp → entry_valid (sp_Port sp) (sidecar_entry sp).
Proof.
  intros Hv Ht. apply mapping_valid_iff. unfold mapping_text. revert Hv Ht. unfold sidecar_valid. cbn -[ParseIP default_listen].
  case_bool_decide; [done|]. case_bool_decide as Hcs; [done|]. case_bool_decide as Hip; [done|].
  case_bool_decide; [done|]. intros _ ((_ & Hi) & ? & ? & ?). apply Decidable.not_or in Hcs as [Hc Hs].
  apply listen_checked, default_listen_valid in Hip as [? ?].
  split_and!; try done; try lia. by apply default_listen_text.
Qed.

(** The state in which the process begins its life. *)
Lemma boot_inv load certs fs unreadable now version path p order1 order2 :
  run_boot load certs fs unreadable false now version path = Some (RunStarted p) →
  (∀ cfg, load path = Ok cfg → config_valid cfg) → order1 ≡ₚ map_to_list (rp_index p) →
  proc_inv (with_admin (RelayStart order1 order2 (h_admin (rp_admin p))) (rp_admin p)).
Proof.
  intros Hb Hcfg Ho. destruct (relay_boot_spec load certs fs unreadable now version path) as (r & Hr & Hspec).
  rewrite Hr in Hb. injection Hb as ->. destruct Hspec as (cfg & idx & cert & El & Ei & _ & _ & _ & _ & _ & Hports).
  split.
  - intros port e. cbn [h_admin with_admin]. rewrite Hports by done. destruct (idx !! port) as [n|] eqn:En.
    + intros [= <-]. unfold BuildPortIndex in Ei.
      pose proof (build_index_spec [] (customer_ports (rc_Customers cfg)) NoDup_nil_2) as Hx.
      change (index_of []) with (∅ : gmap Z PortIndexEntry) in Hx. rewrite Ei in Hx. destruct Hx as [Hnd ->].
      apply index_of_lookup in En as (c & q & Hin & <- & ->); [|done].
      by apply index_entry_valid, (Hcfg _ El).
    + case_bool_decide; [done|]. destruct (Load _ _ _) as [ports|] eqn:EL; [|done]. apply Load_text in EL.
      intros (sp & Hsp & ->)%fmap_Some. unfold sidecar_find in Hsp.
      destruct (list_find _ ports) as [[k sp']|] eqn:Ef; [|done]. injection Hsp as ->.
      apply list_find_Some in Ef as (Hk & [Hv <-] & _). apply sidecar_entry_valid; [done|].
      rewrite Forall_lookup in EL. by eapply EL.
  - exists []. revert Hr. unfold run_boot. repeat case_match; try done; intros [= <-]; constructor.
Qed.

(** The registry of a process that has just started is a new one. *)
Lemma boot_registry load certs fs unreadable now version path p :
  run_boot load certs fs unreadable false now version path = Some (RunStarted p) →
  a_registry (h_admin (rp_admin p)) = NewMemoryRegistry (Some []).
Proof. unfold run_boot. repeat case_match; try done; intros [= <-]; done. Qed.
End relay_main.
