(* ===== verification/Shutdown.v ===== *)
(** * The shutdown of the relay: [cmd/relay/main.go],
    [pkg/relay/server_impl.go], [client_listener.go]

    The steps of Relay.Stop among everything that still goes on while it runs:
    the goroutines that close the client listeners once the context is done,
    agents whose admission is under way, requests, and the sessions. *)

From Stdlib Require Import ZArith Lia SpecFloat.
From S2P Require Import Prelude Mux MuxInv Config Registry RateLimit Router ClientListener Auth Admin RelayServer AdminHttp RelayMain.

(** Where [run] is, once it has called [cancel]: before server.Stop, in its
    loop of GOAWAYs, before clientListener.Stop, in its loop of Unregister,
    past it. [ids] are the agents that were listed. *)
Inductive StopPC :=
| StopBegin
| StopGoAways (ids todo : list string)
| StopListeners (ids : list string)
| StopUnregister (todo : list string)
| StopReturned.

Inductive shlabel :=
| ShStop                       (* Stop moved on *)
| ShListener (ln : nat)        (* a listener is closed because the context is done *)
| ShOther (e : pevent).        (* a request, an agent, a session *)

Section shutdown.
Context `{RateLimiter Lim} `{PEM} `{X509 Cert Pool}.
Context (can_listen : list string → string → bool).

Record Shutdown := mkShutdown { sh_http : AdminHttp Lim; sh_pc : StopPC }.

Abbreviation sh_registry := (λ sh : Shutdown, a_registry (h_admin (sh_http sh))) (only parsing).
Abbreviation sh_listener := (λ sh : Shutdown, a_clientListener (h_admin (sh_http sh))) (only parsing).

Definition on_registry (f : MemoryRegistry → MemoryRegistry) (h : AdminHttp Lim) : AdminHttp Lim :=
  with_admin (set_registry (f (a_registry (h_admin h))) (h_admin h)) h.
Definition on_listener (f : ClientListener Lim → ClientListener Lim) (h : AdminHttp Lim) : AdminHttp Lim :=
  with_admin (set_clientListener (f (a_clientListener (h_admin h))) (h_admin h)) h.

(** [func (s *Relay) Stop(ctx) error], step by step. *)
Definition stop_step (sh : Shutdown) : option Shutdown :=
  match sh_pc sh with
  | StopBegin =>
      let ids := ai_CustomerID <$> ListConnectedAgents (sh_registry sh) in
      Some (mkShutdown (sh_http sh) (StopGoAways ids ids))
  | StopGoAways ids (id :: todo) =>
      Some (mkShutdown (on_registry (λ r, stop_goaway r id) (sh_http sh)) (StopGoAways ids todo))
  | StopGoAways ids [] => Some (mkShutdown (sh_http sh) (StopListeners ids))
  | StopListeners ids => Some (mkShutdown (on_listener StopAll (sh_http sh)) (StopUnregister ids))
  | StopUnregister (id :: todo) =>
      Some (mkShutdown (on_registry (λ r, Unregister r id) (sh_http sh)) (StopUnregister todo))
  | StopUnregister [] => Some (mkShutdown (sh_http sh) StopReturned)
  | StopReturned => None
  end.

(** The goroutine of StartPortWithListener, [<-ctx.Done(); ln.Close()]. *)
Definition ctx_close (ln : nat) (cl : ClientListener Lim) : ClientListener Lim :=
  mkClientListener (rateLimiters cl) (listeners cl) (alter close_listener ln (lns cl)).

Inductive shstep : Shutdown → shlabel → Shutdown → Prop :=
| shstep_stop sh sh' : stop_step sh = Some sh' → shstep sh ShStop sh'
| shstep_listener sh ln :
    is_Some (lns (sh_listener sh) !! ln) →
    shstep sh (ShListener ln) (mkShutdown (on_listener (ctx_close ln) (sh_http sh)) (sh_pc sh))
| shstep_other sh e h : pstep can_listen (sh_http sh) e h → shstep sh (ShOther e) (mkShutdown h (sh_pc sh)).

Inductive shsteps : Shutdown → list shlabel → Shutdown → Prop :=
| shsteps_nil sh : shsteps sh [] sh
| shsteps_cons sh l sh1 ls sh2 : shstep sh l sh1 → shsteps sh1 ls sh2 → shsteps sh (l :: ls) sh2.

Lemma shsteps_app sh ls1 sh1 ls2 sh2 : shsteps sh ls1 sh1 → shsteps sh1 ls2 sh2 → shsteps sh (ls1 ++ ls2) sh2.
Proof. induction 1; [done|]. intros. econstructor; eauto. Qed.

(** ** The registry during the shutdown *)

(** Which agents Stop has yet to unregister. *)
Definition to_unregister (pc : StopPC) (id : string) : Prop :=
  match pc with
  | StopBegin => True
  | StopGoAways ids _ | StopListeners ids => id ∈ ids
  | StopUnregister todo => id ∈ todo
  | StopReturned => False
  end.

(** A connection, once made, stays; and it is not registered again. *)
Lemma Unregister_agents r id j c :
  agents (Unregister r id) !! j = Some c → j ≠ id ∧ agents r !! j = Some c.
Proof.
  unfold Unregister. destruct (agents r !! id) as [c0|] eqn:E; cbn; [by intros [? ?]%lookup_delete_Some|].
  intros Hj. split; [congruence|done].
Qed.

Lemma Unregister_conns r id c : is_Some (conns r !! c) → is_Some (conns (Unregister r id) !! c).
Proof. unfold Unregister. destruct (agents r !! id); [|done]. cbn. by rewrite lookup_alter_is_Some. Qed.

Lemma rstep_conn r e r' c :
  rstep r e r' → is_Some (conns r !! c) →
  is_Some (conns r' !! c) ∧ ∀ id, agents r' !! id = Some c → agents r !! id = Some c.
Proof.
  intros Hs Hc. destruct Hs as [r id c0 live r' Hn _ ->|r id r' ->|r now id r' Hh|r c0 live l m' r' Hc0 _ ->].
  - assert (c ≠ c0) by (intros ->; rewrite Hn in Hc; by destruct Hc).
    unfold Register. cbn zeta. split.
    + repeat case_match; cbn; rewrite ?lookup_alter_is_Some; by rewrite lookup_insert_ne.
    + intros j. assert (∀ x : MemoryRegistry, agents x = <[id := c0]> (agents r) →
        agents (upd_metrics (ConnectionRegistered id) x) !! j = Some c → agents r !! j = Some c) as Hx.
      { intros x Ex. cbn. rewrite Ex, lookup_insert_Some. intros [[_ <-]|[_ ?]]; done. }
      repeat case_match; by apply Hx.
  - split; [by apply Unregister_conns|]. by intros j [_ ?]%Unregister_agents.
  - revert Hh. unfold Heartbeat. repeat case_match; intros; simplify_eq. cbn. by rewrite lookup_alter_is_Some.
  - cbn. by rewrite lookup_alter_is_Some.
Qed.

(** The loop of GOAWAYs moves sessions. *)
Lemma stop_goaway_rstep r id : reg_inv r → stop_goaway r id = r ∨ ∃ e, rstep r e (stop_goaway r id).
Proof.
  intros (_ & [Hag _] & _). unfold stop_goaway, Lookup. destruct (agents r !! id) as [c|] eqn:E; [|by left].
  right. destruct (Hag _ _ E) as (live & Hc & _). eexists. eapply rstep_session; [done|by apply (mstep_goaway _ 0)|].
  unfold upd_conn. f_equal. apply map_eq. intros j. rewrite !lookup_alter. case_decide; [|done]. subst. by rewrite Hc.
Qed.

Lemma shstep_reg sh l sh' :
  shstep sh l sh' → reg_inv (sh_registry sh) →
  sh_registry sh' = sh_registry sh ∨ ∃ e, rstep (sh_registry sh) e (sh_registry sh').
Proof.
  intros Hs I. destruct Hs as [[h pc] sh' Hst|sh ln|sh e h Hp]; [|by left|by apply pstep_reg in Hp].
  cbn in *. unfold stop_step in Hst. cbn in Hst.
  destruct pc as [|ids [|id todo]|ids|[|id todo]|]; simplify_eq; cbn; try (by left).
  - by apply stop_goaway_rstep.
  - right. eexists. by constructor.
Qed.

(** What holds of the connections [cs] that were there when the shutdown began. *)
Definition shut_inv (cs : gset nat) (sh : Shutdown) : Prop :=
  reg_inv (sh_registry sh) ∧
  ∀ c, c ∈ cs → is_Some (conns (sh_registry sh) !! c) ∧
    ∀ id, agents (sh_registry sh) !! id = Some c → to_unregister (sh_pc sh) id.

Lemma shstep_inv cs sh l sh' : shut_inv cs sh → shstep sh l sh' → shut_inv cs sh'.
Proof.
  intros [I Hcs] Hs. pose proof (shstep_reg _ _ _ Hs I) as Hr. cbn beta in Hr. split.
  { destruct Hr as [E|[e Hr]]; [by rewrite E|by eapply rstep_inv]. }
  intros c Hc. destruct (Hcs c Hc) as [Hsome Hto].
  assert (is_Some (conns (sh_registry sh') !! c) ∧
    ∀ id, agents (sh_registry sh') !! id = Some c → agents (sh_registry sh) !! id = Some c) as [Hk Hb].
  { destruct Hr as [E|[e Hr]]; [by rewrite E|by eapply rstep_conn]. }
  split; [done|]. intros id Hid. pose proof (Hto id (Hb id Hid)) as Hold.
  destruct Hs as [[h pc] sh' Hst|sh ln|sh e h Hp]; [|done..].
  unfold stop_step in Hst. cbn in *. destruct pc as [|ids [|id' todo]|ids|[|id' todo]|]; simplify_eq; cbn in *; try done.
  - eapply listed_agents; [done|]. by apply Hb.
  - by apply not_elem_of_nil in Hold.
  - apply Unregister_agents in Hid as [Hne _]. by apply elem_of_cons in Hold as [?|?].
Qed.

Lemma shsteps_inv cs sh ls sh' : shut_inv cs sh → shsteps sh ls sh' → shut_inv cs sh'.
Proof. intros I Hs. induction Hs; [done|]. eauto using shstep_inv. Qed.

(** ** Termination *)

(** The steps Stop has left. *)
Definition stop_rank (pc : StopPC) : nat :=
  match pc with
  | StopBegin => 0
  | StopGoAways ids todo => length todo + length ids + 3
  | StopListeners ids => length ids + 2
  | StopUnregister todo => length todo + 1
  | StopReturned => 0
  end.

(** From the list of agents on, Stop returns by its own steps, and no step of
    anyone else delays it. *)
Lemma stop_returns sh :
  sh_pc sh ≠ StopBegin →
  ∃ ls sh', shsteps sh ls sh' ∧ Forall (λ l, l = ShStop) ls ∧ length ls = stop_rank (sh_pc sh) ∧ sh_pc sh' = StopReturned.
Proof.
  remember (stop_rank (sh_pc sh)) as n eqn:En. revert sh En. induction n as [n IH] using lt_wf_ind. intros [h pc] En Hpc.
  cbn in *. assert (pc = StopReturned ∨ ∃ sh1, stop_step (mkShutdown h pc) = Some sh1 ∧ sh_pc sh1 ≠ StopBegin ∧
    n = S (stop_rank (sh_pc sh1))) as [->|(sh1 & Hst & Hne & En1)].
  { destruct pc as [|ids [|id todo]|ids|[|id todo]|]; try done; [right..|by left];
      (eexists; split; [reflexivity|]); cbn in *; split; done || lia. }
  { exists [], (mkShutdown h StopReturned). split_and!; [constructor|done|by rewrite En|done]. }
  destruct (IH (stop_rank (sh_pc sh1)) ltac:(lia) sh1 eq_refl Hne) as (ls & sh' & Hs & Hf & Hlen & Hret).
  exists (ShStop :: ls), sh'. split_and!; [econstructor; [by constructor|done]|by constructor|cbn; lia|done].
Qed.

Lemma stop_completes sh :
  ∃ ls sh', shsteps sh ls sh' ∧ Forall (λ l, l = ShStop) ls ∧ sh_pc sh' = StopReturned.
Proof.
  assert (sh_pc sh = StopBegin ∨ sh_pc sh ≠ StopBegin) as [Hb|Hb] by (destruct (sh_pc sh); auto).
  - destruct (stop_step sh) as [sh1|] eqn:Hst; [|unfold stop_step in Hst; by rewrite Hb in Hst].
    assert (sh_pc sh1 ≠ StopBegin) as Hne by (unfold stop_step in Hst; rewrite Hb in Hst; by simplify_eq).
    destruct (stop_returns sh1 Hne) as (ls & sh' & Hs & Hf & _ & Hr).
    exists (ShStop :: ls), sh'. split_and!; [econstructor; [by constructor|done]|by constructor|done].
  - destruct (stop_returns sh Hb) as (ls & sh' & Hs & Hf & _ & Hr). eauto.
Qed.

(** The goroutines that wait for the context close every listener. *)
Lemma ctx_closes_all l sh :
  (∀ ln, ln ∈ l → is_Some (lns (sh_listener sh) !! ln)) →
  ∃ sh', shsteps sh (ShListener <$> l) sh' ∧ sh_pc sh' = sh_pc sh ∧ sh_registry sh' = sh_registry sh ∧
    dom (lns (sh_listener sh')) = dom (lns (sh_listener sh)) ∧
    ∀ ln x, lns (sh_listener sh') !! ln = Some x →
      ln_open x = false ∨ (ln ∉ l ∧ lns (sh_listener sh) !! ln = Some x).
Proof.
  revert sh. induction l as [|k l IH]; intros sh Hl.
  { exists sh. split_and!; [constructor|done..|]. intros ln x Hx. right. split; [apply not_elem_of_nil|done]. }
  set (sh1 := mkShutdown (on_listener (ctx_close k) (sh_http sh)) (sh_pc sh)).
  destruct (IH sh1) as (sh' & Hs & Hpc & Hr & Hd & Hx).
  { intros ln Hin. cbn. rewrite lookup_alter_is_Some. apply Hl. by right. }
  exists sh'. split_and!; [econstructor; [apply shstep_listener, Hl; by left|done]|done|done|by rewrite Hd; cbn; rewrite dom_alter_L|].
  intros ln x Hlx. destruct (Hx ln x Hlx) as [?|[Hn Ha]]; [by left|]. cbn in Ha.
  apply lookup_alter_Some in Ha as [(-> & y & _ & ->)|[Hne Ha]]; [by left|]. right. split; [|done].
  by apply not_elem_of_cons.
Qed.

(** Once clientListener.Stop has run, the map of the listeners is empty, until a
    request or a reload starts another one. *)
Definition starts_none (l : shlabel) : Prop :=
  match l with ShOther (PRequest _ _ _) | ShOther (PHup _) => False | _ => True end.

Definition map_cleared (sh : Shutdown) : Prop :=
  match sh_pc sh with StopUnregister _ | StopReturned => listeners (sh_listener sh) = ∅ | _ => True end.

Lemma cleared_step sh l sh' : map_cleared sh → shstep sh l sh' → starts_none l → map_cleared sh'.
Proof.
  intros Hc Hs Hl. unfold map_cleared in *. destruct Hs as [[h pc] sh' Hst|sh ln|sh e h Hp]; cbn in *.
  - unfold stop_step in Hst. cbn in Hst. destruct pc as [|ids [|id todo]|ids|[|id todo]|]; simplify_eq; done.
  - done.
  - by destruct Hp.
Qed.

(** ** Stop with nothing in between *)

Lemma goaways_run h ids todo :
  shsteps (mkShutdown h (StopGoAways ids todo)) ((λ _, ShStop) <$> todo)
    (mkShutdown (on_registry (λ r, foldl stop_goaway r todo) h) (StopGoAways ids [])).
Proof.
  revert h. induction todo as [|id todo IH]; intros h; cbn [foldl fmap list_fmap].
  - replace (on_registry (λ r, r) h) with h by (destruct h as [[]]; done). constructor.
  - econstructor; [by constructor|]. apply (IH (on_registry (λ r, stop_goaway r id) h)).
Qed.

Lemma unregisters_run h todo :
  shsteps (mkShutdown h (StopUnregister todo)) ((λ _, ShStop) <$> todo)
    (mkShutdown (on_registry (λ r, foldl Unregister r todo) h) (StopUnregister [])).
Proof.
  revert h. induction todo as [|id todo IH]; intros h; cbn [foldl fmap list_fmap].
  - replace (on_registry (λ r, r) h) with h by (destruct h as [[]]; done). constructor.
  - econstructor; [by constructor|]. apply (IH (on_registry (λ r, Unregister r id) h)).
Qed.

(** The steps of Stop, taken one after the other, are [run_stop]. *)
Lemma stop_run h : ∃ ls, Forall (λ l, l = ShStop) ls ∧ shsteps (mkShutdown h StopBegin) ls (mkShutdown (run_stop h) StopReturned).
Proof.
  set (ids := ai_CustomerID <$> ListConnectedAgents (a_registry (h_admin h))).
  eexists. split; [|econstructor; [by constructor|]; eapply shsteps_app; [apply goaways_run|];
    econstructor; [by constructor|]; econstructor; [by constructor|]; eapply shsteps_app; [apply unregisters_run|];
    econstructor; [by constructor|]; unfold run_stop, RelayStop; constructor].
  assert (∀ l : list string, Forall (λ x, x = ShStop) ((λ _, ShStop) <$> l)) as Hf by (intros l; by apply Forall_fmap, Forall_true).
  constructor; [done|]. apply Forall_app. split; [apply Hf|]. do 2 (constructor; [done|]).
  apply Forall_app. split; [apply Hf|]. by repeat constructor.
Qed.

(** ** Theorems *)

Lemma psteps_registry (h h' : AdminHttp Lim) es :
  psteps can_listen h es h' → reg_inv (a_registry (h_admin h)) → reg_inv (a_registry (h_admin h')).
Proof.
  induction 1 as [|h es h1 e h2 _ IH Hs]; [done|]. intros I%IH.
  destruct (pstep_reg _ _ _ _ Hs) as [->|[re Hr]]; [done|by eapply rstep_inv].
Qed.

(** C21. A shutdown of the relay, at any point of any history of requests,
    reloads, agents and sessions, with Stop step by step and agents, sessions,
    requests and the goroutines of the listeners in between. At every moment
    Stop can go on to its end by its own steps. Once it has returned, the
    session of every agent connection that was there when the shutdown began is
    closed, and an agent that is still registered was admitted during the
    shutdown; unless a request started another one, no client listener is
    registered. From then on the goroutines of the listeners alone close, in one
    step each, every client listener that is open, also those that another one
    had displaced in the map. *)
Theorem process_shutdown load certs fs unreadable now version path p order1 order2 es h ls sh :
  run_boot load certs fs unreadable false now version path = Some (RunStarted p) →
  psteps can_listen (with_admin (RelayStart can_listen order1 order2 (h_admin (rp_admin p))) (rp_admin p)) es h →
  shsteps (mkShutdown h StopBegin) ls sh →
  (∃ ls' sh', shsteps sh ls' sh' ∧ Forall (λ l, l = ShStop) ls' ∧ sh_pc sh' = StopReturned) ∧
  (sh_pc sh = StopReturned →
  (∀ c live, conns (a_registry (h_admin h)) !! c = Some live →
     ∃ live', conns (sh_registry sh) !! c = Some live' ∧ m_closeCh (lc_mux live') = true) ∧
  (∀ id c, agents (sh_registry sh) !! id = Some c → conns (a_registry (h_admin h)) !! c = None) ∧
  (Forall starts_none ls → listeners (sh_listener sh) = ∅) ∧
  (∃ ls' sh', shsteps sh ls' sh' ∧ length ls' = size (lns (sh_listener sh)) ∧
     (∀ l, l ∈ ls' → ∃ ln, l = ShListener ln) ∧ sh_registry sh' = sh_registry sh ∧
     ∀ ln x, lns (sh_listener sh') !! ln = Some x → ln_open x = false)).
Proof.
  intros Hb Hps Hs. split; [apply stop_completes|]. intros Hpc. assert (shut_inv (dom (conns (a_registry (h_admin h)))) sh) as [I Hcs].
  { eapply shsteps_inv; [|done]. split; [|intros c Hc; by apply elem_of_dom in Hc].
    eapply psteps_registry; [done|]. cbn. rewrite (boot_registry _ _ _ _ _ _ _ _ Hb). apply NewMemoryRegistry_inv. }
  rewrite Hpc in Hcs. split_and!.
  - intros c live Hc. destruct (Hcs c) as [[live' Hc'] Hno]; [by apply elem_of_dom|]. exists live'. split; [done|].
    destruct I as (_ & [_ Hor] & _). destruct (Hor _ _ Hc') as [Ha|?]; [|done]. by destruct (Hno _ Ha).
  - intros id c Ha. apply not_elem_of_dom. intros Hc. destruct (Hcs c Hc) as [_ Hno]. by apply (Hno id).
  - intros Hl. assert (map_cleared sh) as Hm; [|unfold map_cleared in Hm; by rewrite Hpc in Hm].
    assert (map_cleared (mkShutdown h StopBegin)) as Hm by done. clear -Hs Hl Hm.
    induction Hs as [|sh l sh1 ls sh2 Hst _ IH]; [done|]. apply Forall_cons in Hl as [Hl Hls]. eauto using cleared_step.
  - destruct (ctx_closes_all (elements (dom (lns (sh_listener sh)))) sh) as (sh' & Hs' & _ & Hr & Hd & Hx).
    { intros ln Hin. by apply elem_of_dom, elem_of_elements. }
    eexists _, sh'. split; [exact Hs'|]. split_and!.
    + rewrite length_fmap, <-(size_dom (D := gset nat)). done.
    + intros l (ln & -> & _)%list_elem_of_fmap. by exists ln.
    + done.
    + intros ln x Hlx. destruct (Hx ln x Hlx) as [?|[Hn Ha]]; [done|]. destruct Hn.
      apply elem_of_elements, elem_of_dom. by exists x.
Qed.

(** An agent whose admission ends after Stop has listed the agents outlives the
    shutdown: nothing unregisters it or closes its session. *)
Theorem late_agent_survives h id c live :
  conns (a_registry (h_admin h)) !! c = None → agents (a_registry (h_admin h)) !! id = None →
  lc_customerID live = id →
  ∃ sh, shsteps (mkShutdown h (StopUnregister [])) [ShOther (PRegistry (EConnect id c)); ShStop] sh ∧
    sh_pc sh = StopReturned ∧ Lookup (sh_registry sh) id = Ok c ∧ conns (sh_registry sh) !! c = Some live.
Proof.
  intros Hc Ha Hl. eexists. split.
  { econstructor; [apply shstep_other, pstep_registry; by eapply rstep_connect|]. econstructor; [by constructor|constructor]. }
  split; [done|]. set (r := mkRegistry (agents (a_registry (h_admin h))) (customerLimits (a_registry (h_admin h)))
    (r_metrics (a_registry (h_admin h))) (<[c := live]> (conns (a_registry (h_admin h))))).
  split; [exact (Register_lookup r id c)|]. apply (Register_new_conn r id c live); cbn; [by rewrite lookup_insert_eq|congruence].
Qed.
End shutdown.
