(* ===== verification/RelayRestart.v ===== *)
(** * One relay process after another: the sidecar

    What the admin API and the reloads leave in the sidecar file over the life
    of a process, and what the process started next makes of it. *)

From Stdlib Require Import ZArith Lia SpecFloat.
From stdpp Require Import pretty sorting.
From S2P Require Import Prelude Text Json Float Frame Window WriteQueue Stream Mux MuxInv MuxOps Config Registry RateLimit Router ClientListener Store Net AuditLog Auth Admin Reload RelayServer AdminHttp RelayMain.

(** The kinds of request that change port mappings. *)
Definition port_mutation (method : string) (e : Endpoint) : bool :=
  match e, mutation method e with
  | EAgentByID _, _ => false
  | _, Some _ => true
  | _, None => false
  end.

(** A save that does not fail. *)
Definition saving (path : string) (env : Env) : Prop :=
  env_tmp env ≠ path ∧ ∃ b, env_faults env = mkFaults false None false false b.

Definition event_saving (path : string) (e : pevent) : Prop :=
  match e with PRequest w _ _ | PHup w => saving path (w_env w) | PRegistry _ => True end.

(** A new port whose listener did not start is the one change that is not
    saved. *)
Definition no_conflict (e : pevent) : Prop :=
  match e with PRequest _ _ reply => reply_code reply ≠ Some 409 | _ => True end.

(** A successful change of the mappings. *)
Definition changes_ports (e : pevent) : Prop :=
  match e with
  | PRequest _ rq reply =>
      ∃ ep code, endpoint (rq_Path rq) = Some ep ∧ port_mutation (rq_Method rq) ep = true ∧
        reply_code reply = Some code ∧ code < 300
  | _ => False
  end.

Section saved.
Context `{RateLimiter Lim} `{PEM} `{X509 Cert Pool}.
Context (can_listen : list string → string → bool).

(** The sidecar holds the mappings of the router, when they are valid. *)
Definition sidecar_current (path : string) (a : AdminServer Lim) : Prop :=
  map_Forall mapping_valid (a_router a) → Load (a_fs a) false path = Ok (sidecar_port <$> ListPorts (a_router a)).

Lemma valid_ports_text r : map_Forall mapping_valid r → Forall port_text (sidecar_port <$> ListPorts r).
Proof.
  intros Hv. apply Forall_forall. intros sp (pi & -> & Hp)%list_elem_of_fmap. unfold ListPorts in Hp.
  apply list_elem_of_fmap in Hp as ([p e] & -> & Hin%elem_of_map_to_list). by apply (Hv p e).
Qed.

Lemma persist_store env (a : AdminServer Lim) : a_store (persist env a) = a_store a.
Proof. unfold persist. by case_match. Qed.

(** The two halves of [persist]: a.router.ListPorts() takes the list, and
    SaveCurrentState, which locks the store only then, writes it. *)
Definition save_snapshot (env : Env) (ports : list PortInfo) (a : AdminServer Lim) : AdminServer Lim :=
  match a_store a with
  | None => a
  | Some path => set_fs (default (a_fs a) (last (SaveCurrentState (a_fs a) path (env_tmp env) (env_faults env) ports).1)) a
  end.

Lemma persist_snapshot env a : persist env a = save_snapshot env (ListPorts (a_router a)) a.
Proof. done. Qed.

Lemma save_snapshot_saved path env r (a : AdminServer Lim) :
  a_store a = Some path → saving path env → map_Forall mapping_valid r →
  Load (a_fs (save_snapshot env (ListPorts r) a)) false path = Ok (sidecar_port <$> ListPorts r).
Proof.
  intros Hs [Ht [b Hf]] Hv. unfold save_snapshot. rewrite Hs. cbn -[Marshal Unmarshal].
  unfold SaveCurrentState, Save. rewrite Hf. cbn -[Marshal Unmarshal]. unfold Load. rewrite lookup_insert_eq, sidecar_roundtrip; [done|].
  split; [by apply text_check|]. by apply valid_ports_text.
Qed.

Lemma persist_current path env (a : AdminServer Lim) :
  a_store a = Some path → saving path env → sidecar_current path (persist env a).
Proof.
  intros Hs Hsv. unfold sidecar_current. rewrite persist_router, persist_snapshot. intros Hv.
  by apply (save_snapshot_saved path env).
Qed.

Lemma map_and_listen_store (a : AdminServer Lim) customer port svc addr max :
  a_store (map_and_listen can_listen a customer port svc addr max).1 = a_store a.
Proof. unfold map_and_listen. cbn zeta. by case_match. Qed.

Lemma applyReload_store (a : AdminServer Lim) oldCfg newCfg o :
  a_store (applyReload can_listen a oldCfg newCfg o).1 = a_store a.
Proof.
  unfold applyReload. cbn zeta. destruct (applyRateLimitChanges _ _ _) as [cl changed]. cbn [fst].
  set (store := λ st : AdminServer Lim * ReloadSummary, a_store st.1).
  etrans; [apply (foldl_keeps _ store)|apply (foldl_keeps _ store)]; unfold store.
  - intros st kv. unfold reload_old, removePort. case_match; [done|].
    destruct (RemovePortMapping _ _ _); [|done]. cbn. by case_match.
  - intros st kv. unfold reload_new. destruct (indexPorts oldCfg !! kv.1).
    + case_bool_decide; [done|]. case_match; [|done].
      unfold updatePortReload. by destruct (UpdatePortMapping _ _ _ _ _).
    + unfold addPort. pose proof (map_and_listen_store st.1 (ie_CustomerID kv.2) kv.1 (ie_Service kv.2)
        (ie_ListenAddr kv.2) (ie_MaxStreams kv.2)) as E. by destruct (map_and_listen _ _ _ _ _ _ _) as [a' []].
Qed.

Section step.
Context (path : string) (a : AdminServer Lim) (Hstore : a_store a = Some path).

(** What a handler of a change leaves behind, with its reply. *)
Definition stored (a' : AdminServer Lim) (r : Reply) : Prop :=
  a_store a' = Some path ∧
  (reply_code r = Some 409 ∨ sidecar_current path a' ∨
   a' = a ∧ (∀ code, reply_code r = Some code → 300 <= code)).

Lemma createPort_stored env body :
  saving path env → let '(a', r) := createPort can_listen env a body in stored a' (RApi r).
Proof using Hstore.
  intros Hs. unfold stored, createPort. destruct body as [req|]; [|cbn; split; [done|]; right; right; naive_solver lia].
  repeat (case_bool_decide; [cbn; split; [done|]; right; right; naive_solver lia|]). cbn zeta.
  pose proof (map_and_listen_store a (cr_CustomerID req) (cr_Port req) (cr_Service req)
    (default_listen (cr_ListenAddr req)) (cr_MaxStreams req)) as E.
  destruct (map_and_listen _ _ _ _ _ _ _) as [a1 []]; cbn in E |- *; [|split; [congruence|by left]].
  split; [by rewrite persist_store, E|]. right. left.
  change (sidecar_current path (persist env a1)). apply persist_current; [congruence|done].
Qed.

Lemma updatePort_stored env body port :
  saving path env → let '(a', r) := updatePort env a body port in stored a' (RApi r).
Proof using Hstore.
  intros Hs. unfold stored, updatePort, decodePortUpdateRequest.
  destruct body as [req|]; [|cbn; split; [done|]; right; right; naive_solver lia].
  repeat (case_bool_decide; [cbn; split; [done|]; right; right; naive_solver lia|]).
  unfold GetPort, UpdatePortMapping. destruct (a_router a !! port) as [e|]; cbn;
    [|split; [done|]; right; right; naive_solver lia].
  split; [by rewrite persist_store|]. right. left.
  match goal with |- context [persist env ?x] => change (sidecar_current path (persist env x)) end.
  by apply persist_current.
Qed.

Lemma deletePort_stored env port :
  saving path env → let '(a', r) := deletePort env a port in stored a' (RApi r).
Proof using Hstore.
  intros Hs. unfold stored, deletePort.
  destruct (LookupPort _ _) as [[customer svc]|]; [|cbn; split; [done|]; right; right; naive_solver lia].
  destruct (RemovePortMapping _ _ _) as [r'|]; [|cbn; split; [done|]; right; right; naive_solver lia]. cbn.
  rewrite persist_store. split; [by case_match|]. right. left.
  match goal with |- context [persist env ?x] => change (sidecar_current path (persist env x)) end.
  apply persist_current; [by case_match|done].
Qed.

Lemma Reload_stored w a' r :
  saving path (w_env w) →
  Reload can_listen (w_env w) a (w_load w) (w_orders w) = (a', r) →
  a_store a' = Some path ∧ (sidecar_current path a' ∨ a' = a ∧ is_ok r = false).
Proof using Hstore.
  intros Hs. unfold Reload. case_bool_decide; [intros [= <- <-]; auto|].
  destruct (w_load w _) as [newCfg|]; [|intros [= <- <-]; auto].
  destruct (BuildPortIndex _); [|intros [= <- <-]; auto].
  pose proof (applyReload_store a (a_currentCfg a) newCfg (w_orders w)) as E.
  destruct (applyReload _ _ _ _ _) as [a1 summary]. intros [= <- <-]. cbn in E.
  split; [cbn; rewrite persist_store; cbn; congruence|]. left.
  change (sidecar_current path (persist (w_env w) (set_currentCfg newCfg a1))).
  apply persist_current; [cbn; congruence|done].
Qed.
End step.

Lemma handle_stored path w (h : AdminHttp Lim) e method body :
  a_store (h_admin h) = Some path → saving path (w_env w) →
  let '(a', r) := handle can_listen w h e method body in
  a_store a' = Some path ∧
  (reply_code r = Some 409 ∨ sidecar_current path a' ∨
   (a_router a' = a_router (h_admin h) ∧ a_fs a' = a_fs (h_admin h)) ∧
   (port_mutation method e = true → ∀ code, reply_code r = Some code → 300 <= code)).
Proof.
  intros Hst Hs.
  assert (∀ a' r, stored path (h_admin h) a' r → a_store a' = Some path ∧
    (reply_code r = Some 409 ∨ sidecar_current path a' ∨
     (a_router a' = a_router (h_admin h) ∧ a_fs a' = a_fs (h_admin h)) ∧
     (port_mutation method e = true → ∀ code, reply_code r = Some code → 300 <= code))) as Hstored.
  { intros a' r (? & [?|[?|[-> ?]]]); split; auto. }
  assert (∀ r, port_mutation method e = false → a_store (h_admin h) = Some path ∧
    (reply_code r = Some 409 ∨ sidecar_current path (h_admin h) ∨
     (a_router (h_admin h) = a_router (h_admin h) ∧ a_fs (h_admin h) = a_fs (h_admin h)) ∧
     (port_mutation method e = true → ∀ code, reply_code r = Some code → 300 <= code))) as Hsame.
  { intros r E. split; [done|]. right. right. split; [done|]. by rewrite E. }
  destruct e as [ | | | |rest| |rest| | | | ]; cbn [handle]; try (apply Hsame; done).
  - unfold api, handlePorts. case_bool_decide as Em; [by subst; apply Hsame|].
    case_bool_decide as Em2; [|apply Hsame; unfold port_mutation; cbn; by rewrite bool_decide_eq_false_2].
    pose proof (createPort_stored path (h_admin h) Hst (w_env w) (decode_create body) Hs) as Hc.
    destruct (createPort _ _ _ _) as [a' r]. by apply Hstored.
  - unfold api, handlePortByID. destruct (Atoi rest) as [port|].
    2:{ apply Hstored. split; [done|]. right. right. cbn. naive_solver lia. }
    unfold port_request. case_bool_decide as Em; [by subst; apply Hsame|].
    case_bool_decide as Em2.
    { pose proof (updatePort_stored path (h_admin h) Hst (w_env w) (decode_update body) port Hs) as Hc.
      destruct (updatePort _ _ _ _) as [a' r]. by apply Hstored. }
    case_bool_decide as Em3; [|apply Hsame; unfold port_mutation; cbn; by rewrite !bool_decide_eq_false_2].
    pose proof (deletePort_stored path (h_admin h) Hst (w_env w) port Hs) as Hc.
    destruct (deletePort _ _ _) as [a' r]. by apply Hstored.
  - unfold api, handleAgentByID. cbn zeta. repeat case_bool_decide; cbn; (split; [done|]; right; by right).
  - unfold handleReload. case_bool_decide as Em.
    { apply Hsame. unfold port_mutation. cbn. by rewrite bool_decide_eq_false_2. }
    destruct (Reload _ _ _ _ _) as [a' r] eqn:Er.
    destruct (Reload_stored path (h_admin h) Hst w a' r Hs Er) as [Hst' Hc].
    destruct r as [summary|e].
    + split; [done|]. destruct Hc as [?|[_ ?]]; [auto|done].
    + apply Hstored. split; [done|]. destruct Hc as [?|[-> _]]; [auto|]. right. right. cbn. naive_solver lia.
Qed.

Lemma pstep_stored path h e h' :
  pstep can_listen h e h' → a_store (h_admin h) = Some path → event_saving path e → no_conflict e →
  a_store (h_admin h') = Some path ∧
  (sidecar_current path (h_admin h') ∨
   (a_router (h_admin h') = a_router (h_admin h) ∧ a_fs (h_admin h') = a_fs (h_admin h)) ∧ ¬ changes_ports e).
Proof.
  intros Hs Hst Hsv Hnc. destruct Hs as [h w rq h' reply Ho Hserve|h w a' r Ho Hr|h e reg' Hs]; cbn in *.
  - revert Hserve. unfold serve. cbn zeta. case_bool_decide as Hpath.
    { intros [= <- <-]. split; [done|]. right. split; [done|]. by intros (ep & code & _ & _ & ? & _). }
    rewrite Hpath. destruct (endpoint (rq_Path rq)) as [ep|] eqn:Eep.
    2:{ intros [= <- <-]. split; [done|]. right. split; [done|]. by intros (ep & code & ? & _). }
    pose proof (handle_stored path w h ep (rq_Method rq) (rq_Body rq) Hst Hsv) as Hh.
    destruct (handle _ _ _ _ _ _) as [a r]. intros [= <- <-]. cbn. destruct Hh as (Hst' & [?|[?|[Hsame Hm]]]); [done|by auto|].
    split; [done|]. right. split; [done|]. intros (ep' & code & Hep & Hpm & Hc & Hlt).
    injection Hep as <-.
    specialize (Hm Hpm code Hc). lia.
  - destruct (Reload_stored path (h_admin h) Hst w a' r Hsv Hr) as [? [?|[-> _]]]; auto.
  - auto.
Qed.

(** The sidecar follows the mappings. Over any history of requests,
    reloads, agents and sessions in which no save fails and no new port meets
    an address in use, a sidecar that holds the current mappings goes on
    holding them; and whatever it held at first, after the first successful
    change of the mappings through the API it does. *)
Lemma sidecar_follows path h es h' :
  psteps can_listen h es h' → a_store (h_admin h) = Some path →
  Forall (event_saving path) es → Forall no_conflict es →
  sidecar_current path (h_admin h) ∨ Exists changes_ports es →
  a_store (h_admin h') = Some path ∧ sidecar_current path (h_admin h').
Proof.
  intros Hs Hst Hsv Hnc.
  assert (a_store (h_admin h') = Some path ∧
    (sidecar_current path (h_admin h) ∨ Exists changes_ports es → sidecar_current path (h_admin h'))) as [? Hcur].
  { induction Hs as [|h es h1 e h2 _ IH Hs]; [split; [done|]; by intros [?|?%Exists_nil]|].
    apply Forall_app in Hsv as [Hsv [Hsve _]%Forall_cons], Hnc as [Hnc [Hnce _]%Forall_cons].
    destruct IH as [Hst1 IH]; [done..|].
    destruct (pstep_stored path h1 e h2 Hs Hst1 Hsve Hnce) as [Hst2 Hc]. split; [done|].
    destruct Hc as [?|[[Er Ef] Hno]]; [done|]. unfold sidecar_current in *. rewrite Er, Ef. intros Hor. apply IH.
    destruct Hor as [?|[?|[?|?%Exists_nil]%Exists_cons]%Exists_app]; [by left|by right|done|done]. }
  intros Hor. split; [done|by apply Hcur].
Qed.
(** C14. Ports survive a restart. Take any relay that has started with a sidecar,
    and any history of requests to its API, one after the other, of reloads,
    agents and sessions after that, with configurations whose ports are well
    formed, in which every save succeeds, no request is answered with a 409,
    the answer to a new port whose listener does not start, and the mappings are
    changed by a request at least once. The relay started next
    on the files it left, with whatever relay.yaml it then finds and the same
    sidecar, maps the ports of that relay.yaml as configured there, and every
    other port exactly as the first relay had it. *)
Theorem process_restart load certs fs unreadable now version cpath (p : RelayProc (Lim := Lim) (Cert := Cert)) order1 order2 es h path
    load' certs' now' version' cpath' cfg' idx' (p' : RelayProc (Lim := Lim) (Cert := Cert)) order1' order2' port :
  run_boot load certs fs unreadable false now version cpath = Some (RunStarted p) →
  (∀ cfg, load cpath = Ok cfg → config_valid cfg) → order1 ≡ₚ map_to_list (rp_index p) →
  let h0 := with_admin (RelayStart can_listen order1 order2 (h_admin (rp_admin p))) (rp_admin p) in
  psteps can_listen h0 es h → Forall loads_valid es →
  a_store (h_admin h0) = Some path → Forall (event_saving path) es → Forall no_conflict es →
  Exists changes_ports es →
  run_boot load' certs' (a_fs (h_admin h)) false false now' version' cpath' = Some (RunStarted p') →
  load' cpath' = Ok cfg' → BuildPortIndex (rc_Customers cfg') = Ok idx' →
  StorePath (rc_Server cfg') = path → path ≠ "" → order1' ≡ₚ map_to_list (rp_index p') →
  a_router (RelayStart can_listen order1' order2' (h_admin (rp_admin p'))) !! port =
  match idx' !! port with
  | Some e => Some (index_mapping e)
  | None => a_router (h_admin h) !! port
  end.
Proof.
  intros Hb Hcfg Ho h0 Hs Hl Hst Hsv Hnc Hch Hb' El' Ei' Hpath Hne Ho'.
  destruct (sidecar_follows path h0 es h Hs Hst Hsv Hnc (or_intror Hch)) as [_ Hcur].
  destruct (psteps_inv can_listen h0 es h Hs Hl) as [Hv _]; [by eapply boot_inv|].
  destruct (relay_boot_spec (Lim := Lim) (Cert := Cert) can_listen load' certs' (a_fs (h_admin h)) false now' version' cpath') as (r & Hr & Hspec).
  rewrite Hr in Hb'. injection Hb' as ->. destruct Hspec as (cfg & idx & cert & El & Ei & _ & _ & _ & _ & _ & Hports).
  rewrite El in El'. injection El' as ->. rewrite Ei in Ei'. injection Ei' as ->.
  rewrite Hports by done. destruct (idx' !! port); [done|]. rewrite Hpath, bool_decide_eq_false_2 by done.
  rewrite (Hcur Hv), sidecar_find_saved by done. destruct (a_router (h_admin h) !! port) as [e|] eqn:E; [|done].
  cbn [fmap option_fmap option_map]. f_equal. by apply saved_mapping, Hv.
Qed.

(** Two requests at a time can lose a port. The first lists the ports; the second
    maps one more, lists them and saves; then the first saves the list it has:
    every save succeeds, the port is mapped, and the sidecar does not have it. *)
Theorem stale_snapshot_saved path env1 env2 (a : AdminServer Lim) port e :
  a_store a = Some path → saving path env1 → saving path env2 → map_Forall mapping_valid (a_router a) →
  a_router a !! port = None →
  let snapshot := ListPorts (a_router a) in
  let a1 := persist env2 (set_router (<[port := e]> (a_router a)) a) in
  let a2 := save_snapshot env1 snapshot a1 in
  a_router a2 !! port = Some e ∧
  ∃ ports, Load (a_fs a2) false path = Ok ports ∧ sidecar_find ports port = None.
Proof.
  intros Hs H1' H2' Hv Hn. cbn zeta. split.
  - unfold save_snapshot. case_match; cbn; rewrite persist_router; cbn; apply lookup_insert_eq.
  - eexists. split; [apply (save_snapshot_saved path env1); [by rewrite persist_store|done..]|].
    by rewrite sidecar_find_saved, Hn.
Qed.
End saved.
