(* ===== verification/RelayLife.v ===== *)
(** * The life of the relay process: [main] and [run] of [cmd/relay/main.go]

    From the parts to the exit: the audit event of the start, the goroutine that
    runs the server, requests to the admin API, SIGHUP, agents that connect, the
    wait for a signal or for the end of the server, the shutdown, and the
    deferred Close of the emitter. The audit events that AdminHttp.v and
    RelayServer.v keep as a list are handed to the emitter of AuditLog.v, where
    each call of Emit takes its two steps among everything else.

    The goroutine that hands an event over goes on while the call is pending,
    also the one of SIGHUP: more interleavings than the code has, never fewer. *)

From Stdlib Require Import ZArith Lia SpecFloat.
From S2P Require Import Prelude Float Frame Window WriteQueue Stream Mux MuxInv MuxOps Config Registry RateLimit Router ClientListener Store Net AuditLog Auth Admin Reload RelayServer AdminHttp RelayMain.

(** Where [run] is: built; in the Emit of the start; in the select that waits;
    past [cancel]; past server.Stop; in the deferred emitter.Close; returned. *)
Inductive RelayPC :=
| RelayBuilt
| RelayEmitting (event : Event)
| RelayWaiting
| RelayCanceled
| RelayStopped
| RelayFlushing
| RelayExited (r : result RunErr unit).

(** The goroutine of server.Start, which sends its result on serverDone. *)
Inductive ServerPC := ServerIdle | ServerServing | ServerReturned (err : bool).

(** The other goroutines run from the start of the wait to the exit. *)
Definition relay_up (pc : RelayPC) : bool :=
  match pc with RelayBuilt | RelayEmitting _ | RelayExited _ => false | _ => true end.
Definition relay_canceled (pc : RelayPC) : bool :=
  match pc with RelayBuilt | RelayEmitting _ | RelayWaiting => false | _ => true end.
Definition built (pc : RelayPC) : bool := match pc with RelayBuilt => true | _ => false end.
Definition exited (pc : RelayPC) : bool := match pc with RelayExited _ => true | _ => false end.

(** [func main()] of the relay: the exit status. *)
Definition relay_exit (r : result RunErr unit) : Z := match r with Ok _ => 0 | Err _ => 1 end.

Section relay_life.
Context `{RateLimiter Lim} `{PEM} `{X509 Cert Pool}.
Context (can_listen : list string → string → bool).
Context (idx : gmap Z PortIndexEntry).        (* the port index of the server *)

Record RelayLife := mkRelayLife {
  rl_pc : RelayPC;
  rl_http : AdminHttp Lim;
  rl_server : ServerPC;
  rl_emitter : SlogEmitter
}.

Definition new_relay_life (h : AdminHttp Lim) : RelayLife :=
  mkRelayLife RelayBuilt h ServerIdle (NewSlogEmitter DefaultBufferSize).

Definition relay_at (pc : RelayPC) (e : SlogEmitter) (L : RelayLife) : RelayLife :=
  mkRelayLife pc (rl_http L) (rl_server L) e.

(** The audit events of the admin server so far. *)
Definition audited (h : AdminHttp Lim) : list Event := default [] (a_emitter (h_admin h)).

(** The first step of an Emit: past the first select, or refused there. *)
Definition hands (event : Event) (l : elabel) : Prop := (∃ t, l = ECheck t event) ∨ l = ERefused event.
(** Its last step. *)
Definition comes_back (l : elabel) : Prop :=
  match l with EAccepted _ | EAbandoned _ | EPanicked _ => True | _ => False end.

(** Before the wait nobody has closed the emitter, so the first Emit is always
    accepted. *)
Inductive rlstep : RelayLife → list elabel → RelayLife → Prop :=
| rl_emit L event e :
    rl_pc L = RelayBuilt → audited (rl_http L) = [event] → estep (rl_emitter L) (ECheck 0 event) e →
    rlstep L [ECheck 0 event] (relay_at (RelayEmitting event) e L)
| rl_emitted L event e :
    rl_pc L = RelayEmitting event → estep (rl_emitter L) (EAccepted event) e →
    rlstep L [EAccepted event] (relay_at RelayWaiting e L)
| rl_server_start L order1 order2 (bound : bool) :
    relay_up (rl_pc L) = true → e_panic (rl_emitter L) = false → rl_server L = ServerIdle →
    order1 ≡ₚ map_to_list idx → order2 ≡ₚ map_to_list idx →
    rlstep L [] (mkRelayLife (rl_pc L) (with_admin (RelayStart can_listen order1 order2 (h_admin (rl_http L))) (rl_http L))
                   (if bound then ServerServing else ServerReturned true) (rl_emitter L))
| rl_server_end L :
    relay_up (rl_pc L) = true → e_panic (rl_emitter L) = false → rl_server L = ServerServing → relay_canceled (rl_pc L) = true →
    rlstep L [] (mkRelayLife (rl_pc L) (rl_http L) (ServerReturned false) (rl_emitter L))
| rl_quiet L pe h :
    relay_up (rl_pc L) = true → e_panic (rl_emitter L) = false → (∀ w, pe = PHup w → rl_pc L = RelayWaiting) →
    pstep can_listen (rl_http L) pe h → audited h = audited (rl_http L) →
    rlstep L [] (mkRelayLife (rl_pc L) h (rl_server L) (rl_emitter L))
| rl_audit L pe h event l e :
    relay_up (rl_pc L) = true → (∀ w, pe = PHup w → rl_pc L = RelayWaiting) →
    pstep can_listen (rl_http L) pe h → audited h = audited (rl_http L) ++ [event] →
    hands event l → estep (rl_emitter L) l e →
    rlstep L [l] (mkRelayLife (rl_pc L) h (rl_server L) e)
| rl_listener L event l e :
    relay_up (rl_pc L) = true → Actor event = "relay" → hands event l → estep (rl_emitter L) l e →
    rlstep L [l] (relay_at (rl_pc L) e L)
| rl_call_ends L l e :
    relay_up (rl_pc L) = true → comes_back l → estep (rl_emitter L) l e → rlstep L [l] (relay_at (rl_pc L) e L)
| rl_drain L e :
    exited (rl_pc L) = false → estep (rl_emitter L) EDrain e → rlstep L [EDrain] (relay_at (rl_pc L) e L)
| rl_signal L :
    rl_pc L = RelayWaiting → e_panic (rl_emitter L) = false → rlstep L [] (relay_at RelayCanceled (rl_emitter L) L)
| rl_server_done L err :
    rl_pc L = RelayWaiting → e_panic (rl_emitter L) = false → rl_server L = ServerReturned err →
    rlstep L [] (relay_at RelayCanceled (rl_emitter L) L)
| rl_stop L :
    rl_pc L = RelayCanceled → e_panic (rl_emitter L) = false →
    rlstep L [] (mkRelayLife RelayStopped (run_stop (rl_http L)) (rl_server L) (rl_emitter L))
| rl_close L e :
    rl_pc L = RelayStopped ∨ rl_pc L = RelayFlushing → estep (rl_emitter L) EClose e →
    rlstep L [EClose] (relay_at (if bool_decide (e_close e = CloseReturned) then RelayExited (Ok tt) else RelayFlushing) e L).

(** [n] steps. *)
Inductive rlsteps : RelayLife → nat → list elabel → RelayLife → Prop :=
| rlsteps_nil L : rlsteps L 0 [] L
| rlsteps_snoc L n ls L1 l L2 : rlsteps L n ls L1 → rlstep L1 l L2 → rlsteps L (S n) (ls ++ l) L2.

(** ** What the admin server hands over *)

(** A step of the server adds at most one event: none, or that of a change. *)
Lemma pstep_audited h pe h' :
  pstep can_listen h pe h' → is_Some (a_emitter (h_admin h)) →
  is_Some (a_emitter (h_admin h')) ∧ (audited h' = audited h ∨ ∃ event, audited h' = audited h ++ [event]).
Proof.
  assert (∀ now action (a a' : AdminServer Lim) r, outcome now action a a' r → is_Some (a_emitter a) →
    is_Some (a_emitter a') ∧ (default [] (a_emitter a') = default [] (a_emitter a) ∨
      ∃ event, default [] (a_emitter a') = default [] (a_emitter a) ++ [event])) as Hout.
  { intros now action a a' r Ho [l El]. unfold outcome in Ho. destruct (reply_code r); [|done]. repeat case_bool_decide.
    - destruct (Ho l El) as (ev & -> & _). rewrite El. cbn. eauto.
    - destruct Ho as [_ [port ->]]. cbn. rewrite El. eauto.
    - subst. rewrite El. eauto. }
  intros Hs He. unfold audited. destruct Hs as [h w rq h' reply Ho Hserve|h w a' r Ho Hr|h e reg' Hs].
  - revert Hserve. unfold serve. cbn zeta. case_bool_decide; [intros [= <- <-]; eauto|].
    destruct (endpoint _) as [e|]; [|intros [= <- <-]; eauto].
    pose proof (handle_outcome can_listen w h e (rq_Method rq) (rq_Body rq)) as Hh.
    destruct (handle _ _ _ _ _ _) as [a r]. intros [= <- <-]. cbn in *.
    destruct (mutation _ _); [|subst; eauto]. by eapply Hout.
  - pose proof (reload_outcome can_listen w (h_admin h)) as Hh. cbn zeta in Hh. unfold handleReload in Hh.
    rewrite (bool_decide_eq_false_2 ("POST" ≠ "POST")%string), Hr in Hh by naive_solver.
    destruct r; (eapply Hout; [exact Hh|done]).
  - cbn. eauto.
Qed.

(** ** The invariant *)

Lemma handed_snoc ls l :
  handed (ls ++ [l]) = handed ls ++ match l with ECheck _ event | ERefused event => [event] | _ => [] end.
Proof. unfold handed. rewrite omap_app. by destruct l. Qed.

(** The event of the start is the first one accepted. *)
Definition begun (first : Event) (pc : RelayPC) (acc : list Event) (e : SlogEmitter) : Prop :=
  match pc with
  | RelayBuilt => acc = [] ∧ e_emits e = ∅
  | RelayEmitting event => event = first ∧ acc = [] ∧ e_emits e = {[0%nat := first]}
  | _ => head acc = Some first
  end.
(** Close is called by [run] alone, and last. *)
Definition closing (pc : RelayPC) (c : ClosePC) : Prop :=
  match pc with
  | RelayFlushing => c ≠ CloseReturned
  | RelayExited r => c = CloseReturned ∧ r = Ok tt
  | _ => c = CloseNotCalled
  end.

Record relay_life_inv (first : Event) (ls : list elabel) (L : RelayLife) : Prop := {
  rli_emitter : esteps (NewSlogEmitter DefaultBufferSize) ls (rl_emitter L);
  rli_cap : e_cap (rl_emitter L) = 256%nat;
  rli_begun : begun first (rl_pc L) (accepted ls) (rl_emitter L);
  rli_closing : closing (rl_pc L) (e_close (rl_emitter L));
  rli_audit : is_Some (a_emitter (h_admin (rl_http L)));
  rli_handed : if built (rl_pc L) then audited (rl_http L) = [first]
               else audited (rl_http L) ⊆+ handed ls
}.

Lemma begun_up first pc acc e :
  relay_up pc = true ∨ exited pc = true → begun first pc acc e = (head acc = Some first).
Proof. by destruct pc; intros [?|?]. Qed.

(** A step of the emitter while [run] stays where it is, the server having
    handed over [new]. *)
Lemma relay_life_emitter first ls L l e h :
  relay_life_inv first ls L → estep (rl_emitter L) l e → relay_up (rl_pc L) = true → l ≠ EClose →
  is_Some (a_emitter (h_admin h)) →
  audited h ⊆+ handed (ls ++ [l]) →
  relay_life_inv first (ls ++ [l]) (mkRelayLife (rl_pc L) h (rl_server L) e).
Proof.
  intros [I1 I2 I3 I4 I5 I6] Hs Hup Hl He Hh. destruct (estep_kept _ _ _ Hs) as (K1 & _ & K3 & _).
  split; cbn; [by eapply esteps_snoc|congruence| | |done|].
  - rewrite begun_up in * by auto. rewrite accepted_snoc_event. by destruct (accepted ls).
  - rewrite K3. by destruct l.
  - by destruct (rl_pc L).
Qed.

Lemma handed_more first ls L l : relay_life_inv first ls L → relay_up (rl_pc L) = true → audited (rl_http L) ⊆+ handed (ls ++ [l]).
Proof.
  intros I Hup. pose proof (rli_handed _ _ _ I) as H'. rewrite handed_snoc.
  assert (built (rl_pc L) = false) as Hb by (by destruct (rl_pc L)). rewrite Hb in H'.
  etrans; [exact H'|]. apply submseteq_inserts_r. done.
Qed.

(** A step of [run] or of the server that leaves the emitter alone. *)
Lemma relay_life_moves first ls L pc h server :
  relay_life_inv first ls L → relay_up (rl_pc L) = true → relay_up pc = true →
  closing pc (e_close (rl_emitter L)) → a_emitter (h_admin h) = a_emitter (h_admin (rl_http L)) →
  relay_life_inv first ls (mkRelayLife pc h server (rl_emitter L)).
Proof.
  intros [I1 I2 I3 I4 I5 I6] H1' H2' Hc He. split; cbn; try done.
  - rewrite begun_up in * by auto. done.
  - by rewrite He.
  - unfold audited in *. rewrite He. by destruct (rl_pc L), pc.
Qed.

Lemma rlstep_inv first ls L l L' :
  relay_life_inv first ls L → rlstep L l L' → relay_life_inv first (ls ++ l) L'.
Proof.
  intros I Hs. pose proof I as [I1 I2 I3 I4 I5 I6].
  destruct Hs as [L event e Epc Ha He|L event e Epc He|L order1 order2 bound Hup Hp Es Ho1 Ho2|L Hup Hp Es Hc
    |L pe h Hup Hp Hhup Hs Ha|L pe h event l e Hup Hhup Hs Ha Hl He|L event l e Hup Hact Hl He|L l e Hup Hl He
    |L e Hex He|L Epc Hp|L err Epc Hp Es|L Epc Hp|L e Epc He]; rewrite ?app_nil_r.
  - destruct (estep_kept _ _ _ He) as (K1 & K2 & K3 & _). rewrite Epc in I3, I4, I6. cbn in I3, I4, I6.
    destruct I3 as [E1 E2]. rewrite I6 in Ha. injection Ha as <-.
    split; cbn; [by eapply esteps_snoc|congruence| |congruence|done|].
    + rewrite accepted_snoc_event, E1, K2, E2. done.
    + rewrite I6, handed_snoc. by apply submseteq_inserts_l.
  - destruct (estep_kept _ _ _ He) as (K1 & K2 & K3 & _). rewrite Epc in I3, I4, I6. cbn in I3, I4, I6.
    destruct I3 as (-> & E1 & E2). split; cbn; [by eapply esteps_snoc|congruence| |congruence|done|].
    + by rewrite accepted_snoc_event, E1.
    + rewrite handed_snoc. by apply submseteq_inserts_r.
  - by apply relay_life_moves.
  - by apply relay_life_moves.
  - destruct (pstep_audited _ _ _ Hs I5) as [Hi _]. split; cbn; try done. rewrite Ha. done.
  - destruct (pstep_audited _ _ _ Hs I5) as [Hi _].
    apply relay_life_emitter; try done; [by destruct Hl as [[t ->]| ->]|]. rewrite Ha, handed_snoc.
    assert (built (rl_pc L) = false) as Hb by (by destruct (rl_pc L)). rewrite Hb in I6.
    apply submseteq_app; [done|]. by destruct Hl as [[t ->]| ->].
  - apply relay_life_emitter; try done; [by destruct Hl as [[t ->]| ->]|by eapply handed_more].
  - apply relay_life_emitter; try done; [by intros ->|by eapply handed_more].
  - destruct (relay_up (rl_pc L)) eqn:Hup.
    { apply (relay_life_emitter first ls L); try done. by eapply handed_more. }
    destruct (estep_kept _ _ _ He) as (K1 & K2 & K3 & _).
    split; cbn; [by eapply esteps_snoc|congruence| |congruence|done|by rewrite handed_snoc, app_nil_r].
    rewrite accepted_snoc_event, app_nil_r. unfold begun in *. rewrite K2. done.
  - rewrite Epc in I4. apply relay_life_moves; try done; by rewrite Epc.
  - rewrite Epc in I4. apply relay_life_moves; try done; by rewrite Epc.
  - rewrite Epc in I4. apply relay_life_moves; try done; by rewrite Epc.
  - assert (relay_up (rl_pc L) = true) as Hup by (by destruct Epc as [-> | ->]).
    destruct (estep_kept _ _ _ He) as (K1 & K2 & _ & _). rewrite (begun_up first (rl_pc L)) in I3 by auto.
    split; cbn; [by eapply esteps_snoc|congruence| | |done|].
    + rewrite accepted_snoc_event, app_nil_r. by case_bool_decide.
    + by case_bool_decide.
    + assert (audited (rl_http L) ⊆+ handed (ls ++ [EClose])) by (by eapply handed_more). by case_bool_decide.
Qed.
(** ** The way to the end *)

(** How many steps [run] is from its return, when a signal comes and what is
    buffered is drained. *)
Definition backlog (e : SlogEmitter) : nat := length (eventCh e) + (if e_done e then 0 else 1).
Definition relay_rank (L : RelayLife) : nat :=
  match rl_pc L with
  | RelayBuilt => 10 + backlog (rl_emitter L)
  | RelayEmitting _ => 9 + backlog (rl_emitter L)
  | RelayWaiting => 7 + backlog (rl_emitter L)
  | RelayCanceled => 6 + backlog (rl_emitter L)
  | RelayStopped => 5 + backlog (rl_emitter L)
  | RelayFlushing => close_rank (e_close (rl_emitter L)) + backlog (rl_emitter L)
  | RelayExited _ => 0
  end.

Lemma relay_flushes first ls L :
  relay_life_inv first ls L → e_panic (rl_emitter L) = false → rl_pc L = RelayStopped ∨ rl_pc L = RelayFlushing →
  ∃ l L', rlstep L l L' ∧ e_panic (rl_emitter L') = false ∧ (relay_rank L' < relay_rank L)%nat.
Proof.
  intros [I1 I2 I3 I4 I5 I6] Hp Epc.
  assert (e_close (rl_emitter L) ≠ CloseReturned) as Hnr by (by destruct Epc as [E|E]; rewrite E in I4; cbn in I4; [rewrite I4|]).
  destruct (flush_can _ _ _ I1 Hp Hnr) as (l & e' & He & [(-> & H1' & H2' & H3')|(-> & H1' & H2')]);
    pose proof (proj2 (proj2 (proj2 (estep_kept _ _ _ He)))) as Hp'; cbn in Hp'.
  - eexists _, _. split; [by apply rl_close|]. split; [done|]. unfold relay_rank, relay_at, backlog. cbn.
    rewrite H2', H3'. destruct Epc as [-> | ->]; [|case_bool_decide; lia].
    assert (close_rank (e_close e') <= 3)%nat by (destruct (e_close e'); cbn; lia). case_bool_decide; lia.
  - eexists _, _. split; [apply (rl_drain L e'); [by destruct Epc as [-> | ->]|done]|]. split; [done|].
    unfold relay_rank, relay_at, backlog. cbn. destruct Epc as [-> | ->]; rewrite ?H1'; lia.
Qed.

Lemma relay_progress first ls L :
  relay_life_inv first ls L → e_panic (rl_emitter L) = false → exited (rl_pc L) = false →
  ∃ l L', rlstep L l L' ∧ e_panic (rl_emitter L') = false ∧ (relay_rank L' < relay_rank L)%nat.
Proof.
  intros I Hp Hex. pose proof I as [I1 I2 I3 I4 I5 I6].
  destruct (rl_pc L) as [|event| | | | |r] eqn:Epc; try done.
  - destruct (emitter_open _ _ _ I1 I4) as [O1 O2]. cbn in I3, I6. destruct I3 as [_ E2].
    assert (estep (rl_emitter L) (ECheck 0 first) (set_emits (<[0%nat := first]> (e_emits (rl_emitter L))) (rl_emitter L))) as He
      by (apply estep_check; [done|by rewrite E2|unfold Emit_check; by rewrite O1]).
    eexists _, _. split; [by eapply rl_emit|]. split; [done|]. unfold relay_rank. rewrite Epc. cbn. unfold backlog. cbn. lia.
  - destruct (emitter_open _ _ _ I1 I4) as [O1 O2]. cbn in I3. destruct I3 as (-> & E1 & E2).
    pose proof (esteps_inv _ _ _ I1) as [(out & Ho & _) _ _ _ _ _]. rewrite E1 in Ho. symmetry in Ho.
    apply app_eq_nil in Ho as [_ En].
    assert (estep (rl_emitter L) (EAccepted first) (Emit_select (rl_emitter L) 0 first EmitSend)) as He.
    { apply estep_send; [done|by rewrite E2, lookup_singleton_eq|]. unfold emit_ready. rewrite O2, En, I2. done. }
    eexists _, _. split; [by eapply rl_emitted|]. split; [done|]. unfold relay_rank. rewrite Epc. cbn. unfold backlog. cbn.
    rewrite En. cbn. lia.
  - eexists _, _. split; [by apply rl_signal|]. split; [done|]. unfold relay_rank. rewrite Epc. cbn. lia.
  - eexists _, _. split; [by apply rl_stop|]. split; [done|]. unfold relay_rank. rewrite Epc. cbn. lia.
  - eapply relay_flushes; eauto.
  - eapply relay_flushes; eauto.
Qed.

Lemma rlsteps_cons L l L1 n ls L2 : rlstep L l L1 → rlsteps L1 n ls L2 → rlsteps L (S n) (l ++ ls) L2.
Proof.
  intros Hs Hss. induction Hss as [L1|L1 n ls L2 l' L3 _ IH Hl'].
  - rewrite app_nil_r. change l with ([] ++ l). eapply rlsteps_snoc; [constructor|done].
  - rewrite (assoc_L (++)). eapply rlsteps_snoc; [by apply IH|done].
Qed.

Lemma relay_returns first ls L :
  relay_life_inv first ls L → e_panic (rl_emitter L) = false →
  ∃ n ls' L', rlsteps L n ls' L' ∧ (n <= relay_rank L)%nat ∧ rl_pc L' = RelayExited (Ok tt).
Proof.
  remember (relay_rank L) as k eqn:Ek. revert ls L Ek. induction (lt_wf k) as [k _ IH]. intros ls L Ek I Hp.
  destruct (exited (rl_pc L)) eqn:Eo.
  - exists 0%nat, [], L. split_and!; [constructor|lia|]. pose proof (rli_closing _ _ _ I) as Hc.
    destruct (rl_pc L); try done. by destruct Hc as [_ ->].
  - destruct (relay_progress _ _ _ I Hp Eo) as (l & L1 & Hs & Hp1 & Hlt). rewrite <-Ek in Hlt.
    destruct (IH _ Hlt _ L1 eq_refl (rlstep_inv _ _ _ _ _ I Hs) Hp1) as (n & ls' & L' & Hss & Hn & Hex).
    exists (S n), (l ++ ls'), L'. split_and!; [by eapply rlsteps_cons|lia|done].
Qed.

Lemma rlsteps_inv first L0 n ls L : relay_life_inv first [] L0 → rlsteps L0 n ls L → relay_life_inv first ls L.
Proof. intros I Hs. induction Hs; [done|]. eapply rlstep_inv; eauto. Qed.

Lemma relay_built_inv load certs fs unreadable now version path (p : RelayProc (Cert := Cert)) :
  run_boot load certs fs unreadable false now version path = Some (RunStarted p) →
  ∃ cfg, load path = Ok cfg ∧
    relay_life_inv (mkEvent ActionAgentConnected "relay" (sc_ListenAddr (rc_Server cfg)) now "" "" ∅) [] (new_relay_life (rp_admin p)).
Proof.
  unfold run_boot. destruct (load path) as [cfg|]; [|done]. destruct (BuildPortIndex _); [|done].
  destruct (ValidateChainCertFile _ _) as [[]|]; [|done..]. destruct (ServerTLSConfig _ _ _) as [conf []]; [|done].
  destruct (load_sidecar _ _ _ _) as [store idx']. intros [= <-]. exists cfg. split; [done|].
  split; try done. apply esteps_nil.
Qed.

(** ** Theorems *)

(** C22. The relay's audit trail, from its start to its exit. Over every
    interleaving of [run], the server, requests to the admin API, SIGHUP,
    agents, the calls of Emit and the drain goroutine: the event of the start is
    the first one accepted; every event of the admin server was handed to the
    emitter, and every event handed to it was accepted, or is in a call that has
    not come back, or was lost; nothing is lost and nobody panics before [run]
    comes to its last deferred call, the Close of the emitter; when [run] has
    returned all accepted events are in the log, in order, and the exit status is
    0, also when the server had failed to listen. Unless an Emit has panicked by
    then, from every moment of its life the relay can return, in at most eleven
    steps and one for each event that is buffered. *)
Theorem relay_life_audited load certs fs unreadable now version path (p : RelayProc (Cert := Cert)) n ls L :
  run_boot load certs fs unreadable false now version path = Some (RunStarted p) →
  rlsteps (new_relay_life (rp_admin p)) n ls L →
  (∃ cfg, load path = Ok cfg ∧ (relay_up (rl_pc L) = true →
     head (accepted ls) = Some (mkEvent ActionAgentConnected "relay" (sc_ListenAddr (rc_Server cfg)) now "" "" ∅))) ∧
  (rl_pc L ≠ RelayBuilt → audited (rl_http L) ⊆+ handed ls) ∧
  handed ls ≡ₚ accepted ls ++ lost ls ++ pending (rl_emitter L) ∧
  (rl_pc L ≠ RelayFlushing → exited (rl_pc L) = false → lost ls = [] ∧ e_panic (rl_emitter L) = false) ∧
  (∀ r, rl_pc L = RelayExited r → relay_exit r = 0 ∧ Forall2 logs (accepted ls) (e_logged (rl_emitter L))) ∧
  (e_panic (rl_emitter L) = false → ∃ n' ls' L',
     rlsteps L n' ls' L' ∧ (n' <= 11 + length (eventCh (rl_emitter L)))%nat ∧ rl_pc L' = RelayExited (Ok tt)).
Proof.
  intros (cfg & El & I0)%relay_built_inv Hs. pose proof (rlsteps_inv _ _ _ _ _ I0 Hs) as I.
  pose proof I as [I1 I2 I3 I4 I5 I6]. split_and!.
  - exists cfg. split; [done|]. intros Hup. by rewrite begun_up in I3 by auto.
  - intros Hb. by destruct (rl_pc L).
  - by eapply emit_accounts.
  - intros Hf Hex. eapply open_loses_nothing; [done|]. apply (emitter_open _ _ _ I1). by destruct (rl_pc L).
  - intros r E. rewrite E in I4. destruct I4 as [E3 ->]. split; [done|].
    pose proof (esteps_inv _ _ _ I1) as [(out & Ho & Hf) _ _ _ Hd Hr]. destruct (Hd (Hr E3)) as [_ En].
    rewrite En, app_nil_r in Ho. by subst out.
  - intros Hp. destruct (relay_returns _ _ _ I Hp) as (n' & ls' & L' & Hs' & Hn & Hex). exists n', ls', L'.
    split_and!; [done| |done]. etrans; [exact Hn|]. unfold relay_rank, backlog.
    assert (close_rank (e_close (rl_emitter L)) <= 3)%nat by (destruct (e_close _); cbn; lia).
    destruct (e_done (rl_emitter L)), (rl_pc L); lia.
Qed.
End relay_life.
