(* ===== verification/RelayWitness.v ===== *)
(** * Concrete relays

    A limiter that counts, an operating system that refuses an address in use,
    and a small relay, on which the theorems of the
    relay's files are applied. *)

From Stdlib Require Import ZArith Lia SpecFloat.
From S2P Require Import Prelude Text Json Frame Window WriteQueue Stream Mux MuxInv Config Registry RateLimit Router ClientListener Store Net AuditLog Auth Admin Reload RelayServer.

(** A bucket that is never refilled. *)
Definition counting_limiter : RateLimiter Z :=
  {| NewLimiter := λ _ burst, burst;
     Lim_Allow := λ n _, if bool_decide (0 < n) then (true, n - 1) else (false, n) |}.
#[local] Existing Instance counting_limiter.

Definition os_listen (used : list string) (addr : string) : bool := negb (bool_decide (addr ∈ used)).

(** A relay with one agent, and a port of its customer. *)
Definition ssh_entry : portEntry := mkPortEntry "customer-a" "ssh" 2 "0.0.0.0".
Definition demo_router : gmap Z portEntry := {[2222 := ssh_entry]}.
Definition demo_admin : AdminServer Z :=
  mkAdmin demo_router NewClientListener demo_reg1 (Some []) None ∅ "relay.yaml" None.
Definition demo_env : Env := mkEnv 7 "tmp" (mkFaults false None false false false).

Lemma demo_reg1_run : rsteps (NewMemoryRegistry (Some [])) ([] ++ [EConnect "customer-a" 0]) demo_reg1.
Proof.
  eapply (rsteps_snoc _ _ (NewMemoryRegistry (Some []))); [apply rsteps_nil|].
  by apply (rstep_connect _ _ _ (demo_conn "10.0.0.1:1")).
Defined.

Definition client_result :=
  handleClient (R := MemoryRegistry) (NewClientListener (Lim := Z)) demo_router demo_reg1 0 "10.9.9.9" 2222.

Lemma client_isolation_witness :
  ∃ c s, client_result.2 = ClientRouted (Ok (c, s)) ∧
    ∃ live, conns demo_reg1 !! c = Some live ∧ lc_customerID live = "customer-a".
Proof.
  pose proof (client_isolation (R := MemoryRegistry) (NewClientListener (Lim := Z)) demo_router demo_reg1 0
    "10.9.9.9" 2222 client_result.1.1 client_result.1.2 client_result.2
    (rsteps_inv _ _ demo_reg1_run) ltac:(by vm_compute)) as [_ Hout].
  assert (client_result.2 = ClientRouted (Ok (0%nat, 0%nat))) as E by (by vm_compute).
  rewrite E in Hout |- *. exists 0%nat, 0%nat. split; [done|].
  destruct Hout as (live & m' & Hc & Hl & _). by exists live.
Defined.

Definition demo_valid : map_Forall mapping_valid demo_router.
Proof.
  apply map_Forall_singleton. split; [by vm_compute|]. split; [done|].
  split_and!; try done; by apply text_check; vm_compute.
Defined.
Lemma demo_text : Forall port_text (sidecar_port <$> ListPorts demo_router).
Proof. replace (ListPorts demo_router) with [port_info 2222 ssh_entry] by (by vm_compute). constructor; [|constructor]. by apply (demo_valid 2222). Defined.

Definition save_result :=
  SaveCurrentState ∅ "sidecar.json" "tmp" (mkFaults false (Some 3%nat) false false false) (ListPorts demo_router).

Lemma sidecar_save_atomic_witness :
  ∃ fs', last save_result.1 = Some fs' ∧ fs' !! "sidecar.json" = None.
Proof.
  destruct (sidecar_save_atomic ∅ "sidecar.json" "tmp" (mkFaults false (Some 3%nat) false false false)
    (ListPorts demo_router) save_result.1 save_result.2 ltac:(done) demo_text eq_refl)
    as (_ & _ & fs' & Hl & Hr). exists fs'. split; [done|]. exact Hr.
Defined.

Definition create_result :=
  createPort os_listen demo_env demo_admin (Some (mkPortCreateRequest 8080 "customer-b" "http" 0 "127.0.0.1")).

Lemma create_port_branches_witness :
  a_router create_result.1 = <[8080 := mkPortEntry "customer-b" "http" 0 "127.0.0.1"]> demo_router.
Proof.
  pose proof (create_port_branches os_listen demo_env demo_admin
    (Some (mkPortCreateRequest 8080 "customer-b" "http" 0 "127.0.0.1")) create_result.1 create_result.2
    ltac:(by vm_compute)) as H.
  assert (create_result.2 = RespPort 201 (mkPortInfo 8080 "customer-b" "http" 0 "127.0.0.1")) as E
    by (by vm_compute).
  rewrite E in H. destruct H as (_ & req & ln & Hreq & _ & _ & _ & _ & _ & Hr & _).
  injection Hreq as <-. exact Hr.
Defined.

Definition update_result :=
  updatePort demo_env demo_admin (Some (mkPortUpdateRequest "sftp" None "")) 2222.

Lemma update_port_branches_witness :
  ∃ e, a_router demo_admin !! 2222 = Some e ∧ customerID e = "customer-a" ∧
    a_router update_result.1 = <[2222 := mkPortEntry "customer-a" "sftp" 2 "0.0.0.0"]> demo_router.
Proof.
  pose proof (update_port_branches demo_env demo_admin (Some (mkPortUpdateRequest "sftp" None "")) 2222
    update_result.1 update_result.2 ltac:(by vm_compute)) as H.
  assert (update_result.2 = RespPort 200 (mkPortInfo 2222 "customer-a" "sftp" 2 "0.0.0.0")) as E
    by (by vm_compute).
  rewrite E in H. destruct H as (_ & req & e & Hreq & He & Hr & _). injection Hreq as <-.
  exists e. injection He as <-. split; [done|]. split; [done|]. exact Hr.
Defined.

(** Configurations with one customer and one port, for two customers. *)
Definition demo_cfg (customer : string) (ports : list PortConfig) : RelayConfig :=
  mkRelayConfig (mkServerConfig ":8443" "" "" "" 0 0 0 0 "") (Config.mkTLSPaths "c" "k" "a" "ca")
    [mkCustomerConfig customer ports 0 2 0 no_rate_limit] (mkLogConfig "" "" "") (mkMetricsConfig false "").
Definition ssh_port : PortConfig := mkPortConfig 2222 "ssh" "" "".
Definition cfg_a : RelayConfig := demo_cfg "customer-a" [ssh_port].
Definition cfg_b : RelayConfig := demo_cfg "customer-b" [ssh_port].
Definition cfg_none : RelayConfig := demo_cfg "customer-b" [].

Definition plain_orders (oldCfg : option RelayConfig) (newCfg : RelayConfig) : orders :=
  mkOrders (map_to_list (indexPorts (Some newCfg))) (map_to_list (indexPorts oldCfg))
    (map_to_list (rateLimits (Some newCfg))).

Lemma plain_orders_ok oldCfg newCfg : orders_ok (plain_orders oldCfg newCfg) oldCfg newCfg.
Proof. done. Defined.

Definition reload1 := applyReload os_listen demo_admin (Some cfg_a) cfg_b (plain_orders (Some cfg_a) cfg_b).
Definition reload2 := applyReload os_listen reload1.1 (Some cfg_b) cfg_none (plain_orders (Some cfg_b) cfg_none).

(** A port that only the new configuration has. *)
Definition web_entry : PortIndexEntry := mkPortIndexEntry "customer-b" "web" 2 "0.0.0.0" no_rate_limit.
Definition cfg_web : RelayConfig := demo_cfg "customer-b" [mkPortConfig 8080 "web" "" ""].
Definition reload_web := applyReload os_listen demo_admin (Some cfg_a) cfg_web (plain_orders (Some cfg_a) cfg_web).

Lemma reload_ports_witness :
  ∃ starts, listener_starts os_listen demo_admin reload_web.1 (indexPorts (Some cfg_a))
      (ord_new (plain_orders (Some cfg_a) cfg_web)) 8080 web_entry starts ∧
    a_router reload_web.1 !! 8080 = (if starts then Some (mkPortEntry "customer-b" "web" 2 "0.0.0.0") else None) ∧
    starts = true.
Proof.
  destruct (reload_ports os_listen demo_admin (Some cfg_a) cfg_web (plain_orders (Some cfg_a) cfg_web)
    reload_web.1 reload_web.2 8080 (plain_orders_ok _ _) (surjective_pairing _)) as (starts & Hp & Hl).
  exists starts. split; [exact (Hl web_entry eq_refl eq_refl)|]. split; [exact Hp|].
  destruct starts; [done|]. by vm_compute in Hp.
Defined.

Lemma rejected_port_survives_witness : a_router reload2.1 !! 2222 = Some ssh_entry.
Proof.
  exact (rejected_port_survives os_listen demo_admin cfg_a cfg_b cfg_none (plain_orders (Some cfg_a) cfg_b)
    (plain_orders (Some cfg_b) cfg_none) reload1.1 reload2.1 reload1.2 reload2.2 2222
    (mkPortIndexEntry "customer-a" "ssh" 2 "0.0.0.0" no_rate_limit)
    (mkPortIndexEntry "customer-b" "ssh" 2 "0.0.0.0" no_rate_limit) ssh_entry
    (plain_orders_ok _ _) (plain_orders_ok _ _) eq_refl eq_refl eq_refl ltac:(done) eq_refl eq_refl
    (surjective_pairing _) (surjective_pairing _)).
Defined.

Definition failed_reload :=
  Reload os_listen demo_env demo_admin (λ _, Err (CfgRead "relay.yaml")) (plain_orders None cfg_b).

Lemma reload_error_unchanged_witness : failed_reload.1 = demo_admin.
Proof.
  exact (reload_error_unchanged os_listen demo_env demo_admin (λ _, Err (CfgRead "relay.yaml"))
    (plain_orders None cfg_b) _ _ (surjective_pairing _)).
Defined.

Lemma restart_restores_witness :
  start_mappings (map_to_list (mergeSidecar ∅ (sidecar_port <$> ListPorts demo_router))) ∅ !! 2222 = Some ssh_entry.
Proof.
  exact (restart_restores demo_router ∅ _ 2222 demo_valid (reflexivity _)).
Defined.

Lemma relay_stop_closes_witness : agents (RelayStop (NewClientListener (Lim := Z)) demo_reg1).2 = ∅.
Proof.
  exact (proj1 (relay_stop_closes _ demo_reg1 NewClientListener _ _ demo_reg1_run (surjective_pairing _))).
Defined.

Definition admit_result :=
  handleConnection (λ _, "") demo_reg1 50 9 "10.0.0.3:5"
    (Some [mkCertificate "customer-b" [] 0 100]) (Some ["ssh"]).

Lemma agent_admission_witness :
  ∃ c old, admit_result.2 = Some c ∧ Lookup admit_result.1.1 "customer-b" = Ok c ∧
    Lookup demo_reg1 "customer-a" = Ok old ∧ conns admit_result.1.1 !! old = conns demo_reg1 !! old.
Proof.
  pose proof (agent_admission (λ _, "") demo_reg1 50 9 "10.0.0.3:5"
    (Some [mkCertificate "customer-b" [] 0 100]) (Some ["ssh"]) admit_result.1.1 admit_result.1.2 admit_result.2
    (rsteps_inv _ _ demo_reg1_run) ltac:(lia) ltac:(by vm_compute)) as H.
  destruct admit_result.2 as [c|] eqn:E; [|by vm_compute in E].
  destruct H as (cert & chain & live & Hh & _ & _ & Hn & Hl & _ & _ & _ & _ & _ & _ & Ho & _). injection Hh as <- _.
  destruct (Lookup demo_reg1 "customer-a") as [old|] eqn:Ea; [|by vm_compute in Ea].
  exists c, old. split_and!; [done|exact Hl|done|]. apply Ho; [|by vm_compute].
  intros ->. vm_compute in Ea. injection Ea as <-. by vm_compute in Hn.
Defined.
