(* ===== verification/Backoff.v ===== *)
(** * Reconnection delays: [pkg/agent/backoff.go]

    ComputeBackoff at the precision of the code: a float64 is the Standard
    Library's specification float, a time.Duration an int64 of nanoseconds. *)

From Stdlib Require Import ZArith Lia SpecFloat.
From S2P Require Import Prelude Float.

(** ** The configuration *)

Record BackoffConfig := mkBackoff {
  InitialInterval : Z;
  MaxInterval : Z;
  Multiplier : spec_float;
  JitterFraction : spec_float
}.

Definition f64_two : spec_float := S754_finite false 4503599627370496 (-51).
Definition f64_half : spec_float := S754_finite false 4503599627370496 (-53).

(** [func DefaultBackoffConfig() BackoffConfig] *)
Definition DefaultBackoffConfig : BackoffConfig :=
  mkBackoff (5 * 1000000000) (5 * 60 * 1000000000) f64_two f64_half.

(** ** The delay *)

Section backoff.
(** math.Pow, and what rand.Float64 returned. *)
Context (Pow : spec_float → spec_float → spec_float).

(** The base of the delay, capped. *)
Definition backoff_base (cfg : BackoffConfig) (attempt : Z) : spec_float :=
  let base := f64_mul (f64_of_Z (InitialInterval cfg)) (Pow (Multiplier cfg) (f64_of_Z attempt)) in
  if SFltb (f64_of_Z (MaxInterval cfg)) base then f64_of_Z (MaxInterval cfg) else base.

(** [func ComputeBackoff(cfg BackoffConfig, attempt int) time.Duration] *)
Definition ComputeBackoff (cfg : BackoffConfig) (attempt : Z) (rand : spec_float) : option Z :=
  let base := backoff_base cfg attempt in
  if SFleb (JitterFraction cfg) (S754_zero false) then trunc_f64 base
  else trunc_f64 (f64_add base (f64_mul (f64_mul rand base) (JitterFraction cfg))).
End backoff.

(** ** Bounds *)

Definition f64_one : spec_float := S754_finite false 4503599627370496 (-52).

(** What math.Pow returns for a base and an exponent that are at least 1 and 0,
    and what rand.Float64 returns: a float64 that is at least 1, and one in
    [0, 1). *)
Definition at_least_one (x : spec_float) : Prop := valid_binary 53 1024 x = true ∧ SFleb f64_one x = true.
Definition unit_float (x : spec_float) : Prop :=
  valid_binary 53 1024 x = true ∧ SFltb x f64_one = true ∧
  match x with S754_zero s | S754_finite s _ _ => s = false | _ => False end.

Lemma valid_finite s m e :
  valid_binary 53 1024 (S754_finite s m e) = true →
  Z.pos m < 2 ^ 53 ∧ -1074 <= e ∧ (-1074 < e → 2 ^ 52 <= Z.pos m).
Proof.
  cbn. unfold bounded, canonical_mantissa, fexp, emin. intros [Hc _]%andb_prop. apply Z.eqb_eq in Hc.
  pose proof (digits2_bounds m) as [Hl Hu]. split_and!; [|lia|].
  - eapply Z.lt_le_trans; [exact Hu|]. apply Z.pow_le_mono_r; lia.
  - intros He. etrans; [|exact Hl]. apply Z.pow_le_mono_r; lia.
Qed.

Lemma compare_cont_Eq p q : Pos.compare_cont Eq p q = Pos.compare p q.
Proof. done. Qed.

Section bounds.
Context (B : Z) (HB : 3000 <= B).

Lemma one_scaled : scaled B 4503599627370496 (-52) = 1 * 2 ^ B.
Proof. change 4503599627370496 with (1 * 2 ^ 52). rewrite scaled_shift by lia. done. Qed.

Lemma at_least_one_spec x : at_least_one x → wf x ∧ at_least B 1 x.
Proof.
  intros [Hv Hle]. destruct x as [[]|[]| |[] m e]; try done; try (by split).
  pose proof (valid_finite _ _ _ Hv) as (H1 & H2 & H3). split; [done|]. cbn [at_least]. rewrite <-one_scaled.
  revert Hle. unfold SFleb, SFcompare, f64_one. destruct (Z.compare_spec (-52) e) as [<-|Hlt|?]; [|intros _|done].
  - rewrite compare_cont_Eq.
    intros Hm. unfold scaled. apply Z.mul_le_mono_nonneg_r; [apply Z.pow_nonneg; lia|].
    destruct (Pos.compare_spec 4503599627370496 m) as [<-|?|?]; [lia|lia|done].
  - apply (not_ltb_le B HB m e 4503599627370496 (-52)); [apply H3; lia|lia..|].
    unfold SFltb, SFcompare. by rewrite (proj2 (Z.compare_gt_iff e (-52)) Hlt).
Qed.

Lemma unit_float_spec x : unit_float x → wf x ∧ at_most B x 1.
Proof.
  intros (Hv & Hlt & Hs). destruct x as [s|s| |s m e]; try done; subst s; [done|].
  pose proof (valid_finite _ _ _ Hv) as (H1 & H2 & H3). split; [done|]. cbn [at_most]. rewrite <-one_scaled.
  revert Hlt. unfold SFltb, SFcompare, f64_one. destruct (Z.compare_spec e (-52)) as [->|Hlt|?]; [|intros _|done].
  - rewrite compare_cont_Eq.
    intros Hm. unfold scaled. apply Z.mul_le_mono_nonneg_r; [apply Z.pow_nonneg; lia|].
    apply Pos2Z.pos_le_pos, Pos.lt_le_incl. unfold Pos.lt.
    revert Hm. generalize (m ?= 4503599627370496)%positive. by intros [].
  - apply (not_ltb_le B HB 4503599627370496 (-52) m e); [lia..|].
    unfold SFltb, SFcompare. by rewrite (proj2 (Z.compare_gt_iff (-52) e) Hlt).
Qed.

Lemma of_Z_spec n : 0 < n < 2 ^ 53 → wf (f64_of_Z n) ∧ at_most B (f64_of_Z n) n ∧ at_least B n (f64_of_Z n).
Proof. intros Hn. destruct (of_Z_exact B HB n Hn) as (m & e & -> & Hs & Hm & He). cbn. rewrite Hs. auto with lia. Qed.

(** The base of the delay lies between the initial and the maximal interval. *)
Lemma backoff_base_bounds Pow cfg attempt :
  0 < InitialInterval cfg < 2 ^ 53 → 0 < MaxInterval cfg < 2 ^ 53 →
  at_least_one (Pow (Multiplier cfg) (f64_of_Z attempt)) →
  let base := backoff_base Pow cfg attempt in
  wf base ∧ at_most B base (MaxInterval cfg) ∧ at_least B (Z.min (InitialInterval cfg) (MaxInterval cfg)) base.
Proof.
  intros HI HM [Wp Hp]%at_least_one_spec. cbn zeta. unfold backoff_base.
  destruct (of_Z_spec _ HI) as (WI & UI & LI). destruct (of_Z_spec _ HM) as (WM & UM & LM).
  destruct (mul_at_least B HB _ _ _ WI Wp LI Hp ltac:(eauto) HI) as [Wb Lb].
  assert (∀ x N N', N' <= N → at_least B N x → at_least B N' x) as Hweak.
  { intros x N N' HN. destruct x as [[]|[]| |[] m e]; cbn; try done; [lia|].
    assert (0 < 2 ^ B) by (apply Z.pow_pos_nonneg; lia). nia. }
  destruct (SFltb _ _) eqn:Ec.
  - split_and!; [done..|]. eapply Hweak; [|exact LM]. lia.
  - split_and!; [done| |eapply Hweak; [|exact Lb]; lia].
    destruct (of_Z_exact B HB _ HM) as (m & e & Em & Hs & Hm & He). rewrite Em in Ec.
    destruct (f64_mul _ _) as [[]|[]| |[] m2 e2]; try done; cbn [at_most]; [lia|].
    rewrite <-Hs. destruct Wb, Hm. apply (not_ltb_le B HB m e m2 e2); assumption.
Qed.
End bounds.

(** C34. The delay before a reconnection is bounded: whatever the attempt and
    whatever the random number, it is at least the initial interval (or the
    maximal one, if that is shorter) and at most one and a half times the
    maximal one, with the jitter of one half that the agent uses; and the
    conversion to a duration never overflows. *)
Theorem backoff_bounds Pow cfg attempt rand :
  0 < InitialInterval cfg < 2 ^ 53 → 0 < MaxInterval cfg < 2 ^ 52 → JitterFraction cfg = f64_half →
  at_least_one (Pow (Multiplier cfg) (f64_of_Z attempt)) → unit_float rand →
  ∃ d, ComputeBackoff Pow cfg attempt rand = Some d ∧
    Z.min (InitialInterval cfg) (MaxInterval cfg) <= d <= MaxInterval cfg + (MaxInterval cfg + 1) / 2.
Proof.
  intros HI HM HJ Hp Hr. set (B := 3000). assert (3000 <= B) as HB by done. clearbody B.
  destruct (backoff_base_bounds B HB Pow cfg attempt HI ltac:(lia) Hp) as (Wb & Ub & Lb). cbn zeta in *.
  destruct (unit_float_spec B HB rand Hr) as [Wr Ur].
  unfold ComputeBackoff. rewrite HJ. change (SFleb f64_half (S754_zero false)) with false. cbv iota.
  set (base := backoff_base Pow cfg attempt) in *.
  destruct (mul_at_most B HB rand base 1 (MaxInterval cfg)) as [Wt Ut]; try done; try lia.
  rewrite Z.mul_1_l in Ut. destruct (mul_half B HB _ (MaxInterval cfg) Wt Ut ltac:(lia)) as [Wj Uj].
  assert (0 <= (MaxInterval cfg + 1) / 2 < 2 ^ 52) as Hh
    by (split; [apply Z.div_pos; lia|apply Z.div_lt_upper_bound; lia]).
  destruct (add_bounds B HB base _ (MaxInterval cfg) _ (Z.min (InitialInterval cfg) (MaxInterval cfg))
    Wb Wj Ub Uj Lb) as (Ws & Us & Ls); try lia.
  apply (trunc_bounds B HB); try done; lia.
Qed.

Theorem backoff_bounds_witness :
  ∃ d, ComputeBackoff (λ _ _, f64_two) DefaultBackoffConfig 1 f64_half = Some d ∧
    5 * 1000000000 <= d <= 450 * 1000000000 ∧ d = 12500000000.
Proof.
  destruct (backoff_bounds (λ _ _, f64_two) DefaultBackoffConfig 1 f64_half) as (d & Hd & Hb);
    [vm_compute; done..|].
  exists d. split; [exact Hd|]. split; [exact Hb|]. vm_compute in Hd. congruence.
Defined.
