(* ===== verification/Forwarder.v ===== *)
(** * Forwarding to a local service: [pkg/agent/forwarder.go],
    [forwarder_impl.go], [idleconn.go]

    Forward dials the service, copies in both directions (Pump.v), and awaits
    both copies: the first as long as it takes, the second for LingerTimeout.
    The two goroutines and the caller interleave; the timers and the context
    can fire at any moment. *)

From Stdlib Require Import ZArith Lia.
From S2P Require Import Prelude Frame Stream Pump.

(** ** Configuration *)

Record ServiceForwarderConfig := mkForwarderConfig {
  DialTimeout : Z;
  IdleTimeout : Z;
  BufferSize : Z;
  LingerTimeout : Z
}.

Definition defaultBufferSize : Z := 32 * 1024.
Definition defaultLingerTimeout : Z := 30 * 1000000000.

(** [func NewForwarder(cfg ServiceForwarderConfig, logger) *Forwarder] *)
Definition NewForwarder (cfg : ServiceForwarderConfig) : ServiceForwarderConfig :=
  mkForwarderConfig
    (if bool_decide (DialTimeout cfg <= 0) then 5 * 1000000000 else DialTimeout cfg)
    (IdleTimeout cfg)
    (if bool_decide (BufferSize cfg <= 0) then defaultBufferSize else BufferSize cfg)
    (if bool_decide (LingerTimeout cfg <= 0) then defaultLingerTimeout else LingerTimeout cfg).

(** ** The idle connection *)

(** [newIdleConn] wraps a connection, or leaves it as it is ([None]). *)
Definition newIdleConn (timeout : Z) : option Z := if bool_decide (timeout <= 0) then None else Some timeout.

(** The deadline that a Read or a Write started at [now] leaves; it bounds the
    pending calls of both directions. *)
Definition idle_op (idle : option Z) (deadline : option Z) (now : Z) : option Z :=
  match idle with Some timeout => Some (now + timeout) | None => deadline end.

(** ** Forward *)

(** Where Forward's own goroutine is: in await, waiting for the first copy; in
    waitDirection after an abort; waiting for the other copy; waiting for the
    second copy with the result of the first; after an abort there; returned. *)
Inductive AwaitPC :=
| AwaitFirst
| AbortFirst
| AbortBoth
| AwaitSecond (first : bool)
| AbortSecond (first : bool)
| ForwardReturned (err : bool).

Record Forward := mkForward {
  f_pump : Pump;
  f_aborted : bool;
  f_done : list bool;              (* chan error, 2: whether there is an error *)
  f_main : AwaitPC;
  f_ctx : bool                     (* the context is done *)
}.

(** Forward once the dial has succeeded, with both goroutines started. *)
Definition forward_dialed (s : StreamSession) : Forward :=
  mkForward (new_pump s new_conn) false [] AwaitFirst false.

Definition set_pump (p : Pump) (f : Forward) : Forward :=
  mkForward p (f_aborted f) (f_done f) (f_main f) (f_ctx f).
Definition set_main (pc : AwaitPC) (f : Forward) : Forward :=
  mkForward (f_pump f) (f_aborted f) (f_done f) pc (f_ctx f).

(** [func (l *forwardLink) filter(err error) error] *)
Definition filter_err (f : Forward) (err : bool) : bool := if f_aborted f then false else err.

(** The end of copyStreamToLocal. *)
Definition toLocal_end (f : Forward) (err : bool) : Forward :=
  let p := f_pump f in
  mkForward (mkPump (p_stream p) (conn_CloseWrite (p_conn p)) (CopyDone err) (p_toStream p))
    (f_aborted f) (f_done f ++ [filter_err f err]) (f_main f) (f_ctx f).

(** The end of copyLocalToStream. *)
Definition toStream_end (f : Forward) (err : bool) : Forward :=
  let p := f_pump f in
  mkForward (mkPump (Stream.Close (p_stream p)).1 (p_conn p) (p_toConn p) (CopyDone err))
    (f_aborted f) (f_done f ++ [filter_err f err]) (f_main f) (f_ctx f).

(** [func (l *forwardLink) abort()] *)
Definition abort (f : Forward) : Forward :=
  let p := f_pump f in
  if f_aborted f then f
  else mkForward (mkPump (Stream.Reset (p_stream p)).1 (conn_Close (p_conn p)) (p_toConn p) (p_toStream p))
         true (f_done f) (f_main f) (f_ctx f).

(** The return of await, and the deferred [local.Close()]. *)
Definition forward_return (f : Forward) (err : bool) : Forward :=
  let p := f_pump f in
  set_main (ForwardReturned err)
    (set_pump (mkPump (p_stream p) (conn_Close (p_conn p)) (p_toConn p) (p_toStream p)) f).

(** A receive from [done], in await and in waitDirection. *)
Definition await_done (f : Forward) : option Forward :=
  match f_done f with
  | [] => None
  | e :: rest =>
      let f1 := mkForward (f_pump f) (f_aborted f) rest (f_main f) (f_ctx f) in
      match f_main f with
      | AwaitFirst => Some (set_main (AwaitSecond e) f1)
      | AbortFirst => Some (set_main AbortBoth f1)
      | AbortBoth => Some (forward_return f1 false)
      | AwaitSecond first => Some (forward_return f1 (if first then first else e))
      | AbortSecond first => Some (forward_return f1 first)
      | ForwardReturned _ => None
      end
  end.

(** The other cases of waitDirection: the context, and the linger timer. *)
Definition await_abort (f : Forward) (linger : bool) : option Forward :=
  match f_main f with
  | AwaitFirst => if f_ctx f && negb linger then Some (set_main AbortFirst (abort f)) else None
  | AwaitSecond first => if f_ctx f || linger then Some (set_main (AbortSecond first) (abort f)) else None
  | _ => None
  end.

(** What the goroutines of Forward do. *)
Inductive fstep : Forward → list plabel → Forward → Prop :=
| fstep_copy f l p : copy_step (f_pump f) l p → fstep f [l] (set_pump p f)
| fstep_toLocal f err : p_toConn (f_pump f) = CopyReturned err → fstep f [] (toLocal_end f err)
| fstep_toStream f err :
    p_toStream (f_pump f) = CopyReturned err → fstep f [PStream SClose] (toStream_end f err)
| fstep_done f f' : await_done f = Some f' → fstep f [] f'
| fstep_abort f linger f' :
    await_abort f linger = Some f' →
    fstep f (if f_aborted f then [] else [PStream SReset]) f'.

(** What happens around them. *)
Inductive fenv : Forward → list plabel → Forward → Prop :=
| fenv_pump f l p : env_step (f_pump f) l p → fenv f [l] (set_pump p f)
| fenv_cancel f : fenv f [] (mkForward (f_pump f) (f_aborted f) (f_done f) (f_main f) true).

Inductive fsteps : Forward → list plabel → Forward → Prop :=
| fsteps_nil f : fsteps f [] f
| fsteps_step f ls f1 l f2 : fsteps f ls f1 → fstep f1 l f2 → fsteps f (ls ++ l) f2
| fsteps_env f ls f1 l f2 : fsteps f ls f1 → fenv f1 l f2 → fsteps f (ls ++ l) f2.

(** ** The invariant *)

(** How many results Forward has taken from [done]. *)
Definition taken (pc : AwaitPC) : nat :=
  match pc with
  | AwaitFirst | AbortFirst => 0
  | AbortBoth | AwaitSecond _ | AbortSecond _ => 1
  | ForwardReturned _ => 2
  end.

Definition aborting (pc : AwaitPC) : bool :=
  match pc with AbortFirst | AbortBoth | AbortSecond _ => true | _ => false end.
Definition finished (f : Forward) : bool :=
  match f_main f with ForwardReturned _ => true | _ => false end.

Section invariant.
Context (id : Z) (cfg : StreamConfig) (payload : list byte).

Record fwd_inv (ls : list plabel) (f : Forward) : Prop := {
  fi_pump : pump_inv ls (opened id cfg payload) (f_pump f);
  fi_abort : f_aborted f = true → c_closed (p_conn (f_pump f)) = true ∧ over (p_stream (f_pump f)) = true;
  fi_aborting : finished f = false → f_aborted f = aborting (f_main f);
  fi_done : (length (f_done f) + taken (f_main f) =
             ended (p_toConn (f_pump f)) + ended (p_toStream (f_pump f)))%nat;
  fi_closed : ended (p_toStream (f_pump f)) = 1%nat → isWriteClosed (p_stream (f_pump f)) = true;
  fi_returned : finished f = true → c_closed (p_conn (f_pump f)) = true
}.

Lemma fwd_inv_init : fwd_inv [] (forward_dialed (opened id cfg payload)).
Proof. split; try done. apply new_pump_inv. Qed.

Lemma fwd_inv_copy ls f l p :
  fwd_inv ls f → copy_step (f_pump f) l p → fwd_inv (ls ++ [l]) (set_pump p f).
Proof.
  intros [I1 I2 I3 I4 I5 I6] Hs. pose proof (copy_step_ended _ _ _ Hs) as [E1 E2].
  pose proof (copy_step_closed _ _ _ Hs) as (C1 & C2 & C3).
  split; cbn; [by eapply copy_step_inv|naive_solver|done|by rewrite E1, E2|rewrite E2; auto|auto].
Qed.

Lemma fwd_inv_toLocal ls f err :
  fwd_inv ls f → p_toConn (f_pump f) = CopyReturned err → fwd_inv ls (toLocal_end f err).
Proof.
  intros [I1 I2 I3 I4 I5 I6] E. destruct f as [[s c q1 q2] ab d pc ctx]. cbn in *. subst q1.
  assert (c_closed (conn_CloseWrite c) = c_closed c) as Hc by (unfold conn_CloseWrite; by destruct (c_closed c) eqn:?).
  split; cbn; rewrite ?Hc; try done.
  - apply (pump_inv_conn _ _ _ c); [|unfold conn_CloseWrite; by destruct (c_closed c)..].
    by destruct I1; split; [done|by eapply flow_inv_same|done].
  - rewrite length_app. cbn in *. lia.
Qed.

Lemma fwd_inv_toStream ls f err :
  fwd_inv ls f → p_toStream (f_pump f) = CopyReturned err → fwd_inv (ls ++ [PStream SClose]) (toStream_end f err).
Proof.
  intros [I1 I2 I3 I4 I5 I6] E. pose proof (si_live _ (pump_inv_live _ _ _ _ _ I1)) as Hl.
  destruct f as [[s c q1 q2] ab d pc ctx]. cbn in *. subst q2.
  pose proof (sstep_over s SClose _ (sstep_close s _ eq_refl)) as [Ho _].
  split; cbn; try done.
  - eapply pump_inv_quiet; [|done|by apply sstep_close].
    by destruct I1; split; [done|by eapply flow_inv_same|done].
  - naive_solver.
  - rewrite length_app. cbn in *. lia.
  - intros _. by apply Close_write_closed.
Qed.

Lemma fwd_inv_return ls f err rest :
  fwd_inv ls f → (length rest + 2 = ended (p_toConn (f_pump f)) + ended (p_toStream (f_pump f)))%nat →
  fwd_inv ls (forward_return (mkForward (f_pump f) (f_aborted f) rest (f_main f) (f_ctx f)) err).
Proof.
  intros [I1 I2 I3 I4 I5 I6] E. destruct f as [[s c q1 q2] ab d pc ctx]. cbn in *.
  split; cbn; try done; [by eapply pump_inv_conn|naive_solver].
Qed.

Lemma fwd_inv_done ls f f' : fwd_inv ls f → await_done f = Some f' → fwd_inv ls f'.
Proof.
  intros I. pose proof I as [I1 I2 I3 I4 I5 I6]. unfold await_done.
  destruct (f_done f) as [|e rest] eqn:Ed; [done|]. cbn in I4. unfold finished in *.
  destruct (f_main f) eqn:Em; cbn in *; intros [= <-].
  1-2: split; cbn; unfold finished in *; cbn; try done; lia.
  all: rewrite <-Em; apply (fwd_inv_return ls f); [done|lia].
Qed.

Lemma fwd_inv_abort ls f linger f' :
  fwd_inv ls f → await_abort f linger = Some f' →
  fwd_inv (ls ++ (if f_aborted f then [] else [PStream SReset])) f'.
Proof.
  intros [I1 I2 I3 I4 I5 I6]. unfold await_abort, abort, finished in *.
  destruct (f_main f) as [| | |first| |] eqn:Em; try done; rewrite (I3 eq_refl); cbn in *;
    (case_match; [|done]); intros [= <-]; destruct f as [[s c q1 q2] ab d pc ctx]; cbn in *;
    pose proof (sstep_over s SReset _ (sstep_reset s _ eq_refl)) as [_ Hw];
    (split; cbn; try done; [|intros _; split; [done|apply Reset_over]|auto]);
    (eapply pump_inv_quiet; [by eapply pump_inv_conn|done|by apply sstep_reset]).
Qed.

Lemma fstep_inv ls f l f' : fwd_inv ls f → fstep f l f' → fwd_inv (ls ++ l) f'.
Proof.
  intros I Hs. destruct Hs; rewrite ?app_nil_r;
    eauto using fwd_inv_copy, fwd_inv_toLocal, fwd_inv_toStream, fwd_inv_done, fwd_inv_abort.
Qed.

Lemma fenv_inv ls f l f' : fwd_inv ls f → fenv f l f' → fwd_inv (ls ++ l) f'.
Proof.
  intros [I1 I2 I3 I4 I5 I6] He. destruct He as [f l p Hs|f]; cbn; rewrite ?app_nil_r; [|by split].
  pose proof (env_step_pcs _ _ _ Hs) as [E1 E2]. pose proof (env_step_closed _ _ _ Hs) as (C1 & C2 & C3).
  split; cbn; rewrite ?E1, ?E2, ?C1; try done; [by eapply env_step_inv|naive_solver|auto].
Qed.

Lemma fsteps_inv ls f : fsteps (forward_dialed (opened id cfg payload)) ls f → fwd_inv ls f.
Proof.
  intros Hs. remember (forward_dialed _) as f0. induction Hs; subst;
    eauto using fwd_inv_init, fstep_inv, fenv_inv.
Qed.
End invariant.

(** ** Theorems *)

(** Forwarding is a faithful pipe in both directions. Over every
    interleaving of the two copies, the mux, the service, the timers and the
    context, the bytes the service was sent are the bytes read from the stream,
    in order, short only of what the copy holds and, after an error, of what it
    gave up; likewise the bytes accepted by the stream are those that arrived
    from the service, short of what is unread. A copy that ended without an
    error has passed on everything up to the end it saw. *)
Theorem forward_copies id cfg payload ls f :
  fsteps (forward_dialed (opened id cfg payload)) ls f →
  let p := f_pump f in
  let es := stream_events ls in
  (∃ lost, c_out (p_conn p) ++ in_hand (p_toConn p) ++ lost = bytes_read es ∧
           (failed (p_toConn p) = false → lost = [])) ∧
  (∃ lost, mjoin (chunks_written es) ++ in_hand (p_toStream p) ++ lost ++ c_in (p_conn p)
           = conn_received ls ∧
           (failed (p_toStream p) = false → lost = [])) ∧
  (returned (p_toConn p) = true → failed (p_toConn p) = false →
     ∃ ls1 ls2, ls = ls1 ++ ls2 ∧ delivered_all ls1 (c_out (p_conn p))) ∧
  (returned (p_toStream p) = true → failed (p_toStream p) = false →
     mjoin (chunks_written es) = conn_received ls).
Proof.
  intros [[H1 [H2 H3 H4 (lost & H5 & H5') H7] H6] _ _ _ _ _]%fsteps_inv. cbn zeta. rewrite H2.
  split_and!; [done| |done|].
  - exists lost. split; [|done]. by rewrite <-H3, <-H5, <-!(assoc_L (++)).
  - intros Hr Hf. destruct (H7 Hr Hf) as [_ E]. rewrite E, app_nil_r in H3.
    rewrite <-H3, <-H5, (H5' Hf). by destruct (p_toStream (f_pump f)); rewrite !app_nil_r.
Qed.

(** C32. What Forward leaves behind once its dial has succeeded: when it returns,
    the local socket is closed, both copies have ended and their results have
    been received, and the stream is closed for writing; if it was aborted by
    the context or the linger timer, the stream is over. *)
Theorem forward_releases id cfg payload ls f err :
  fsteps (forward_dialed (opened id cfg payload)) ls f → f_main f = ForwardReturned err →
  c_closed (p_conn (f_pump f)) = true ∧
  ended (p_toConn (f_pump f)) = 1%nat ∧ ended (p_toStream (f_pump f)) = 1%nat ∧ f_done f = [] ∧
  isWriteClosed (p_stream (f_pump f)) = true ∧
  (f_aborted f = true → over (p_stream (f_pump f)) = true).
Proof.
  intros [_ I2 _ I4 I5 I6]%fsteps_inv E. unfold finished in I6. rewrite E in I4, I6. cbn in I4.
  assert (ended (p_toConn (f_pump f)) = 1 ∧ ended (p_toStream (f_pump f)) = 1 ∧ length (f_done f) = 0)%nat
    as (E1 & E2 & E3) by (destruct (p_toConn (f_pump f)), (p_toStream (f_pump f)); cbn in *; lia).
  split_and!; auto; [by apply nil_length_inv|]. naive_solver.
Qed.

(** How far the goroutines are from their ends after an abort. *)
Definition main_rank (pc : AwaitPC) : nat :=
  match pc with AbortFirst => 2 | AbortBoth | AbortSecond _ => 1 | _ => 0 end.
Definition rank (f : Forward) : nat :=
  copy_rank (p_toConn (f_pump f)) + copy_rank (p_toStream (f_pump f)) + main_rank (f_main f).

Section unwinding.
Context (id : Z) (cfg : StreamConfig) (payload : list byte).

Lemma fstep_rank ls f l f' :
  fwd_inv id cfg payload ls f → f_aborted f = true → fstep f l f' →
  (rank f' < rank f)%nat ∧ f_aborted f' = true.
Proof.
  intros [_ I2 I3 _ _ _] Ha Hs. destruct (I2 Ha) as [Hc Ho]. unfold rank.
  destruct Hs as [f l p Hs|f err E|f err E|f f' E|f linger f' E]; cbn.
  - pose proof (copy_step_rank _ _ _ Hc Ho Hs). split; [lia|done].
  - rewrite E. cbn. split; [lia|done].
  - rewrite E. cbn. split; [lia|done].
  - unfold await_done, finished in *. destruct (f_done f); [done|].
    destruct (f_main f); simplify_eq/=; try (split; [lia|done]).
    all: pose proof (I3 eq_refl); congruence.
  - unfold await_abort, finished in *. destruct (f_main f); try done; pose proof (I3 eq_refl); cbn in *; congruence.
Qed.

Lemma fstep_progress ls f :
  fwd_inv id cfg payload ls f → f_aborted f = true → finished f = false → ∃ l f', fstep f l f'.
Proof.
  intros [_ I2 I3 I4 _ _] Ha Hn. destruct (I2 Ha) as [Hc Ho].
  destruct (f_done f) as [|e rest] eqn:Ed.
  - assert (ended (p_toConn (f_pump f)) = 0 ∨ ended (p_toStream (f_pump f)) = 0)%nat as He.
    { unfold finished in Hn. destruct (p_toConn (f_pump f)), (p_toStream (f_pump f)), (f_main f); cbn in *; auto; lia. }
    destruct (copy_unblocked _ Hc Ho He) as [(l & p' & Hs)|[[err E]|[err E]]].
    + do 2 eexists. by apply fstep_copy.
    + do 2 eexists. by apply fstep_toLocal.
    + do 2 eexists. by apply fstep_toStream.
  - unfold finished in *. destruct (await_done f) as [f'|] eqn:E; [do 2 eexists; by apply fstep_done|].
    unfold await_done in E. rewrite Ed in E. by destruct (f_main f).
Qed.
End unwinding.

(** C31. Forward ends. While it waits for the second copy the linger timer can
    abort it, and so can the context whenever it waits; once aborted, nothing
    blocks any more: until it has returned one of its goroutines can take a
    step, each step brings the three of them nearer their ends, nothing from
    outside takes them back, and at most 8 steps are left. *)
Theorem forward_terminates id cfg payload ls f :
  fsteps (forward_dialed (opened id cfg payload)) ls f →
  (∀ first, f_main f = AwaitSecond first →
     ∃ f', await_abort f true = Some f' ∧ f_aborted f' = true) ∧
  (f_ctx f = true → f_main f = AwaitFirst → ∃ f', await_abort f false = Some f' ∧ f_aborted f' = true) ∧
  (f_aborted f = true →
     (rank f <= 8)%nat ∧
     (finished f = false → ∃ l f', fstep f l f') ∧
     (∀ l f', fstep f l f' → (rank f' < rank f)%nat ∧ f_aborted f' = true) ∧
     (∀ l f', fenv f l f' → rank f' = rank f ∧ f_aborted f' = true)).
Proof.
  intros I%fsteps_inv. split_and!.
  - intros first E. unfold await_abort, abort. rewrite E, orb_true_r. eexists. split; [done|].
    by destruct (f_aborted f) eqn:Ea.
  - intros Hc E. unfold await_abort, abort. rewrite E, Hc. eexists. split; [done|].
    by destruct (f_aborted f) eqn:Ea.
  - intros Ha. split_and!; eauto using fstep_progress, fstep_rank.
    + unfold rank. destruct (p_toConn (f_pump f)), (p_toStream (f_pump f)), (f_main f); cbn; lia.
    + intros l f' Hs. destruct Hs as [f l p Hs|]; [|done].
      destruct (env_step_pcs _ _ _ Hs) as [E1 E2]. unfold rank. cbn. by rewrite E1, E2.
Qed.
