(* ===== verification/Path.v ===== *)
(** * From the client to the service

    One forwarded connection as a whole: the client's socket, the relay's
    copyBidirectional (RouteCopy.v), the relay's session, the transport, the
    agent's session (Link.v), the agent's Forward (Forwarder.v) and the
    service's socket, in every interleaving of all of them.

    An end of the path is a session and the component that uses a stream of
    it. The component's calls on the stream are steps of the session, everything
    else the session does goes on around it, and the component sees the stream
    as the session leaves it. *)

From Stdlib Require Import ZArith Lia.
From S2P Require Import Prelude Frame Window WriteQueue Stream Mux MuxInv MuxOps MuxOrder MuxView Link Pump MuxSim RouteCopy Forwarder.

(** ** What uses a stream *)

Class StreamUser (T : Type) := {
  u_new : StreamSession → T;
  u_pump : T → Pump;
  u_set : Pump → T → T;
  u_step : T → list plabel → T → Prop;
  u_env : T → list plabel → T → Prop;
  u_start : nat → mlabel            (* the session's step after which it starts *)
}.

(** What a user of a stream promises: it starts with two idle copies, its
    steps make at most one call on the stream and pass bytes on as the copies
    do, and it closes the stream only once its copy into it has ended. *)
Class StreamUserLaws (T : Type) `{StreamUser T} : Prop := {
  u_pump_new : ∀ s, u_pump (u_new s) = new_pump s new_conn;
  u_pump_set : ∀ p t, u_pump (u_set p t) = p;
  u_copy : ∀ t l p, copy_step (u_pump t) l p → u_step t [l] (u_set p t);
  u_around : ∀ t l p, env_step (u_pump t) l p → u_env t [l] (u_set p t);
  u_step_flow : ∀ t ls t' h, u_step t ls t' → flow_inv h (u_pump t) → flow_inv (h ++ ls) (u_pump t');
  u_env_flow : ∀ t ls t' h, u_env t ls t' → flow_inv h (u_pump t) → flow_inv (h ++ ls) (u_pump t');
  u_step_stream : ∀ t ls t', u_step t ls t' → stream_events ls = [] → p_stream (u_pump t') = p_stream (u_pump t);
  u_env_stream : ∀ t ls t', u_env t ls t' → stream_events ls = [] → p_stream (u_pump t') = p_stream (u_pump t);
  u_step_close : ∀ t ls t', u_step t ls t' → SClose ∈ stream_events ls → ended (p_toStream (u_pump t')) = 1%nat;
  u_step_ended : ∀ t ls t', u_step t ls t' →
    ended (p_toStream (u_pump t)) = 1%nat → ended (p_toStream (u_pump t')) = 1%nat;
  u_env_ended : ∀ t ls t', u_env t ls t' →
    ended (p_toStream (u_pump t)) = 1%nat → ended (p_toStream (u_pump t')) = 1%nat
}.

(** The relay's Route, which copies once OpenStreamWithPayload has returned. *)
#[export] Instance BiCopy_user : StreamUser BiCopy := {
  u_new s := copyBidirectional s new_conn; u_pump := b_pump; u_set := with_pump;
  u_step := bstep; u_env := benv; u_start := LOpened
}.

(** The agent's Forward of an accepted stream, once the service is dialed. *)
#[export] Instance Forward_user : StreamUser Forward := {
  u_new := forward_dialed; u_pump := f_pump; u_set := set_pump;
  u_step := fstep; u_env := fenv; u_start := LAccept
}.

Lemma copy_step_silent p l p' : copy_step p l p' → stream_events [l] = [] → p_stream p' = p_stream p.
Proof. by intros []. Qed.
Lemma env_step_silent p l p' : env_step p l p' → stream_events [l] = [] → p_stream p' = p_stream p.
Proof. by intros []. Qed.
Lemma copy_step_not_close p l p' : copy_step p l p' → SClose ∉ stream_events [l].
Proof. intros [] Hin; cbn in Hin; set_solver. Qed.

#[export] Instance BiCopy_user_laws : StreamUserLaws BiCopy.
Proof.
  split; try done; cbn; [apply bstep_copy|apply benv_pump|..].
  - intros b ls b' h Hs I. destruct Hs as [b l p Hs|b err E|b err E|b b' E|b b' E]; rewrite ?app_nil_r.
    + by eapply copy_step_flow.
    + destruct b as [[s c q1 q2] ctx cl errs m]. cbn in *. subst. by eapply flow_inv_same.
    + destruct b as [[s c q1 q2] ctx cl errs m]. cbn in *. subst. by eapply flow_inv_same.
    + unfold closer in E. case_match; [|done]. destruct b as [[s c q1 q2] ctx cl errs m]. simplify_eq/=.
      eapply (flow_inv_quiet _ s); [|done]. by eapply flow_inv_same.
    + unfold copy_main in E. repeat case_match; by simplify_eq.
  - intros b ls b' h Hs I. destruct Hs; cbn; rewrite ?app_nil_r; [by eapply env_step_flow|done].
  - intros b ls b' Hs. destruct Hs as [b l p Hs|b err E|b err E|b b' E|b b' E]; try done.
    + by apply copy_step_silent.
    + unfold copy_main in E. repeat case_match; by simplify_eq.
  - intros b ls b' Hs. destruct Hs; [by apply env_step_silent|done].
  - intros b ls b' Hs. destruct Hs as [b l p Hs| | | |]; cbn; try by intros ?%not_elem_of_nil.
    + by intros ?%(copy_step_not_close _ _ _ Hs).
    + by intros ?%list_elem_of_singleton.
  - intros b ls b' Hs. destruct Hs as [b l p Hs|b err E|b err E|b b' E|b b' E]; cbn; try done.
    + by destruct (copy_step_ended _ _ _ Hs) as [_ ->].
    + unfold closer in E. case_match; by simplify_eq.
    + unfold copy_main in E. repeat case_match; by simplify_eq.
  - intros b ls b' Hs. destruct Hs as [b l p Hs|]; cbn; [|done]. by destruct (env_step_pcs _ _ _ Hs) as [_ ->].
Qed.

Lemma conn_CloseWrite_same c :
  c_in (conn_CloseWrite c) = c_in c ∧ c_out (conn_CloseWrite c) = c_out c ∧ c_eof (conn_CloseWrite c) = c_eof c.
Proof. unfold conn_CloseWrite. by destruct (c_closed c). Qed.

Lemma await_done_pump f f' :
  await_done f = Some f' →
  ∃ c, c_in c = c_in (p_conn (f_pump f)) ∧ c_out c = c_out (p_conn (f_pump f)) ∧ c_eof c = c_eof (p_conn (f_pump f)) ∧
       f_pump f' = mkPump (p_stream (f_pump f)) c (p_toConn (f_pump f)) (p_toStream (f_pump f)).
Proof.
  unfold await_done. destruct f as [[s c q1 q2] ab d pc ctx]; cbn.
  destruct d as [|e rest]; [done|]. destruct pc; try done; intros [= <-]; cbn;
    [exists c|exists c|exists (conn_Close c)..]; done.
Qed.

Lemma await_abort_pump f linger f' :
  await_abort f linger = Some f' → f_pump f' = f_pump (abort f).
Proof. unfold await_abort. destruct (f_main f); try done; case_match; try done; by intros [= <-]. Qed.

#[export] Instance Forward_user_laws : StreamUserLaws Forward.
Proof.
  split; try done; cbn; [apply fstep_copy|apply fenv_pump|..].
  - intros f ls f' h Hs I. destruct Hs as [f l p Hs|f err E|f err E|f f' E|f linger f' E]; rewrite ?app_nil_r.
    + by eapply copy_step_flow.
    + destruct f as [[s c q1 q2] ab d pc ctx]. cbn in *. subst. destruct (conn_CloseWrite_same c) as (? & ? & ?).
      by eapply flow_inv_same.
    + destruct f as [[s c q1 q2] ab d pc ctx]. cbn in *. subst.
      eapply (flow_inv_quiet _ s); [|done]. by eapply flow_inv_same.
    + destruct (await_done_pump _ _ E) as (c & ? & ? & ? & ->). destruct f as [[s c0 q1 q2] ab d pc ctx].
      by eapply flow_inv_same.
    + rewrite (await_abort_pump _ _ _ E). unfold abort. destruct f as [[s c q1 q2] ab d pc ctx]. cbn in *.
      destruct ab; cbn; rewrite ?app_nil_r; [done|].
      eapply (flow_inv_quiet _ s); [|done]. by eapply flow_inv_same.
  - intros f ls f' h Hs I. destruct Hs; cbn; rewrite ?app_nil_r; [by eapply env_step_flow|done].
  - intros f ls f' Hs. destruct Hs as [f l p Hs|f err E|f err E|f f' E|f linger f' E]; try done.
    + by apply copy_step_silent.
    + by destruct (await_done_pump _ _ E) as (c & _ & _ & _ & ->).
    + rewrite (await_abort_pump _ _ _ E). unfold abort. by destruct (f_aborted f).
  - intros f ls f' Hs. destruct Hs; [by apply env_step_silent|done].
  - intros f ls f' Hs. destruct Hs as [f l p Hs| | | |f linger f' E]; cbn; try by intros ?%not_elem_of_nil.
    + by intros ?%(copy_step_not_close _ _ _ Hs).
    + done.
    + destruct (f_aborted f); cbn; [by intros ?%not_elem_of_nil|by intros ?%list_elem_of_singleton].
  - intros f ls f' Hs. destruct Hs as [f l p Hs|f err E|f err E|f f' E|f linger f' E]; cbn; try done.
    + by destruct (copy_step_ended _ _ _ Hs) as [_ ->].
    + by destruct (await_done_pump _ _ E) as (c & _ & _ & _ & ->).
    + rewrite (await_abort_pump _ _ _ E). unfold abort. by destruct (f_aborted f).
  - intros f ls f' Hs. destruct Hs as [f l p Hs|]; cbn; [|done]. by destruct (env_step_pcs _ _ _ Hs) as [_ ->].
Qed.

(** ** An end of the path *)

(** The user of the stream: not there yet, at work, or the stream was given up
    before there was one (no service, a failed dial). *)
Inductive Use (T : Type) := NotYet | Using (t : T) | Dropped.
Arguments NotYet {_}.
Arguments Using {_}.
Arguments Dropped {_}.

Record End (T : Type) := mkEnd {
  e_hist : list mlabel;
  e_mux : MuxSession;
  e_use : Use T;
  e_log : list plabel
}.
Arguments mkEnd {_}.
Arguments e_hist {_}.
Arguments e_mux {_}.
Arguments e_use {_}.
Arguments e_log {_}.

(** The call on the stream [r] that an event of its user is. *)
Inductive call (r : nat) : sevent → mlabel → Prop :=
| call_read p : call r (SRead p) (LRead r p)
| call_write p : call r (SWrite p) (LWrite r p)
| call_close : call r SClose (LClose r)
| call_reset code : call r SReset (LReset r code).

Definition by_owner (r : nat) (e : mlabel) : bool :=
  match e with
  | LRead r' _ | LWrite r' _ | LClose r' | LReset r' _ => bool_decide (r = r')
  | _ => false
  end.

Section end_of_path.
Context {T : Type} `{StreamUserLaws T} (r : nat).

(** The user sees the stream as the session leaves it. *)
Definition refresh (m : MuxSession) (u : Use T) : Use T :=
  match u with
  | Using t =>
      let p := u_pump t in
      Using (u_set (mkPump (default (p_stream p) (m_heap m !! r)) (p_conn p) (p_toConn p) (p_toStream p)) t)
  | u => u
  end.

Inductive estep : End T → End T → Prop :=
| estep_session es m u ls e m' :
    mstep m e m' → connected m e → by_owner r e = false →
    estep (mkEnd es m u ls) (mkEnd (es ++ [e]) m' (refresh m' u) ls)
| estep_drop es m e m' :
    mstep m e m' → e = LClose r ∨ (∃ code, e = LReset r code) →
    estep (mkEnd es m NotYet []) (mkEnd (es ++ [e]) m' Dropped [])
| estep_start es m s :
    u_start r ∈ es → m_heap m !! r = Some s →
    estep (mkEnd es m NotYet []) (mkEnd es m (Using (u_new s)) [])
| estep_call es m t ls l t' ev e m' :
    u_step t l t' → stream_events l = [ev] → call r ev e →
    mstep m e m' → m_heap m' !! r = Some (p_stream (u_pump t')) →
    estep (mkEnd es m (Using t) ls) (mkEnd (es ++ [e]) m' (Using t') (ls ++ l))
| estep_own es m t ls l t' :
    u_step t l t' → stream_events l = [] →
    estep (mkEnd es m (Using t) ls) (mkEnd es m (Using t') (ls ++ l))
| estep_env es m t ls l t' :
    u_env t l t' → stream_events l = [] →
    estep (mkEnd es m (Using t) ls) (mkEnd es m (Using t') (ls ++ l)).

(** What has passed through the user is what was read from the stream and
    written to it. *)
Definition end_inv (d : End T) : Prop :=
  match e_use d with
  | NotYet => reads r (e_hist d) = [] ∧ written r (e_hist d) = [] ∧ LClose r ∉ e_hist d
  | Using t =>
      m_heap (e_mux d) !! r = Some (p_stream (u_pump t)) ∧ flow_inv (e_log d) (u_pump t) ∧
      reads r (e_hist d) = bytes_read (stream_events (e_log d)) ∧
      written r (e_hist d) = chunks_written (stream_events (e_log d)) ∧
      (LClose r ∈ e_hist d → ended (p_toStream (u_pump t)) = 1%nat)
  | Dropped => True
  end.

Lemma not_by_owner e : by_owner r e = false → reads r [e] = [] ∧ written r [e] = [] ∧ e ≠ LClose r.
Proof. destruct e; cbn; try done; case_bool_decide; try done; intros _; rewrite ?decide_False by congruence; naive_solver. Qed.

Lemma call_history ev e :
  call r ev e → reads r [e] = bytes_read [ev] ∧ written r [e] = chunks_written [ev] ∧ (e = LClose r → ev = SClose).
Proof. destruct 1; cbn; rewrite ?decide_True by done; rewrite ?app_nil_r; naive_solver. Qed.

Lemma end_inv_step d d' : mux_inv (e_mux d) → estep d d' → end_inv d → end_inv d'.
Proof.
  intros I Hs. destruct Hs as [es m u ls e m' Hs _ Hb|es m e m' Hs He|es m s Hst Hr|es m t ls l t' ev e m' Hu El Hc Hs Hr
    |es m t ls l t' Hu El|es m t ls l t' Hu El]; unfold end_inv; cbn in *.
  - destruct (not_by_owner e Hb) as (E1 & E2 & E3). destruct u as [|t|]; cbn; [| |done].
    + rewrite reads_app, written_app, E1, E2, !app_nil_r. intros (-> & -> & Hn). split_and!; [done..|set_solver].
    + rewrite reads_app, written_app, E1, E2, !app_nil_r. intros (Hr & Hf & H1 & H2 & H3).
      destruct (view_grows _ _ _ _ _ (mstep_view _ _ _ I Hs) Hr) as (s' & Hr' & _).
      rewrite u_pump_set, Hr'. cbn. split_and!; [done| |done..|set_solver].
      destruct (u_pump t). by eapply flow_inv_same.
  - done.
  - intros (H1 & H2 & H3). rewrite u_pump_new, H1, H2. cbn. split_and!; [done|apply new_pump_inv; exact s|done..].
  - intros (_ & Hf & H1 & H2 & H3). destruct (call_history _ _ Hc) as (C1 & C2 & C3).
    autorewrite with history. rewrite reads_app, written_app, H1, H2, C1, C2, El.
    split_and!; [done|by eapply u_step_flow|done..|].
    intros [Hin|Hin%list_elem_of_singleton]%elem_of_app; [by eapply u_step_ended; auto|].
    eapply u_step_close; [done|]. rewrite El, C3 by done. by apply list_elem_of_singleton.
  - autorewrite with history. rewrite El, (u_step_stream _ _ _ Hu El), !app_nil_r. intros (Hr & Hf & H1 & H2 & H3).
    split_and!; [done|by eapply u_step_flow|done..|]. intros ?. eapply u_step_ended; eauto.
  - autorewrite with history. rewrite El, (u_env_stream _ _ _ Hu El), !app_nil_r. intros (Hr & Hf & H1 & H2 & H3).
    split_and!; [done|by eapply u_env_flow|done..|]. intros ?. eapply u_env_ended; eauto.
Qed.
End end_of_path.

(** ** The path *)

Definition new_end {T} (role : MuxRole) (config : MuxConfig) : End T :=
  mkEnd [] (NewMuxSession role config) NotYet [].

(** The stream [r] of the relay's session and the stream [r'] of the agent's. *)
Inductive path (ca cb : MuxConfig) (r r' : nat) : End BiCopy → End Forward → Prop :=
| path_new : path ca cb r r' (new_end RoleRelay ca) (new_end RoleAgent cb)
| path_relay a b a' :
    path ca cb r r' a b → estep r a a' → received (e_hist a') `prefix_of` sent (e_hist b) → path ca cb r r' a' b
| path_agent a b b' :
    path ca cb r r' a b → estep r' b b' → received (e_hist b') `prefix_of` sent (e_hist a) → path ca cb r r' a b'.

(** A step of an end is a step of its session, or none. *)
Lemma estep_session_step {T} `{StreamUser T} r (d d' : End T) :
  estep r d d' →
  e_hist d' = e_hist d ∧ e_mux d' = e_mux d ∨
  ∃ e, e_hist d' = e_hist d ++ [e] ∧ mstep (e_mux d) e (e_mux d') ∧ connected (e_mux d) e.
Proof.
  destruct 1 as [|? ? ? ? ? [->|[? ->]]| |? ? ? ? ? ? ? ? ? ? ? []| |]; cbn; [right|right|right|by left|right|right|right|right|by left|by left];
    eexists; split_and!; by eauto.
Qed.

Lemma path_link ca cb r r' a b :
  path ca cb r r' a b → link RoleRelay ca RoleAgent cb (e_hist a) (e_mux a) (e_hist b) (e_mux b).
Proof.
  induction 1 as [|a b a' _ IH Hs Hp|a b b' _ IH Hs Hp]; [constructor|..];
    (destruct (estep_session_step _ _ _ Hs) as [[-> ->]|(e & E & Hm & Hc)]; [done|]);
    rewrite E in *; by econstructor.
Qed.

Lemma path_ends ca cb r r' a b :
  fits_ids RoleRelay ca → fits_ids RoleAgent cb → path ca cb r r' a b → end_inv r a ∧ end_inv r' b.
Proof.
  intros Ha Hb. induction 1 as [|a b a' Hp [IHa IHb] Hs _|a b b' Hp [IHa IHb] Hs _].
  - by split; split_and!; try apply not_elem_of_nil.
  - split; [|done]. eapply end_inv_step; [|done..].
    destruct (link_sides _ _ _ _ _ _ _ _ (path_link _ _ _ _ _ _ Hp)) as (Sa & _).
    exact (reachable_inv _ _ _ _ Ha (side_reachable _ _ _ _ Sa)).
  - split; [done|]. eapply end_inv_step; [|done..].
    destruct (link_sides _ _ _ _ _ _ _ _ (path_link _ _ _ _ _ _ Hp)) as (_ & Sb & _).
    exact (reachable_inv _ _ _ _ Hb (side_reachable _ _ _ _ Sb)).
Qed.

(** When the copy out of the stream has read everything and gave up nothing. *)
Lemma flow_read_all ls p :
  flow_inv ls p → p_toConn p = CopyRead → c_out (p_conn p) = bytes_read (stream_events ls).
Proof. intros [-> _ (lost & <- & Hl) _ _] E. rewrite E in *. by rewrite (Hl eq_refl), app_nil_r. Qed.

(** When the copy into the stream has ended without an error. *)
Lemma flow_wrote_all ls p :
  flow_inv ls p → ended (p_toStream p) = 1%nat → failed (p_toStream p) = false →
  mjoin (chunks_written (stream_events ls)) = conn_received ls.
Proof.
  intros [_ <- _ (lost & <- & Hl) He] E Hf. destruct (p_toStream p) as [| | |err]; try done.
  destruct (He eq_refl Hf) as [_ ->]. by rewrite (Hl Hf), !app_nil_r.
Qed.

(** C1. What a client sends reaches the service, and the service's answer the
    client. Take the whole path of a forwarded connection, the client's socket,
    the relay's copies, both sessions with all their other streams and callers,
    the transport, the agent's copies and the service's socket, run in any
    interleaving of their steps, each call and each handled frame being one,
    with the sockets breaking, the timers firing and the sessions closing at any
    moment, and a stream whose ID the relay has used once in its session. The
    bytes written to the service are an initial
    part of those that arrived from the client, and the bytes written to the
    client an initial part of those that arrived from the service: nothing is
    lost in between, duplicated, reordered or taken from another connection. And
    when the relay sees the end of a stream that was not reset, with nothing
    in hand, the client has been written everything the service has sent,
    unless the agent's copy failed. *)
Theorem path_delivery ca cb r r' a b bc fw :
  fits_ids RoleRelay ca → fits_ids RoleAgent cb → path ca cb r r' a b →
  e_use a = Using bc → e_use b = Using fw →
  let s := p_stream (b_pump bc) in
  let s' := p_stream (f_pump fw) in
  s_id s mod 2 = 1 → s_id s' = s_id s → once (e_mux a) (s_id s) →
  c_out (p_conn (f_pump fw)) `prefix_of` conn_received (e_log a) ∧
  c_out (p_conn (b_pump bc)) `prefix_of` conn_received (e_log b) ∧
  (∀ n, Stream.Read s n = ReadEOF → s_state s ≠ StateReset → p_toConn (b_pump bc) = CopyRead →
     failed (p_toStream (f_pump fw)) = false →
     c_out (p_conn (b_pump bc)) = conn_received (e_log b)).
Proof.
  intros Ha Hb Hp Ua Ub s s' Hpar Hid Hon. pose proof (path_link _ _ _ _ _ _ Hp) as Hl.
  destruct (path_ends _ _ _ _ _ _ Ha Hb Hp) as [Ea Eb]. unfold end_inv in Ea, Eb. rewrite Ua in Ea. rewrite Ub in Eb.
  destruct Ea as (Hra & Fa & R1 & W1 & C1), Eb as (Hrb & Fb & R2 & W2 & C2). cbn in *.
  destruct (link_shared _ _ _ _ _ _ _ _ r s r' s' Ha Hb ltac:(done) Hl Hra Hpar Hon Hrb Hid) as [Sa Sb Oa Ob Pl Pr Rl Rr].
  destruct (delivered _ _ _ _ _ _ _ _ _ Sa Oa Hra Pr Rr) as [D1 _].
  destruct (delivered _ _ _ _ _ _ _ _ _ Sb Ob Hrb Pl Rl) as [D2 E2].
  rewrite R2, W1 in D1. rewrite R1, W2 in D2, E2. split_and!.
  - etrans; [exact (flow_toConn _ _ Fb)|]. etrans; [exact D1|]. exact (flow_toStream _ _ Fa).
  - etrans; [exact (flow_toConn _ _ Fa)|]. etrans; [exact D2|]. exact (flow_toStream _ _ Fb).
  - intros n Heof Hnr Hpc Hf. rewrite (flow_read_all _ _ Fa Hpc), (E2 n) by done.
    apply (flow_wrote_all _ _ Fb); [|done]. apply C2.
    destruct (link_sides _ _ _ _ _ _ _ _ Hl) as (_ & Sb' & _).
    apply (reachable_fin _ _ _ _ Hb (side_reachable _ _ _ _ Sb') r' s' Hrb). right. exists (s_id s').
    eapply fin_was_output; [done..|]. destruct Pl as [k ->]. apply elem_of_app. left. by eapply eof_has_fin.
Qed.

(** The relay never calls Close on the stream of a client. *)
Definition relay_open (r : nat) (d : End BiCopy) : Prop :=
  match e_use d with Dropped => True | _ => LClose r ∉ e_hist d end.

Lemma bstep_not_close b l b' : bstep b l b' → SClose ∉ stream_events l.
Proof.
  intros Hs. destruct Hs as [b l p Hs| | | |]; cbn; try apply not_elem_of_nil.
  - by eapply copy_step_not_close.
  - by intros ?%list_elem_of_singleton.
Qed.

Lemma relay_open_step r d d' : estep r d d' → relay_open r d → relay_open r d'.
Proof.
  intros Hs. destruct Hs as [es m u ls e m' Hs _ Hb| | |es m t ls l t' ev e m' Hu El Hc Hs Hr| |];
    unfold relay_open; cbn in *; try done.
  - destruct (not_by_owner r e Hb) as (_ & _ & E). destruct u; cbn; set_solver.
  - intros Hn [?|E%list_elem_of_singleton]%elem_of_app; [done|].
    destruct (call_history r _ _ Hc) as (_ & _ & C). apply (bstep_not_close _ _ _ Hu).
    rewrite El, C by done. by apply list_elem_of_singleton.
Qed.

Lemma path_relay_open ca cb r r' a b : path ca cb r r' a b → relay_open r a.
Proof. induction 1; [apply not_elem_of_nil|by eapply relay_open_step|done]. Qed.

(** The end of a client's request does not travel: the relay never half-closes
    a stream, so the agent reads the end of one, and half-closes the service's
    socket, only when the stream was reset, and a reset stream takes no more of
    the service's answer. *)
Theorem path_no_half_close ca cb r r' a b bc fw :
  fits_ids RoleRelay ca → fits_ids RoleAgent cb → path ca cb r r' a b →
  e_use a = Using bc → e_use b = Using fw →
  let s := p_stream (b_pump bc) in
  let s' := p_stream (f_pump fw) in
  s_id s mod 2 = 1 → s_id s' = s_id s → once (e_mux a) (s_id s) →
  ∀ n, Stream.Read s' n = ReadEOF → s_state s' = StateReset.
Proof.
  intros Ha Hb Hp Ua Ub s s' Hpar Hid Hon n Heof. pose proof (path_link _ _ _ _ _ _ Hp) as Hl.
  destruct (decide (s_state s' = StateReset)) as [|Hnr]; [done|exfalso].
  destruct (path_ends _ _ _ _ _ _ Ha Hb Hp) as [Ea Eb]. unfold end_inv in Ea, Eb. rewrite Ua in Ea. rewrite Ub in Eb.
  destruct Ea as (Hra & _), Eb as (Hrb & _). cbn in *.
  destruct (link_shared _ _ _ _ _ _ _ _ r s r' s' Ha Hb ltac:(done) Hl Hra Hpar Hon Hrb Hid) as [Sa Sb Oa Ob Pl Pr Rl Rr].
  pose proof (path_relay_open _ _ _ _ _ _ Hp) as Hno. unfold relay_open in Hno. rewrite Ua in Hno. apply Hno.
  destruct (link_sides _ _ _ _ _ _ _ _ Hl) as (Sa' & _).
  apply (reachable_fin _ _ _ _ Ha (side_reachable _ _ _ _ Sa') r s Hra). right. exists (s_id s).
  eapply fin_was_output; [done..|]. destruct Pr as [k ->]. apply elem_of_app. left. by eapply eof_has_fin.
Qed.
