(* ===== verification/PathWitness.v ===== *)
(** * A forwarded connection, run

    An executable schedule of the path: commands for the sessions, the copies
    and the sockets, each of which is shown to be a step of Path.v, and a
    request with its answer run through it. *)

From Stdlib Require Import ZArith Lia.
From S2P Require Import Prelude Frame Window WriteQueue Stream Mux MuxInv MuxOps MuxOrder MuxView Link MuxRace MuxWitness Pump MuxSim RouteCopy Forwarder Path.

#[export] Instance mlabel_eq_dec : EqDecision mlabel.
Proof. solve_decision. Defined.

(** ** Commands *)

Inductive scmd := COpen (payload : list byte) | COpened (r : nat) | CAccept | CDeliver | CFrame (f : Frame) | CSend | CDrain (r : nat) (c : drain_case).

Definition run_scmd (m : MuxSession) (c : scmd) : option (mlabel * MuxSession) :=
  match c with
  | COpen payload => match OpenStream_begin m payload with Ok (r, m') => Some (LOpen r, m') | Err _ => None end
  | COpened r =>
      if bool_decide (r ∈ m_openers m) && bool_decide (r ∈ m_acks m)
      then Some (LOpened r, OpenStream_acked m r) else None
  | CAccept => match AcceptStream m with Some (r, m') => Some (LAccept r, m') | None => None end
  | CDeliver => (λ m', (LDeliver, m')) <$> deliverAccept m
  | CFrame f =>
      match m_reader m with
      | ReadRunning => if m_closeCh m then None else if decide (frame_typed f) then Some (LFrame f, handleFrame m f) else None
      | _ => None
      end
  | CSend =>
      match Dequeue (m_writeQueue m) false with
      | DqFrame f q => if m_closeCh m then None else Some (LSend (wire m f), set_writeQueue q m)
      | _ => None
      end
  | CDrain r c => (λ m', (LDrain r (drain_output m r c), m')) <$> drainStream m r c
  end.

Lemma run_scmd_sound m c e m' r :
  run_scmd m c = Some (e, m') → mstep m e m' ∧ connected m e ∧ by_owner r e = false.
Proof.
  destruct c as [payload|r0| | |f| |r0 c]; cbn.
  - destruct (OpenStream_begin m payload) as [[r0 m1]|] eqn:E; [|done]. intros [= <- <-]. split_and!; try done. by econstructor.
  - case_bool_decide; [|done]. case_bool_decide; [|done]. intros [= <- <-]. split_and!; try done. by apply mstep_opened.
  - destruct (AcceptStream m) as [[r0 m1]|] eqn:E; [|done]. intros [= <- <-]. split_and!; try done. by constructor.
  - destruct (deliverAccept m) eqn:E; [|done]. intros [= <- <-]. split_and!; try done. by apply mstep_deliver.
  - destruct (m_reader m) eqn:Er; try done. destruct (m_closeCh m) eqn:Ec; [done|]. case_decide; [|done].
    intros [= <- <-]. split_and!; try done. by apply mstep_frame.
  - destruct (Dequeue (m_writeQueue m) false) eqn:Ed; try done. destruct (m_closeCh m) eqn:Ec; [done|].
    intros [= <- <-]. split_and!; try done. by eapply mstep_send.
  - destruct (drainStream m r0 c) eqn:E; [|done]. intros [= <- <-]. split_and!; try done. by eapply mstep_drain.
Qed.

Inductive pcmd := PReadStream | PWriteConn | PReadConn | PWriteStream.

(** The step of a copy, with the event of the stream it makes. *)
Definition run_pcmd (p : Pump) (c : pcmd) : option (plabel * Pump) :=
  let '(mkPump s conn q1 q2) := p in
  match c, q1, q2 with
  | PReadStream, CopyRead, _ =>
      match Stream.Read s 512 with
      | ReadData b s' => Some (PStream (SRead b), mkPump s' conn (CopyWrite b) q2)
      | _ => None
      end
  | PWriteConn, CopyWrite b, _ =>
      (λ conn', (PConnWrite b, mkPump s conn' CopyRead q2)) <$> conn_Write conn b
  | PReadConn, _, CopyRead =>
      match conn_Read conn 512 with
      | ConnData b conn' => Some (PConnRead b, mkPump s conn' q1 (CopyWrite b))
      | ConnEOF => Some (PEnd, mkPump s conn q1 (CopyReturned false))
      | _ => None
      end
  | PWriteStream, _, CopyWrite b =>
      match Stream.Write s b with
      | WriteOk s' => Some (PStream (SWrite b), mkPump s' conn q1 CopyRead)
      | _ => None
      end
  | _, _, _ => None
  end.

Lemma run_pcmd_sound p c l p' : run_pcmd p c = Some (l, p') → copy_step p l p'.
Proof.
  destruct p as [s conn q1 q2]. destruct c; cbn -[Stream.Read conn_Read].
  - destruct q1; try done. destruct (Stream.Read s 512) eqn:E; try done. intros [= <- <-].
    by eapply (copy_stream_read _ _ _ 512); [lia|].
  - destruct q1; try done. destruct (conn_Write conn p) eqn:E; [|done]. intros [= <- <-]. by apply copy_conn_write.
  - destruct q2; try done. destruct (conn_Read conn 512) eqn:E; try done; intros [= <- <-].
    + by eapply (copy_conn_eof _ _ _ 512).
    + by eapply (copy_conn_read _ _ _ 512); [lia|].
  - destruct q2; try done. destruct (Stream.Write s p) eqn:E; try done. intros [= <- <-]. by apply copy_stream_write.
Qed.

(** The session's step for such an event, on the stream [r]. *)
Definition call_of (r : nat) (m : MuxSession) (l : plabel) (p : Pump) : option (mlabel * MuxSession) :=
  match l with
  | PStream (SRead b) => Some (LRead r b, set_heap (<[r := p_stream p]> (m_heap m)) m)
  | PStream (SWrite b) => Some (LWrite r b, set_heap (<[r := p_stream p]> (m_heap m)) m)
  | _ => None
  end.

Lemma call_of_sound r m p l p' e m' :
  copy_step p l p' → m_heap m !! r = Some (p_stream p) → call_of r m l p' = Some (e, m') →
  ∃ ev, l = PStream ev ∧ call r ev e ∧ mstep m e m' ∧ m_heap m' !! r = Some (p_stream p').
Proof.
  intros Hs Hr. destruct Hs as [s c q n b s' Hn Hrd| | | | | | |s c q b s' Hw|]; cbn; try done; intros [= <- <-];
    eexists; (split_and!; [done|constructor| |cbn; by rewrite lookup_insert_eq]).
  - by eapply mstep_read.
  - by eapply mstep_write.
Qed.

Section run.
Context {T : Type} `{StreamUserLaws T} (r : nat).

Inductive ecmd :=
| ESession (c : scmd)
| EStart
| ECopy (c : pcmd)
| ERecv (bytes : list byte)
| ERecvEOF.

Definition run_ecmd (d : End T) (c : ecmd) : option (End T) :=
  let '(mkEnd es m u ls) := d in
  match c, u with
  | ESession c, _ =>
      match run_scmd m c with Some (e, m') => Some (mkEnd (es ++ [e]) m' (refresh r m' u) ls) | None => None end
  | EStart, NotYet =>
      match m_heap m !! r, ls with
      | Some s, [] => if decide (u_start r ∈ es) then Some (mkEnd es m (Using (u_new s)) []) else None
      | _, _ => None
      end
  | ECopy c, Using t =>
      match run_pcmd (u_pump t) c with
      | Some (l, p) =>
          match call_of r m l p with
          | Some (e, m') => Some (mkEnd (es ++ [e]) m' (Using (u_set p t)) (ls ++ [l]))
          | None =>
              match l with
              | PStream _ => None
              | _ => Some (mkEnd es m (Using (u_set p t)) (ls ++ [l]))
              end
          end
      | None => None
      end
  | ERecv bytes, Using t =>
      let p := u_pump t in
      if c_eof (p_conn p) then None
      else Some (mkEnd es m (Using (u_set (mkPump (p_stream p) (conn_recv bytes (p_conn p)) (p_toConn p) (p_toStream p)) t))
                   (ls ++ [PRecv bytes]))
  | ERecvEOF, Using t =>
      let p := u_pump t in
      Some (mkEnd es m (Using (u_set (mkPump (p_stream p) (conn_recv_eof (p_conn p)) (p_toConn p) (p_toStream p)) t))
              (ls ++ [PRecvEOF]))
  | _, _ => None
  end.

Lemma run_ecmd_sound d c d' : end_inv r d → run_ecmd d c = Some d' → estep r d d'.
Proof.
  destruct d as [es m u ls]. intros I. destruct c as [c| |c|bytes|]; cbn -[run_scmd run_pcmd].
  - destruct (run_scmd m c) as [[e m']|] eqn:E; [|done]. intros [= <-].
    destruct (run_scmd_sound _ _ _ _ r E) as (? & ? & ?). by constructor.
  - destruct u; try done. destruct (m_heap m !! r) as [s|] eqn:Hr; [|done]. destruct ls; [|done].
    case_decide; [|done]. intros [= <-]. by constructor.
  - destruct u as [|t|]; try done. destruct (run_pcmd (u_pump t) c) as [[l p]|] eqn:E; [|done].
    apply run_pcmd_sound in E as Hs. pose proof (u_copy _ _ _ Hs) as Hu.
    destruct (call_of r m l p) as [[e m']|] eqn:Ec.
    + intros [= <-]. destruct I as (Hr & _). destruct (call_of_sound _ _ _ _ _ _ _ Hs Hr Ec) as (ev & -> & ? & ? & ?).
      eapply estep_call; [exact Hu|done..|]. by rewrite u_pump_set.
    + destruct l; try done; intros [= <-]; (eapply estep_own; [exact Hu|done]).
  - destruct u as [|t|]; try done. destruct (c_eof (p_conn (u_pump t))) eqn:Ee; [done|]. intros [= <-].
    eapply estep_env; [|done]. apply u_around. destruct (u_pump t). by constructor.
  - destruct u as [|t|]; try done. intros [= <-].
    eapply estep_env; [|done]. apply u_around. destruct (u_pump t). by constructor.
Qed.
End run.

(** The agent's copy from the service has ended: it closes the stream. *)
Definition run_close (r : nat) (d : End Forward) : option (End Forward) :=
  let '(mkEnd es m u ls) := d in
  match u with
  | Using t =>
      match p_toStream (f_pump t) with
      | CopyReturned err =>
          Some (mkEnd (es ++ [LClose r]) (StreamClose m r) (Using (toStream_end t err)) (ls ++ [PStream SClose]))
      | _ => None
      end
  | _ => None
  end.

Lemma run_close_sound r d d' : end_inv r d → run_close r d = Some d' → estep r d d'.
Proof.
  destruct d as [es m u ls]. cbn. destruct u as [|t|]; try done. intros (Hr & _).
  destruct (p_toStream (f_pump t)) as [| |err|] eqn:E; try done. intros [= <-].
  eapply estep_call; [by apply fstep_toStream|done|constructor|by apply mstep_close|].
  cbn in *. unfold StreamClose. rewrite Hr. destruct (Stream.Close (p_stream (f_pump t))) as [s' b].
  destruct b; cbn; unfold onLocalClose; rewrite ?heap_maybeRemove; cbn; by rewrite lookup_insert_eq.
Qed.

Inductive cmd := OnRelay (c : ecmd) | OnAgent (c : ecmd) | AgentClose.

Definition run_cmd (r r' : nat) (ab : End BiCopy * End Forward) (c : cmd) : option (End BiCopy * End Forward) :=
  let '(a, b) := ab in
  match c with
  | OnRelay c =>
      match run_ecmd r a c with
      | Some a' => if decide (received (e_hist a') `prefix_of` sent (e_hist b)) then Some (a', b) else None
      | None => None
      end
  | OnAgent c =>
      match run_ecmd r' b c with
      | Some b' => if decide (received (e_hist b') `prefix_of` sent (e_hist a)) then Some (a, b') else None
      | None => None
      end
  | AgentClose =>
      match run_close r' b with
      | Some b' => if decide (received (e_hist b') `prefix_of` sent (e_hist a)) then Some (a, b') else None
      | None => None
      end
  end.

Fixpoint run_cmds (r r' : nat) (ab : End BiCopy * End Forward) (cs : list cmd) : option (End BiCopy * End Forward) :=
  match cs with
  | [] => Some ab
  | c :: cs => match run_cmd r r' ab c with Some ab' => run_cmds r r' ab' cs | None => None end
  end.

Lemma run_cmds_sound ca cb r r' cs a b a' b' :
  fits_ids RoleRelay ca → fits_ids RoleAgent cb → path ca cb r r' a b →
  run_cmds r r' (a, b) cs = Some (a', b') → path ca cb r r' a' b'.
Proof.
  intros Ha Hb. revert a b. induction cs as [|c cs IH]; intros a b Hp; [by intros [= <- <-]|].
  cbn -[run_cmd]. destruct (run_cmd r r' (a, b) c) as [[a1 b1]|] eqn:E; [|done]. apply IH.
  destruct (path_ends _ _ _ _ _ _ Ha Hb Hp) as [Ea Eb]. revert E. destruct c as [c|c|]; cbn -[run_ecmd run_close].
  - destruct (run_ecmd r a c) eqn:E; [|done]. case_decide; [|done]. intros [= <- <-].
    by eapply path_relay; [|by eapply run_ecmd_sound|].
  - destruct (run_ecmd r' b c) eqn:E; [|done]. case_decide; [|done]. intros [= <- <-].
    by eapply path_agent; [|by eapply run_ecmd_sound|].
  - destruct (run_close r' b) eqn:E; [|done]. case_decide; [|done]. intros [= <- <-].
    by eapply path_agent; [|by eapply run_close_sound|].
Qed.

(** ** A request and its answer *)

Definition path_config : MuxConfig := mkMuxConfig 4 65536 1048576 0 0 0.
Definition request : list byte := [x47; x45; x54].
Definition answer : list byte := [x4f; x4b].
Definition ssh : list byte := [x73; x73; x68].

Definition opening_schedule : list cmd := [
  OnRelay (ESession (COpen ssh)); OnRelay (ESession CSend);
  OnAgent (ESession (CFrame (open_frame 1 ssh))); OnAgent (ESession CSend);
  OnAgent (ESession CDeliver); OnAgent (ESession CAccept); OnAgent EStart;
  OnRelay (ESession (CFrame (ack_frame 1))); OnRelay (ESession (COpened 0)); OnRelay EStart].

Definition request_schedule : list cmd := [
  OnRelay (ERecv request); OnRelay (ECopy PReadConn); OnRelay (ECopy PWriteStream);
  OnRelay (ESession (CDrain 0 DrainChunk)); OnRelay (ESession CSend);
  OnAgent (ESession (CFrame (data_frame 1 request))); OnAgent (ECopy PReadStream); OnAgent (ECopy PWriteConn)].

Definition answer_schedule : list cmd := [
  OnAgent (ERecv answer); OnAgent (ECopy PReadConn); OnAgent (ECopy PWriteStream);
  OnAgent ERecvEOF; OnAgent (ECopy PReadConn); AgentClose;
  OnAgent (ESession (CDrain 0 DrainChunk)); OnAgent (ESession CSend);
  OnAgent (ESession (CDrain 0 DrainFIN)); OnAgent (ESession (CDrain 0 DrainFlushed)); OnAgent (ESession CSend);
  OnRelay (ESession (CFrame (data_frame 1 answer))); OnRelay (ECopy PReadStream); OnRelay (ECopy PWriteConn);
  OnRelay (ESession (CFrame (fin_frame 1)))].

Definition path_start : End BiCopy * End Forward := (new_end RoleRelay path_config, new_end RoleAgent path_config).
Definition path_run : End BiCopy * End Forward :=
  Eval vm_compute in default path_start (run_cmds 0 0 path_start (opening_schedule ++ request_schedule ++ answer_schedule)).

Lemma path_run_ok : path path_config path_config 0 0 path_run.1 path_run.2.
Proof.
  apply (run_cmds_sound path_config path_config 0 0 (opening_schedule ++ request_schedule ++ answer_schedule)
    path_start.1 path_start.2); [done..|constructor|by vm_compute].
Qed.

Definition run_relay : BiCopy := match e_use path_run.1 with Using t => t | _ => copyBidirectional (opened 0 (mkStreamConfig 0 0) []) new_conn end.
Definition run_agent : Forward := match e_use path_run.2 with Using t => t | _ => forward_dialed (opened 0 (mkStreamConfig 0 0) []) end.

Lemma path_run_once : once (e_mux path_run.1) (s_id (p_stream (b_pump run_relay))).
Proof.
  intros r1 r2 s1 s2 H1 H2 _ _.
  assert (∀ r x, m_heap (e_mux path_run.1) !! r = Some x → r = 0%nat) as Hone.
  { intros r x Hx. apply elem_of_dom_2 in Hx. revert Hx.
    change (dom (m_heap (e_mux path_run.1))) with ({[0%nat]} : gset nat). set_solver. }
  by rewrite (Hone r1 s1), (Hone r2 s2).
Qed.

Lemma path_delivery_witness :
  c_out (p_conn (f_pump run_agent)) = request ∧ c_out (p_conn (b_pump run_relay)) = answer ∧
  c_out (p_conn (f_pump run_agent)) `prefix_of` conn_received (e_log path_run.1) ∧
  c_out (p_conn (b_pump run_relay)) = conn_received (e_log path_run.2).
Proof.
  split; [by vm_compute|]. split; [by vm_compute|].
  destruct (path_delivery path_config path_config 0 0 path_run.1 path_run.2 run_relay run_agent
    eq_refl eq_refl path_run_ok eq_refl eq_refl eq_refl eq_refl path_run_once) as (H1 & _ & H3).
  split; [exact H1|]. by apply (H3 1%nat).
Defined.

(** A stream of a session with one chunk written, sent and closed moved as the
    stream machine does. *)
Lemma session_refines_streams_witness :
  ∃ payload evs s, m_heap m_done !! 0%nat = Some s ∧
    osteps (opened 1 (mkStreamConfig 65536 0) payload) evs s ∧ chunks_written evs = [[x61; x62]] ∧ SClose ∈ evs.
Proof.
  destruct (m_heap m_done !! 0%nat) as [s|] eqn:E; [|by vm_compute in E].
  destruct (session_refines_streams RoleRelay demo_config es_done m_done 0 s demo_fits run_done E)
    as (payload & evs & H1 & _ & _ & H3 & H4).
  exists payload, evs, s. split; [done|]. split; [|split; [rewrite H3; by vm_compute|apply H4; apply (bool_decide_unpack _); by vm_compute]].
  assert (s_id s = 1) as E1 by (vm_compute in E; by injection E as <-). by rewrite E1 in H1.
Defined.
