(* ===== verification/AgentClient.v ===== *)
(** * The agent's connection: [pkg/agent/client.go], [client_impl.go]

    TunnelClient: Connect, Reconnect, Close, and the heartbeat goroutines. The
    connections live in a heap, because a connection that the client has let
    go of still has its goroutines; so do the heartbeats. Whether a dial
    succeeds, when timers fire and which case of a select is taken are
    arguments of the steps. *)

From Stdlib Require Import ZArith Lia SpecFloat.
From S2P Require Import Prelude Frame Window WriteQueue Stream Mux MuxInv MuxOps Backoff.

(** ** Data *)

Record ClientConfig := mkClientConfig {
  cc_RelayAddr : string;
  cc_ReconnectBackoff : Z;
  cc_MaxReconnectAttempts : Z;
  cc_HeartbeatInterval : Z;
  cc_HeartbeatTimeout : Z;
  cc_Services : list string
}.

Record ClientStatus := mkClientStatus {
  st_Connected : bool;
  st_RelayAddr : string;
  st_CustomerID : string;
  st_ConnectedAt : Z;
  st_StreamCount : Z;
  st_LastHeartbeat : Z
}.

(** A connection to the relay: its mux session, and whether the socket has been
    closed. *)
Record AgentConn := mkAgentConn { ac_mux : MuxSession; ac_closed : bool }.

(** A heartbeat goroutine: in its select, in Ping on a session with the channel
    it waits on, or returned; and whether its context is canceled. *)
Inductive HeartbeatPC := HBWait | HBPing (conn ch : nat) | HBDone.
Record Heartbeat := mkHeartbeat { hb_canceled : bool; hb_pc : HeartbeatPC }.

Record TunnelClient := mkClient {
  tc_config : ClientConfig;
  tc_backoff : BackoffConfig;
  tc_mux : option nat;                     (* the connection of c.mux *)
  tc_conn : option nat;                    (* the connection of c.conn *)
  tc_status : ClientStatus;
  tc_heartbeatStop : option nat;           (* the heartbeat it cancels *)
  tc_closed : bool;
  tc_disconnectCh : bool;                  (* chan struct{}, 1: a token is buffered *)
  tc_conns : gmap nat AgentConn;
  tc_heartbeats : gmap nat Heartbeat
}.

Definition set_connected (b : bool) (s : ClientStatus) : ClientStatus :=
  mkClientStatus b (st_RelayAddr s) (st_CustomerID s) (st_ConnectedAt s) (st_StreamCount s)
    (st_LastHeartbeat s).

(** [func NewClient(cfg ClientConfig, logger, opts) *TunnelClient] *)
Definition NewClient (cfg : ClientConfig) : TunnelClient :=
  let b := DefaultBackoffConfig in
  mkClient cfg
    (if bool_decide (cc_ReconnectBackoff cfg > 0)
     then mkBackoff (cc_ReconnectBackoff cfg) (MaxInterval b) (Multiplier b) (JitterFraction b) else b)
    None None (mkClientStatus false (cc_RelayAddr cfg) "" 0 0 0) None false false ∅ ∅.

(** [WithBackoffConfig] *)
Definition WithBackoffConfig (b : BackoffConfig) (c : TunnelClient) : TunnelClient :=
  mkClient (tc_config c) b (tc_mux c) (tc_conn c) (tc_status c) (tc_heartbeatStop c) (tc_closed c)
    (tc_disconnectCh c) (tc_conns c) (tc_heartbeats c).

Inductive ClientErr :=
| ErrClientClosed
| ErrDial
| ErrReconnectCanceled
| ErrExhausted (attempts : Z).

Definition set_conns (x : gmap nat AgentConn) (c : TunnelClient) : TunnelClient :=
  mkClient (tc_config c) (tc_backoff c) (tc_mux c) (tc_conn c) (tc_status c) (tc_heartbeatStop c)
    (tc_closed c) (tc_disconnectCh c) x (tc_heartbeats c).
Definition set_heartbeats (x : gmap nat Heartbeat) (c : TunnelClient) : TunnelClient :=
  mkClient (tc_config c) (tc_backoff c) (tc_mux c) (tc_conn c) (tc_status c) (tc_heartbeatStop c)
    (tc_closed c) (tc_disconnectCh c) (tc_conns c) x.
Definition set_disconnectCh (x : bool) (c : TunnelClient) : TunnelClient :=
  mkClient (tc_config c) (tc_backoff c) (tc_mux c) (tc_conn c) (tc_status c) (tc_heartbeatStop c)
    (tc_closed c) x (tc_conns c) (tc_heartbeats c).

(** ** Connecting *)

(** The MuxConfig of Connect. *)
Definition client_mux_config (cfg : ClientConfig) : MuxConfig :=
  mkMuxConfig 50 262144 1048576 (cc_HeartbeatInterval cfg) (cc_HeartbeatTimeout cfg) 60000000000.

(** The session of a new connection, with the service list sent on it. *)
Definition new_session (cfg : ClientConfig) : MuxSession :=
  let mux := NewMuxSession RoleAgent (client_mux_config cfg) in
  match cc_Services cfg with [] => mux | services => (SendServiceList mux services).1 end.

(** The test at the beginning of Connect. *)
Definition Connect_check (c : TunnelClient) : result ClientErr unit :=
  if tc_closed c then Err ErrClientClosed else Ok tt.

(** Connect after a successful dial. The heartbeat returns at once when no
    interval is configured. *)
Definition Connect_dialed (c : TunnelClient) (now : Z) : TunnelClient :=
  let conn := fresh (dom (tc_conns c)) in
  let hb := fresh (dom (tc_heartbeats c)) in
  let s := tc_status c in
  mkClient (tc_config c) (tc_backoff c) (Some conn) (Some conn)
    (mkClientStatus true (st_RelayAddr s) (st_CustomerID s) now (st_StreamCount s) (st_LastHeartbeat s))
    (Some hb) (tc_closed c) (tc_disconnectCh c)
    (<[conn := mkAgentConn (new_session (tc_config c)) false]> (tc_conns c))
    (<[hb := mkHeartbeat false
               (if bool_decide (cc_HeartbeatInterval (tc_config c) <= 0) then HBDone else HBWait)]>
       (tc_heartbeats c)).

(** [func (c *TunnelClient) Connect(ctx) error]; [dialed] is the time when the
    dial succeeds. *)
Definition Connect (c : TunnelClient) (dialed : option Z) : TunnelClient * result ClientErr unit :=
  match Connect_check c, dialed with
  | Err e, _ => (c, Err e)
  | Ok _, None => (c, Err ErrDial)
  | Ok _, Some now => (Connect_dialed c now, Ok tt)
  end.

(** ** Tearing down *)

(** [mux.GoAway(0); mux.Close()], and [conn.Close()]. *)
Definition close_conn (a : AgentConn) : AgentConn := mkAgentConn (Mux.Close (GoAway (ac_mux a) 0)) true.

Definition cancel_heartbeat (h : Heartbeat) : Heartbeat := mkHeartbeat true (hb_pc h).

Definition alter_opt {A} (f : A → A) (i : option nat) (m : gmap nat A) : gmap nat A :=
  match i with Some i => alter f i m | None => m end.

(** [func (c *TunnelClient) teardown()] *)
Definition teardown (c : TunnelClient) : TunnelClient :=
  mkClient (tc_config c) (tc_backoff c) None None (set_connected false (tc_status c)) None (tc_closed c)
    (tc_disconnectCh c)
    (alter_opt close_conn (tc_mux c) (tc_conns c))
    (alter_opt cancel_heartbeat (tc_heartbeatStop c) (tc_heartbeats c)).

(** [func (c *TunnelClient) Close() error] *)
Definition ClientClose (c : TunnelClient) : TunnelClient :=
  if tc_closed c then c
  else
    teardown (mkClient (tc_config c) (tc_backoff c) (tc_mux c) (tc_conn c) (tc_status c)
                (tc_heartbeatStop c) true (tc_disconnectCh c) (tc_conns c) (tc_heartbeats c)).

(** [func (c *TunnelClient) Status() ClientStatus] *)
Definition Status (c : TunnelClient) : ClientStatus :=
  let s := tc_status c in
  match tc_mux c ≫= λ i, tc_conns c !! i with
  | Some a =>
      mkClientStatus (st_Connected s) (st_RelayAddr s) (st_CustomerID s) (st_ConnectedAt s)
        (NumStreams (ac_mux a)) (st_LastHeartbeat s)
  | None => s
  end.

(** ** Reconnecting *)

(** What an attempt meets: the context is done during its delay, or the delay
    passes and the dial fails, or succeeds at a time. *)
Inductive attempt := AttemptCanceled | AttemptDial (dialed : option Z).

(** The loop of Reconnect, from attempt [k] on, [fuel] attempts left. *)
Fixpoint reconnect_loop (fuel : nat) (k : nat) (outcome : nat → attempt) (maxAttempts : Z)
    (c : TunnelClient) : TunnelClient * result ClientErr unit :=
  match fuel with
  | O => (c, Err (ErrExhausted maxAttempts))
  | S fuel =>
      match outcome k with
      | AttemptCanceled => (c, Err ErrReconnectCanceled)
      | AttemptDial dialed =>
          match Connect c dialed with
          | (c', Ok _) => (c', Ok tt)
          | (c', Err _) => reconnect_loop fuel (S k) outcome maxAttempts c'
          end
      end
  end.

Definition max_attempts (cfg : ClientConfig) : Z :=
  if bool_decide (cc_MaxReconnectAttempts cfg <= 0) then 10 else cc_MaxReconnectAttempts cfg.

(** [func (c *TunnelClient) Reconnect(ctx) error] *)
Definition Reconnect (c : TunnelClient) (outcome : nat → attempt) : TunnelClient * result ClientErr unit :=
  let n := max_attempts (tc_config c) in
  reconnect_loop (Z.to_nat n) 0 outcome n (teardown c).

(** ** The heartbeat *)

Definition set_hb (h : nat) (hb : Heartbeat) (c : TunnelClient) : TunnelClient :=
  set_heartbeats (<[h := hb]> (tc_heartbeats c)) c.

(** [case <-ticker.C], up to the wait in Ping. *)
Definition heartbeat_tick (c : TunnelClient) (h : nat) (now : Z) : option TunnelClient :=
  match tc_heartbeats c !! h with
  | Some (mkHeartbeat canceled HBWait) =>
      match tc_mux c ≫= λ i, pair i <$> tc_conns c !! i with
      | None => Some (set_hb h (mkHeartbeat canceled HBDone) c)
      | Some (i, a) =>
          let m := Ping_begin (ac_mux a) now in
          Some (set_hb h (mkHeartbeat canceled (HBPing i (default 0%nat (m_pingCh m))))
                  (set_conns (<[i := mkAgentConn m (ac_closed a)]> (tc_conns c)) c))
      end
  | _ => None
  end.

(** [case <-ctx.Done()] *)
Definition heartbeat_stop (c : TunnelClient) (h : nat) : option TunnelClient :=
  match tc_heartbeats c !! h with
  | Some (mkHeartbeat true HBWait) => Some (set_hb h (mkHeartbeat true HBDone) c)
  | _ => None
  end.

(** Ping returned a latency. *)
Definition heartbeat_pong (c : TunnelClient) (h : nat) (now : Z) : option TunnelClient :=
  match tc_heartbeats c !! h with
  | Some (mkHeartbeat canceled (HBPing i ch)) =>
      match tc_conns c !! i with
      | Some a =>
          match Ping_end (ac_mux a) ch with
          | Some m =>
              let s := tc_status c in
              Some (set_hb h (mkHeartbeat canceled HBWait)
                (mkClient (tc_config c) (tc_backoff c) (tc_mux c) (tc_conn c)
                   (mkClientStatus (st_Connected s) (st_RelayAddr s) (st_CustomerID s)
                      (st_ConnectedAt s) (st_StreamCount s) now)
                   (tc_heartbeatStop c) (tc_closed c) (tc_disconnectCh c)
                   (<[i := mkAgentConn m (ac_closed a)]> (tc_conns c)) (tc_heartbeats c)))
          | None => None
          end
      | None => None
      end
  | _ => None
  end.

(** Ping returned an error: a timeout, the context, or a closed session; the
    send on [disconnectCh] does not block. *)
Definition heartbeat_fail (c : TunnelClient) (h : nat) : option TunnelClient :=
  match tc_heartbeats c !! h with
  | Some (mkHeartbeat canceled (HBPing _ _)) =>
      Some (set_disconnectCh true (set_hb h (mkHeartbeat canceled HBDone) c))
  | _ => None
  end.

(** ** Histories

    The calls the program makes: main connects a new client, the tunnel
    reconnects, main closes; Reconnect is a teardown followed by attempts of
    Connect, so Connect is only called on a client without a connection. A
    session that closes itself closes its socket. *)

Inductive klabel :=
| KTeardown
| KConnect (ok : bool)
| KClose
| KHeartbeat (h : nat)
| KDisconnect                       (* a receive from DisconnectCh *)
| KSession (i : nat) (e : mlabel).

Inductive kstep : TunnelClient → klabel → TunnelClient → Prop :=
| kstep_teardown c : kstep c KTeardown (teardown c)
| kstep_connect c dialed c' r :
    tc_mux c = None → Connect c dialed = (c', r) → kstep c (KConnect (is_ok r)) c'
| kstep_close c : kstep c KClose (ClientClose c)
| kstep_tick c h now c' : heartbeat_tick c h now = Some c' → kstep c (KHeartbeat h) c'
| kstep_hb_stop c h c' : heartbeat_stop c h = Some c' → kstep c (KHeartbeat h) c'
| kstep_pong c h now c' : heartbeat_pong c h now = Some c' → kstep c (KHeartbeat h) c'
| kstep_fail c h c' : heartbeat_fail c h = Some c' → kstep c (KHeartbeat h) c'
| kstep_disconnect c : tc_disconnectCh c = true → kstep c KDisconnect (set_disconnectCh false c)
| kstep_session c i a e m :
    tc_conns c !! i = Some a → mstep (ac_mux a) e m →
    kstep c (KSession i e)
      (set_conns (<[i := mkAgentConn m (ac_closed a || m_closeCh m)]> (tc_conns c)) c).

Inductive ksteps : TunnelClient → list klabel → TunnelClient → Prop :=
| ksteps_nil c : ksteps c [] c
| ksteps_snoc c ls c1 l c2 : ksteps c ls c1 → kstep c1 l c2 → ksteps c (ls ++ [l]) c2.

(** ** The invariant *)

(** A connection that has been let go of is closed; a heartbeat that has been
    let go of is canceled or has returned. *)
Definition conn_over (a : AgentConn) : Prop := m_closeCh (ac_mux a) = true ∧ ac_closed a = true.
Definition hb_over (h : Heartbeat) : Prop := hb_canceled h = true ∨ hb_pc h = HBDone.

Definition held {A} (over : A → Prop) (cur : option nat) (m : gmap nat A) : Prop :=
  (∀ i, cur = Some i → is_Some (m !! i)) ∧
  (∀ i x, m !! i = Some x → cur = Some i ∨ over x).

Lemma held_insert {A} (over : A → Prop) cur m i x y :
  held over cur m → m !! i = Some x → (over x → over y) → held over cur (<[i := y]> m).
Proof.
  intros [H1 H2] Hi Hxy. split.
  - intros j Hj. destruct (decide (j = i)) as [->|]; simplify_map_eq; eauto.
  - intros j z. rewrite lookup_insert_Some. intros [[<- <-]|[? Hz]]; [|eauto].
    destruct (H2 _ _ Hi); auto.
Qed.

Lemma held_new {A} (over : A → Prop) m i x :
  held over None m → m !! i = None → held over (Some i) (<[i := x]> m).
Proof.
  intros [_ H2] Hi. split.
  - intros j [= <-]. by simplify_map_eq.
  - intros j z. rewrite lookup_insert_Some. intros [[<- _]|[? Hz]]; [by left|].
    destruct (H2 _ _ Hz); [done|by right].
Qed.

Lemma held_drop {A} (over : A → Prop) (f : A → A) cur m :
  held over cur m → (∀ x, over (f x)) → held over None (alter_opt f cur m).
Proof.
  intros [H1 H2] Hf. split; [done|]. intros j z Hz. right. destruct cur as [i|]; cbn in Hz.
  - apply lookup_alter_Some in Hz as [(-> & x & Hx & ->)|[Hn Hz]]; [done|].
    destruct (H2 _ _ Hz); congruence || done.
  - by destruct (H2 _ _ Hz).
Qed.

Record client_inv (c : TunnelClient) : Prop := {
  ci_conn : tc_conn c = tc_mux c;
  ci_status : st_Connected (tc_status c) = bool_decide (is_Some (tc_mux c));
  ci_heartbeat : is_Some (tc_heartbeatStop c) ↔ is_Some (tc_mux c);
  ci_closed : tc_closed c = true → tc_mux c = None;
  ci_conns : held conn_over (tc_mux c) (tc_conns c);
  ci_hbs : held hb_over (tc_heartbeatStop c) (tc_heartbeats c)
}.

Lemma NewClient_inv cfg : client_inv (NewClient cfg).
Proof. split; cbn; try done; by split. Qed.

Lemma close_conn_over a : conn_over (close_conn a).
Proof. split; [apply Close_closeCh|done]. Qed.

Lemma cancel_heartbeat_over h : hb_over (cancel_heartbeat h).
Proof. by left. Qed.

Lemma teardown_inv c : client_inv c → client_inv (teardown c).
Proof.
  intros [H1 H2 H3 H4 H5 H6]. split; cbn; try done; eauto using held_drop, close_conn_over, cancel_heartbeat_over.
Qed.

Lemma ClientClose_inv c : client_inv c → client_inv (ClientClose c).
Proof.
  intros I. unfold ClientClose. destruct (tc_closed c) eqn:E; [done|].
  pose proof (teardown_inv c I) as [H1 H2 H3 H4 H5 H6]. by split.
Qed.

Lemma Connect_dialed_inv c now :
  client_inv c → tc_mux c = None → tc_closed c = false → client_inv (Connect_dialed c now).
Proof.
  intros [H1 H2 H3 H4 H5 H6] Em Ec.
  assert (tc_heartbeatStop c = None) as Eh.
  { destruct (tc_heartbeatStop c); [|done]. rewrite Em in H3. destruct H3 as [[? [=]] _]; eauto. }
  rewrite Em in H5. rewrite Eh in H6.
  split; cbn; try done; [congruence|..]; (apply held_new; [done|]); apply not_elem_of_dom, is_fresh.
Qed.

Lemma Connect_inv c dialed c' r :
  client_inv c → tc_mux c = None → Connect c dialed = (c', r) → client_inv c'.
Proof.
  intros I Em. unfold Connect, Connect_check. destruct (tc_closed c) eqn:Ec, dialed; intros [= <- <-]; try done.
  by apply Connect_dialed_inv.
Qed.

(** Steps that keep the fields and touch one connection and one heartbeat. *)
Lemma client_inv_update c c' :
  client_inv c →
  tc_mux c' = tc_mux c → tc_conn c' = tc_conn c → tc_heartbeatStop c' = tc_heartbeatStop c →
  tc_closed c' = tc_closed c → st_Connected (tc_status c') = st_Connected (tc_status c) →
  held conn_over (tc_mux c) (tc_conns c') → held hb_over (tc_heartbeatStop c) (tc_heartbeats c') →
  client_inv c'.
Proof. intros [H1 H2 H3 H4 H5 H6] E1 E2 E3 E4 E5 Hc Hh. split; rewrite ?E1, ?E2, ?E3, ?E4, ?E5; done. Qed.

Lemma heartbeat_inv c h now c' :
  client_inv c →
  heartbeat_tick c h now = Some c' ∨ heartbeat_stop c h = Some c' ∨
  heartbeat_pong c h now = Some c' ∨ heartbeat_fail c h = Some c' →
  client_inv c'.
Proof.
  intros I Hor. unfold heartbeat_tick, heartbeat_stop, heartbeat_pong, heartbeat_fail in Hor.
  destruct (tc_heartbeats c !! h) as [[canceled pc]|] eqn:Eh; [|naive_solver].
  assert (∀ pc', pc' = HBDone ∨ pc ≠ HBDone →
    held hb_over (tc_heartbeatStop c) (<[h := mkHeartbeat canceled pc']> (tc_heartbeats c))) as Hh.
  { intros pc' Hpc. eapply held_insert; [apply I|done|]. unfold hb_over. cbn. naive_solver. }
  destruct Hor as [H|[H|[H|H]]]; destruct pc as [|i ch|]; try done; try (by destruct canceled).
  - destruct (tc_mux c ≫= _) as [[i a]|] eqn:Em; simplify_eq.
    + apply bind_Some in Em as (j & Ej & Hj). destruct (tc_conns c !! j) eqn:Ea; simplify_eq/=.
      apply (client_inv_update c); try done; [|cbn; apply Hh; auto].
      cbn. eapply held_insert; [apply I|done|]. by intros [? ?].
    + apply (client_inv_update c); try done; [apply I|cbn; auto].
  - destruct canceled; [|done]. simplify_eq. apply (client_inv_update c); try done; [apply I|cbn; auto].
  - destruct (tc_conns c !! i) as [a|] eqn:Ea; [|done].
    unfold Ping_end in H. case_bool_decide; [|done]. simplify_eq.
    apply (client_inv_update c); try done; [|cbn; apply Hh; auto].
    cbn. eapply held_insert; [apply I|done|]. by intros [? ?].
  - simplify_eq. apply (client_inv_update c); try done; [apply I|cbn; auto].
Qed.

Lemma kstep_inv c l c' : client_inv c → kstep c l c' → client_inv c'.
Proof.
  intros I Hs.
  destruct Hs as [|? ? ? ? Em Hc| |c h now c' Hh|c h c' Hh|c h now c' Hh|c h c' Hh|c Hd|c i a e m Ha He];
    eauto using teardown_inv, Connect_inv, ClientClose_inv.
  1-4: eapply (heartbeat_inv c h ltac:(first [exact now|exact 0])); eauto.
  - by apply (client_inv_update c); try done; apply I.
  - apply (client_inv_update c); try done; [|apply I]. cbn. eapply held_insert; [apply I|done|].
    intros [Hc Hcl]. split; cbn; [by eapply mstep_closeCh|by rewrite Hcl].
Qed.

Lemma ksteps_inv cfg ls c : ksteps (NewClient cfg) ls c → client_inv c.
Proof.
  intros Hs. remember (NewClient cfg) as c0. induction Hs; subst; eauto using NewClient_inv, kstep_inv.
Qed.

(** Every session of the client, current or let go of, satisfies the invariant
    of sessions, in the agent's role and with the limit of Connect. *)
Definition session_ok (a : AgentConn) : Prop :=
  mux_inv (ac_mux a) ∧ m_role (ac_mux a) = RoleAgent ∧ MaxConcurrentStreams (m_config (ac_mux a)) = 50.
Definition sessions_ok (cfg : ClientConfig) (c : TunnelClient) : Prop :=
  tc_config c = cfg ∧ map_Forall (λ _, session_ok) (tc_conns c).

Lemma session_ok_fits a : session_ok a → fits_ids (m_role (ac_mux a)) (m_config (ac_mux a)).
Proof. intros (_ & E1 & E2). unfold fits_ids. rewrite E1, E2. cbn. lia. Qed.

Lemma session_ok_step a m closed :
  session_ok a → mux_inv m → same_setup (ac_mux a) m → session_ok (mkAgentConn m closed).
Proof. intros (_ & E1 & E2) I [F1 F2]. unfold session_ok. cbn. rewrite F1, F2. done. Qed.

Lemma new_session_ok cfg : session_ok (mkAgentConn (new_session cfg) false).
Proof.
  assert (mux_inv (new_session cfg) ∧ m_role (new_session cfg) = RoleAgent ∧
          MaxConcurrentStreams (m_config (new_session cfg)) = 50) as K; [|exact K].
  unfold new_session. destruct (cc_Services cfg) as [|s l]; [split_and!; [apply NewMuxSession_inv|done..]|].
  unfold SendServiceList. repeat case_match; split_and!; by first [apply NewMuxSession_inv|done].
Qed.

Lemma close_conn_ok a : session_ok a → session_ok (close_conn a).
Proof.
  intros Ha. pose proof Ha as (I & _). assert (mux_inv (GoAway (ac_mux a) 0)) as I1 by exact I.
  eapply session_ok_step; [done|by apply inv_Close|]. change (same_setup (GoAway (ac_mux a) 0) (Mux.Close (GoAway (ac_mux a) 0))).
  apply Close_setup.
Qed.

Lemma teardown_sessions cfg c : sessions_ok cfg c → sessions_ok cfg (teardown c).
Proof.
  intros [E H]. split; [done|]. cbn. destruct (tc_mux c) as [i|]; [|done]. cbn. intros j a.
  rewrite lookup_alter_Some. intros [(-> & b & Hb & ->)|[_ Hj]]; [by eapply close_conn_ok, H|by eapply H].
Qed.

Lemma ClientClose_sessions cfg c : sessions_ok cfg c → sessions_ok cfg (ClientClose c).
Proof.
  intros Hs. unfold ClientClose. destruct (tc_closed c); [done|].
  apply (teardown_sessions cfg (mkClient _ _ _ _ _ _ _ _ _ _)). done.
Qed.

Lemma Connect_sessions cfg c dialed c' r : Connect c dialed = (c', r) → sessions_ok cfg c → sessions_ok cfg c'.
Proof.
  unfold Connect. intros H [E Hs]. repeat case_match; simplify_eq; [|done..].
  split; [done|]. apply map_Forall_insert_2; [apply new_session_ok|done].
Qed.

Lemma kstep_sessions cfg c l c' : kstep c l c' → sessions_ok cfg c → sessions_ok cfg c'.
Proof.
  intros Hs Hc. pose proof Hc as [E H].
  destruct Hs as [|? ? ? ? Em Hr| |c h now c' Hh|c h c' Hh|c h now c' Hh|c h c' Hh|c Hd|c i a e m Ha He];
    eauto using teardown_sessions, Connect_sessions, ClientClose_sessions.
  - revert Hh. unfold heartbeat_tick. destruct (tc_heartbeats c !! h) as [[canceled []]|]; try done.
    destruct (tc_mux c ≫= _) as [[i a]|] eqn:Em; intros [= <-]; [|done]. split; [done|].
    apply bind_Some in Em as (j & _ & Hj). destruct (tc_conns c !! j) eqn:Ea; simplify_eq/=.
    apply map_Forall_insert_2; [|done]. pose proof (H _ _ Ea) as Hok. cbn in Hok.
    eapply session_ok_step; [done|eapply mstep_inv; [by apply session_ok_fits|apply Hok|by apply (mstep_ping _ now)]|done].
  - revert Hh. unfold heartbeat_stop. repeat case_match; intros; simplify_eq; done.
  - revert Hh. unfold heartbeat_pong. destruct (tc_heartbeats c !! h) as [[canceled [|i ch|]]|]; try done.
    destruct (tc_conns c !! i) as [a|] eqn:Ea; [|done]. unfold Ping_end. case_bool_decide; [|done]. intros [= <-]. split; [done|].
    apply map_Forall_insert_2; [|done]. exact (H _ _ Ea).
  - revert Hh. unfold heartbeat_fail. repeat case_match; intros; simplify_eq; done.
  - split; [done|]. apply map_Forall_insert_2; [|done]. pose proof (H _ _ Ha) as Hok. cbn in Hok.
    eapply session_ok_step; [done|eapply mstep_inv; [by apply session_ok_fits|apply Hok|done]|by eapply mstep_setup].
Qed.

Lemma ksteps_sessions cfg ls c : ksteps (NewClient cfg) ls c → sessions_ok cfg c.
Proof.
  intros Hs. remember (NewClient cfg) as c0. induction Hs; subst; eauto using kstep_sessions.
  split; [done|]. apply map_Forall_empty.
Qed.

(** ** Theorems *)

(** C18. One connection and one heartbeat. Whatever the client is asked to do,
    whatever its sessions and heartbeats do, it reports itself connected
    exactly when it holds a connection, the session and the socket it holds
    belong together, every other connection it ever made is closed and every
    other heartbeat it ever started is canceled or has returned; a closed
    client holds none. *)
Theorem client_one_connection cfg ls c :
  ksteps (NewClient cfg) ls c →
  st_Connected (Status c) = bool_decide (is_Some (tc_mux c)) ∧ tc_conn c = tc_mux c ∧
  (∀ i a, tc_conns c !! i = Some a →
     tc_mux c = Some i ∨ m_closeCh (ac_mux a) = true ∧ ac_closed a = true) ∧
  (∀ h hb, tc_heartbeats c !! h = Some hb →
     tc_heartbeatStop c = Some h ∨ hb_canceled hb = true ∨ hb_pc hb = HBDone) ∧
  (tc_closed c = true → tc_mux c = None ∧ tc_heartbeatStop c = None).
Proof.
  intros [H1 H2 H3 H4 [_ H5] [_ H6]]%ksteps_inv. split_and!; try done.
  - unfold Status. by destruct (tc_mux c ≫= _).
  - intros E%H4. split; [done|]. rewrite E in H3. destruct (tc_heartbeatStop c); [|done].
    destruct H3 as [[? [=]] _]; eauto.
Qed.

(** An attempt that does not lead to a connection. *)
Definition attempt_fails (c : TunnelClient) (a : attempt) : Prop :=
  ∃ dialed, a = AttemptDial dialed ∧ (tc_closed c = true ∨ dialed = None).

Lemma reconnect_loop_spec fuel k outcome n c c' r :
  reconnect_loop fuel k outcome n c = (c', r) →
  ∃ j, (j <= fuel)%nat ∧ (∀ i, (k <= i < k + j)%nat → attempt_fails c (outcome i)) ∧
  match r with
  | Ok _ => (j < fuel)%nat ∧ tc_closed c = false ∧
            ∃ now, outcome (k + j)%nat = AttemptDial (Some now) ∧ c' = Connect_dialed c now
  | Err e => c' = c ∧ (e = ErrReconnectCanceled ∧ (j < fuel)%nat ∧ outcome (k + j)%nat = AttemptCanceled ∨
                       e = ErrExhausted n ∧ j = fuel)
  end.
Proof.
  revert k. induction fuel as [|fuel IH]; intros k; cbn.
  { intros [= <- <-]. exists 0%nat. split_and!; [lia| |done|by right]. intros. lia. }
  destruct (outcome k) as [|dialed] eqn:Eo.
  { intros [= <- <-]. exists 0%nat. rewrite Nat.add_0_r.
    split_and!; [lia| |done|left; split_and!; [done|lia|done]]. intros. lia. }
  match goal with |- _ → ?G =>
    assert (attempt_fails c (outcome k) → reconnect_loop fuel (S k) outcome n c = (c', r) → G) as Hnext end.
  { intros Hf H. destruct (IH _ H) as (j & Hj & Ha & Hr). exists (S j).
    replace (k + S j)%nat with (S k + j)%nat by lia. split; [lia|]. split.
    - intros i Hi. destruct (decide (i = k)) as [->|]; [done|]. apply Ha. lia.
    - destruct r; [destruct Hr as (? & ? & ?); split_and!; [lia|done..]|].
      destruct Hr as (-> & [(-> & ? & ?)|(-> & ->)]); split; auto; left; split_and!; auto; lia. }
  unfold Connect, Connect_check. destruct (tc_closed c) eqn:Ec.
  { apply Hnext. exists dialed. auto. }
  destruct dialed as [now|]; [|apply Hnext; exists None; auto].
  intros [= <- <-]. exists 0%nat. rewrite Nat.add_0_r. split_and!; [lia|intros; lia|lia|done|by exists now].
Qed.

(** Reconnect, on every branch: it first lets go of the connection it has;
    it succeeds with exactly one new connection at the first attempt whose dial
    succeeds; it gives up when the context is done before that, or after
    max_attempts failed attempts, and then holds no connection. A closed client
    does not connect again. *)
Theorem reconnect_branches c outcome c' r :
  Reconnect c outcome = (c', r) →
  let n := max_attempts (tc_config c) in
  ∃ k, Z.of_nat k <= n ∧ (∀ j, (j < k)%nat → attempt_fails c (outcome j)) ∧
  match r with
  | Ok _ => Z.of_nat k < n ∧ tc_closed c = false ∧
            ∃ now, outcome k = AttemptDial (Some now) ∧ c' = Connect_dialed (teardown c) now
  | Err e => c' = teardown c ∧ (e = ErrReconnectCanceled ∧ Z.of_nat k < n ∧ outcome k = AttemptCanceled ∨
                                e = ErrExhausted n ∧ Z.of_nat k = n)
  end.
Proof.
  intros H. cbn zeta. assert (0 < max_attempts (tc_config c)) as Hn.
  { unfold max_attempts. case_bool_decide; lia. }
  destruct (reconnect_loop_spec _ _ _ _ _ _ _ H) as (k & Hk & Ha & Hr). exists k. split; [lia|].
  split; [intros j Hj; apply (Ha j); lia|]. cbn in Hr.
  destruct r; [destruct Hr as (? & ? & ?); split_and!; [lia|done..]|].
  destruct Hr as (-> & [(-> & ? & ?)|(-> & ->)]); split; auto; [left; split_and!; auto; lia|right; split; [done|lia]].
Qed.

(** The race of Connect and Close. Connect tests [closed] before it dials; a
    Close during the dial finds nothing to tear down, and the connection that
    is made then is held by a closed client, with its heartbeat running, and
    no later Close lets go of it. *)
Theorem connect_close_race cfg ls c now :
  ksteps (NewClient cfg) ls c → tc_mux c = None → tc_closed c = false →
  Connect_check c = Ok tt ∧
  let c' := Connect_dialed (ClientClose c) now in
  tc_closed c' = true ∧ st_Connected (Status c') = true ∧ ClientClose c' = c' ∧
  ∃ i a, tc_mux c' = Some i ∧ tc_conns c' !! i = Some a ∧ ac_closed a = false ∧ m_closeCh (ac_mux a) = false.
Proof.
  intros _ Em Ec. unfold Connect_check, ClientClose. rewrite Ec. split; [done|]. cbn zeta.
  split; [done|]. split; [unfold Status; by case_match|]. split; [done|].
  eexists _, _. split; [done|]. split; [apply lookup_insert_eq|]. split; [done|]. cbn. unfold new_session.
  destruct (cc_Services (tc_config c)) as [|s l]; [done|]. unfold SendServiceList.
  by repeat case_match.
Qed.
