(* ===== verification/Tunnel.v ===== *)
(** * The agent's tunnel: [pkg/agent/tunnel.go], [tunnel_impl.go]

    TunnelRunner: the supervision loop of Start, the accept loop, the goroutines
    that forward (each one's work is in Forwarder.v), and Stop. The client with
    its heartbeats and sessions (AgentClient.v) runs alongside. *)

From Stdlib Require Import ZArith Lia SpecFloat.
From S2P Require Import Prelude Frame Window WriteQueue Stream Mux MuxInv MuxOps Backoff AgentClient.

(** ** Data *)

Record ServiceMapping := mkServiceMapping {
  sm_Name : string;
  sm_Protocol : string;
  sm_LocalAddr : string;
  sm_RelayPort : Z
}.

Record TunnelStats := mkTunnelStats { ActiveStreams : Z; TotalStreams : Z; Uptime : Z }.

Inductive TunnelErr := ErrReconnectFailed (e : ClientErr).

(** Where Start is: not called, about to enter acceptLoop, in it on the session
    of a connection with its acceptCtx canceled or not, past it, in Reconnect
    before an attempt, returned. *)
Inductive StartPC :=
| StartIdle
| StartLoop
| InAccept (conn : nat) (canceled : bool)
| AfterAccept
| Reconnecting (attempt : nat)
| StartReturned (r : result TunnelErr unit).

(** A goroutine that forwards a stream of a connection to an address. *)
Record ForwardJob := mkJob { j_conn : nat; j_stream : ref; j_target : string }.

Record Tunnel := mkTunnel {
  t_services : gmap string string;
  t_activeStreams : Z;                     (* int32 *)
  t_totalStreams : Z;                      (* int64 *)
  t_startTime : option Z;
  t_pc : StartPC;
  t_ctx : bool;                            (* the context of Start is done *)
  t_jobs : gmap nat ForwardJob;
  t_client : TunnelClient
}.

(** [func NewTunnel(client, fwdCfg, services, logger) *TunnelRunner] *)
Definition NewTunnel (client : TunnelClient) (services : list ServiceMapping) : Tunnel :=
  mkTunnel (foldl (λ m s, <[sm_Name s := sm_LocalAddr s]> m) ∅ services) 0 0 None StartIdle false ∅ client.

Definition set_pc (pc : StartPC) (t : Tunnel) : Tunnel :=
  mkTunnel (t_services t) (t_activeStreams t) (t_totalStreams t) (t_startTime t) pc (t_ctx t) (t_jobs t)
    (t_client t).
Definition set_client (c : TunnelClient) (t : Tunnel) : Tunnel :=
  mkTunnel (t_services t) (t_activeStreams t) (t_totalStreams t) (t_startTime t) (t_pc t) (t_ctx t)
    (t_jobs t) c.

(** [func (t *TunnelRunner) resolveTarget(stream) string], of the payload of the
    stream's STREAM_OPEN. *)
Definition resolveTarget (services : gmap string string) (payload : list byte) : string :=
  let single := match map_to_list services with [(_, addr)] => addr | _ => "" end in
  match payload with
  | [] => single
  | _ => match services !! string_of_bytes payload with Some addr => addr | None => single end
  end.

(** ** Start *)

(** [func (t *TunnelRunner) Start(ctx) error], up to its loop. *)
Definition Start_begin (t : Tunnel) (now : Z) : option Tunnel :=
  match t_pc t with
  | StartIdle =>
      Some (mkTunnel (t_services t) (t_activeStreams t) (t_totalStreams t) (Some now) StartLoop (t_ctx t)
              (t_jobs t) (t_client t))
  | _ => None
  end.

(** acceptLoop up to its loop: it returns an error without a connection. *)
Definition accept_enter (t : Tunnel) : option Tunnel :=
  match t_pc t with
  | StartLoop =>
      Some (set_pc (match tc_mux (t_client t) with Some i => InAccept i false | None => AfterAccept end) t)
  | _ => None
  end.

(** Write a session back into its connection. *)
Definition put_session (i : nat) (m : MuxSession) (a : AgentConn) (c : TunnelClient) : TunnelClient :=
  set_conns (<[i := mkAgentConn m (ac_closed a)]> (tc_conns c)) c.

(** A turn of the loop of acceptLoop in which AcceptStream returns a stream:
    reset it, or start forwarding it. *)
Definition accept_stream (t : Tunnel) : option Tunnel :=
  match t_pc t with
  | InAccept i canceled =>
      match tc_conns (t_client t) !! i with
      | None => None
      | Some a =>
          match AcceptStream (ac_mux a) with
          | None => None
          | Some (r, m) =>
              let payload := default [] (openPayload <$> m_heap m !! r) in
              let target := resolveTarget (t_services t) payload in
              if bool_decide (target = "")
              then Some (set_client (put_session i (StreamReset m r 1) a (t_client t)) t)
              else
                Some (mkTunnel (t_services t) (int32 (t_activeStreams t + 1)) (int64 (t_totalStreams t + 1))
                        (t_startTime t) (t_pc t) (t_ctx t)
                        (<[fresh (dom (t_jobs t)) := mkJob i r target]> (t_jobs t))
                        (put_session i m a (t_client t)))
          end
      end
  | _ => None
  end.

(** AcceptStream returns an error: the context is done or the session closed. *)
Definition accept_end (t : Tunnel) : option Tunnel :=
  match t_pc t with
  | InAccept i canceled =>
      let closed := match tc_conns (t_client t) !! i with Some a => m_closeCh (ac_mux a) | None => false end in
      if t_ctx t || canceled || closed then Some (set_pc AfterAccept t) else None
  | _ => None
  end.

(** The rest of a turn of Start: return when the context is done, otherwise take
    a disconnect token if there is one, and enter Reconnect, which tears the
    connection down. *)
Definition start_turn (t : Tunnel) : option Tunnel :=
  match t_pc t with
  | AfterAccept =>
      if t_ctx t then Some (set_pc (StartReturned (Ok tt)) t)
      else Some (set_client (teardown (set_disconnectCh false (t_client t))) (set_pc (Reconnecting 0) t))
  | _ => None
  end.

(** A turn of the loop of Reconnect: the context is done during the delay, or
    the delay passes and Connect is called. *)
Definition reconnect_turn (t : Tunnel) (a : attempt) : option Tunnel :=
  match t_pc t with
  | Reconnecting k =>
      let n := max_attempts (tc_config (t_client t)) in
      match a with
      | AttemptCanceled =>
          if t_ctx t then Some (set_pc (StartReturned (Err (ErrReconnectFailed ErrReconnectCanceled))) t) else None
      | AttemptDial dialed =>
          match Connect (t_client t) dialed with
          | (c, Ok _) => Some (set_client c (set_pc StartLoop t))
          | (c, Err _) =>
              if bool_decide (Z.of_nat (S k) < n) then Some (set_client c (set_pc (Reconnecting (S k)) t))
              else Some (set_client c (set_pc (StartReturned (Err (ErrReconnectFailed (ErrExhausted n)))) t))
          end
      end
  | _ => None
  end.

(** A forwarding goroutine ends. *)
Definition forward_end (t : Tunnel) (j : nat) : option Tunnel :=
  match t_jobs t !! j with
  | Some _ =>
      Some (mkTunnel (t_services t) (int32 (t_activeStreams t - 1)) (t_totalStreams t) (t_startTime t) (t_pc t)
              (t_ctx t) (delete j (t_jobs t)) (t_client t))
  | None => None
  end.

(** [func (t *TunnelRunner) Stop(ctx) error], up to the wait for [acceptStopped]:
    it cancels the context of the accept loop. *)
Definition Stop_cancel (t : Tunnel) : Tunnel :=
  match t_pc t with InAccept i _ => set_pc (InAccept i true) t | _ => t end.

(** That wait: [acceptStopped] is closed when Start has returned. *)
Definition acceptStopped (t : Tunnel) : bool :=
  match t_pc t with StartReturned _ => true | _ => false end.

(** [func (t *TunnelRunner) Stats() TunnelStats] *)
Definition Stats (t : Tunnel) (now : Z) : TunnelStats :=
  mkTunnelStats (t_activeStreams t) (t_totalStreams t)
    (match t_startTime t with Some start => now - start | None => 0 end).

(** ** Histories *)

Inductive tlabel :=
| TStart
| TAccept (forwarded : bool)
| TLoop                              (* Start moved on *)
| TReconnect                         (* Start let go of the connection, to reconnect *)
| TAttempt (ok : bool)               (* an attempt of Reconnect *)
| TForwardEnd
| TStop
| TCancel                            (* the context of Start is canceled *)
| TClient (l : klabel).              (* a heartbeat or a session moved on *)

Definition background (l : klabel) : bool :=
  match l with KHeartbeat _ | KSession _ _ => true | _ => false end.

Inductive tstep : Tunnel → tlabel → Tunnel → Prop :=
| tstep_start t now t' : Start_begin t now = Some t' → tstep t TStart t'
| tstep_enter t t' : accept_enter t = Some t' → tstep t TLoop t'
| tstep_accept t t' :
    accept_stream t = Some t' → tstep t (TAccept (bool_decide (size (t_jobs t) < size (t_jobs t'))%nat)) t'
| tstep_end t t' : accept_end t = Some t' → tstep t TLoop t'
| tstep_turn t t' : start_turn t = Some t' → tstep t (if t_ctx t then TLoop else TReconnect) t'
| tstep_canceled t t' : reconnect_turn t AttemptCanceled = Some t' → tstep t TLoop t'
| tstep_attempt t dialed t' :
    reconnect_turn t (AttemptDial dialed) = Some t' →
    tstep t (TAttempt (match t_pc t' with StartLoop => true | _ => false end)) t'
| tstep_forward_end t j t' : forward_end t j = Some t' → tstep t TForwardEnd t'
| tstep_stop t : tstep t TStop (Stop_cancel t)
| tstep_cancel t :
    tstep t TCancel (mkTunnel (t_services t) (t_activeStreams t) (t_totalStreams t) (t_startTime t) (t_pc t)
                       true (t_jobs t) (t_client t))
| tstep_client t l c : background l = true → kstep (t_client t) l c → tstep t (TClient l) (set_client c t).

Inductive tsteps : Tunnel → list tlabel → Tunnel → Prop :=
| tsteps_nil t : tsteps t [] t
| tsteps_snoc t ls t1 l t2 : tsteps t ls t1 → tstep t1 l t2 → tsteps t (ls ++ [l]) t2.

Lemma tsteps_cons t l t1 ls t2 : tstep t l t1 → tsteps t1 ls t2 → tsteps t (l :: ls) t2.
Proof.
  intros Hl Hs. induction Hs as [t1|t1 ls t3 l' t2 _ IH Hl'].
  - apply (tsteps_snoc t [] t); [constructor|done].
  - change (l :: ls ++ [l']) with ((l :: ls) ++ [l']). eapply tsteps_snoc; [by apply IH|done].
Qed.

(** ** The invariant *)

Definition is_accept (l : tlabel) : bool := match l with TAccept forwarded => forwarded | _ => false end.
Definition accepted_streams (ls : list tlabel) : nat := length (filter (λ l, is_accept l = true) ls).

Lemma accepted_snoc ls l :
  accepted_streams (ls ++ [l]) = (accepted_streams ls + (if is_accept l then 1 else 0))%nat.
Proof.
  unfold accepted_streams. rewrite filter_app, length_app, filter_cons, filter_nil.
  by destruct (is_accept l); case_decide.
Qed.

Lemma int32_add z k : int32 (int32 z + k) = int32 (z + k).
Proof.
  unfold int32, swrap. change (32 - 1) with 31.
  replace ((z + 2 ^ 31) mod 2 ^ 32 - 2 ^ 31 + k + 2 ^ 31) with ((z + 2 ^ 31) mod 2 ^ 32 + k) by lia.
  rewrite Z.add_mod_idemp_l by lia. do 2 f_equal. lia.
Qed.

Lemma int64_add z k : int64 (int64 z + k) = int64 (z + k).
Proof.
  unfold int64, swrap. change (64 - 1) with 63.
  replace ((z + 2 ^ 63) mod 2 ^ 64 - 2 ^ 63 + k + 2 ^ 63) with ((z + 2 ^ 63) mod 2 ^ 64 + k) by lia.
  rewrite Z.add_mod_idemp_l by lia. do 2 f_equal. lia.
Qed.

(** The attempts of Reconnect that failed since Start last let go of a
    connection. *)
Definition count_attempt (n : nat) (l : tlabel) : nat :=
  match l with TReconnect => 0 | TAttempt false => S n | _ => n end.
Definition failed_attempts (ls : list tlabel) : nat := foldl count_attempt 0%nat ls.

Lemma failed_snoc ls l : failed_attempts (ls ++ [l]) = count_attempt (failed_attempts ls) l.
Proof. unfold failed_attempts. by rewrite foldl_app. Qed.

(** Why Start gave up: its context was done while it was reconnecting, or every
    attempt it had was made and failed. *)
Definition gave_up (cfg : ClientConfig) (ls : list tlabel) (ctx : bool) (e : ClientErr) : Prop :=
  TReconnect ∈ ls ∧
  (e = ErrReconnectCanceled ∧ ctx = true ∨
   e = ErrExhausted (max_attempts cfg) ∧ Z.of_nat (failed_attempts ls) = max_attempts cfg).

Definition start_at (cfg : ClientConfig) (ls : list tlabel) (t : Tunnel) : Prop :=
  match t_pc t with
  | Reconnecting k =>
      TReconnect ∈ ls ∧ failed_attempts ls = k ∧ Z.of_nat k < max_attempts cfg ∧ tc_mux (t_client t) = None
  | StartReturned (Ok _) => t_ctx t = true
  | StartReturned (Err (ErrReconnectFailed e)) => gave_up cfg ls (t_ctx t) e ∧ tc_mux (t_client t) = None
  | _ => True
  end.

(** A step beside Start. *)
Lemma start_at_keep cfg ls l t t' :
  start_at cfg ls t → t_pc t' = t_pc t → (t_ctx t = true → t_ctx t' = true) →
  (tc_mux (t_client t) = None → tc_mux (t_client t') = None) →
  (∀ n, count_attempt n l = n) → start_at cfg (ls ++ [l]) t'.
Proof.
  intros Hs Ep Hx Hm Hl. unfold start_at, gave_up in *. rewrite Ep, failed_snoc, Hl.
  destruct (t_pc t) as [| | | |k|[|[e]]]; try done; try (rewrite elem_of_app); naive_solver.
Qed.

Record tunnel_inv (cfg : ClientConfig) (svcs : gmap string string) (ls : list tlabel) (t : Tunnel) : Prop := {
  ti_services : t_services t = svcs;
  ti_active : t_activeStreams t = int32 (Z.of_nat (size (t_jobs t)));
  ti_total : t_totalStreams t = int64 (Z.of_nat (accepted_streams ls));
  ti_start : start_at cfg ls t;
  ti_client : client_inv (t_client t);
  ti_sessions : sessions_ok cfg (t_client t)
}.

(** Heartbeats and sessions do not change which connection is held. *)
Lemma background_mux c l c' : background l = true → kstep c l c' → tc_mux c' = tc_mux c.
Proof.
  intros Hb Hs. destruct Hs as [| | |c h now c' H|c h c' H|c h now c' H|c h c' H| |]; try done; revert H.
  - unfold heartbeat_tick. repeat case_match; try done; by intros [= <-].
  - unfold heartbeat_stop. repeat case_match; try done; by intros [= <-].
  - unfold heartbeat_pong. repeat case_match; try done; by intros [= <-].
  - unfold heartbeat_fail. repeat case_match; try done; by intros [= <-].
Qed.

Lemma put_session_inv c i a m :
  client_inv c → tc_conns c !! i = Some a → m_closeCh m = m_closeCh (ac_mux a) →
  client_inv (put_session i m a c).
Proof.
  intros I Ha Hm. apply (client_inv_update c); try done; [|apply I]. cbn.
  eapply held_insert; [apply I|done|]. intros [Hc Hcl]. split; cbn; congruence.
Qed.

Lemma AcceptStream_closeCh m r m' : AcceptStream m = Some (r, m') → m_closeCh m' = m_closeCh m.
Proof. unfold AcceptStream. case_match; [done|]. by intros [= <- <-]. Qed.

Lemma put_session_ok cfg c i a m :
  sessions_ok cfg c → tc_conns c !! i = Some a → mux_inv m → same_setup (ac_mux a) m →
  sessions_ok cfg (put_session i m a c).
Proof.
  intros [E H] Ha I Hm. split; [done|]. apply map_Forall_insert_2; [|done].
  eapply session_ok_step; [exact (H _ _ Ha)|done..].
Qed.

Lemma AcceptStream_ok m r m' : AcceptStream m = Some (r, m') → mux_inv m → mux_inv m' ∧ same_setup m m'.
Proof. unfold AcceptStream. case_match; [done|]. by intros [= <- <-]. Qed.

Lemma accept_stream_inv cfg svcs ls t t' :
  tunnel_inv cfg svcs ls t → accept_stream t = Some t' →
  tunnel_inv cfg svcs (ls ++ [TAccept (bool_decide (size (t_jobs t) < size (t_jobs t'))%nat)]) t'.
Proof.
  intros [I1 I2 I3 I4 I5 I6] Hacc. pose proof Hacc as H. revert H. unfold accept_stream.
  destruct (t_pc t) as [| |i canceled| | |] eqn:Ep; try done.
  destruct (tc_conns (t_client t) !! i) as [a|] eqn:Ea; [|done].
  destruct (AcceptStream (ac_mux a)) as [[r m]|] eqn:Eacc; [|done].
  pose proof (AcceptStream_closeCh _ _ _ Eacc) as Hm. pose proof (proj2 I6 _ _ Ea) as [Hok _].
  destruct (AcceptStream_ok _ _ _ Eacc Hok) as [Hi Hset]. cbn zeta.
  case_bool_decide; intros [= <-]; (split; cbn; rewrite ?accepted_snoc; cbn; try done).
  - rewrite bool_decide_eq_false_2 by lia. by rewrite Nat.add_0_r.
  - unfold start_at. cbn. by rewrite Ep.
  - by apply put_session_inv; [..|rewrite StreamReset_closeCh].
  - apply put_session_ok; [done..|by apply inv_StreamReset|]. etrans; [done|]. apply StreamReset_setup.
  - rewrite map_size_insert_None by apply not_elem_of_dom, is_fresh. rewrite I2, int32_add. f_equal. lia.
  - rewrite map_size_insert_None by apply not_elem_of_dom, is_fresh.
    rewrite bool_decide_eq_true_2 by lia. rewrite I3, int64_add. f_equal. lia.
  - by apply put_session_inv.
  - by apply put_session_ok.
Qed.

(** A step of Start that touches neither counters nor jobs. *)
Lemma loop_inv cfg svcs ls l t pc c :
  tunnel_inv cfg svcs ls t → is_accept l = false → start_at cfg (ls ++ [l]) (set_client c (set_pc pc t)) →
  client_inv c → sessions_ok cfg c → tunnel_inv cfg svcs (ls ++ [l]) (set_client c (set_pc pc t)).
Proof. intros [I1 I2 I3 I4 I5 I6] Hl Hs Hc Ho. split; cbn; rewrite ?accepted_snoc, ?Hl, ?Nat.add_0_r; done. Qed.

Lemma start_turn_inv cfg svcs ls t t' :
  tunnel_inv cfg svcs ls t → start_turn t = Some t' →
  tunnel_inv cfg svcs (ls ++ [if t_ctx t then TLoop else TReconnect]) t'.
Proof.
  intros I. pose proof I as [I1 I2 I3 I4 I5 I6]. unfold start_turn. destruct (t_pc t) eqn:Ep; try done.
  destruct (t_ctx t) eqn:Ec; intros [= <-].
  - by apply (loop_inv cfg _ ls TLoop t _ (t_client t)).
  - apply loop_inv; [done..| | |].
    + unfold start_at. cbn. rewrite failed_snoc, elem_of_app, list_elem_of_singleton. cbn.
      split_and!; [by right|done| |done]. unfold max_attempts. case_bool_decide; lia.
    + apply teardown_inv. by apply (client_inv_update (t_client t)); try done; apply I5.
    + by apply teardown_sessions.
Qed.

Lemma reconnect_turn_inv cfg svcs ls t a t' l :
  tunnel_inv cfg svcs ls t → reconnect_turn t a = Some t' →
  l = match a with
      | AttemptCanceled => TLoop
      | AttemptDial _ => TAttempt (match t_pc t' with StartLoop => true | _ => false end)
      end →
  tunnel_inv cfg svcs (ls ++ [l]) t'.
Proof.
  intros I H ->. pose proof I as [I1 I2 I3 I4 I5 [I6 I7]]. revert H. unfold reconnect_turn.
  destruct (t_pc t) as [| | | |k|] eqn:Ep; try done. unfold start_at in I4. rewrite Ep in I4.
  destruct I4 as (H1 & H2 & H3 & H4). destruct a as [|dialed].
  { destruct (t_ctx t) eqn:Ec; intros [= <-]. apply (loop_inv cfg _ ls TLoop t _ (t_client t)); try done.
    unfold start_at, gave_up. cbn. rewrite elem_of_app. naive_solver. }
  destruct (Connect (t_client t) dialed) as [c r] eqn:Er.
  pose proof (Connect_inv _ _ _ _ I5 H4 Er) as J1. assert (sessions_ok cfg c) as J2 by (by eapply Connect_sessions).
  destruct r as [u|e]; [by intros [= <-]; apply loop_inv|].
  assert (c = t_client t) as ->.
  { revert Er. unfold Connect. repeat case_match; intros [= <-]; done. }
  rewrite I6. case_bool_decide as Hk; intros [= <-]; cbn; (apply loop_inv; try done); unfold start_at, gave_up; cbn;
    rewrite failed_snoc, elem_of_app, H2; cbn; [naive_solver|].
  split; [|done]. split; [by left|]. right. split; [done|]. lia.
Qed.

Lemma tstep_inv cfg svcs ls t l t' :
  tunnel_inv cfg svcs ls t → tstep t l t' → tunnel_inv cfg svcs (ls ++ [l]) t'.
Proof.
  intros I Hs. pose proof I as [I1 I2 I3 I4 I5 I6].
  destruct Hs as [t now t' H|t t' H|t t' H|t t' H|t t' H|t t' H|t dialed t' H|t j t' H|t|t|t l c Hb Hk];
    eauto using accept_stream_inv, start_turn_inv, reconnect_turn_inv.
  - unfold Start_begin in H. destruct (t_pc t) eqn:Ep; simplify_eq.
    split; cbn; rewrite ?accepted_snoc, ?Nat.add_0_r; done.
  - unfold accept_enter in H. destruct (t_pc t) eqn:Ep; simplify_eq.
    apply (loop_inv cfg _ ls TLoop t _ (t_client t)); try done. unfold start_at. cbn. by destruct (tc_mux (t_client t)).
  - unfold accept_end in H. destruct (t_pc t) eqn:Ep; try done. case_match; simplify_eq.
    by apply (loop_inv cfg _ ls TLoop t _ (t_client t)).
  - unfold forward_end in H. destruct (t_jobs t !! j) eqn:Ej; simplify_eq.
    split; cbn; rewrite ?accepted_snoc, ?Nat.add_0_r; try done; [|by eapply start_at_keep].
    rewrite I2, <-Z.add_opp_r, int32_add. f_equal.
    rewrite map_size_delete_Some by eauto.
    assert (size (t_jobs t) ≠ 0%nat); [|lia]. intros Hz%map_size_empty_inv. by rewrite Hz, lookup_empty in Ej.
  - unfold Stop_cancel. destruct (t_pc t) eqn:Ep; split; cbn; rewrite ?accepted_snoc, ?Nat.add_0_r; try done;
      by eapply start_at_keep.
  - split; cbn; rewrite ?accepted_snoc, ?Nat.add_0_r; try done. by eapply start_at_keep.
  - split; cbn; rewrite ?accepted_snoc, ?Nat.add_0_r; [done..| |by eapply kstep_inv|by eapply kstep_sessions].
    eapply start_at_keep; try done. cbn. by rewrite (background_mux _ _ _ Hb Hk).
Qed.

Lemma tsteps_inv cfg ks c0 services ls t :
  ksteps (NewClient cfg) ks c0 → tsteps (NewTunnel c0 services) ls t →
  tunnel_inv cfg (t_services (NewTunnel c0 services)) ls t.
Proof.
  intros Hk Hs. remember (NewTunnel c0 services) as t0 eqn:E0.
  induction Hs as [|t0 ls t1 l t2 _ IH Hl]; subst; [|eapply tstep_inv; [by apply IH|done]].
  split; try done; [by eapply ksteps_inv|by eapply ksteps_sessions].
Qed.

(** Where a stream should go: to the service its payload names, otherwise to the
    service of an agent that has just one. *)
Definition spec_target (services : gmap string string) (payload : list byte) : string :=
  match (if bool_decide (payload = []) then None else services !! string_of_bytes payload) with
  | Some addr => addr
  | None => if bool_decide (size services = 1%nat)
            then default "" (snd <$> head (map_to_list services)) else ""
  end.

Lemma resolveTarget_spec services payload : resolveTarget services payload = spec_target services payload.
Proof.
  assert (match map_to_list services with [(_, addr)] => addr | _ => "" end =
    if bool_decide (size services = 1%nat) then default "" (snd <$> head (map_to_list services)) else "") as E.
  { rewrite <-length_map_to_list. destruct (map_to_list services) as [|[n addr] [|]]; done. }
  unfold resolveTarget, spec_target. rewrite E. destruct payload; [done|]. by destruct (services !! _).
Qed.

(** What resetting the stream [s] at [r] does to its session: nothing to a stream
    that is over already; otherwise the object is reset and emptied, and while
    the session is open the stream leaves the table and the peer is told. *)
Definition reset_effect (m : MuxSession) (r : ref) (s : StreamSession) (code : Z) (m' : MuxSession) : Prop :=
  if is_terminal s then m' = m
  else
    ∃ s', m_heap m' = <[r := s']> (m_heap m) ∧ s_id s' = s_id s ∧ s_state s' = StateReset ∧ readBuf s' = [] ∧
      closedCh s' = true ∧ m_acceptCh m' = m_acceptCh m ∧ m_pendingOpen m' = m_pendingOpen m ∧
      m_drain m' = m_drain m ∧ m_closeCh m' = m_closeCh m ∧ m_goingAway m' = m_goingAway m ∧
      if m_closeCh m then m_streams m' = m_streams m ∧ m_writeQueue m' = m_writeQueue m
      else m_streams m !! s_id s = Some r ∧ m_streams m' = delete (s_id s) (m_streams m) ∧
           m_writeQueue m' = Enqueue (m_writeQueue m) (reset_frame (s_id s) code) PriorityControl.

Lemma StreamReset_effect m r s code :
  mux_inv m → m_heap m !! r = Some s → reset_effect m r s code (StreamReset m r code).
Proof.
  intros I Hr. unfold reset_effect, StreamReset. rewrite Hr. destruct (is_terminal s) eqn:Ht.
  { rewrite reset_terminal by done. rewrite insert_id by done. by destruct m. }
  destruct (reset_live s) as (s' & E & _ & _); [by eapply (ci_obj _ _ _ _ _ _ _ _ I)|done|]. rewrite E.
  assert (s_id s' = s_id s ∧ s_state s' = StateReset ∧ readBuf s' = [] ∧ closedCh s' = true) as (E1 & E2 & E3 & E4).
  { revert E. unfold Stream.Reset, Reset_locked, Reset_notify, is_terminal in *.
    destruct (s_state s); try done; cbn; destruct (resetOnce s); intros [= <- _]; done. }
  exists s'. unfold onReset, deleteStream, freeID. cbn. destruct (m_closeCh m) eqn:Ec; [by split_and!|].
  pose proof (ci_map _ _ _ _ _ _ _ _ I Ec _ _ Hr Ht) as Hm. rewrite Hm. case_bool_decide; cbn; by split_and!.
Qed.

(** A turn of the accept loop that gets a stream, by the target of the stream. *)
Lemma accept_stream_cases t i canceled a r m s :
  t_pc t = InAccept i canceled → tc_conns (t_client t) !! i = Some a →
  AcceptStream (ac_mux a) = Some (r, m) → m_heap m !! r = Some s →
  let target := resolveTarget (t_services t) (openPayload s) in
  accept_stream t =
  if bool_decide (target = "") then Some (set_client (put_session i (StreamReset m r 1) a (t_client t)) t)
  else Some (mkTunnel (t_services t) (int32 (t_activeStreams t + 1)) (int64 (t_totalStreams t + 1)) (t_startTime t)
               (t_pc t) (t_ctx t) (<[fresh (dom (t_jobs t)) := mkJob i r target]> (t_jobs t))
               (put_session i m a (t_client t))).
Proof. intros Ep Ea Eacc Er. unfold accept_stream. by rewrite Ep, Ea, Eacc, Er. Qed.

(** C19. An accepted stream goes where it should, on every branch of a turn of
    the accept loop: to the service its STREAM_OPEN names, or to the only
    service there is: then one goroutine is started that forwards it there, it
    is counted as active and in total, and its session is left as AcceptStream
    left it; or nowhere: then it is reset. Unless it was over already, its
    object is reset and emptied, and while the session is open it leaves the
    table and a STREAM_RESET of code 1 is queued for the relay; nothing is
    counted and no goroutine is started. Either way no other stream, no other
    connection and nothing else of the client is touched. *)
Theorem tunnel_routes cfg ks c0 services ls t i canceled a r m s :
  ksteps (NewClient cfg) ks c0 → tsteps (NewTunnel c0 services) ls t →
  t_pc t = InAccept i canceled → tc_conns (t_client t) !! i = Some a →
  AcceptStream (ac_mux a) = Some (r, m) → m_heap m !! r = Some s →
  let target := spec_target (t_services (NewTunnel c0 services)) (openPayload s) in
  let session m' := set_conns (<[i := mkAgentConn m' (ac_closed a)]> (tc_conns (t_client t))) (t_client t) in
  (target = "" ∧ ∃ m', reset_effect m r s 1 m' ∧ accept_stream t = Some (set_client (session m') t)) ∨
  (target ≠ "" ∧ ∃ j, t_jobs t !! j = None ∧
     accept_stream t =
     Some (mkTunnel (t_services t) (int32 (t_activeStreams t + 1)) (int64 (t_totalStreams t + 1)) (t_startTime t)
             (t_pc t) (t_ctx t) (<[j := mkJob i r target]> (t_jobs t)) (session m))).
Proof.
  intros Hk Hs Ep Ea Eacc Er. pose proof (tsteps_inv _ _ _ _ _ _ Hk Hs) as [I1 _ _ _ _ [_ I6]]. cbn zeta.
  rewrite <-I1, <-resolveTarget_spec, (accept_stream_cases _ _ _ _ _ _ _ Ep Ea Eacc Er).
  destruct (I6 _ _ Ea) as [Hi _]. destruct (AcceptStream_ok _ _ _ Eacc Hi) as [Hi' _].
  case_bool_decide as Et; [left|right]; (split; [done|]).
  - exists (StreamReset m r 1). split; [by apply StreamReset_effect|done].
  - exists (fresh (dom (t_jobs t))). split; [apply not_elem_of_dom, is_fresh|done].
Qed.

(** C20. The counters are right, and Start returns only when it should. Over
    every interleaving of the loops, the attempts of Reconnect, the forwarding
    goroutines, Stop, the client and its sessions, ActiveStreams is the number
    of goroutines that are forwarding and TotalStreams the number of streams
    that were forwarded, up to the widths of their counters. Start returns nil
    only when its context is done. It returns an error only after it let go of
    its connection to reconnect, holding none: when its context was done while
    it was reconnecting, or when max_attempts attempts, all it has, were made
    since then and failed. While it is reconnecting with a client that is not
    closed, a dial that succeeds makes it connected and serving again. *)
Theorem tunnel_accounts cfg ks c0 services ls t now :
  ksteps (NewClient cfg) ks c0 → tsteps (NewTunnel c0 services) ls t →
  ActiveStreams (Stats t now) = int32 (Z.of_nat (size (t_jobs t))) ∧
  TotalStreams (Stats t now) = int64 (Z.of_nat (accepted_streams ls)) ∧
  (t_pc t = StartReturned (Ok tt) → t_ctx t = true) ∧
  (∀ e, t_pc t = StartReturned (Err (ErrReconnectFailed e)) →
     gave_up cfg ls (t_ctx t) e ∧ st_Connected (Status (t_client t)) = false) ∧
  (∀ k dialed, t_pc t = Reconnecting k → tc_closed (t_client t) = false →
     ∃ t', tstep t (TAttempt true) t' ∧ t_pc t' = StartLoop ∧
       t_client t' = Connect_dialed (t_client t) dialed ∧ st_Connected (Status (t_client t')) = true).
Proof.
  intros Hk Hs. pose proof (tsteps_inv _ _ _ _ _ _ Hk Hs) as [_ I2 I3 I4 I5 _].
  unfold start_at in I4. split_and!; try done.
  - intros E. by rewrite E in I4.
  - intros e E. rewrite E in I4. destruct I4 as [Hg Hn]. split; [done|].
    unfold Status. rewrite Hn. cbn. by rewrite (ci_status _ I5), Hn.
  - intros k dialed E Ec. exists (set_client (Connect_dialed (t_client t) dialed) (set_pc StartLoop t)).
    split; [apply (tstep_attempt t (Some dialed) (set_client (Connect_dialed (t_client t) dialed) (set_pc StartLoop t)))|].
    { unfold reconnect_turn, Connect, Connect_check. by rewrite E, Ec. }
    split_and!; [done..|]. unfold Status. cbn. by rewrite lookup_insert_eq.
Qed.

Lemma tsteps_one t l t' : tstep t l t' → tsteps t [l] t'.
Proof. intros Hs. eapply tsteps_cons; [done|constructor]. Qed.

Lemma turn_canceled t k :
  t_pc t = Reconnecting k → t_ctx t = true →
  tstep t TLoop (set_pc (StartReturned (Err (ErrReconnectFailed ErrReconnectCanceled))) t).
Proof. intros Ep Hx. apply tstep_canceled. unfold reconnect_turn. by rewrite Ep, Hx. Qed.

(** The turns of Reconnect, with nothing in between, are Reconnect. *)
Lemma reconnect_turns k fuel outcome t c' r :
  t_pc t = Reconnecting k → (∀ k, outcome k = AttemptCanceled → t_ctx t = true) →
  Z.of_nat k + Z.of_nat (S fuel) = max_attempts (tc_config (t_client t)) →
  reconnect_loop (S fuel) k outcome (max_attempts (tc_config (t_client t))) (t_client t) = (c', r) →
  ∃ ls t', tsteps t ls t' ∧ t_client t' = c' ∧
    t_pc t' = match r with Ok _ => StartLoop | Err e => StartReturned (Err (ErrReconnectFailed e)) end.
Proof.
  revert k t. induction fuel as [|fuel IH]; intros k t Ep Hx Hn Hl; cbn [reconnect_loop] in Hl.
  all: destruct (outcome k) as [|dialed] eqn:Eo.
  1, 3: simplify_eq; eexists _, _; split; [eapply tsteps_one, turn_canceled; eauto|done].
  all: pose proof (tstep_attempt t dialed) as Hstep; unfold reconnect_turn in Hstep; rewrite Ep in Hstep;
    destruct (Connect (t_client t) dialed) as [c [u|e]] eqn:Ec.
  1, 3: simplify_eq; eexists _, _; split; [by eapply tsteps_one, Hstep|done].
  - rewrite bool_decide_eq_false_2 in Hstep by lia. simplify_eq. eexists _, _. split; [by eapply tsteps_one, Hstep|done].
  - rewrite bool_decide_eq_true_2 in Hstep by lia.
    assert (c = t_client t) as -> by (revert Ec; unfold Connect; repeat case_match; intros [= <-]; done).
    destruct (IH (S k) (set_pc (Reconnecting (S k)) t)) as (ls & t' & Hs & Hc); [done|done|cbn; lia|done|].
    exists (TAttempt false :: ls), t'. split; [|done]. by eapply tsteps_cons; [exact (Hstep _ eq_refl)|].
Qed.

(** Stop does not stop the tunnel. With the context of Start not canceled,
    Stop ends the accept loop; Start then takes this for a lost connection:
    it closes the connection it was serving, and when a dial succeeds it is
    serving again on a new one. [acceptStopped], which Stop waits for, is not
    closed. *)
Theorem stop_reconnects cfg ks c0 services ls t i canceled now :
  ksteps (NewClient cfg) ks c0 → tsteps (NewTunnel c0 services) ls t →
  t_pc t = InAccept i canceled → t_ctx t = false → tc_closed (t_client t) = false →
  tc_mux (t_client t) = Some i →
  ∃ t1 t2 t3 t4 j a,
    accept_end (Stop_cancel t) = Some t1 ∧ start_turn t1 = Some t2 ∧
    reconnect_turn t2 (AttemptDial (Some now)) = Some t3 ∧
    accept_enter t3 = Some t4 ∧ t_pc t4 = InAccept j false ∧ acceptStopped t4 = false ∧
    i ≠ j ∧ tc_conns (t_client t4) !! i = Some a ∧ m_closeCh (ac_mux a) = true ∧ ac_closed a = true.
Proof.
  intros Hk Hs Ep Ec Hcl Hm. pose proof (tsteps_inv _ _ _ _ _ _ Hk Hs) as [_ _ _ _ I5 _].
  destruct (ci_conns _ I5) as [Hh _]. destruct (Hh i Hm) as [a Ha].
  set (c1 := set_disconnectCh false (t_client t)).
  exists (set_pc AfterAccept (Stop_cancel t)).
  exists (set_client (teardown c1) (set_pc (Reconnecting 0) (set_pc AfterAccept (Stop_cancel t)))).
  exists (set_client (Connect_dialed (teardown c1) now)
    (set_pc StartLoop (set_client (teardown c1) (set_pc (Reconnecting 0) (set_pc AfterAccept (Stop_cancel t)))))).
  eexists _, (fresh (dom (tc_conns (teardown c1)))), (close_conn a).
  assert (is_Some (tc_conns (teardown c1) !! i)) as Hi.
  { cbn. rewrite Hm. cbn. rewrite lookup_alter_eq, Ha. by eexists. }
  assert (i ≠ fresh (dom (tc_conns (teardown c1)))) as Hne.
  { intros E. apply elem_of_dom in Hi. rewrite E in Hi. by apply is_fresh in Hi. }
  unfold accept_end, start_turn, reconnect_turn, Connect, Connect_check, Stop_cancel. rewrite Ep.
  cbn [t_pc set_pc set_client t_ctx t_client tc_closed teardown c1 set_disconnectCh].
  rewrite Ec, Hcl, orb_true_r. cbn [orb]. split_and!; try done.
  - cbn [t_client set_pc set_client Connect_dialed tc_conns]. rewrite lookup_insert_ne by done.
    cbn. rewrite Hm. cbn. by rewrite lookup_alter_eq, Ha.
  - apply Close_closeCh.
Qed.

(** A failed heartbeat does not reconnect. When the heartbeat gives up on a
    dead connection, it leaves a token for the supervision loop and returns;
    but Start is in the accept loop, which does not look at that channel: with
    the session still open, its context not done and no stream waiting, no step
    of Start is possible. *)
Theorem heartbeat_failure_ignored cfg ks c0 services ls t i a h c :
  ksteps (NewClient cfg) ks c0 → tsteps (NewTunnel c0 services) ls t →
  t_pc t = InAccept i false → t_ctx t = false → tc_conns (t_client t) !! i = Some a →
  m_closeCh (ac_mux a) = false → m_acceptCh (ac_mux a) = [] →
  heartbeat_fail (t_client t) h = Some c →
  let t' := set_client c t in
  tc_disconnectCh c = true ∧ (hb_pc <$> tc_heartbeats c !! h) = Some HBDone ∧
  accept_stream t' = None ∧ accept_end t' = None ∧ accept_enter t' = None ∧
  start_turn t' = None ∧ (∀ attempt, reconnect_turn t' attempt = None).
Proof.
  intros _ _ Ep Ec Ea Ho Hq H. cbn zeta.
  assert (tc_disconnectCh c = true ∧ (hb_pc <$> tc_heartbeats c !! h) = Some HBDone ∧
          tc_conns c = tc_conns (t_client t)) as (H1 & H2 & H3).
  { revert H. unfold heartbeat_fail. destruct (tc_heartbeats _ !! h) as [[can []]|]; try done.
    intros [= <-]. cbn. by rewrite lookup_insert_eq. }
  unfold accept_stream, accept_end, accept_enter, start_turn, reconnect_turn, AcceptStream. cbn.
  rewrite Ep, Ec, H3, Ea, Ho, Hq. done.
Qed.
