(* ===== verification/AgentWitness.v ===== *)
(** * Concrete agents

    A client that connects and reconnects, a tunnel that accepts a stream,
    forwarded connections, on which the theorems of the agent's files and of
    the relay's copy are applied. *)

From Stdlib Require Import ZArith Lia SpecFloat.
From S2P Require Import Prelude Frame Window WriteQueue Stream Mux MuxInv MuxOps Pump RouteCopy Backoff Forwarder AgentClient Tunnel.

(** ** A client *)

Definition demo_cfg : ClientConfig := mkClientConfig "relay:8443" 0 2 1000 500 ["ssh"; "http"].
Definition client1 : TunnelClient := (Connect (NewClient demo_cfg) (Some 5)).1.
Definition client2 : TunnelClient := (Connect (teardown client1) (Some 9)).1.

Lemma client1_run : ksteps (NewClient demo_cfg) ([] ++ [KConnect true]) client1.
Proof.
  eapply ksteps_snoc; [apply ksteps_nil|].
  by apply (kstep_connect _ (Some 5) client1 (Ok tt)).
Qed.

Lemma client2_run :
  ksteps (NewClient demo_cfg) ((([] ++ [KConnect true]) ++ [KTeardown]) ++ [KConnect true]) client2.
Proof.
  eapply ksteps_snoc; [eapply ksteps_snoc; [apply client1_run|apply kstep_teardown]|].
  by apply (kstep_connect _ (Some 9) client2 (Ok tt)).
Qed.

Lemma client_one_connection_witness :
  tc_mux client2 = Some 1%nat ∧ is_Some (tc_conns client2 !! 0%nat) ∧
  ∀ a, tc_conns client2 !! 0%nat = Some a → m_closeCh (ac_mux a) = true ∧ ac_closed a = true.
Proof.
  split; [by vm_compute|]. split; [vm_compute; eauto|]. intros a Ha.
  destruct (client_one_connection _ _ _ client2_run) as (_ & _ & H & _).
  destruct (H _ _ Ha) as [E|E]; [by vm_compute in E|exact E].
Defined.

Lemma reconnect_branches_witness :
  ∃ k, (k <= 2)%Z ∧ (Reconnect client1 (λ _, AttemptDial None)).1 = teardown client1.
Proof.
  destruct (reconnect_branches client1 (λ _, AttemptDial None) _ _ (surjective_pairing _)) as (k & Hk & _ & Hr).
  exists (Z.of_nat k). split; [exact Hk|].
  destruct (Reconnect client1 _).2 as [u|e]; [by destruct Hr as (_ & _ & now & [=] & _)|exact (proj1 Hr)].
Defined.

Lemma connect_close_race_witness :
  tc_closed (Connect_dialed (ClientClose (NewClient demo_cfg)) 3) = true.
Proof.
  exact (proj1 (proj2 (connect_close_race demo_cfg [] (NewClient demo_cfg) 3 (ksteps_nil _) eq_refl eq_refl))).
Defined.

(** ** A tunnel *)

Definition demo_services : list ServiceMapping :=
  [mkServiceMapping "ssh" "tcp" "127.0.0.1:22" 2222; mkServiceMapping "http" "tcp" "127.0.0.1:80" 8080].

Definition tunnel1 : Tunnel := default (NewTunnel client1 demo_services)
  (Start_begin (NewTunnel client1 demo_services) 7 ≫= accept_enter).

Lemma tunnel1_run : tsteps (NewTunnel client1 demo_services) (([] ++ [TStart]) ++ [TLoop]) tunnel1.
Proof.
  eapply tsteps_snoc; [eapply tsteps_snoc; [apply tsteps_nil|by apply (tstep_start _ 7)]|].
  by apply tstep_enter.
Qed.

(** The relay opens a stream for ssh. *)
Definition ssh_open : Frame := open_frame 1 (bytes_of_string "ssh").
Definition conn0 (t : Tunnel) : AgentConn :=
  default (mkAgentConn (new_session demo_cfg) false) (tc_conns (t_client t) !! 0%nat).
Definition with_session (t : Tunnel) (m : MuxSession) : Tunnel :=
  set_client (set_conns (<[0%nat := mkAgentConn m (ac_closed (conn0 t) || m_closeCh m)]>
    (tc_conns (t_client t))) (t_client t)) t.
Definition tunnel2 : Tunnel := with_session tunnel1 (handleFrame (ac_mux (conn0 tunnel1)) ssh_open).
Definition tunnel3 : Tunnel :=
  with_session tunnel2 (default (ac_mux (conn0 tunnel2)) (deliverAccept (ac_mux (conn0 tunnel2)))).
Definition tunnel4 : Tunnel := default tunnel3 (accept_stream tunnel3).

Lemma with_session_step t m e a :
  tc_conns (t_client t) !! 0%nat = Some a → conn0 t = a → mstep (ac_mux a) e m →
  tstep t (TClient (KSession 0 e)) (with_session t m).
Proof. intros Ha Hc He. apply tstep_client; [done|]. rewrite Hc. by apply kstep_session. Qed.

Lemma tunnel3_run : ∃ ls, tsteps (NewTunnel client1 demo_services) ls tunnel3.
Proof.
  eexists. eapply tsteps_snoc; [eapply tsteps_snoc; [apply tunnel1_run|]|].
  - eapply with_session_step; [by vm_compute|by vm_compute|].
    apply (mstep_frame _ ssh_open); [done| |done]. split; vm_compute; done.
  - eapply with_session_step; [by vm_compute|by vm_compute|].
    by apply mstep_deliver.
Qed.

(** The loop is canceled, and both attempts to reconnect fail. *)
Definition tunnel_ended : Tunnel := default tunnel4 (accept_end (Stop_cancel tunnel4)).
Definition tunnel_lost : Tunnel := default tunnel4 (start_turn tunnel_ended).
Definition tunnel_retry : Tunnel := default tunnel_lost (reconnect_turn tunnel_lost (AttemptDial None)).
Definition tunnel_failed : Tunnel :=
  default tunnel_lost (reconnect_turn tunnel_retry (AttemptDial None)).

Lemma attempt_fails_step t t' :
  reconnect_turn t (AttemptDial None) = Some t' → match t_pc t' with StartLoop => true | _ => false end = false →
  tstep t (TAttempt false) t'.
Proof. intros H <-. by apply (tstep_attempt t None). Qed.

Lemma tunnel_accounts_witness :
  ActiveStreams (Stats tunnel_failed 8) = 1 ∧ t_pc tunnel_failed = StartReturned (Err (ErrReconnectFailed (ErrExhausted 2))) ∧
  ∃ ls, gave_up demo_cfg ls false (ErrExhausted 2) ∧ st_Connected (Status (t_client tunnel_failed)) = false.
Proof.
  split; [by vm_compute|]. split; [by vm_compute|]. destruct tunnel3_run as [ls Hrun].
  assert (tsteps (NewTunnel client1 demo_services)
    ((((((ls ++ [TAccept true]) ++ [TStop]) ++ [TLoop]) ++ [TReconnect]) ++ [TAttempt false]) ++ [TAttempt false])
    tunnel_failed) as Hrun4.
  { eapply tsteps_snoc; [eapply tsteps_snoc; [eapply tsteps_snoc; [eapply tsteps_snoc; [eapply tsteps_snoc; [eapply tsteps_snoc|]|]|]|]|].
    - apply Hrun.
    - assert (bool_decide (size (t_jobs tunnel3) < size (t_jobs tunnel4))%nat = true) as <- by (by vm_compute).
      apply (tstep_accept _ tunnel4). by vm_compute.
    - apply tstep_stop.
    - apply (tstep_end _ tunnel_ended). by vm_compute.
    - assert (TReconnect = if t_ctx tunnel_ended then TLoop else TReconnect) as -> by (by vm_compute).
      apply (tstep_turn tunnel_ended tunnel_lost). by vm_compute.
    - apply (attempt_fails_step tunnel_lost tunnel_retry); by vm_compute.
    - apply (attempt_fails_step tunnel_retry tunnel_failed); by vm_compute. }
  eexists. exact (proj1 (proj2 (proj2 (proj2 (tunnel_accounts demo_cfg _ client1 demo_services _ tunnel_failed 8 client1_run Hrun4))))
    (ErrExhausted 2) ltac:(by vm_compute)).
Defined.

(** The stream that is accepted next. *)
Definition acc3 : ref * MuxSession :=
  default (0%nat, new_session demo_cfg) (AcceptStream (ac_mux (conn0 tunnel3))).
Definition stream3 : StreamSession := default (opened 0 (mkStreamConfig 0 0) []) (m_heap acc3.2 !! acc3.1).

Lemma tunnel_routes_witness :
  ∃ j, (t_jobs <$> accept_stream tunnel3) = Some (<[j := mkJob 0 acc3.1 "127.0.0.1:22"]> (t_jobs tunnel3)).
Proof.
  destruct tunnel3_run as [ls Hrun].
  assert (spec_target (t_services (NewTunnel client1 demo_services)) (openPayload stream3) = "127.0.0.1:22")
    as Et by (by vm_compute).
  destruct (tunnel_routes demo_cfg _ client1 demo_services ls tunnel3 0 false (conn0 tunnel3) acc3.1 acc3.2
    stream3 client1_run Hrun eq_refl ltac:(by vm_compute) ltac:(by vm_compute) ltac:(by vm_compute))
    as [[E _]|(_ & j & _ & Hj)]; rewrite Et in *; [done|].
  exists j. exact (f_equal (fmap t_jobs) Hj).
Defined.

Lemma stop_reconnects_witness :
  ∃ t1 t2 t3 t4 j, accept_end (Stop_cancel tunnel1) = Some t1 ∧ start_turn t1 = Some t2 ∧
    reconnect_turn t2 (AttemptDial (Some 20)) = Some t3 ∧ accept_enter t3 = Some t4 ∧
    t_pc t4 = InAccept j false ∧ acceptStopped t4 = false.
Proof.
  destruct (stop_reconnects demo_cfg _ client1 demo_services _ tunnel1 0 false 20
    client1_run tunnel1_run eq_refl eq_refl eq_refl eq_refl)
    as (t1 & t2 & t3 & t4 & j & a & H1 & H2 & H3 & H4 & H5 & H6 & _).
  exists t1, t2, t3, t4, j. split_and!; assumption.
Defined.

(** The heartbeat of the connection sends a PING and gives up. *)
Definition tunnel_ping : Tunnel :=
  set_client (default client1 (heartbeat_tick (t_client tunnel1) 0 12)) tunnel1.

Lemma heartbeat_failure_ignored_witness :
  ∃ c, heartbeat_fail (t_client tunnel_ping) 0 = Some c ∧ tc_disconnectCh c = true ∧
    accept_end (set_client c tunnel_ping) = None.
Proof.
  assert (tsteps (NewTunnel client1 demo_services) ((([] ++ [TStart]) ++ [TLoop]) ++ [TClient (KHeartbeat 0)])
    tunnel_ping) as Hrun.
  { eapply tsteps_snoc; [apply tunnel1_run|]. apply tstep_client; [done|]. by apply (kstep_tick _ 0 12). }
  destruct (heartbeat_fail (t_client tunnel_ping) 0) as [c|] eqn:Ef; [|by vm_compute in Ef].
  destruct (heartbeat_failure_ignored demo_cfg _ client1 demo_services _ tunnel_ping 0 (conn0 tunnel_ping) 0 c
    client1_run Hrun eq_refl eq_refl ltac:(by vm_compute) ltac:(by vm_compute) ltac:(by vm_compute) Ef)
    as (H1 & _ & _ & H2 & _).
  exists c. auto.
Defined.

(** ** A forwarded connection

    The relay sends a byte and its FIN; the service answers with a byte and
    closes; everything ends by itself. *)

Definition demo_stream : StreamSession := opened 1 (mkStreamConfig 262144 0) [].

Lemma fsteps_cons f l f1 ls f2 : fstep f l f1 ∨ fenv f l f1 → fsteps f1 ls f2 → fsteps f (l ++ ls) f2.
Proof.
  intros Hl Hs. induction Hs as [f1|f1 ls fa la fb _ IH Ha|f1 ls fa la fb _ IH Ha].
  - rewrite app_nil_r. change l with ([] ++ l).
    destruct Hl; [eapply fsteps_step|eapply fsteps_env]; eauto using fsteps_nil.
  - rewrite (assoc_L (++)). eapply fsteps_step; [by apply IH|done].
  - rewrite (assoc_L (++)). eapply fsteps_env; [by apply IH|done].
Qed.

Ltac fgo := eapply fsteps_cons; [left; by apply fstep_done|]; cbn.
Tactic Notation "fcopy" uconstr(k) := eapply fsteps_cons; [left; eapply fstep_copy, k; (lia || by vm_compute)|]; cbn.
Tactic Notation "fend" uconstr(k) := eapply fsteps_cons; [left; by eapply k|]; cbn.
Tactic Notation "faround" uconstr(k) := eapply fsteps_cons; [right; eapply fenv_pump, k; by vm_compute|]; cbn.
Ltac fstream e :=
  eapply fsteps_cons; [right; eapply fenv_pump, (env_stream _ _ _ _ e); [done|by econstructor]|]; cbn.

Lemma forward_run :
  ∃ ls f, fsteps (forward_dialed demo_stream) ls f ∧ f_main f = ForwardReturned false ∧
    c_out (p_conn (f_pump f)) = [x61] ∧ p_toConn (f_pump f) = CopyDone false ∧
    mjoin (chunks_written (stream_events ls)) = [x62] ∧ p_toStream (f_pump f) = CopyDone false.
Proof.
  eexists _, _. split.
  { unfold forward_dialed, new_pump.
    fstream (SDeliver [x61]). fstream SRemoteClose.
    fcopy (copy_stream_read _ _ _ 9). fcopy copy_conn_write. fcopy (copy_stream_eof _ _ _ 9).
    fend (fstep_toLocal _ false).
    faround (env_recv _ _ _ _ [x62]). faround env_recv_eof.
    fcopy (copy_conn_read _ _ _ 9). fcopy copy_stream_write. fcopy (copy_conn_eof _ _ _ 9).
    fend (fstep_toStream _ false). fgo. fgo. apply fsteps_nil. }
  by vm_compute.
Qed.

Lemma forward_copies_witness :
  ∃ ls f, c_out (p_conn (f_pump f)) = [x61] ∧ mjoin (chunks_written (stream_events ls)) = conn_received ls ∧
    ∃ ls1 ls2, ls = ls1 ++ ls2 ∧ delivered_all ls1 (c_out (p_conn (f_pump f))).
Proof.
  destruct forward_run as (ls & f & Hrun & _ & Hout & H1 & _ & H2). exists ls, f.
  destruct (forward_copies _ _ _ _ _ Hrun) as (_ & _ & H3 & H4). rewrite H1 in H3. rewrite H2 in H4.
  split; [exact Hout|]. split; [exact (H4 eq_refl eq_refl)|exact (H3 eq_refl eq_refl)].
Defined.

Lemma forward_releases_witness :
  ∃ f, f_main f = ForwardReturned false ∧ c_closed (p_conn (f_pump f)) = true ∧
    isWriteClosed (p_stream (f_pump f)) = true.
Proof.
  destruct forward_run as (ls & f & Hrun & Hm & _). exists f.
  destruct (forward_releases _ _ _ _ _ _ Hrun Hm) as (H1 & _ & _ & _ & H2 & _). auto.
Defined.

(** The context is canceled while both copies wait. *)
Lemma abort_run :
  ∃ ls f, fsteps (forward_dialed demo_stream) ls f ∧ f_aborted f = true ∧ finished f = false.
Proof.
  eexists _, _. split.
  { unfold forward_dialed, new_pump. eapply fsteps_cons; [right; apply fenv_cancel|]. cbn.
    eapply fsteps_cons; [left; by apply (fstep_abort _ false)|]. apply fsteps_nil. }
  by vm_compute.
Qed.

Lemma forward_terminates_witness :
  ∃ f, f_aborted f = true ∧ (rank f <= 8)%nat ∧ ∃ l f', fstep f l f'.
Proof.
  destruct abort_run as (ls & f & Hrun & Ha & Hf). exists f.
  destruct (forward_terminates _ _ _ _ _ Hrun) as (_ & _ & H). destruct (H Ha) as (H1 & H2 & _). auto.
Defined.

(** ** The relay's copy

    The client sends a byte and closes its side while the answer is still on
    its way: the stream is reset. *)

Lemma bsteps_cons b l b1 ls b2 : bstep b l b1 ∨ benv b l b1 → bsteps b1 ls b2 → bsteps b (l ++ ls) b2.
Proof.
  intros Hl Hs. induction Hs as [b1|b1 ls ba la bb _ IH Ha|b1 ls ba la bb _ IH Ha].
  - rewrite app_nil_r. change l with ([] ++ l).
    destruct Hl; [eapply bsteps_step|eapply bsteps_env]; eauto using bsteps_nil.
  - rewrite (assoc_L (++)). eapply bsteps_step; [by apply IH|done].
  - rewrite (assoc_L (++)). eapply bsteps_env; [by apply IH|done].
Qed.

Tactic Notation "bcopy" uconstr(k) :=
  eapply bsteps_cons; [left; eapply bstep_copy, k; (lia || by vm_compute)|]; cbn.
Tactic Notation "baround" uconstr(k) := eapply bsteps_cons; [right; eapply benv_pump, k; by vm_compute|]; cbn.
Tactic Notation "bend" uconstr(k) := eapply bsteps_cons; [left; by eapply k|]; cbn.

Lemma copy_run :
  ∃ ls b, bsteps (copyBidirectional demo_stream new_conn) ls b ∧ b_closer b = true ∧
    bicopy_returned b = false ∧ mjoin (chunks_written (stream_events ls)) = [x61].
Proof.
  eexists _, _. split.
  { unfold copyBidirectional, new_pump.
    baround (env_recv _ _ _ _ [x61]). baround env_recv_eof.
    bcopy (copy_conn_read _ _ _ 9). bcopy copy_stream_write. bcopy (copy_conn_eof _ _ _ 9).
    bend (bstep_toAgent _ false). bend bstep_closer. apply bsteps_nil. }
  by vm_compute.
Qed.

Lemma route_copy_terminates_witness :
  ∃ b, b_closer b = true ∧ (bicopy_rank b <= 8)%nat ∧ ∃ l b', bstep b l b'.
Proof.
  destruct copy_run as (ls & b & Hrun & Hc & Hr & _). exists b.
  destruct (route_copy_terminates _ _ _ _ _ Hrun) as (_ & H). destruct (H Hc) as (H1 & H2 & _). auto.
Defined.

Lemma route_copy_resets_witness :
  ∃ b, s_state (p_stream (b_pump b)) = StateReset ∧ finCh (p_stream (b_pump b)) = false.
Proof.
  destruct copy_run as (ls & b & Hrun & Hc & _). exists b.
  destruct (route_copy_resets _ _ _ _ _ Hrun) as (_ & _ & H1 & H2 & _).
  split; [exact (proj1 (H2 Hc))|exact H1].
Defined.
