(* ===== verification/AgentMain.v ===== *)
(** * The agent process: [cmd/agent/main.go]

    [run]: loading and checking the configuration, connecting, starting the
    tunnel, and the shutdown. *)

From Stdlib Require Import ZArith Lia SpecFloat.
From S2P Require Import Prelude Float Frame Window WriteQueue Stream Mux MuxInv MuxOps Config Auth Backoff Forwarder AgentClient Tunnel.

(** ** Starting *)

(** The service names that are advertised. *)
Definition serviceNames (cfg : AgentConfig) : list string :=
  filter (λ name, name ≠ "") (Config.sm_Name <$> ac_Services cfg).

(** [func initLogger(cfg config.LogConfig) *slog.Logger]: the level, and whether
    text is written. *)
Inductive AgentLogLevel := AgentDebug | AgentInfo | AgentWarn | AgentError.
Definition agent_initLogger (cfg : LogConfig) : AgentLogLevel * bool :=
  (if bool_decide (Level cfg = "debug") then AgentDebug
   else if bool_decide (Level cfg = "warn") then AgentWarn
   else if bool_decide (Level cfg = "error") then AgentError else AgentInfo,
   bool_decide (Format cfg = "text")).

Definition clientCfg (cfg : AgentConfig) : ClientConfig :=
  mkClientConfig (Addr (ac_Relay cfg)) (ReconnectInterval (ac_Relay cfg)) 10 (KeepaliveInterval (ac_Relay cfg))
    (KeepaliveTimeout (ac_Relay cfg)) (serviceNames cfg).

Definition tunnelServices (cfg : AgentConfig) : list Tunnel.ServiceMapping :=
  (λ s, Tunnel.mkServiceMapping (Config.sm_Name s) (Config.sm_Protocol s) (Config.sm_LocalAddr s)
          (Config.sm_RelayPort s)) <$> ac_Services cfg.

Definition forwarderCfg : ServiceForwarderConfig :=
  mkForwarderConfig (5 * 1000000000) 0 (32 * 1024) 0.

Inductive AgentRunErr :=
| AgentLoadConfig (e : ConfigErr)
| AgentValidateCert (e : AuthErr)
| AgentTLSConfig (e : AuthErr)
| AgentConnect (e : ClientErr).

Section agent_main.
Context `{PEM} `{X509 Cert Pool}.

(** The agent once [run] has connected: the tunnel with its client, and the TLS
    configurator. *)
Record AgentProc := mkAgentProc { ap_tunnel : Tunnel; ap_tls : Configurator (Cert := Cert) }.

Inductive AgentRunResult :=
| AgentFailed (e : AgentRunErr)
| AgentValid (services : Z)
| AgentStarted (p : AgentProc).

(** [func run() error], up to the start of its goroutines; [dialed] is the time
    when the dial succeeds. [None] when the fuel of the check of the chain file
    does not suffice. *)
Definition agent_boot (load : string → result ConfigErr AgentConfig) (certs : files) (validate : bool)
    (dialed : option Z) (configPath : string) : option AgentRunResult :=
  match load configPath with
  | Err e => Some (AgentFailed (AgentLoadConfig e))
  | Ok cfg =>
      match ValidateChainCertFile certs (CertFile (ac_TLS cfg)) with
      | None => None
      | Some (Err e) => Some (AgentFailed (AgentValidateCert e))
      | Some (Ok _) =>
          if validate then Some (AgentValid (zlen (ac_Services cfg)))
          else
            let paths := Auth.mkTLSPaths (CertFile (ac_TLS cfg)) (KeyFile (ac_TLS cfg)) (CAFile (ac_TLS cfg)) ""
                           (ServerName (ac_Relay cfg)) in
            match ClientTLSConfig certs (NewConfigurator paths) [WithSessionCache 64] with
            | (_, Err e) => Some (AgentFailed (AgentTLSConfig e))
            | (conf, Ok _) =>
                match Connect (NewClient (clientCfg cfg)) dialed with
                | (_, Err e) => Some (AgentFailed (AgentConnect e))
                | (client, Ok _) => Some (AgentStarted (mkAgentProc (NewTunnel client (tunnelServices cfg)) conf))
                end
            end
      end
  end.

(** The shutdown: [cancel()], tunnel.Stop, and the deferred client.Close. *)
Definition run_cancel (t : Tunnel) : Tunnel :=
  mkTunnel (t_services t) (t_activeStreams t) (t_totalStreams t) (t_startTime t) (t_pc t) true (t_jobs t) (t_client t).
Definition run_shutdown (t : Tunnel) : Tunnel := Stop_cancel (run_cancel t).
Definition run_close (t : Tunnel) : Tunnel := set_client (ClientClose (t_client t)) t.

(** ** Properties *)

Lemma agent_boot_started load certs dialed path p :
  agent_boot load certs false dialed path = Some (AgentStarted p) →
  ∃ cfg now, load path = Ok cfg ∧ dialed = Some now ∧
    ap_tunnel p = NewTunnel (Connect_dialed (NewClient (clientCfg cfg)) now) (tunnelServices cfg).
Proof.
  unfold agent_boot. destruct (load path) as [cfg|]; [|done].
  destruct (ValidateChainCertFile _ _) as [[]|]; [|done..]. destruct (ClientTLSConfig _ _ _) as [conf []]; [|done].
  destruct dialed as [now|]; [|done]. intros [= <-]. by exists cfg, now.
Qed.

Lemma connected_client cfg now :
  ksteps (NewClient cfg) ([] ++ [KConnect true]) (Connect_dialed (NewClient cfg) now).
Proof. eapply ksteps_snoc; [constructor|]. by apply (kstep_connect _ (Some now) _ (Ok tt)). Qed.

Lemma run_shutdown_keeps t : t_ctx (run_shutdown t) = true ∧ t_client (run_shutdown t) = t_client t.
Proof. unfold run_shutdown, Stop_cancel. destruct (t_pc (run_cancel t)); done. Qed.

(** How far Start is from returning, once its context is done. *)
Definition start_rank (pc : StartPC) : nat :=
  match pc with
  | StartIdle => 4 | StartLoop => 3 | InAccept _ _ => 2 | AfterAccept | Reconnecting _ => 1 | StartReturned _ => 0
  end.

Lemma start_progress t :
  t_ctx t = true → acceptStopped t = false →
  ∃ l t', tstep t l t' ∧ (l = TStart ∨ l = TLoop) ∧ t_ctx t' = true ∧ t_client t' = t_client t ∧
    (start_rank (t_pc t') < start_rank (t_pc t))%nat.
Proof.
  intros Hx Ha. unfold acceptStopped in Ha. destruct (t_pc t) as [| |i canceled| |k|] eqn:Ep; [..|done].
  - eexists _, _. split; [apply (tstep_start t 0); unfold Start_begin; by rewrite Ep|]. cbn. split_and!; [by auto|done..|lia].
  - eexists _, _. split; [apply tstep_enter; unfold accept_enter; by rewrite Ep|]. cbn.
    split_and!; [by auto|done..|]. destruct (tc_mux (t_client t)); cbn; lia.
  - eexists _, _. split; [apply tstep_end; unfold accept_end; by rewrite Ep, Hx|]. cbn. split_and!; [by auto|done..|lia].
  - eexists _, _. split; [apply tstep_turn; unfold start_turn; by rewrite Ep, Hx|]. rewrite Hx.
    cbn. split_and!; [by auto|done..|lia].
  - eexists _, _. split; [by eapply turn_canceled|]. cbn. split_and!; [by auto|done..|lia].
Qed.

(** With its context done, Start returns. *)
Lemma shutdown_returns t :
  t_ctx t = true →
  ∃ ls t', tsteps t ls t' ∧ (length ls <= start_rank (t_pc t))%nat ∧ acceptStopped t' = true ∧
    t_client t' = t_client t.
Proof.
  remember (start_rank (t_pc t)) as n eqn:En. revert t En.
  induction (lt_wf n) as [n _ IH]. intros t En Hx.
  destruct (acceptStopped t) eqn:Ea; [exists [], t; split_and!; [constructor|cbn; lia|done..]|].
  destruct (start_progress t Hx Ea) as (l & t1 & Hs & _ & Hx1 & Hc & Hlt).
  rewrite <-En in Hlt. destruct (IH _ Hlt t1 eq_refl Hx1) as (ls & t' & Hss & Hlen & Hst & Hc').
  exists (l :: ls), t'. split_and!; [by eapply tsteps_cons|cbn; lia|done|congruence].
Qed.

(** A closed client holds nothing. *)
Lemma over_client c :
  client_inv c → tc_closed c = true →
  st_Connected (Status c) = false ∧
  (∀ i a, tc_conns c !! i = Some a → m_closeCh (ac_mux a) = true ∧ ac_closed a = true) ∧
  (∀ h hb, tc_heartbeats c !! h = Some hb → hb_canceled hb = true ∨ hb_pc hb = HBDone).
Proof.
  intros [_ Hst Hhb Hcl [_ Hcs] [_ Hhs]] Hc. specialize (Hcl Hc). rewrite Hcl in *.
  assert (tc_heartbeatStop c = None) as Hn.
  { destruct (tc_heartbeatStop _); [|done]. destruct Hhb as [[? [=]] _]; eauto. }
  split_and!.
  - unfold Status. by rewrite Hcl.
  - intros i a Ha. by destruct (Hcs _ _ Ha).
  - intros h hb Hh. destruct (Hhs _ _ Hh); [congruence|done].
Qed.

Lemma ClientClose_closed c : tc_closed (ClientClose c) = true.
Proof. unfold ClientClose. by destruct (tc_closed c) eqn:E. Qed.

Lemma closed_client c :
  client_inv c →
  tc_closed (ClientClose c) = true ∧ st_Connected (Status (ClientClose c)) = false ∧
  (∀ i a, tc_conns (ClientClose c) !! i = Some a → m_closeCh (ac_mux a) = true ∧ ac_closed a = true) ∧
  (∀ h hb, tc_heartbeats (ClientClose c) !! h = Some hb → hb_canceled hb = true ∨ hb_pc hb = HBDone).
Proof. intros I%ClientClose_inv. split; [apply ClientClose_closed|]. apply over_client, ClientClose_closed. done. Qed.

(** A later service of the same name wins. *)
Lemma services_last l1 s l2 (m : gmap string string) :
  Tunnel.sm_Name s ∉ (Tunnel.sm_Name <$> l2) →
  foldl (λ m s, <[Tunnel.sm_Name s := Tunnel.sm_LocalAddr s]> m) m (l1 ++ s :: l2) !! Tunnel.sm_Name s =
  Some (Tunnel.sm_LocalAddr s).
Proof.
  intros Hn. rewrite foldl_app. cbn [foldl].
  assert (∀ m : gmap string string, m !! Tunnel.sm_Name s = Some (Tunnel.sm_LocalAddr s) →
    foldl (λ m s, <[Tunnel.sm_Name s := Tunnel.sm_LocalAddr s]> m) m l2 !! Tunnel.sm_Name s =
    Some (Tunnel.sm_LocalAddr s)) as Hgen; [|apply Hgen; by rewrite lookup_insert_eq].
  induction l2 as [|s' l2 IH]; cbn; [done|]. intros m' Hm. apply not_elem_of_cons in Hn as [Hne Hn].
  apply IH; [done|]. by rewrite lookup_insert_ne.
Qed.

Lemma lookup_last_service c cfg l1 (s : Config.ServiceMapping) l2 :
  ac_Services cfg = l1 ++ s :: l2 → Config.sm_Name s ∉ (Config.sm_Name <$> l2) →
  t_services (NewTunnel c (tunnelServices cfg)) !! Config.sm_Name s =
  Some (Config.sm_LocalAddr s).
Proof.
  intros E Hn. unfold tunnelServices. rewrite E, fmap_app. cbn -[foldl].
  apply (services_last _ (Tunnel.mkServiceMapping (Config.sm_Name s) _ (Config.sm_LocalAddr s) _)).
  cbn. by rewrite <-list_fmap_compose.
Qed.

(** When a list of names can be announced at all. *)
Definition announceable (names : list string) : Prop :=
  names ≠ [] ∧ Forall no_newline names ∧ zlen (join_nl (bytes_of_string <$> names)) <= MaxPayloadSize.

(** What the session of a new connection has queued: the list of the services,
    as one control frame that the relay reads as the same list, or nothing when
    they cannot be announced. *)
Definition announces (names : list string) (m : MuxSession) : Prop :=
  (announceable names ∧ ∃ f, m_writeQueue m = mkQueue [f] [] false ∧ frame_ok f ∧ FCommand f = CmdServiceList ∧
     (Forall (λ name, name ≠ "") names → (length names <= MaxServiceListCount)%nat →
      ∀ relay, m_serviceListCh relay = None → m_serviceListCh (handleFrame relay f) = Some names)) ∨
  (¬ announceable names ∧ m_writeQueue m = mkQueue [] [] false).

Lemma new_session_announces cfg : announces (cc_Services cfg) (new_session cfg).
Proof.
  unfold announces, new_session. destruct (cc_Services cfg) as [|name names]; [right; split; [by intros [? _]|done]|].
  pose proof (λ peer, service_list_roundtrip (NewMuxSession RoleAgent (client_mux_config cfg)) peer (name :: names)) as Hs.
  cbn zeta in Hs. destruct (SendServiceList _ _) as [m' res] eqn:E. destruct (Hs (NewMuxSession RoleAgent (client_mux_config cfg))) as (Hok & Herr & Hf).
  destruct (is_ok res) eqn:Er.
  - left. split; [by split; [|apply Hok]|]. destruct (Hf eq_refl) as (f & Em & Hfr & _). subst m'. exists f. split_and!; try done.
    + clear -E. unfold SendServiceList in E. repeat case_match; simplify_eq; done.
    + intros Hne Hlen relay Hr. destruct (Hs relay) as (_ & _ & Hf'). destruct (Hf' eq_refl) as (f' & Em & _ & Hp).
      assert (f' = f) as <- by (by injection Em). by apply Hp.
  - right. split; [|by rewrite Herr]. intros [_ Ha]. apply Hok in Ha. done.
Qed.

(** C25. The agent serves what it is configured for. When it has started, the
    session it opened has queued for the relay one frame with exactly the
    non-empty names of its services, which the relay reads as the same list up
    to its maximum number, when there are names, none has a line break and
    together they fit a frame; otherwise nothing is announced. And at every
    later moment a stream that the agent accepts and that asks for such a name
    is forwarded to the local address, when there is one, of the last service of
    that name. *)
Theorem agent_serves_configured load certs dialed path p ls t :
  agent_boot load certs false dialed path = Some (AgentStarted p) → tsteps (ap_tunnel p) ls t →
  ∃ cfg i0 a0, load path = Ok cfg ∧
    tc_mux (t_client (ap_tunnel p)) = Some i0 ∧ tc_conns (t_client (ap_tunnel p)) !! i0 = Some a0 ∧
    announces (serviceNames cfg) (ac_mux a0) ∧
    (∀ name, name ∈ serviceNames cfg ↔ name ≠ "" ∧ ∃ s, s ∈ ac_Services cfg ∧ Config.sm_Name s = name) ∧
    (∀ l1 s l2 i canceled a r m st, ac_Services cfg = l1 ++ s :: l2 → Config.sm_Name s ≠ "" →
       Config.sm_Name s ∉ (Config.sm_Name <$> l2) → Config.sm_LocalAddr s ≠ "" →
       t_pc t = InAccept i canceled → tc_conns (t_client t) !! i = Some a →
       AcceptStream (ac_mux a) = Some (r, m) → m_heap m !! r = Some st →
       openPayload st = bytes_of_string (Config.sm_Name s) →
       ∃ t' j, accept_stream t = Some t' ∧ t_jobs t !! j = None ∧
         t_jobs t' = <[j := mkJob i r (Config.sm_LocalAddr s)]> (t_jobs t)).
Proof.
  intros (cfg & now & El & -> & Hp)%agent_boot_started Hs. rewrite Hp in Hs.
  exists cfg. rewrite Hp. cbn. eexists _, _. split_and!; [done..|by rewrite lookup_insert_eq|exact (new_session_announces (clientCfg cfg))| |].
  - intros name. unfold serviceNames. rewrite list_elem_of_filter, list_elem_of_fmap. naive_solver.
  - intros l1 s l2 i canceled a r m st E Hne Hn Ha Ep Ea Eacc Er Ho.
    pose proof (ti_services _ _ _ _ (tsteps_inv _ _ _ _ _ _ (connected_client (clientCfg cfg) now) Hs)) as Hsv.
    assert (resolveTarget (t_services t) (openPayload st) = Config.sm_LocalAddr s) as Ht.
    { rewrite Ho, Hsv. unfold resolveTarget. destruct (bytes_of_string (Config.sm_Name s)) as [|b bs] eqn:Eb.
      { destruct Hne. rewrite <-(string_of_bytes_of_string (Config.sm_Name s)), Eb. done. }
      rewrite <-Eb, string_of_bytes_of_string. by erewrite lookup_last_service. }
    pose proof (accept_stream_cases _ _ _ _ _ _ _ Ep Ea Eacc Er) as Hc. cbn zeta in Hc.
    rewrite Ht, bool_decide_eq_false_2 in Hc by done. eexists _, _. split; [exact Hc|]. split; [|done].
    apply not_elem_of_dom, is_fresh.
Qed.

(** A shutdown of the agent ends everything, at every moment of its life:
    after [cancel] and Stop, at most four more steps of Start, none of which
    dials, make it return, which is what Stop waits for; and after the final
    Close every connection the client ever made is closed and every heartbeat
    canceled or over. *)
Theorem agent_shutdown load certs dialed path p ls t :
  agent_boot load certs false dialed path = Some (AgentStarted p) → tsteps (ap_tunnel p) ls t →
  ∃ ls' t', tsteps (run_shutdown t) ls' t' ∧ (length ls' <= 4)%nat ∧
    acceptStopped t' = true ∧ t_client t' = t_client t ∧
    let c := t_client (run_close t') in
    tc_closed c = true ∧ st_Connected (Status c) = false ∧
    (∀ i a, tc_conns c !! i = Some a → m_closeCh (ac_mux a) = true ∧ ac_closed a = true) ∧
    (∀ h hb, tc_heartbeats c !! h = Some hb → hb_canceled hb = true ∨ hb_pc hb = HBDone).
Proof.
  intros (cfg & now & El & -> & Hp)%agent_boot_started Hs. rewrite Hp in Hs.
  pose proof (ti_client _ _ _ _ (tsteps_inv _ _ _ _ _ _ (connected_client (clientCfg cfg) now) Hs)) as I.
  destruct (shutdown_returns (run_shutdown t)) as (ls' & t' & Hs' & Hlen & Hst & Hc).
  { apply run_shutdown_keeps. }
  exists ls', t'. rewrite (proj2 (run_shutdown_keeps t)) in Hc. split_and!; try done; [|cbn; rewrite Hc; by apply closed_client..].
  etrans; [exact Hlen|]. destruct (t_pc _); cbn; lia.
Qed.
End agent_main.
