(* ===== verification/AgentLife.v ===== *)
(** * The life of the agent process: [main] and [run] of [cmd/agent/main.go]

    From the connection to the exit: the audit event of the start, the goroutine
    that runs the tunnel, the one that watches the certificate, the wait for a
    signal or for the end of the tunnel, the shutdown, the audit event of the
    end, and the deferred calls, the last of which closes the emitter. The
    tunnel with its client (Tunnel.v), the emitter with its drain goroutine
    (AuditLog.v) and the watcher (Auth.v) move on in between. *)

From Stdlib Require Import ZArith Lia SpecFloat.
From S2P Require Import Prelude Float Frame Window WriteQueue Stream Mux MuxInv MuxOps Config AuditLog Auth Backoff Forwarder AgentClient Tunnel AgentMain.

(** ** The process *)

(** Where [run] is: connected; in an Emit, between its two selects, the last one
    or not; in the select that waits; past [cancel]; in Stop, which waits for
    acceptStopped unless Start was not called; past it; at the deferred
    client.Close; in the deferred emitter.Close; returned. *)
Inductive RunPC :=
| RunConnected
| RunEmitting (final : bool) (event : Event)
| RunWaiting
| RunCanceled
| RunStopping (waits : bool)
| RunStopped
| RunClosing
| RunFlushing
| RunReturned (r : result AgentRunErr unit)
| RunPanicked.

(** The goroutine of WatchForRotation, with its last fingerprint. *)
Inductive WatchPC := WatchIdle | Watching (last : string) | WatchEnded.

(** The two events of [run]. *)
Definition connected_event (addr : string) (now : Z) : Event := mkEvent ActionAgentConnected "agent" addr now "" "" ∅.
Definition disconnected_event (addr : string) (now : Z) : Event := mkEvent ActionAgentDisconnected "agent" addr now "" "" ∅.
Definition run_event (final : bool) (addr : string) (now : Z) : Event :=
  if final then disconnected_event addr now else connected_event addr now.

(** What follows each Emit, whose error is ignored. *)
Definition emitted (final : bool) : RunPC := if final then RunClosing else RunWaiting.

(** The goroutines are started after the first Emit, and end with the process. *)
Definition started (pc : RunPC) : bool :=
  match pc with RunConnected | RunEmitting false _ | RunReturned _ | RunPanicked => false | _ => true end.
Definition over (pc : RunPC) : bool := match pc with RunReturned _ | RunPanicked => true | _ => false end.

(** [func main()] of the agent: the exit status. *)
Definition main_exit (r : result AgentRunErr unit) : Z := match r with Ok _ => 0 | Err _ => 1 end.

Section agent_life.
Context `{PEM} `{X509 Cert Pool}.
Context (addr : string).               (* cfg.Relay.Addr *)

Record AgentLife := mkLife {
  al_pc : RunPC;
  al_tunnel : Tunnel;
  al_tls : Configurator (Cert := Cert);
  al_watch : WatchPC;
  al_emitter : SlogEmitter
}.

Definition new_life (p : AgentProc) : AgentLife :=
  mkLife RunConnected (ap_tunnel p) (ap_tls p) WatchIdle (NewSlogEmitter DefaultBufferSize).

Definition at_pc (pc : RunPC) (L : AgentLife) : AgentLife := mkLife pc (al_tunnel L) (al_tls L) (al_watch L) (al_emitter L).
Definition with_tunnel (t : Tunnel) (L : AgentLife) : AgentLife := mkLife (al_pc L) t (al_tls L) (al_watch L) (al_emitter L).
Definition with_emitter (e : SlogEmitter) (L : AgentLife) : AgentLife := mkLife (al_pc L) (al_tunnel L) (al_tls L) (al_watch L) e.

(** The steps, with what they do to the emitter. *)
Inductive lstep : AgentLife → list elabel → AgentLife → Prop :=
| life_emit L (final : bool) now e :
    al_pc L = (if final then RunStopped else RunConnected) →
    estep (al_emitter L) (ECheck 0 (run_event final addr now)) e →
    lstep L [ECheck 0 (run_event final addr now)] (at_pc (RunEmitting final (run_event final addr now)) (with_emitter e L))
| life_emit_refused L (final : bool) now e :
    al_pc L = (if final then RunStopped else RunConnected) →
    estep (al_emitter L) (ERefused (run_event final addr now)) e →
    lstep L [ERefused (run_event final addr now)] (at_pc (emitted final) (with_emitter e L))
| life_emitted L final event l e :
    al_pc L = RunEmitting final event → l = EAccepted event ∨ l = EAbandoned event → estep (al_emitter L) l e →
    lstep L [l] (at_pc (emitted final) (with_emitter e L))
| life_emit_panic L final event e :
    al_pc L = RunEmitting final event → estep (al_emitter L) (EPanicked event) e →
    lstep L [EPanicked event] (at_pc RunPanicked (with_emitter e L))
| life_signal L :
    al_pc L = RunWaiting → lstep L [] (at_pc RunCanceled (with_tunnel (run_cancel (al_tunnel L)) L))
| life_tunnel_done L :
    al_pc L = RunWaiting → acceptStopped (al_tunnel L) = true →
    lstep L [] (at_pc RunCanceled (with_tunnel (run_cancel (al_tunnel L)) L))
| life_stop L :
    al_pc L = RunCanceled →
    lstep L [] (at_pc (RunStopping (match t_pc (al_tunnel L) with StartIdle => false | _ => true end))
                  (with_tunnel (Stop_cancel (al_tunnel L)) L))
| life_stop_done L waits :
    al_pc L = RunStopping waits → waits = false ∨ acceptStopped (al_tunnel L) = true →
    lstep L [] (at_pc RunStopped L)
| life_stop_timeout L :
    al_pc L = RunStopping true → lstep L [] (at_pc RunStopped L)
| life_client_close L :
    al_pc L = RunClosing → lstep L [] (at_pc RunFlushing (with_tunnel (run_close (al_tunnel L)) L))
| life_emitter_close L e :
    al_pc L = RunFlushing → estep (al_emitter L) EClose e →
    lstep L [EClose] (at_pc (if bool_decide (e_close e = CloseReturned) then RunReturned (Ok tt) else RunFlushing) (with_emitter e L))
| life_drain L e :
    over (al_pc L) = false → estep (al_emitter L) EDrain e → lstep L [EDrain] (with_emitter e L)
| life_tunnel L l t :
    over (al_pc L) = false → tstep (al_tunnel L) l t → l ≠ TStop → l ≠ TCancel → (l = TStart → started (al_pc L) = true) →
    lstep L [] (with_tunnel t L)
| life_watch L fs :
    started (al_pc L) = true → al_watch L = WatchIdle →
    lstep L [] (mkLife (al_pc L) (al_tunnel L) (al_tls L)
                  (match watch_start fs (p_CertFile (cf_paths (al_tls L))) with Ok last => Watching last | Err _ => WatchEnded end)
                  (al_emitter L))
| life_watch_tick L last tick :
    over (al_pc L) = false → al_watch L = Watching last →
    lstep L [] (mkLife (al_pc L) (al_tunnel L) (rotation_tick (last, al_tls L) tick).2
                  (Watching (rotation_tick (last, al_tls L) tick).1) (al_emitter L))
| life_watch_end L last :
    over (al_pc L) = false → al_watch L = Watching last → t_ctx (al_tunnel L) = true →
    lstep L [] (mkLife (al_pc L) (al_tunnel L) (al_tls L) WatchEnded (al_emitter L)).

(** [n] steps. *)
Inductive lsteps : AgentLife → nat → list elabel → AgentLife → Prop :=
| lsteps_nil L : lsteps L 0 [] L
| lsteps_snoc L n ls L1 l L2 : lsteps L n ls L1 → lstep L1 l L2 → lsteps L (S n) (ls ++ l) L2.

(** ** The invariant *)

(** What the emitter and the history of accepted events are, by where [run] is:
    how many of its two events are accepted, which one is between the selects,
    and how far Close is. *)
Definition emits_are (acc : list Event) (n : nat) (e : SlogEmitter) : Prop :=
  e_emits e = ∅ ∧ ∃ t1 t2, acc = take n [connected_event addr t1; disconnected_event addr t2].

Definition emitter_at (pc : RunPC) (acc : list Event) (e : SlogEmitter) : Prop :=
  match pc with
  | RunConnected => emits_are acc 0 e ∧ e_close e = CloseNotCalled
  | RunWaiting | RunCanceled | RunStopping _ | RunStopped => emits_are acc 1 e ∧ e_close e = CloseNotCalled
  | RunEmitting final event =>
      e_emits e = {[0%nat := event]} ∧ (∃ now, event = run_event final addr now) ∧
      (∃ t1, acc = if final then [connected_event addr t1] else []) ∧ e_close e = CloseNotCalled
  | RunClosing => emits_are acc 2 e ∧ e_close e = CloseNotCalled
  | RunFlushing => emits_are acc 2 e ∧ e_close e ≠ CloseReturned
  | RunReturned r => emits_are acc 2 e ∧ e_close e = CloseReturned ∧ r = Ok tt
  | RunPanicked => False
  end.

(** Past [cancel] the context is done, past client.Close the client is closed. *)
Definition canceled (pc : RunPC) : bool :=
  match pc with RunConnected | RunEmitting false _ | RunWaiting => false | _ => true end.
Definition client_over (pc : RunPC) : bool := match pc with RunFlushing | RunReturned _ => true | _ => false end.

Record life_inv (cfg : ClientConfig) (svcs : gmap string string) (ls : list elabel) (L : AgentLife) : Prop := {
  li_emitter : esteps (NewSlogEmitter DefaultBufferSize) ls (al_emitter L);
  li_alive : e_panic (al_emitter L) = false;
  li_cap : e_cap (al_emitter L) = 256%nat;
  li_emits : emitter_at (al_pc L) (accepted ls) (al_emitter L);
  li_tunnel : ∃ tl, tunnel_inv cfg svcs tl (al_tunnel L);
  li_canceled : canceled (al_pc L) = true → t_ctx (al_tunnel L) = true;
  li_closed : client_over (al_pc L) = true → tc_closed (t_client (al_tunnel L)) = true
}.

(** The only pending Emit comes to its end: it is removed from the pending ones,
    and accepted while Close was not called. *)
Lemma emit_ends e event l e' :
  e_emits e = {[0%nat := event]} → e_close e = CloseNotCalled → closeCh e = false → eventCh_closed e = false →
  l = EAccepted event ∨ l = EAbandoned event ∨ l = EPanicked event →
  estep e l e' → l = EAccepted event ∧ e_emits e' = ∅.
Proof.
  intros He Hc H1 H2 Hl Hs. destruct Hs as [| |e t event' Hp Ht Hr|e t event' Hp Ht Hr|e t event' Hp Ht Hr| |]; try (by naive_solver).
  - rewrite He in Ht. apply lookup_singleton_Some in Ht as [<- <-]. split; [done|]. cbn. rewrite He. apply delete_singleton_eq.
  - cbn in Hr. congruence.
  - cbn in Hr. congruence.
Qed.

Lemma tstep_ctx t l t' : tstep t l t' → t_ctx t = true → t_ctx t' = true.
Proof.
  intros Hs Hx. destruct Hs as [t now t' H'|t t' H'|t t' H'|t t' H'|t t' H'|t t' H'|t dialed t' H'|t j t' H'|t|t|t l c Hb Hk]; try done; try revert H'.
  - unfold Start_begin. case_match; intros [= <-]; done.
  - unfold accept_enter. case_match; intros [= <-]; done.
  - unfold accept_stream. repeat case_match; intros [= <-]; done.
  - unfold accept_end. repeat case_match; intros [= <-]; done.
  - unfold start_turn. repeat case_match; intros [= <-]; done.
  - unfold reconnect_turn. repeat case_match; intros [= <-]; done.
  - unfold reconnect_turn. repeat case_match; intros [= <-]; done.
  - unfold forward_end. case_match; intros [= <-]; done.
  - unfold Stop_cancel. by case_match.
Qed.

Lemma background_closed c l c' : background l = true → kstep c l c' → tc_closed c' = tc_closed c.
Proof.
  intros Hb Hs. destruct Hs as [| | |c h now c' H'|c h c' H'|c h now c' H'|c h c' H'| |]; try done; revert H'.
  - unfold heartbeat_tick. repeat case_match; try done; by intros [= <-].
  - unfold heartbeat_stop. repeat case_match; try done; by intros [= <-].
  - unfold heartbeat_pong. repeat case_match; try done; by intros [= <-].
  - unfold heartbeat_fail. repeat case_match; try done; by intros [= <-].
Qed.

(** A closed client stays closed: an attempt to connect it fails. *)
Lemma tstep_closed t l t' :
  tstep t l t' → t_ctx t = true → tc_closed (t_client t) = true → tc_closed (t_client t') = true.
Proof.
  intros Hs Hx Hc. destruct Hs as [t now t' H'|t t' H'|t t' H'|t t' H'|t t' H'|t t' H'|t dialed t' H'|t j t' H'|t|t|t l c Hb Hk]; try done; try revert H'.
  - unfold Start_begin. case_match; intros [= <-]; done.
  - unfold accept_enter. case_match; intros [= <-]; done.
  - unfold accept_stream. repeat case_match; intros [= <-]; done.
  - unfold accept_end. repeat case_match; intros [= <-]; done.
  - unfold start_turn. rewrite Hx. case_match; intros [= <-]; done.
  - unfold reconnect_turn. repeat case_match; intros [= <-]; done.
  - unfold reconnect_turn, Connect, Connect_check. rewrite Hc. repeat case_match; intros; simplify_eq; done.
  - unfold forward_end. case_match; intros [= <-]; done.
  - unfold Stop_cancel. by case_match.
  - cbn. by rewrite (background_closed _ _ _ Hb Hk).
Qed.

Lemma run_close_inv cfg svcs tl t : tunnel_inv cfg svcs tl t → tunnel_inv cfg svcs tl (run_close t).
Proof.
  intros [I1 I2 I3 I4 I5 I6]. pose proof (ClientClose_inv _ I5) as I7. split; cbn; try done; [|by apply ClientClose_sessions].
  pose proof (ci_closed _ I7 (ClientClose_closed _)) as E. unfold start_at in *. cbn. rewrite E.
  destruct (t_pc t) as [| | | |k|[|[e]]]; naive_solver.
Qed.

(** A step of the emitter alone. *)
Lemma life_inv_emitter cfg svcs ls L l e pc :
  life_inv cfg svcs ls L → estep (al_emitter L) l e → (∀ event, l ≠ EPanicked event) →
  emitter_at pc (accepted (ls ++ [l])) e → (canceled pc = canceled (al_pc L)) →
  (client_over pc = true → client_over (al_pc L) = true) →
  life_inv cfg svcs (ls ++ [l]) (at_pc pc (with_emitter e L)).
Proof.
  intros [I1 I2 I3 I4 I5 I6 I7] Hs Hl He Hc Ho. destruct (estep_kept _ _ _ Hs) as (K1 & _ & _ & K4).
  split; cbn; [by eapply esteps_snoc| |congruence|done|done|by rewrite Hc|naive_solver].
  rewrite K4. destruct l; try done. by destruct (Hl event).
Qed.

(** A step of the tunnel alone. *)
Lemma life_inv_tunnel cfg svcs ls L t pc :
  life_inv cfg svcs ls L → (∃ tl, tunnel_inv cfg svcs tl t) → emitter_at pc (accepted ls) (al_emitter L) →
  (canceled pc = true → t_ctx t = true) → (client_over pc = true → tc_closed (t_client t) = true) →
  life_inv cfg svcs ls (at_pc pc (with_tunnel t L)).
Proof. intros [I1 I2 I3 I4 I5 I6 I7] Ht He Hc Ho. by split. Qed.

Lemma lstep_inv cfg svcs ls L l L' :
  life_inv cfg svcs ls L → lstep L l L' → life_inv cfg svcs (ls ++ l) L'.
Proof.
  intros I Hs. pose proof I as [I1 I2 I3 I4 [tl I5] I6 I7].
  destruct Hs as [L final now e Epc He|L final now e Epc He|L final event l e Epc Hl He|L final event e Epc He
    |L Epc|L Epc Hd|L Epc|L waits Epc Hd|L Epc|L Epc|L e Epc He|L e Hov He|L l t Hov Ht H1 H2 H3
    |L fs Hst Hw|L last tick Hov Hw|L last Hov Hw Hx]; rewrite ?app_nil_r.
  - apply (life_inv_emitter cfg svcs ls L); try done; [|by destruct final; rewrite Epc].
    destruct (estep_kept _ _ _ He) as (_ & K2 & K3 & _). rewrite accepted_snoc_event, app_nil_r.
    destruct final; rewrite Epc in I4; destruct I4 as [(E1 & t1 & t2 & E2) E3]; cbn; rewrite K2, K3, E1;
      (split_and!; [done|by eexists|by exists t1|done]).
  - exfalso. destruct (emitter_open _ _ _ I1) as [Ho _].
    + destruct final; rewrite Epc in I4; by destruct I4.
    + inversion He as [|? ? ? _ Hr| | | | |]; subst. unfold Emit_check in Hr. by rewrite Ho in Hr.
  - rewrite Epc in I4. destruct I4 as (E1 & [now ->] & [t1 E2] & E3). destruct (emitter_open _ _ _ I1 E3) as [O1 O2].
    assert (l = EAccepted (run_event final addr now) ∨ l = EAbandoned (run_event final addr now) ∨ l = EPanicked (run_event final addr now))
      as Hl' by tauto.
    destruct (emit_ends _ _ _ _ E1 E3 O1 O2 Hl' He) as [-> E4].
    destruct (estep_kept _ _ _ He) as (_ & _ & K3 & _).
    apply (life_inv_emitter cfg svcs ls L); try done; [|by destruct final; rewrite Epc|by destruct final].
    rewrite accepted_snoc_event, E2. destruct final; cbn; (split; [|congruence]); (split; [done|]).
    + by exists t1, now.
    + by exists now, now.
  - exfalso. rewrite Epc in I4. destruct I4 as (E1 & _ & _ & E3). destruct (emitter_open _ _ _ I1 E3) as [O1 O2].
    by destruct (emit_ends _ _ _ _ E1 E3 O1 O2 (or_intror (or_intror eq_refl)) He) as [? _].
  - rewrite Epc in I4. apply life_inv_tunnel; try done. exists (tl ++ [TCancel]). eapply tstep_inv, tstep_cancel. done.
  - rewrite Epc in I4. apply life_inv_tunnel; try done. exists (tl ++ [TCancel]). eapply tstep_inv, tstep_cancel. done.
  - rewrite Epc in I4, I6. apply life_inv_tunnel; try done.
    + exists (tl ++ [TStop]). eapply tstep_inv, tstep_stop. done.
    + intros _. specialize (I6 eq_refl). unfold Stop_cancel. by case_match.
  - rewrite Epc in I4, I6. split; try done. by exists tl.
  - rewrite Epc in I4, I6. split; try done. by exists tl.
  - rewrite Epc in I4, I6. apply life_inv_tunnel; try done.
    + exists tl. by apply run_close_inv.
    + destruct I4 as [E1 E2]. split; [done|congruence].
    + intros _. apply ClientClose_closed.
  - rewrite Epc in I4, I6, I7. destruct (estep_kept _ _ _ He) as (_ & K2 & _ & _).
    assert (emits_are (accepted (ls ++ [EClose])) 2 e) as E1.
    { rewrite accepted_snoc_event, app_nil_r. destruct I4 as [[E1 E2] _]. split; [congruence|done]. }
    apply (life_inv_emitter cfg svcs ls L); try done; case_bool_decide; rewrite ?Epc; done.
  - destruct (estep_kept _ _ _ He) as (_ & K2 & K3 & _).
    pose proof (life_inv_emitter cfg svcs ls L EDrain e (al_pc L) I He ltac:(done)) as Hl. destruct L as [pc tun tls wat em].
    apply Hl; [|done|done]. rewrite accepted_snoc_event, app_nil_r. cbn in *.
    unfold emitter_at, emits_are in *. by rewrite K2, K3.
  - pose proof (life_inv_tunnel cfg svcs ls L t (al_pc L) I) as Hl. destruct L as [pc tun tls wat em]. apply Hl; [|done| |].
    + exists (tl ++ [l]). by eapply tstep_inv.
    + intros Hc. by eapply tstep_ctx, I6.
    + intros Hc. eapply tstep_closed; [done| |by apply I7]. apply I6. cbn in *. by destruct pc.
  - split; try done. by exists tl.
  - split; try done. by exists tl.
  - split; try done. by exists tl.
Qed.

Lemma new_life_inv load certs dialed path p :
  agent_boot load certs false dialed path = Some (AgentStarted p) →
  ∃ cfg, load path = Ok cfg ∧ life_inv (clientCfg cfg) (t_services (ap_tunnel p)) [] (new_life p).
Proof.
  intros (cfg & now & El & -> & Hp)%agent_boot_started. exists cfg. split; [done|]. split; try done.
  - apply esteps_nil.
  - split; [|done]. split; [done|]. by exists 0, 0.
  - exists []. cbn. rewrite Hp. eapply tsteps_inv; [apply connected_client|constructor].
Qed.

Lemma lsteps_inv cfg svcs L0 n ls L :
  life_inv cfg svcs [] L0 → lsteps L0 n ls L → life_inv cfg svcs ls L.
Proof. intros I Hs. induction Hs; [done|]. eapply lstep_inv; eauto. Qed.

(** ** The way to the end *)

(** How many steps [run] is from its return, when the next step it waits for is
    taken each time: a signal comes, Start returns, the buffer drains. *)
Definition life_rank (L : AgentLife) : nat :=
  match al_pc L with
  | RunConnected => 20 | RunEmitting false _ => 19 | RunWaiting => 18 | RunCanceled => 17
  | RunStopping _ => 12 + start_rank (t_pc (al_tunnel L))
  | RunStopped => 10 | RunEmitting true _ => 9 | RunClosing => 8
  | RunFlushing =>
      close_rank (e_close (al_emitter L)) + length (eventCh (al_emitter L)) + (if e_done (al_emitter L) then 0 else 1)
  | RunReturned _ | RunPanicked => 0
  end%nat.

(** The emitter takes an event as long as it is open and has room. *)
Lemma emit_can ls e final event :
  esteps (NewSlogEmitter DefaultBufferSize) ls e → e_panic e = false → e_cap e = 256%nat →
  emitter_at (RunEmitting final event) (accepted ls) e → ∃ e', estep e (EAccepted event) e'.
Proof.
  intros Hs Hp Hc (E1 & [now ->] & [t1 E2] & E3). destruct (emitter_open _ _ _ Hs E3) as [O1 O2]. eexists.
  apply (estep_send e 0); [done|by rewrite E1, lookup_singleton_eq|]. unfold emit_ready. rewrite O2. cbn.
  apply bool_decide_eq_true_2. pose proof (esteps_inv _ _ _ Hs) as [(out & Ho & _) _ _ _ _ _].
  assert (length (accepted ls) <= 1)%nat by (rewrite E2; destruct final; cbn; lia).
  rewrite Ho, length_app in *. lia.
Qed.

Lemma life_progress cfg svcs ls L :
  life_inv cfg svcs ls L → over (al_pc L) = false →
  ∃ l L', lstep L l L' ∧ (life_rank L' < life_rank L)%nat.
Proof.
  intros [I1 I2 I3 I4 _ I6 _] Hov. unfold life_rank at 2.
  assert (∀ (final : bool), al_pc L = (if final then RunStopped else RunConnected) →
    ∃ l L', lstep L l L' ∧ al_pc L' = RunEmitting final (run_event final addr 0)) as Hemit.
  { intros final Epc. eexists _, _. split; [apply (life_emit L final 0); [done|]|done].
    assert (e_emits (al_emitter L) = ∅ ∧ e_close (al_emitter L) = CloseNotCalled) as [E1 E2]
      by (destruct final; rewrite Epc in I4; by destruct I4 as [[? _] ?]).
    apply estep_check; [done|by rewrite E1|]. unfold Emit_check. by rewrite (proj1 (emitter_open _ _ _ I1 E2)). }
  destruct (al_pc L) as [|final event| | |waits| | | | |] eqn:Epc; try done.
  - destruct (Hemit false eq_refl) as (l & L' & Hs & E). exists l, L'. split; [done|]. unfold life_rank. rewrite E. lia.
  - destruct (emit_can _ _ _ _ I1 I2 I3 I4) as [e' He].
    eexists _, _. split; [apply (life_emitted L final event); [done|by left|exact He]|]. destruct final; cbn; lia.
  - eexists _, _. split; [by apply life_signal|]. cbn. lia.
  - eexists _, _. split; [by apply life_stop|]. unfold life_rank. cbn. destruct (t_pc _); cbn; lia.
  - destruct (decide (waits = false ∨ acceptStopped (al_tunnel L) = true)) as [Hd|Hn].
    { eexists _, _. split; [by eapply life_stop_done|]. cbn. lia. }
    destruct (start_progress (al_tunnel L)) as (l & t' & Ht & Hl & Hx & Hc & Hlt).
    { by apply I6. }
    { destruct (acceptStopped (al_tunnel L)); [naive_solver|done]. }
    eexists _, _. split; [apply (life_tunnel L l t'); rewrite ?Epc; [done|done|naive_solver..|done]|].
    unfold life_rank. cbn. rewrite Epc. lia.
  - destruct (Hemit true eq_refl) as (l & L' & Hs & E). exists l, L'. split; [done|]. unfold life_rank. rewrite E. lia.
  - destruct I4 as [(_ & t1 & t2 & E2) E3]. eexists _, _. split; [by apply life_client_close|]. unfold life_rank. cbn.
    rewrite E3. pose proof (esteps_inv _ _ _ I1) as [(out & Ho & _) _ _ _ _ _].
    assert (length (accepted ls) = 2%nat) as Hl by (by rewrite E2). rewrite Ho, length_app in Hl. cbn.
    destruct (e_done _); lia.
  - destruct I4 as [_ Hnr]. destruct (flush_can _ _ _ I1 I2 Hnr) as (l & e' & He & [(-> & H1 & H2 & H3)|(-> & H1 & H2)]).
    + eexists _, _. split; [by apply life_emitter_close|]. unfold life_rank. cbn. case_bool_decide; cbn; [|rewrite H2, H3; lia].
      destruct (e_close (al_emitter L)); cbn in *; lia.
    + eexists _, _. split; [apply (life_drain L e'); [by rewrite Epc|done]|]. unfold life_rank. cbn. rewrite Epc, H1. lia.
Qed.

Lemma life_returns cfg svcs ls L :
  life_inv cfg svcs ls L →
  ∃ n ls' L', lsteps L n ls' L' ∧ (n <= life_rank L)%nat ∧ over (al_pc L') = true.
Proof.
  remember (life_rank L) as k eqn:Ek. revert ls L Ek. induction (lt_wf k) as [k _ IH]. intros ls L Ek I.
  destruct (over (al_pc L)) eqn:Eo; [exists 0%nat, [], L; split_and!; [constructor|lia|done]|].
  destruct (life_progress _ _ _ _ I Eo) as (l & L1 & Hs & Hlt). rewrite <-Ek in Hlt.
  destruct (IH _ Hlt _ L1 eq_refl (lstep_inv _ _ _ _ _ _ I Hs)) as (n & ls' & L' & Hss & Hn & Ho).
  exists (S n), (l ++ ls'), L'. split_and!; [|lia|done].
  clear -Hs Hss. induction Hss as [L1|L1 n ls' L2 l' L3 _ IH Hl'].
  - rewrite app_nil_r. change l with ([] ++ l). eapply lsteps_snoc; [constructor|done].
  - rewrite (assoc_L (++)). eapply lsteps_snoc; [by apply IH|done].
Qed.

(** ** Theorems *)

(** C23. The life of the agent is on record and comes to an end. Over every
    interleaving of [run], the tunnel, the client with its heartbeats and
    sessions, the certificate watcher and the emitter: the process never
    panics; it has emitted the event of its connection and, once it is done,
    that of its end, each once and in this order, and when it has returned both
    are in the log and nothing else is, the client is closed with every
    connection it ever made and every heartbeat, and the exit status is 0,
    also when the tunnel had given up reconnecting. From every moment of its
    life it can return in at most twenty more steps. *)
Theorem agent_life_audited load certs dialed path p n ls L :
  agent_boot load certs false dialed path = Some (AgentStarted p) → lsteps (new_life p) n ls L →
  al_pc L ≠ RunPanicked ∧
  (∃ t1 t2, accepted ls `prefix_of` [connected_event addr t1; disconnected_event addr t2]) ∧
  (∀ r, al_pc L = RunReturned r →
     main_exit r = 0 ∧ length (accepted ls) = 2%nat ∧ Forall2 logs (accepted ls) (e_logged (al_emitter L)) ∧
     let c := t_client (al_tunnel L) in
     st_Connected (Status c) = false ∧
     (∀ i a, tc_conns c !! i = Some a → m_closeCh (ac_mux a) = true ∧ ac_closed a = true) ∧
     (∀ h hb, tc_heartbeats c !! h = Some hb → hb_canceled hb = true ∨ hb_pc hb = HBDone)) ∧
  (∃ n' ls' L', lsteps L n' ls' L' ∧ (n' <= 20)%nat ∧ al_pc L' = RunReturned (Ok tt)).
Proof.
  intros (cfg & _ & I0)%new_life_inv Hs. pose proof (lsteps_inv _ _ _ _ _ _ I0 Hs) as I. split_and!.
  - intros E. pose proof (li_emits _ _ _ _ I) as H'. by rewrite E in H'.
  - pose proof (li_emits _ _ _ _ I) as H'. destruct (al_pc L) as [|[] event| | |w| | | |r|]; cbn in H';
      first [destruct H' as [(_ & t1 & t2 & ->) _]|destruct H' as (_ & _ & [t1 ->] & _); exists t1, 0|done];
      try (exists t1, t2); cbn; by (apply prefix_take || apply prefix_nil || (eexists; reflexivity)).
  - intros r E. pose proof I as [I1 I2 I3 I4 [tl I5] I6 I7]. rewrite E in I4, I7.
    destruct I4 as ((_ & t1 & t2 & E2) & E3 & ->).
    pose proof (esteps_inv _ _ _ I1) as [(out & Ho & Hf) _ _ _ Hd Hr]. destruct (Hd (Hr E3)) as [_ En].
    rewrite En, app_nil_r in Ho. subst out. split_and!; [done|by rewrite E2|done|..];
      by apply (over_client _ (ti_client _ _ _ _ I5)), I7.
  - destruct (life_returns _ _ _ _ I) as (n' & ls' & L' & Hs' & Hn & Ho). exists n', ls', L'. split_and!; [done| |].
    + etrans; [exact Hn|]. unfold life_rank. pose proof (li_emits _ _ _ _ I) as H'.
      destruct (al_pc L) as [|[] ?| | | | | | | |]; try lia; [destruct (t_pc _); cbn; lia|].
      cbn in H'. destruct H' as [(_ & t1 & t2 & E2) _].
      pose proof (esteps_inv _ _ _ (li_emitter _ _ _ _ I)) as [(out & Ho' & _) _ _ _ _ _].
      assert (length (accepted ls) = 2%nat) as Hl by (by rewrite E2). rewrite Ho', length_app in Hl.
      destruct (e_close _), (e_done _); cbn; lia.
    + assert (life_inv (clientCfg cfg) (t_services (ap_tunnel p)) (ls ++ ls') L') as I'.
      { clear -I Hs'. revert I. induction Hs' as [|L n' ls' L1 l L2 _ IH Hl]; intros I; [by rewrite app_nil_r|].
        rewrite (assoc_L (++)). eapply lstep_inv; eauto. }
      pose proof (li_emits _ _ _ _ I') as H'. destruct (al_pc L') as [| | | | | | | |r|]; try done.
      by destruct H' as (_ & _ & ->).
Qed.
End agent_life.
