(* ===== verification/MainWitness.v ===== *)
(** * Concrete processes

    A PEM format of one byte per block, certificates that are their bytes, and
    small configurations, on which the theorems about the HTTP API and the two
    processes are applied. *)

From Stdlib Require Import ZArith Lia SpecFloat.
From stdpp Require Import pretty.
From S2P Require Import Prelude Text Json Float Frame Window WriteQueue Stream Mux MuxInv MuxOps Config Registry RateLimit Router ClientListener Store Net AuditLog Auth Admin Reload RelayServer RelayWitness AdminHttp AdminText RelayMain Shutdown RelayRestart RelayLife Backoff Forwarder AgentClient Tunnel AgentMain AgentLife.

#[local] Existing Instance counting_limiter.

Definition byte_block (data : list byte) : option (string * list byte * list byte) :=
  match data with [] => None | b :: rest => Some ("CERTIFICATE", [b], rest) end.
Lemma byte_block_rest data ty bytes rest :
  byte_block data = Some (ty, bytes, rest) → (length rest < length data)%nat.
Proof. destruct data as [|b data]; [done|]. intros [= _ _ <-]. cbn. lia. Qed.
#[local] Instance byte_pem : PEM := {| pem_Decode := byte_block; pem_rest := byte_block_rest |}.

#[local] Instance byte_x509 : X509 (list byte) (list byte) := {|
  LoadX509KeyPair := λ data _, Some data;
  AppendCerts := λ data, Some data;
  ParseCertificate := λ data, Some (zlen data * 90 * 24 * Hour);
  Sum256 := string_of_bytes
|}.

(** The text of a body, written with single quotes for the double ones. *)
Definition body_of (s : string) : list byte :=
  (λ b, if bool_decide (b = x27) then x22 else b) <$> bytes_of_string s.

Definition cert_files : files := λ path, if bool_decide (path = "missing.pem") then None else Some [x01; x02].

(** ** The relay *)

Definition main_customer : CustomerConfig :=
  mkCustomerConfig "customer-a" [mkPortConfig 2222 "ssh" "" ""] 0 0 0 (mkRateLimitConfig f64_zero 0).
Definition main_server : ServerConfig := mkServerConfig ":8443" "" "" "" 0 0 0 0 "sidecar.json".
Definition main_config : RelayConfig :=
  mkRelayConfig main_server (Config.mkTLSPaths "relay.pem" "relay.key" "missing.pem" "ca.pem")
    [main_customer] (mkLogConfig "" "" "") (mkMetricsConfig false "").
Definition main_load (path : string) : result ConfigErr RelayConfig :=
  if bool_decide (path = "relay.yaml") then Ok main_config else Err (CfgRead path).

Definition main_world : World :=
  mkWorld demo_env (λ path, Err (CfgRead path)) (mkOrders [] [] []) cert_files.

Definition main_boot : option (RunResult (Lim := Z) (Cert := list byte)) :=
  run_boot main_load cert_files ∅ false false 7 "v1" "relay.yaml".

Definition main_index : gmap Z PortIndexEntry := {[2222 := index_entry main_customer (mkPortConfig 2222 "ssh" "" "")]}.

Definition no_admin : AdminHttp Z := NewAdminServer 0 ∅ NewClientListener (NewMemoryRegistry (Some [])) None None ∅ [] "" "" None.
Definition main_proc : RelayProc (Lim := Z) (Cert := list byte) :=
  match main_boot with
  | Some (RunStarted p) => p
  | _ => mkProc no_admin ∅ (NewConfigurator (Auth.mkTLSPaths "" "" "" "" ""))
  end.
Definition main_order : list (Z * PortIndexEntry) := map_to_list main_index.
Definition main_relay : AdminHttp Z :=
  with_admin (RelayStart os_listen main_order main_order (h_admin (rp_admin main_proc))) (rp_admin main_proc).

Definition post_port : Request := mkRequest "POST" (bytes_of_string "/ports")
  (body_of "{ 'port': 8080, 'customer_id': 'customer-a', 'Service': 'http' }").
Abbreviation serve_main := (serve os_listen).
Definition main_relay2 : AdminHttp Z := (serve_main main_world main_relay post_port).1.
Definition post_reply : Reply := (serve_main main_world main_relay post_port).2.

Lemma main_started : main_boot = Some (RunStarted main_proc).
Proof. vm_compute. reflexivity. Defined.
Lemma main_order_index : main_order ≡ₚ map_to_list (rp_index main_proc).
Proof. replace (rp_index main_proc) with main_index by (vm_compute; reflexivity). reflexivity. Defined.
Lemma main_valid cfg : main_load "relay.yaml" = Ok cfg → config_valid cfg.
Proof.
  intros [= <-] c p Hin. change (customer_ports _) with [(main_customer, mkPortConfig 2222 "ssh" "" "")] in Hin.
  apply list_elem_of_singleton in Hin as [= -> ->]. split_and!; cbn; try done; try lia; try (by left); by apply text_check.
Defined.
Lemma main_history :
  psteps os_listen main_relay ([] ++ [PRequest main_world post_port post_reply]) main_relay2.
Proof. eapply psteps_snoc; [constructor|]. apply pstep_request; [by intros ?|by vm_compute]. Defined.
Lemma main_loads : Forall loads_valid ([] ++ [PRequest main_world post_port post_reply]).
Proof. constructor; [|constructor]. by intros ? ?. Defined.

Theorem relay_boot_witness :
  ∃ r, main_boot = Some r ∧ boot_outcome os_listen main_load cert_files ∅ false "relay.yaml" r ∧
    a_router (h_admin main_relay) !! 2222 = Some (mkPortEntry "customer-a" "ssh" 0 "0.0.0.0").
Proof.
  destruct (relay_boot (Lim := Z) (Cert := list byte) os_listen main_load cert_files ∅ false 7 "v1" "relay.yaml")
    as (r & Hr & Ho).
  exists r. split; [exact Hr|]. split; [exact Ho|]. by vm_compute.
Defined.

(** The relay is started again on the files it left, with a relay.yaml that has
    no ports any more. *)
Definition restart_config : RelayConfig :=
  mkRelayConfig main_server (Config.mkTLSPaths "relay.pem" "relay.key" "missing.pem" "ca.pem")
    [] (mkLogConfig "" "" "") (mkMetricsConfig false "").
Definition restart_load (path : string) : result ConfigErr RelayConfig := Ok restart_config.
Definition restart_boot : option (RunResult (Lim := Z) (Cert := list byte)) :=
  run_boot restart_load cert_files (a_fs (h_admin main_relay2)) false false 9 "v1" "relay.yaml".
Definition restart_proc : RelayProc (Lim := Z) (Cert := list byte) :=
  match restart_boot with Some (RunStarted p) => p | _ => main_proc end.
Definition restart_order : list (Z * PortIndexEntry) := map_to_list (rp_index restart_proc).

Lemma restart_started : restart_boot = Some (RunStarted restart_proc).
Proof. vm_compute. reflexivity. Defined.

Lemma main_saves : Forall (event_saving "sidecar.json") ([] ++ [PRequest main_world post_port post_reply]).
Proof. constructor; [|constructor]. split; [done|by exists false]. Defined.
Lemma main_no_conflict : Forall no_conflict ([] ++ [PRequest main_world post_port post_reply]).
Proof. constructor; [|constructor]. by vm_compute. Defined.
Lemma main_changes : Exists changes_ports ([] ++ [PRequest main_world post_port post_reply]).
Proof. constructor. by exists EPorts, 201. Defined.

Theorem process_restart_witness :
  a_router (RelayStart os_listen restart_order restart_order (h_admin (rp_admin restart_proc))) !! 8080
  = Some (mkPortEntry "customer-a" "http" 0 "0.0.0.0").
Proof.
  etrans; [apply (process_restart os_listen main_load cert_files ∅ false 7 "v1" "relay.yaml"
    main_proc main_order main_order _ main_relay2 "sidecar.json" restart_load cert_files 9 "v1" "relay.yaml"
    restart_config ∅ restart_proc restart_order restart_order 8080 main_started main_valid main_order_index
    main_history main_loads eq_refl main_saves main_no_conflict main_changes restart_started eq_refl eq_refl eq_refl
    ltac:(done)); reflexivity|].
  by vm_compute.
Defined.

Theorem process_shutdown_witness :
  ∃ ls sh, shsteps os_listen (mkShutdown main_relay2 StopBegin) ls sh ∧ sh_http sh = run_stop main_relay2 ∧
    (∀ id c, agents (a_registry (h_admin (sh_http sh))) !! id = Some c →
       conns (a_registry (h_admin main_relay2)) !! c = None) ∧
    is_Some (listeners (a_clientListener (h_admin main_relay2)) !! 8080) ∧
    (∃ ls' sh', shsteps os_listen sh ls' sh' ∧
       ∀ ln x, lns (a_clientListener (h_admin (sh_http sh'))) !! ln = Some x → ln_open x = false).
Proof.
  destruct (stop_run os_listen main_relay2) as (ls & _ & Hs).
  destruct (proj2 (process_shutdown os_listen main_load cert_files ∅ false 7 "v1" "relay.yaml" main_proc
    main_order main_order _ main_relay2 ls _ main_started main_history Hs) eq_refl) as (_ & Ha & _ & ls' & sh' & Hs' & _ & _ & _ & Hl).
  exists ls. eexists. split; [exact Hs|]. split; [reflexivity|]. split; [exact Ha|].
  split; [by vm_compute; eexists|]. exists ls', sh'. exact (conj Hs' Hl).
Defined.

Definition late_agent : LiveConnection :=
  NewLiveConnection 9 "customer-z" (NewMuxSession RoleRelay (agent_mux_config 50)) "10.0.0.9:1".

Lemma late_agent_survives_witness :
  ∃ sh, shsteps os_listen (mkShutdown main_relay2 (StopUnregister [])) [ShOther (PRegistry (EConnect "customer-z" 0)); ShStop] sh ∧
    sh_pc sh = StopReturned ∧ Lookup (a_registry (h_admin (sh_http sh))) "customer-z" = Ok 0%nat ∧
    m_closeCh (lc_mux late_agent) = false.
Proof.
  destruct (late_agent_survives os_listen main_relay2 "customer-z" 0 late_agent eq_refl eq_refl eq_refl)
    as (sh & Hs & Hp & Hl & _).
  exists sh. exact (conj Hs (conj Hp (conj Hl eq_refl))).
Defined.

(** ** The API *)


Theorem port_path_roundtrip_witness :
  is_i64 8080 ∧
  serve_main main_world main_relay2 (mkRequest "GET" (bytes_of_string "/ports/8080") []) =
  (main_relay2, RApi (RespPort 200 (mkPortInfo 8080 "customer-a" "http" 0 "0.0.0.0"))).
Proof.
  split; [done|]. etrans; [apply (port_path_roundtrip os_listen main_world main_relay2 "GET" [] 8080); done|].
  by vm_compute.
Defined.

(** A port posted as indented JSON by a client. *)
Definition text_request : PortCreateRequest := mkPortCreateRequest 9090 "customer-a" "api<1>" 3 "127.0.0.1".
Definition text_post : AdminHttp Z * Reply :=
  serve_main main_world main_relay2
    (mkRequest "POST" (bytes_of_string "/ports") (print indent2 0 (create_json text_request) ++ [x0a])).

Theorem port_api_roundtrip_witness :
  ∃ got, (serve_main main_world text_post.1 (mkRequest "GET" (bytes_of_string "/ports/9090") [])).2 = got ∧
    (reply_body (λ _, "") (λ _, [x30]) got ≫= read_port) = Some (mkSidecarPort 9090 "customer-a" "api<1>" "127.0.0.1" 3).
Proof.
  assert (create_text text_request) as Ht by (split_and!; [done|by apply text_check..]).
  destruct (port_api_roundtrip os_listen (λ _, "") (λ _, [x30]) main_world main_world main_relay2 text_request indent2 [x0a]
    text_post.1 text_post.2 indent2_ok Ht ltac:(done) ltac:(done) (surjective_pairing _) ltac:(by vm_compute))
    as (_ & got & Hg & _ & Hb).
  exists got. split; [|exact Hb].
  change (bytes_of_string "/ports/9090") with (bytes_of_string "/ports/" ++ Itoa (cr_Port text_request)).
  by rewrite Hg.
Defined.

Definition put_port : Request := mkRequest "PUT" (bytes_of_string "/ports/8080") (body_of "{'max_streams':5}").

Theorem admin_tenant_binding_witness :
  ∃ h', (serve_main main_world main_relay2 put_port).1 = h' ∧
    ∀ e', a_router (h_admin h') !! 8080 = Some e' →
      ∃ e, a_router (h_admin main_relay2) !! 8080 = Some e ∧ customerID e = customerID e'.
Proof.
  eexists. split; [reflexivity|]. intros e' He'.
  destruct (admin_tenant_binding os_listen main_world main_relay2 put_port _ _ 8080
    (surjective_pairing _)) as [E|[_ H]]; [done| |by apply H].
  rewrite E in He'. exact (ex_intro _ e' (conj He' eq_refl)).
Defined.

Theorem admin_disconnects_witness :
  plain (bytes_of_string "customer-a") ∧
  (serve_main main_world main_relay (mkRequest "DELETE" (bytes_of_string "/agents/customer-a") [])).2 =
  RApi RespNoContent.
Proof.
  assert (plain (bytes_of_string "customer-a")) as Hp.
  { split_and!; [done..|]. intros Hin. by repeat (apply elem_of_cons in Hin as [?|Hin]; [done|]);
      apply not_elem_of_nil in Hin. }
  split; [exact Hp|].
  apply (admin_disconnects os_listen main_world main_relay "customer-a" [] Hp).
Defined.

Theorem status_report_witness :
  ∃ s, serve_main main_world main_relay2 (mkRequest "GET" (bytes_of_string "/status") []) = (main_relay2, RStatus s) ∧
    PortsActive s = 2 ∧ (ce_Name <$> RelayCerts s) = ["relay"; "client_ca"] ∧
    (DaysLeft <$> RelayCerts s) = [Some 89; Some 89].
Proof.
  destruct (status_report os_listen main_world main_relay2 []) as (s & Hs & _ & Hp & _).
  { intros kc Hin. exfalso. by vm_compute in Hin; inversion Hin. }
  exists s. split; [exact Hs|]. split; [rewrite Hp; by vm_compute|].
  assert (s = match (serve_main main_world main_relay2 (mkRequest "GET" (bytes_of_string "/status") [])).2 with
              | RStatus s => s | _ => s end) as -> by (by rewrite Hs).
  split; by vm_compute.
Defined.

Theorem chain_file_checked_witness :
  ∃ r, ValidateChainCertFile cert_files "relay.pem" = Some r ∧ r = Ok tt.
Proof.
  destruct (chain_file_checked cert_files "relay.pem") as (r & Hr & l & Hl & Hc). exists r. split; [exact Hr|].
  vm_compute in Hr. congruence.
Defined.

(** ** The agent *)

Definition agent_config : AgentConfig :=
  mkAgentConfig (mkRelayConnection "relay:8443" "relay" false 0 0 1 1)
    (Config.mkTLSPaths "agent.pem" "agent.key" "ca.pem" "")
    [Config.mkServiceMapping "ssh" "tcp" "127.0.0.1:22" 0; Config.mkServiceMapping "" "tcp" "127.0.0.1:1" 0;
     Config.mkServiceMapping "ssh" "tcp" "127.0.0.1:2222" 0]
    (mkLogConfig "" "" "") (mkUpdateConfig false 0 "" "").
Definition agent_load (path : string) : result ConfigErr AgentConfig := Ok agent_config.
Definition agent_proc : AgentProc (Cert := list byte) :=
  match agent_boot agent_load cert_files false (Some 7) "agent.yaml" with
  | Some (AgentStarted p) => p
  | _ => mkAgentProc (NewTunnel (NewClient (clientCfg agent_config)) []) (NewConfigurator (Auth.mkTLSPaths "" "" "" "" ""))
  end.
Lemma agent_started : agent_boot agent_load cert_files false (Some 7) "agent.yaml" = Some (AgentStarted agent_proc).
Proof. vm_compute. reflexivity. Defined.

Theorem agent_serves_configured_witness :
  ∃ i a, tc_conns (t_client (ap_tunnel agent_proc)) !! i = Some a ∧
    serviceNames agent_config = ["ssh"; "ssh"] ∧ announces ["ssh"; "ssh"] (ac_mux a) ∧
    length (control (m_writeQueue (ac_mux a))) = 1%nat.
Proof.
  destruct (agent_serves_configured agent_load cert_files (Some 7) "agent.yaml" agent_proc [] _ agent_started
    (tsteps_nil _)) as (cfg & i & a & El & _ & Ha & Hn & _).
  injection El as <-. exists i, a. split; [exact Ha|]. split; [by vm_compute|]. split; [exact Hn|].
  destruct Hn as [(_ & f & -> & _)|[Hn _]]; [done|]. exfalso. apply Hn.
  split; [done|]. split; [|by vm_compute].
  assert (no_newline "ssh") as Hs by (split; apply (bool_decide_unpack (_ ∉ _)); by vm_compute).
  by repeat (apply Forall_cons; split; [exact Hs|]).
Defined.

Theorem agent_shutdown_witness :
  ∃ ls' t', tsteps (run_shutdown (ap_tunnel agent_proc)) ls' t' ∧ acceptStopped t' = true ∧
    st_Connected (Status (t_client (ap_tunnel agent_proc))) = true ∧
    st_Connected (Status (t_client (run_close t'))) = false.
Proof.
  destruct (agent_shutdown agent_load cert_files (Some 7) "agent.yaml" agent_proc [] _ agent_started (tsteps_nil _))
    as (ls' & t' & Hs & _ & Ha & _ & _ & Hc & _).
  exists ls', t'. split; [exact Hs|]. split; [exact Ha|]. split; [by vm_compute|exact Hc].
Defined.

(** The agent emits its first event, and waits. *)
Definition first_event : Event := connected_event "relay:8443" 7.
Definition emitting_life : AgentLife (Cert := list byte) :=
  let L := new_life agent_proc in
  at_pc (RunEmitting false first_event) (with_emitter (set_emits (<[0%nat := first_event]> ∅) (al_emitter L)) L).
Definition waiting_life : AgentLife (Cert := list byte) :=
  at_pc RunWaiting (with_emitter (Emit_select (al_emitter emitting_life) 0 first_event EmitSend) emitting_life).

Lemma agent_emitting : lsteps "relay:8443" (new_life agent_proc) 1 [ECheck 0 first_event] emitting_life.
Proof.
  apply (lsteps_snoc _ _ 0 [] _ _ _ (lsteps_nil _ _)), (life_emit _ _ false 7); [reflexivity|]. by apply estep_check.
Qed.
Lemma agent_waiting :
  lsteps "relay:8443" (new_life agent_proc) 2 [ECheck 0 first_event; EAccepted first_event] waiting_life.
Proof.
  apply (lsteps_snoc _ _ 1 _ _ _ _ agent_emitting), (life_emitted _ emitting_life false first_event);
    [reflexivity|by left|]. by apply (estep_send _ 0).
Qed.

Theorem agent_life_audited_witness :
  ∃ n ls L, lsteps "relay:8443" waiting_life n ls L ∧ (n <= 20)%nat ∧ al_pc L = RunReturned (Ok tt).
Proof.
  destruct (agent_life_audited "relay:8443" agent_load cert_files (Some 7) "agent.yaml" agent_proc 2
    _ waiting_life agent_started agent_waiting) as (_ & _ & _ & H). exact H.
Defined.

(** The relay emits its first event, and waits. *)
Definition relay_event : Event :=
  mkEvent ActionAgentConnected "relay" (sc_ListenAddr (rc_Server main_config)) 7 "" "" ∅.
Definition emitting_relay : RelayLife (Lim := Z) :=
  let L := new_relay_life (rp_admin main_proc) in
  relay_at (RelayEmitting relay_event) (set_emits (<[0%nat := relay_event]> ∅) (rl_emitter L)) L.
Definition waiting_relay : RelayLife (Lim := Z) :=
  relay_at RelayWaiting (Emit_select (rl_emitter emitting_relay) 0 relay_event EmitSend) emitting_relay.

Abbreviation main_rlsteps := (rlsteps os_listen (rp_index main_proc)).

Lemma relay_emitting :
  main_rlsteps (new_relay_life (rp_admin main_proc)) 1 [ECheck 0 relay_event] emitting_relay.
Proof.
  apply (rlsteps_snoc _ _ _ 0 [] _ _ _ (rlsteps_nil _ _ _)), (rl_emit _ _ _ relay_event);
    [reflexivity|by vm_compute|]. by apply estep_check.
Qed.
Lemma relay_waiting :
  main_rlsteps (new_relay_life (rp_admin main_proc)) 2 [ECheck 0 relay_event; EAccepted relay_event] waiting_relay.
Proof.
  apply (rlsteps_snoc _ _ _ 1 _ _ _ _ relay_emitting), (rl_emitted _ _ emitting_relay relay_event); [reflexivity|].
  by apply (estep_send _ 0).
Qed.

Theorem relay_life_audited_witness :
  ∃ n ls L, main_rlsteps waiting_relay n ls L ∧ (n <= 12)%nat ∧ rl_pc L = RelayExited (Ok tt).
Proof.
  destruct (relay_life_audited os_listen (rp_index main_proc) main_load cert_files ∅ false 7 "v1" "relay.yaml"
    main_proc 2 _ waiting_relay main_started relay_waiting) as (_ & _ & _ & _ & _ & H).
  exact (H eq_refl).
Defined.
