(* ===== verification/LoadStats.v ===== *)
(** * The figures of the load test: [scripts/loadtest/main.go]

    Percentiles, error rates and the verdicts that depend on them, in the
    floating point in which the program computes them, with the sort of the
    samples. *)

From Stdlib Require Import ZArith Lia SpecFloat.
From stdpp Require Import sorting.
From S2P Require Import Prelude Float.

(** ** float64 *)

(** [math.Ceil], of a value that is not negative. *)
Definition Ceil (x : spec_float) : spec_float :=
  match x with
  | S754_finite false m e => if bool_decide (0 <= e) then x else f64_of_Z ((Z.pos m + (2 ^ (- e) - 1)) / 2 ^ (- e))
  | _ => x
  end.

Definition f64_gtb (x y : spec_float) : bool := SFltb y x.

(** The order of a float64: its value times 2^1074, with NaN below and the
    infinities outside. *)
Definition f64_key (x : spec_float) : Z :=
  match x with
  | S754_zero _ => 0
  | S754_finite s m e => (if s then -1 else 1) * Z.pos m * 2 ^ (e + 1074)
  | S754_infinity s => (if s then -1 else 1) * 2 ^ 2200
  | S754_nan => - 2 ^ 2201
  end.

Definition f64_le (x y : spec_float) : Prop := f64_key x <= f64_key y.

#[export] Instance f64_le_dec : RelDecision f64_le.
Proof. intros x y. unfold f64_le. apply _. Defined.
#[export] Instance f64_le_trans : Transitive f64_le.
Proof. intros x y z. unfold f64_le. lia. Qed.
#[export] Instance f64_le_total : Total f64_le.
Proof. intros x y. unfold f64_le. lia. Qed.

(** [sort.Float64s] *)
Definition Float64s (l : list spec_float) : list spec_float := merge_sort f64_le l.

(** ** Percentiles *)

(** The index that percentile reads, [len] being the length and [q] the value
    of [p/100]. *)
Definition index_at (q : spec_float) (len : nat) : option nat :=
  match trunc_f64 (Ceil (f64_mul q (f64_of_Z (Z.of_nat len)))) with
  | None => None
  | Some n =>
      let idx := n - 1 in
      let idx := if bool_decide (idx < 0) then 0 else idx in
      let idx := if bool_decide (idx >= Z.of_nat len) then Z.of_nat len - 1 else idx in
      Some (Z.to_nat idx)
  end.
Definition percentile_index (len : nat) (p : spec_float) : option nat := index_at (f64_div p (f64_of_Z 100)) len.

(** [func percentile(sorted []float64, p float64) float64] *)
Definition percentile (sorted : list spec_float) (p : spec_float) : option spec_float :=
  match sorted with
  | [] => Some (S754_zero false)
  | _ => match percentile_index (length sorted) p with Some i => sorted !! i | None => None end
  end.

(** [func printLatencyRow(n int, latencies []float64)]: the four figures. *)
Definition printLatencyRow (latencies : list spec_float) : option (spec_float * spec_float * spec_float * spec_float) :=
  p50 ← percentile latencies (f64_of_Z 50);
  p95 ← percentile latencies (f64_of_Z 95);
  p99 ← percentile latencies (f64_of_Z 99);
  pmax ← percentile latencies (f64_of_Z 100);
  Some (p50, p95, p99, pmax).

(** The nearest rank, in integers. *)
Definition nearest_rank (len p : Z) : Z := (p * len + 99) / 100 - 1.

(** The largest number of concurrent round trips of the latency benchmark. *)
Definition max_level : nat := 500.

Definition percentile_index_ok (p : Z) : bool :=
  let q := f64_div (f64_of_Z p) (f64_of_Z 100) in
  forallb (λ len, bool_decide (index_at q len = Some (Z.to_nat (nearest_rank (Z.of_nat len) p)))) (seq 1 max_level).

(** For every number of samples the benchmark can collect, the floating-point
    index is the nearest rank. *)
Lemma percentile_index_exact len p :
  (0 < len <= max_level)%nat → p ∈ [50; 95; 99; 100] →
  percentile_index len (f64_of_Z p) = Some (Z.to_nat (nearest_rank (Z.of_nat len) p)).
Proof.
  intros Hl Hp.
  assert (forallb percentile_index_ok [50; 95; 99; 100] = true) as Hall by (by vm_compute).
  rewrite forallb_forall in Hall. specialize (Hall p ltac:(by apply list_elem_of_In)).
  unfold percentile_index_ok in Hall. rewrite forallb_forall in Hall.
  apply (bool_decide_eq_true_1 _), Hall, in_seq. lia.
Qed.

(** How many samples are at most, and below, a value. *)
Definition count_le (l : list spec_float) (x : spec_float) : nat := length (filter (λ y, f64_le y x) l).
Definition count_lt (l : list spec_float) (x : spec_float) : nat := length (filter (λ y, ¬ f64_le x y) l).

(** [x] is the [p]-th percentile of the samples by the nearest-rank method. *)
Definition nearest (l : list spec_float) (p : Z) (x : spec_float) : Prop :=
  x ∈ l ∧ p * Z.of_nat (length l) <= 100 * Z.of_nat (count_le l x) ∧
  100 * Z.of_nat (count_lt l x) < p * Z.of_nat (length l).

#[export] Instance count_le_perm : Proper ((≡ₚ) ==> (=) ==> (=)) count_le.
Proof. intros l l' Hl x ? <-. unfold count_le. by rewrite Hl. Qed.
#[export] Instance count_lt_perm : Proper ((≡ₚ) ==> (=) ==> (=)) count_lt.
Proof. intros l l' Hl x ? <-. unfold count_lt. by rewrite Hl. Qed.

Lemma nearest_perm l l' p x : l ≡ₚ l' → nearest l p x → nearest l' p x.
Proof. intros Hl (H1 & H2 & H3). unfold nearest. by rewrite <-Hl. Qed.

Lemma sorted_below l i j x y :
  StronglySorted f64_le l → l !! i = Some x → l !! j = Some y → (i <= j)%nat → f64_le x y.
Proof.
  intros Hs. revert i j. induction Hs as [|z l Hs IH Hf]; intros [|i] [|j] Hi Hj Hij; simplify_eq/=; try (by done || lia).
  - unfold f64_le. lia.
  - by eapply Forall_lookup_1.
  - eapply IH; [done..|lia].
Qed.

(** In a sorted list the elements up to [i] are at most the [i]-th, and only
    those before it can be below. *)
Lemma count_le_sorted l i x :
  StronglySorted f64_le l → l !! i = Some x → (S i <= count_le l x)%nat.
Proof.
  intros Hs Hi. assert (Forall (λ y, f64_le y x) (take (S i) l)) as Hf.
  { apply Forall_lookup_2. intros j y [Hj ?]%lookup_take_Some. eapply sorted_below; [done|exact Hj|exact Hi|lia]. }
  unfold count_le. rewrite <-(take_drop (S i) l), filter_app, length_app.
  rewrite (filter_all (λ y, f64_le y x) _ Hf), length_take.
  apply lookup_lt_Some in Hi. lia.
Qed.

Lemma count_lt_sorted l i x :
  StronglySorted f64_le l → l !! i = Some x → (count_lt l x <= i)%nat.
Proof.
  intros Hs Hi. assert (Forall (λ y, ¬ ¬ f64_le x y) (drop i l)) as Hf.
  { apply Forall_lookup_2. intros j y Hj. rewrite lookup_drop in Hj. intros Hn. apply Hn.
    eapply sorted_below; [done|exact Hi|exact Hj|lia]. }
  unfold count_lt. rewrite <-(take_drop i l), filter_app, length_app.
  rewrite (filter_none (λ y, ¬ f64_le x y) _ Hf). cbn. rewrite Nat.add_0_r.
  etrans; [apply length_filter|]. rewrite length_take. lia.
Qed.

Lemma nearest_rank_range len p :
  0 < len → 0 < p <= 100 → 0 <= nearest_rank len p < len ∧ p * len <= 100 * (nearest_rank len p + 1) ∧
  100 * nearest_rank len p < p * len.
Proof.
  intros Hl Hp. unfold nearest_rank. pose proof (Z.div_mod (p * len + 99) 100 ltac:(lia)).
  pose proof (Z.mod_pos_bound (p * len + 99) 100 ltac:(lia)). nia.
Qed.

Lemma nearest_rank_mono len p p' : 0 <= len → p <= p' → nearest_rank len p <= nearest_rank len p'.
Proof. intros Hl Hp. unfold nearest_rank. apply Z.sub_le_mono_r, Z.div_le_mono; nia. Qed.
Lemma nearest_rank_last len : nearest_rank len 100 = len - 1.
Proof. unfold nearest_rank. rewrite (Z.mul_comm 100), Z.div_add_l by lia. by rewrite Z.add_0_r. Qed.

Lemma percentile_sorted l p :
  (0 < length l <= max_level)%nat → p ∈ [50; 95; 99; 100] → StronglySorted f64_le l →
  ∃ x, percentile l (f64_of_Z p) = Some x ∧ l !! Z.to_nat (nearest_rank (Z.of_nat (length l)) p) = Some x ∧ nearest l p x.
Proof.
  intros Hl Hp Hs. assert (0 < p <= 100) as Hp' by (revert Hp; clear; rewrite !elem_of_cons, elem_of_nil; lia).
  destruct (nearest_rank_range (Z.of_nat (length l)) p ltac:(lia) Hp') as (Hr & H1 & H2).
  destruct (lookup_lt_is_Some_2 l (Z.to_nat (nearest_rank (Z.of_nat (length l)) p))) as [x Hx]; [lia|].
  exists x. split_and!; [|done|].
  - unfold percentile. rewrite percentile_index_exact by done. destruct l; [cbn in Hl; lia|done].
  - pose proof (count_le_sorted _ _ _ Hs Hx). pose proof (count_lt_sorted _ _ _ Hs Hx).
    split_and!; [by eapply list_elem_of_lookup_2|lia|lia].
Qed.

(** The latency rows are right. For any samples, at most as many as the
    benchmark takes, in any order: the four figures are the nearest-rank
    percentiles of the samples, although their indices are computed in floating
    point, they do not decrease, and the last is the largest sample. *)
Theorem latency_row_correct samples :
  (0 < length samples <= max_level)%nat →
  ∃ p50 p95 p99 pmax, printLatencyRow (Float64s samples) = Some (p50, p95, p99, pmax) ∧
    nearest samples 50 p50 ∧ nearest samples 95 p95 ∧ nearest samples 99 p99 ∧ nearest samples 100 pmax ∧
    f64_le p50 p95 ∧ f64_le p95 p99 ∧ f64_le p99 pmax ∧ Forall (λ x, f64_le x pmax) samples.
Proof.
  intros Hl. pose proof (merge_sort_Permutation f64_le samples) as Hp.
  assert (StronglySorted f64_le (Float64s samples)) as Hs by apply (StronglySorted_merge_sort f64_le).
  assert (length (Float64s samples) = length samples) as El by (unfold Float64s; by rewrite Hp).
  assert ((0 < length (Float64s samples) <= max_level)%nat) as Hl' by (by rewrite El).
  destruct (percentile_sorted _ 50 Hl' ltac:(set_solver) Hs) as (a & Ea & La & Na).
  destruct (percentile_sorted _ 95 Hl' ltac:(set_solver) Hs) as (b & Eb & Lb & Nb).
  destruct (percentile_sorted _ 99 Hl' ltac:(set_solver) Hs) as (c & Ec & Lc & Nc).
  destruct (percentile_sorted _ 100 Hl' ltac:(set_solver) Hs) as (d & Ed & Ld & Nd).
  exists a, b, c, d. unfold printLatencyRow. rewrite Ea, Eb, Ec, Ed. cbn [mbind option_bind].
  rewrite El in La, Lb, Lc, Ld.
  split_and!; [done|by eapply nearest_perm..| | | |].
  - eapply sorted_below; [exact Hs|exact La|exact Lb|].
    pose proof (nearest_rank_mono (Z.of_nat (length samples)) 50 95). lia.
  - eapply sorted_below; [exact Hs|exact Lb|exact Lc|].
    pose proof (nearest_rank_mono (Z.of_nat (length samples)) 95 99). lia.
  - eapply sorted_below; [exact Hs|exact Lc|exact Ld|].
    pose proof (nearest_rank_mono (Z.of_nat (length samples)) 99 100). lia.
  - rewrite <-Hp. apply Forall_lookup_2. intros i x Hi. eapply sorted_below; [exact Hs|exact Hi|exact Ld|].
    apply lookup_lt_Some in Hi. change (merge_sort f64_le samples) with (Float64s samples) in Hi. rewrite El in Hi.
    rewrite nearest_rank_last. lia.
Qed.

(** ** Error rates *)

(** [float64(fail) / float64(ok+fail) * 100] *)
Definition errRate (ok fail : Z) : spec_float :=
  f64_mul (f64_div (f64_of_Z fail) (f64_of_Z (ok + fail))) (f64_of_Z 100).

Inductive Verdict := FAIL | PASS.
#[export] Instance Verdict_eq_dec : EqDecision Verdict.
Proof. solve_decision. Defined.

(** [func printResult(name, ok, fail, elapsed)]: the counts and the verdict. *)
Definition printResult (ok fail : Z) : Z * Z * Z * Verdict :=
  (ok + fail, ok, fail, if f64_gtb (errRate ok fail) (f64_of_Z 1) then FAIL else PASS).

(** The rate of [fail] out of [n] is above [limit] percent exactly when it is so
    in integers. *)
Definition rate_exact (limit n : nat) : bool :=
  forallb (λ fail, Bool.eqb (f64_gtb (errRate (Z.of_nat n - Z.of_nat fail) (Z.of_nat fail)) (f64_of_Z (Z.of_nat limit)))
                     (Z.of_nat limit * Z.of_nat n <? 100 * Z.of_nat fail)) (seq 0 (S n)).

Lemma rate_exact_spec limit n ok fail :
  rate_exact limit n = true → ok + fail = Z.of_nat n → 0 <= ok → 0 <= fail →
  f64_gtb (errRate ok fail) (f64_of_Z (Z.of_nat limit)) = bool_decide (Z.of_nat limit * (ok + fail) < 100 * fail).
Proof.
  intros Hr Hn Hok Hf. unfold rate_exact in Hr. rewrite forallb_forall in Hr.
  specialize (Hr (Z.to_nat fail)). rewrite in_seq in Hr. specialize (Hr ltac:(lia)).
  apply Bool.eqb_prop in Hr. replace (Z.of_nat n - Z.of_nat (Z.to_nat fail)) with ok in Hr by lia.
  rewrite Z2Nat.id in Hr by lia. rewrite Hr. case_bool_decide; lia.
Qed.

(** The streams of the load benchmark. *)
Definition load_streams : nat := 1000.

Lemma load_rate_exact : rate_exact 1 load_streams = true.
Proof. by vm_compute. Qed.

(** With no round trip at all the rate is not a number, and the verdict PASS. *)
Lemma empty_run_passes : printResult 0 0 = (0, 0, 0, PASS).
Proof. by vm_compute. Qed.

(** ** The stress loop *)

(** The loop of [func runStress()] from the batch of [n] streams on, given how
    many round trips of each batch succeed and fail; [None] when the loop has
    not ended in [fuel] batches, otherwise the breaking point it prints, if it
    finds one. *)
Fixpoint stress_loop (batch : Z → Z * Z) (fuel : nat) (n : Z) : option (option Z) :=
  match fuel with
  | O => None
  | S fuel =>
      if bool_decide (n <= 5000) then
        if f64_gtb (errRate (batch n).1 (batch n).2) (f64_of_Z 5) then Some (Some (n - 500))
        else stress_loop batch fuel (n + 500)
      else Some None
  end.

(** More than five percent of a batch fail, as the program computes it. *)
Definition breaks (batch : Z → Z * Z) (n : Z) : Prop := f64_gtb (errRate (batch n).1 (batch n).2) (f64_of_Z 5) = true.

Lemma stress_loop_spec batch fuel n :
  n mod 500 = 0 → 5500 <= n + 500 * (Z.of_nat fuel - 1) → (0 < fuel)%nat →
  ∃ r, stress_loop batch fuel n = Some r ∧
    match r with
    | Some k => ∃ m, n <= m <= 5000 ∧ m mod 500 = 0 ∧ k = m - 500 ∧ breaks batch m ∧
                  ∀ m', n <= m' < m → m' mod 500 = 0 → ¬ breaks batch m'
    | None => ∀ m, n <= m <= 5000 → m mod 500 = 0 → ¬ breaks batch m
    end.
Proof.
  revert n. induction fuel as [|fuel IH]; intros n Hm Hfu Hp; [lia|]. cbn [stress_loop].
  case_bool_decide as Hle; [|eexists; split; [done|]; intros m ? _; exfalso; lia].
  assert (∀ m, n <= m → m mod 500 = 0 → m = n ∨ n + 500 <= m) as Hstep.
  { intros m H1 H2. pose proof (Z.div_mod n 500 ltac:(lia)). pose proof (Z.div_mod m 500 ltac:(lia)). lia. }
  destruct (f64_gtb _ _) eqn:Hb.
  - eexists. split; [done|]. exists n. split_and!; try done; try lia.
  - assert (¬ breaks batch n) as Hnb by (unfold breaks; congruence).
    destruct (IH (n + 500)) as (r & -> & Hr); try lia.
    { rewrite <-Zplus_mod_idemp_r. change (500 mod 500) with 0. by rewrite Z.add_0_r. }
    exists r. split; [done|]. destruct r as [k|].
    + destruct Hr as (m & H1 & H2 & H3 & H4 & H5). exists m. split_and!; try done; try lia.
      intros m' H6 H7. destruct (Hstep m' ltac:(lia) H7) as [->|?]; [done|]. apply H5; [lia|done].
    + intros m H1 H2. destruct (Hstep m ltac:(lia) H2) as [->|?]; [done|]. apply Hr; [lia|done].
Qed.

Lemma load_verdict ok fail :
  0 <= ok → 0 <= fail → ok + fail = 1000 →
  printResult ok fail = (1000, ok, fail, if bool_decide (10 < fail) then FAIL else PASS).
Proof.
  intros Hok Hf Hn. unfold printResult. rewrite Hn.
  rewrite (rate_exact_spec 1 load_streams) by (exact load_rate_exact || done).
  rewrite Hn. by rewrite (bool_decide_ext _ (10 < fail)) by lia.
Qed.
