(* ===== verification/LoadTest.v ===== *)
(** * The load test: [scripts/loadtest/main.go]

    The benchmarks that drive two sessions over a pipe, or a live relay: which
    ones run, how their goroutines report, and the round trip each of them
    makes. A round trip is given by its outcome, how long it took or that it
    failed; the order in which the goroutines of a batch finish is a parameter.
    The figures are in LoadStats.v. *)

From Stdlib Require Import ZArith Lia SpecFloat.
From stdpp Require Import sorting.
From S2P Require Import Prelude Frame Window WriteQueue Stream Mux MuxInv MuxOps MuxOrder MuxView Link Float LoadStats.

(** ** Which benchmarks run *)

Inductive Bench := BLoad | BStress | BThroughput | BLatency | BChurn | BRamp.

(** The switch of [func main()]; [None] is the exit with status 1. *)
Definition main_benches (bench remoteAddr : string) : option (list Bench) :=
  let inProcess := bool_decide (remoteAddr = "") in
  if bool_decide (bench = "all") then
    Some ([BLoad] ++ (if inProcess then [BStress; BThroughput] else []) ++ [BLatency] ++
          (if inProcess then [BChurn] else []) ++ [BRamp])
  else if bool_decide (bench = "load") then Some [BLoad]
  else if bool_decide (bench = "stress") then Some [BStress]
  else if bool_decide (bench = "throughput") then Some [BThroughput]
  else if bool_decide (bench = "latency") then Some [BLatency]
  else if bool_decide (bench = "churn") then Some [BChurn]
  else if bool_decide (bench = "ramp") then Some [BRamp]
  else None.

(** ** The sessions *)

(** The configuration in [func newMuxPair(maxStreams int)]. *)
Definition pair_config (maxStreams : Z) : MuxConfig :=
  mkMuxConfig (maxStreams + 100) 262144 (1048576 * 4) (30 * 1000000000) (5 * 1000000000) (60 * 1000000000).

(** [func newMuxPair(maxStreams int) (relay, agent *protocol.MuxSession, cleanup func())] *)
Definition newMuxPair (maxStreams : Z) : MuxSession * MuxSession :=
  (NewMuxSession RoleRelay (pair_config maxStreams), NewMuxSession RoleAgent (pair_config maxStreams)).
Definition pair_cleanup (p : MuxSession * MuxSession) : MuxSession * MuxSession := (Mux.Close p.1, Mux.Close p.2).

(** [func makePayload(size int) []byte] *)
Definition makePayload (size : nat) : list byte := (λ i, Zbyte (Z.of_nat i mod 256)) <$> seq 0 size.

(** ** Batches of goroutines

    [for range n { wg.Add(1); go func() { ...; report } () }; wg.Wait()]: the
    goroutines report in the order [sched]. *)

Definition fan_out {S O} (report : S → O → S) (outs : list O) (sched : list nat) (s : S) : S :=
  foldl (λ s i, match outs !! i with Some o => report s o | None => s end) s sched.

(** The counters of a batch. A round trip that succeeds took so many
    nanoseconds. *)
Record Counters := mkCounters { c_ok : Z; c_fail : Z; c_totalLat : Z }.

Definition count_trip (c : Counters) (out : option Z) : Counters :=
  match out with
  | Some d => mkCounters (int64 (c_ok c + 1)) (c_fail c) (int64 (c_totalLat c + Z.quot d 1000))
  | None => mkCounters (c_ok c) (int64 (c_fail c + 1)) (c_totalLat c)
  end.

(** [time.Since(t0).Seconds() * 1000] *)
Definition Seconds (d : Z) : spec_float :=
  f64_add (f64_of_Z (Z.quot d 1000000000)) (f64_div (f64_of_Z (Z.rem d 1000000000)) (f64_of_Z 1000000000)).
Definition millis (d : Z) : spec_float := f64_mul (Seconds d) (f64_of_Z 1000).

Definition append_trip (l : list spec_float) (out : option Z) : list spec_float :=
  match out with Some d => l ++ [millis d] | None => l end.

(** [func runRemoteLoad(streams, msgSize int)], of remoteTCPRoundTrips, and
    [func runLoad()], which in process makes echoRoundTrips. *)
Definition runRemoteLoad (outs : list (option Z)) (sched : list nat) : Z * Z * Z * Verdict :=
  let c := fan_out count_trip outs sched (mkCounters 0 0 0) in
  printResult (c_ok c) (c_fail c).
Definition runLoad (remoteAddr : string) (remote echo : list (option Z)) (sched : list nat) : Z * Z * Z * Verdict :=
  if bool_decide (remoteAddr ≠ "") then runRemoteLoad remote sched
  else
    let c := fan_out count_trip echo sched (mkCounters 0 0 0) in
    printResult (c_ok c) (c_fail c).

(** [func runStress()] *)
Definition stress_batch (trips : Z → list (option Z)) (sched : Z → list nat) (n : Z) : Z * Z :=
  let c := fan_out count_trip (trips n) (sched n) (mkCounters 0 0 0) in (c_ok c, c_fail c).
Definition runStress (remoteAddr : string) (trips : Z → list (option Z)) (sched : Z → list nat) : option (option Z) :=
  if bool_decide (remoteAddr ≠ "") then Some None else stress_loop (stress_batch trips sched) 11 500.

(** [func collectLatencies(n int, roundTrip func() error) []float64] *)
Definition collectLatencies (outs : list (option Z)) (sched : list nat) : list spec_float :=
  Float64s (fan_out append_trip outs sched []).

(** [func runConcurrent(n int, roundTrip func() error) (ok, fail int64, avgLat time.Duration)] *)
Definition runConcurrent (outs : list (option Z)) (sched : list nat) : Z * Z * Z :=
  let c := fan_out count_trip outs sched (mkCounters 0 0 0) in
  (c_ok c, c_fail c,
   if bool_decide (c_ok c > 0) then int64 (Z.quot (c_totalLat c) (c_ok c) * 1000) else 0).

(** [func (d Duration) Round(m Duration) Duration], of a duration that is not
    negative. *)
Definition Round (d m : Z) : Z :=
  let r := Z.rem d m in
  if bool_decide (r + r < m) then d - r
  else let d1 := int64 (d + m - r) in if bool_decide (d1 > d) then d1 else 2 ^ 63 - 1.

(** [func printRampRow(n int, ok, fail int64, avgLat time.Duration)] *)
Definition printRampRow (n : nat) (row : Z * Z * Z) : nat * Z * Z * Z := (n, row.1.1, row.1.2, Round row.2 1000).

(** The levels of runLatency and runRamp, and their rows; [remote n] and
    [echo n] are the outcomes of the round trips of the level [n]. *)
Definition latency_levels : list nat := [1; 10; 50; 100; 500]%nat.
Definition latency_rows (levels : list nat) (trips : nat → list (option Z)) (sched : nat → list nat)
    : list (nat * option (spec_float * spec_float * spec_float * spec_float)) :=
  (λ n, (n, printLatencyRow (collectLatencies (trips n) (sched n)))) <$> levels.
Definition runLatency (remoteAddr : string) (remote echo : nat → list (option Z)) (sched : nat → list nat) :=
  latency_rows latency_levels (if bool_decide (remoteAddr ≠ "") then remote else echo) sched.

Definition remote_ramp_levels : list nat := [10; 25; 50; 100; 200; 500]%nat.
Definition ramp_levels : list nat := [10; 25; 50; 100; 250; 500; 1000; 1500; 2000]%nat.
Definition ramp_rows (levels : list nat) (trips : nat → list (option Z)) (sched : nat → list nat) : list (nat * Z * Z * Z) :=
  (λ n, printRampRow n (runConcurrent (trips n) (sched n))) <$> levels.
Definition runRamp (remoteAddr : string) (remote echo : nat → list (option Z)) (sched : nat → list nat) :=
  if bool_decide (remoteAddr ≠ "") then ramp_rows remote_ramp_levels remote sched
  else ramp_rows ramp_levels echo sched.

(** [func runChurn()]: one round trip after the other, and the streams that the
    relay's session then still has; [None] when it is skipped. *)
Definition runChurn (remoteAddr : string) (outs : list (option Z)) (elapsed : Z) (relayMux : MuxSession)
    : option (Z * Z * spec_float * Z) :=
  if bool_decide (remoteAddr ≠ "") then None
  else
    let c := foldl count_trip (mkCounters 0 0 0) outs in
    Some (c_ok c, c_fail c, f64_div (f64_of_Z (c_ok c)) (Seconds elapsed), NumStreams relayMux).

(** ** The order of the goroutines does not matter *)

Section schedules.
Context {S O : Type} (R : relation S) `{!Equivalence R} (report : S → O → S).
Context `{!Proper (R ==> (=) ==> R) report}.
Hypothesis report_comm : ∀ s a b, R (report (report s a) b) (report (report s b) a).

#[local] Instance foldl_report_proper : Proper (R ==> (=) ==> R) (foldl report).
Proof. intros s s' Hs l ? <-. revert s s' Hs. induction l as [|o l IH]; intros s s' Hs; cbn; [done|]. apply IH. by rewrite Hs. Qed.

Lemma foldl_report_perm l l' s : l ≡ₚ l' → R (foldl report s l) (foldl report s l').
Proof.
  intros Hp. revert s. induction Hp as [|o l l' _ IH|a b l|l1 l2 l3 _ IH1 _ IH2]; intros s; cbn.
  - done.
  - apply IH.
  - by rewrite report_comm.
  - etrans; [apply IH1|apply IH2].
Qed.

Lemma fan_out_omap outs sched s : fan_out report outs sched s = foldl report s (omap (outs !!.) sched).
Proof.
  revert s. induction sched as [|i sched IH]; intros s; cbn; [done|]. unfold fan_out in *. cbn. rewrite IH.
  by destruct (outs !! i).
Qed.

Lemma omap_lookup_seq (outs : list O) : omap (outs !!.) (seq 0 (length outs)) = outs.
Proof.
  induction outs as [|o outs IH]; [done|]. cbn. f_equal. rewrite <-fmap_S_seq.
  transitivity (omap (outs !!.) (seq 0 (length outs))); [|exact IH].
  generalize (seq 0 (length outs)). clear. intros l. induction l as [|i l IHl]; [done|]. cbn.
  destruct (outs !! i); [f_equal|]; exact IHl.
Qed.

(** Whatever the order, a batch adds up its reports. *)
Lemma fan_out_any_order outs sched s :
  sched ≡ₚ seq 0 (length outs) → R (fan_out report outs sched s) (foldl report s outs).
Proof.
  intros Hp. rewrite fan_out_omap. transitivity (foldl report s (omap (outs !!.) (seq 0 (length outs)))).
  - apply foldl_report_perm. by rewrite Hp.
  - by rewrite omap_lookup_seq.
Qed.
End schedules.

(** The round trips of a batch that succeeded, and how many did not. *)
Definition succeeded (outs : list (option Z)) : list Z := omap id outs.
Definition failures (outs : list (option Z)) : nat := length (filter (λ o, o = None) outs).

Lemma failures_cons o outs :
  failures (o :: outs) = ((match o with None => 1 | Some _ => 0 end) + failures outs)%nat.
Proof. unfold failures. destruct o; [by rewrite filter_cons_False|by rewrite filter_cons_True]. Qed.

Lemma succeeded_failures outs : (length (succeeded outs) + failures outs = length outs)%nat.
Proof.
  induction outs as [|o outs IH]; [done|]. rewrite failures_cons. unfold succeeded in *. destruct o; cbn in *; lia.
Qed.

Lemma int64_add_l a b : int64 (int64 a + b) = int64 (a + b).
Proof.
  unfold int64, swrap. f_equal. replace ((a + 2 ^ (64 - 1)) mod 2 ^ 64 - 2 ^ (64 - 1) + b + 2 ^ (64 - 1))
    with ((a + 2 ^ (64 - 1)) mod 2 ^ 64 + b) by lia.
  rewrite Zplus_mod_idemp_l. f_equal. lia.
Qed.

Lemma count_trip_comm c a b : count_trip (count_trip c a) b = count_trip (count_trip c b) a.
Proof.
  destruct a as [d|], b as [d'|]; cbn; try done; f_equal; rewrite !int64_add_l; f_equal; lia.
Qed.

Lemma append_trip_comm l a b : append_trip (append_trip l a) b ≡ₚ append_trip (append_trip l b) a.
Proof. destruct a, b; cbn; try done. rewrite <-!(assoc_L (++)). cbn. by rewrite (Permutation_swap (millis z)). Qed.

#[local] Instance append_trip_proper : Proper ((≡ₚ) ==> (=) ==> (≡ₚ)) append_trip.
Proof. intros l l' Hl o ? <-. destruct o; cbn; by rewrite Hl. Qed.

(** The microseconds they took, each rounded down. *)
Definition micros (l : list Z) : Z := foldr (λ d acc, Z.quot d 1000 + acc) 0 l.

Lemma micros_bounds l : Forall (λ d, 0 <= d <= 2 ^ 50) l → 0 <= micros l <= 2 ^ 50 * zlen l.
Proof.
  unfold micros. induction 1 as [|x l Hx _ IH]; [cbn; lia|]. cbn [foldr length]. rewrite Nat2Z.inj_succ.
  assert (0 <= Z.quot x 1000 <= x) by (rewrite Z.quot_div_nonneg by lia; split; [apply Z.div_pos|apply Z.div_le_upper_bound]; lia).
  lia.
Qed.

(** What a batch adds up to, as long as the sums fit. *)
Lemma foldl_count outs c :
  0 <= c_ok c → 0 <= c_fail c → 0 <= c_totalLat c → Forall (λ d, 0 <= d <= 2 ^ 50) (succeeded outs) →
  c_ok c + zlen outs < 2 ^ 63 → c_fail c + zlen outs < 2 ^ 63 → c_totalLat c + micros (succeeded outs) < 2 ^ 63 →
  foldl count_trip c outs =
    mkCounters (c_ok c + zlen (succeeded outs)) (c_fail c + Z.of_nat (failures outs)) (c_totalLat c + micros (succeeded outs)).
Proof.
  revert c. induction outs as [|[d|] outs IH]; intros [ok fail tot] H1 H2 H3 Hf H4 H5 H6.
  - cbn. unfold failures. cbn. f_equal; lia.
  - change (succeeded (Some d :: outs)) with (d :: succeeded outs) in *.
    apply Forall_cons in Hf as [Hd Hf]. pose proof (micros_bounds _ Hf).
    assert (0 <= Z.quot d 1000) by (apply Z.quot_pos; lia). rewrite failures_cons.
    cbn [foldl count_trip c_ok c_fail c_totalLat length micros foldr] in *. fold (micros (succeeded outs)) in *.
    rewrite !int64_id by (unfold is_i64; lia).
    rewrite IH; cbn; try lia; [|done]. f_equal; lia.
  - change (succeeded (None :: outs)) with (succeeded outs) in *. pose proof (micros_bounds _ Hf).
    rewrite failures_cons. cbn [foldl count_trip c_ok c_fail c_totalLat length] in *.
    rewrite int64_id by (unfold is_i64; lia).
    rewrite IH; cbn; try lia; [|done]. f_equal; lia.
Qed.

Lemma batch_counts outs sched :
  sched ≡ₚ seq 0 (length outs) → (length outs <= 5000)%nat → Forall (λ d, 0 <= d <= 2 ^ 50) (succeeded outs) →
  fan_out count_trip outs sched (mkCounters 0 0 0) =
    mkCounters (zlen (succeeded outs)) (Z.of_nat (failures outs)) (micros (succeeded outs)).
Proof.
  intros Hp Hl Hf. rewrite (fan_out_any_order (=) count_trip count_trip_comm outs sched _ Hp).
  pose proof (succeeded_failures outs). pose proof (micros_bounds _ Hf).
  rewrite foldl_count; cbn; try lia; done.
Qed.

Lemma Round_whole k m : 0 < m → Round (k * m) m = k * m.
Proof. intros Hm. unfold Round. rewrite Z.rem_mul by lia. rewrite bool_decide_eq_true_2 by lia. lia. Qed.

(** A batch reports what its round trips did, whatever the order in which its
    goroutines finish. Every round trip is counted once, as a success or as a
    failure; the average of the ramp benchmark's row is that of the successes,
    in whole microseconds, with no overflow for the batches and time limits the
    benchmarks use; the latencies are those of the successes, sorted; the load
    benchmark passes exactly when at most ten of its thousand round trips fail;
    and the churn benchmark, which makes them one after the other, counts the
    same. *)
Theorem batch_reports outs sched :
  sched ≡ₚ seq 0 (length outs) → (length outs <= 5000)%nat → Forall (λ d, 0 <= d <= 2 ^ 50) (succeeded outs) →
  (∃ ok fail avg, (∀ n, printRampRow n (runConcurrent outs sched) = (n, ok, fail, avg)) ∧
     ok = zlen (succeeded outs) ∧ ok + fail = zlen outs ∧
     avg = (if bool_decide (ok = 0) then 0 else Z.quot (micros (succeeded outs)) ok * 1000) ∧
     (∀ elapsed m, ∃ rate, runChurn "" outs elapsed m = Some (ok, fail, rate, NumStreams m))) ∧
  collectLatencies outs sched ≡ₚ millis <$> succeeded outs ∧
  StronglySorted f64_le (collectLatencies outs sched) ∧
  (length outs = 1000%nat →
     (runRemoteLoad outs sched).2 = if bool_decide (10 < failures outs)%nat then FAIL else PASS).
Proof.
  intros Hp Hl Hf. pose proof (succeeded_failures outs) as Hsf. pose proof (micros_bounds _ Hf) as Hm.
  pose proof (batch_counts outs sched Hp Hl Hf) as Hc. split_and!.
  - unfold printRampRow, runConcurrent. rewrite Hc. cbn [c_ok c_fail c_totalLat fst snd]. do 3 eexists.
    split_and!; [done|done|lia| |].
    + repeat case_bool_decide; try done; try lia. assert (0 <= Z.quot (micros (succeeded outs)) (zlen (succeeded outs)) <= 2 ^ 50).
      { split; [apply Z.quot_pos; lia|]. apply Z.quot_le_upper_bound; lia. }
      rewrite int64_id by (unfold is_i64; lia). by apply Round_whole.
    + intros elapsed m. unfold runChurn. cbn [negb]. rewrite bool_decide_eq_false_2 by (by intros []).
      rewrite (fan_out_any_order (=) count_trip count_trip_comm outs sched _ Hp) in Hc. rewrite Hc. by eexists.
  - unfold collectLatencies, Float64s. rewrite merge_sort_Permutation.
    rewrite (fan_out_any_order (≡ₚ) append_trip append_trip_comm outs sched [] Hp).
    assert (∀ l, foldl append_trip l outs = l ++ (millis <$> succeeded outs)) as E; [|by rewrite E].
    clear. induction outs as [|[d|] outs IH]; intros l; cbn; [by rewrite app_nil_r| |by apply IH].
    rewrite IH. by rewrite <-(assoc_L (++)).
  - apply (StronglySorted_merge_sort f64_le).
  - intros El. unfold runRemoteLoad. rewrite Hc. cbn [c_ok c_fail].
    rewrite load_verdict by lia. cbn. by rewrite (bool_decide_ext _ (10 < failures outs)%nat) by lia.
Qed.

Lemma batch_reports_witness :
  ∃ l, collectLatencies [Some 2000000; None; Some 1500999] [2; 0; 1]%nat ≡ₚ l ∧ l = [millis 2000000; millis 1500999].
Proof.
  destruct (batch_reports [Some 2000000; None; Some 1500999] [2; 0; 1]%nat) as (_ & H & _).
  - vm_compute. apply (bool_decide_unpack _). by vm_compute.
  - cbn. lia.
  - by repeat constructor.
  - eexists. split; [exact H|]. reflexivity.
Defined.

(** The verdict of the stress benchmark. It ends, and reports the batch before
    the first one with an error rate above five percent, or that there is none;
    a batch that breaks is one whose counted failures exceed that rate in the
    floating point of the program. Against a live relay it does not run. *)
Theorem stress_verdict trips sched :
  (∀ n, 500 <= n <= 5000 → length (trips n) = Z.to_nat n ∧ sched n ≡ₚ seq 0 (length (trips n)) ∧
     Forall (λ d, 0 <= d <= 2 ^ 50) (succeeded (trips n))) →
  (∃ r, runStress "" trips sched = Some r ∧
     match r with
     | Some k => ∃ m, 500 <= m <= 5000 ∧ m mod 500 = 0 ∧ k = m - 500 ∧ breaks (stress_batch trips sched) m ∧
                   ∀ m', 500 <= m' < m → m' mod 500 = 0 → ¬ breaks (stress_batch trips sched) m'
     | None => ∀ m, 500 <= m <= 5000 → m mod 500 = 0 → ¬ breaks (stress_batch trips sched) m
     end) ∧
  (∀ n, 500 <= n <= 5000 → stress_batch trips sched n = (n - Z.of_nat (failures (trips n)), Z.of_nat (failures (trips n)))) ∧
  (∀ addr, addr ≠ "" → runStress addr trips sched = Some None).
Proof.
  intros Hb. split_and!.
  - unfold runStress. rewrite bool_decide_eq_false_2 by (by intros []). apply stress_loop_spec; [done|lia..].
  - intros n Hn. destruct (Hb n Hn) as (Hl & Hp & Hf). unfold stress_batch. rewrite batch_counts by (done || lia). cbn.
    pose proof (succeeded_failures (trips n)). f_equal. lia.
  - intros addr Ha. unfold runStress. by rewrite bool_decide_eq_true_2.
Qed.
