(* ===== verification/LoadTrip.v ===== *)
(** * The round trips of the load test

    The client of a stream that echoRoundTrip is, the forwarder that answers
    it, the echo servers behind that forwarder ([scripts/loadtest/main.go],
    [scripts/echoserver/main.go]), and the round trip over TCP. *)

From Stdlib Require Import ZArith Lia SpecFloat.
From S2P Require Import Prelude Frame Window WriteQueue Stream Mux MuxInv MuxOps MuxOrder MuxView Link MuxRace MuxWitness Pump MuxSim RouteCopy Forwarder Path Float LoadStats LoadTest.

(** ** echoRoundTrip *)

(** Where the call is: in OpenStream, in Write, in the loop with [total] bytes
    read, in the deferred Close, returned (with the stream, if it got one). *)
Inductive EchoPC :=
| EStart
| EOpening (r : nat)
| EWriting (r : nat)
| EReading (r total : nat)
| EClosing (r : nat) (err : bool)
| EReturned (r : option nat) (err : bool).

Record EchoTrip := mkEchoTrip { et_hist : list mlabel; et_mux : MuxSession; et_pc : EchoPC }.

(** The stream of the call, while it owns one. *)
Definition et_stream (pc : EchoPC) : option nat :=
  match pc with
  | EStart => None
  | EOpening r | EWriting r | EReading r _ | EClosing r _ => Some r
  | EReturned r _ => r
  end.

(** A step of the session that is not a call on that stream. *)
Definition elsewhere (pc : EchoPC) (e : mlabel) : Prop :=
  match et_stream pc with
  | None => True
  | Some r => by_owner r e = false ∧ e ≠ LOpened r ∧ e ≠ LOpenFailed r
  end.

(** [func echoRoundTrip(ctx, mux, msg) error], among everything else the
    session does. *)
Inductive echo_step (msg : list byte) : EchoTrip → EchoTrip → Prop :=
| echo_session es m pc e m' :
    mstep m e m' → elsewhere pc e →
    echo_step msg (mkEchoTrip es m pc) (mkEchoTrip (es ++ [e]) m' pc)
| echo_open es m r m' :
    OpenStream_begin m [] = Ok (r, m') →
    echo_step msg (mkEchoTrip es m EStart) (mkEchoTrip (es ++ [LOpen r]) m' (EOpening r))
| echo_open_err es m err :
    OpenStream_begin m [] = Err err →
    echo_step msg (mkEchoTrip es m EStart) (mkEchoTrip es m (EReturned None true))
| echo_opened es m r m' :
    mstep m (LOpened r) m' →
    echo_step msg (mkEchoTrip es m (EOpening r)) (mkEchoTrip (es ++ [LOpened r]) m' (EWriting r))
| echo_open_failed es m r m' :
    mstep m (LOpenFailed r) m' →
    echo_step msg (mkEchoTrip es m (EOpening r)) (mkEchoTrip (es ++ [LOpenFailed r]) m' (EReturned None true))
| echo_write es m r s s' m' :
    m_heap m !! r = Some s → Stream.Write s msg = WriteOk s' → m' = set_heap (<[r := s']> (m_heap m)) m →
    echo_step msg (mkEchoTrip es m (EWriting r)) (mkEchoTrip (es ++ [LWrite r msg]) m' (EReading r 0))
| echo_write_err es m r s :
    m_heap m !! r = Some s → Stream.Write s msg = WriteErr →
    echo_step msg (mkEchoTrip es m (EWriting r)) (mkEchoTrip es m (EClosing r true))
| echo_read es m r total s p s' m' :
    (total < length msg)%nat → m_heap m !! r = Some s → Stream.Read s (length msg - total) = ReadData p s' →
    m' = set_heap (<[r := s']> (m_heap m)) m →
    echo_step msg (mkEchoTrip es m (EReading r total)) (mkEchoTrip (es ++ [LRead r p]) m' (EReading r (total + length p)))
| echo_read_err es m r total s :
    (total < length msg)%nat → m_heap m !! r = Some s → Stream.Read s (length msg - total) = ReadEOF →
    echo_step msg (mkEchoTrip es m (EReading r total)) (mkEchoTrip es m (EClosing r true))
| echo_all es m r total :
    (length msg <= total)%nat →
    echo_step msg (mkEchoTrip es m (EReading r total)) (mkEchoTrip es m (EClosing r false))
| echo_close es m r err m' :
    is_Some (m_heap m !! r) → m' = StreamClose m r →
    echo_step msg (mkEchoTrip es m (EClosing r err)) (mkEchoTrip (es ++ [LClose r]) m' (EReturned (Some r) err)).

Inductive echo_run (role : MuxRole) (config : MuxConfig) (msg : list byte) : EchoTrip → Prop :=
| echo_new es m : reachable role config es m → echo_run role config msg (mkEchoTrip es m EStart)
| echo_next t t' : echo_run role config msg t → echo_step msg t t' → echo_run role config msg t'.

(** What has been written to its stream and read from it. *)
Definition echo_inv (msg : list byte) (t : EchoTrip) : Prop :=
  match et_pc t with
  | EStart => True
  | EOpening r | EWriting r => reads r (et_hist t) = [] ∧ written r (et_hist t) = []
  | EReading r total =>
      length (reads r (et_hist t)) = total ∧ (total <= length msg)%nat ∧ written r (et_hist t) = [msg]
  | EClosing r err =>
      err = false → length (reads r (et_hist t)) = length msg ∧ written r (et_hist t) = [msg]
  | EReturned None err => err = true
  | EReturned (Some r) err =>
      LClose r ∈ et_hist t ∧
      (err = false → length (reads r (et_hist t)) = length msg ∧ written r (et_hist t) = [msg])
  end.

Lemma elsewhere_silent pc e r :
  elsewhere pc e → et_stream pc = Some r → reads r [e] = [] ∧ written r [e] = [].
Proof. intros He Hr. unfold elsewhere in He. rewrite Hr in He. destruct He as [Hb _]. by destruct (not_by_owner r e Hb) as (? & ? & _). Qed.

Lemma read_length s n p s' : Stream.Read s n = ReadData p s' → (length p <= n)%nat.
Proof. unfold Stream.Read. destruct (readBuf s); [by destruct (isReadClosed s)|]. intros [= <- <-]. rewrite length_take. lia. Qed.

Lemma echo_step_session role config msg t t' :
  echo_step msg t t' → reachable role config (et_hist t) (et_mux t) → reachable role config (et_hist t') (et_mux t').
Proof.
  intros Hs Hr. destruct Hs; cbn in *; try done; (eapply msteps_snoc; [exact Hr|]); try done.
  - by econstructor.
  - by eapply mstep_write.
  - by eapply mstep_read.
  - by apply mstep_close.
Qed.

Lemma echo_step_inv role config msg t t' :
  fits_ids role config → reachable role config (et_hist t) (et_mux t) →
  echo_step msg t t' → echo_inv msg t → echo_inv msg t'.
Proof.
  intros Hfit Hr Hs. unfold echo_inv.
  destruct Hs as [es m pc e m' Hs He|es m r m' Ho|es m err Ho|es m r m' Hs|es m r m' Hs|es m r s s' m' Hh Hw ->
    |es m r s Hh Hw|es m r total s p s' m' Ht Hh Hrd ->|es m r total s Ht Hh Hrd|es m r total Ht|es m r err m' Hsome ->]; cbn in *.
  - assert (∀ r, et_stream pc = Some r →
      reads r (es ++ [e]) = reads r es ∧ written r (es ++ [e]) = written r es) as Hsil.
    { intros r Er. destruct (elsewhere_silent _ _ _ He Er) as [E1 E2]. by rewrite reads_app, written_app, E1, E2, !app_nil_r. }
    destruct pc as [|r|r|r total|r err|[r|] err]; try done; destruct (Hsil r eq_refl) as [-> ->]; try done.
    intros [? ?]. split; [apply elem_of_app; by left|done].
  - intros _. assert (m_heap m !! r = None) as Hn.
    { assert (mux_inv m) as I by (by eapply reachable_inv).
      destruct (m_heap m !! r) as [s|] eqn:E; [|done]. apply (ci_fresh _ _ _ _ _ _ _ _ I) in E.
      apply OpenStream_begin_ok in Ho as (_ & _ & id & m1 & m2 & Ha & Hnew & _).
      apply allocID_frame in Ha. rewrite Ha in Hnew. injection Hnew as <- _. cbn in E. lia. }
    destruct (reachable_history _ _ _ _ r Hfit Hr) as (evs & _ & H1 & H2 & _ & Hh). rewrite Hn in Hh. subst evs.
    by rewrite reads_app, written_app, <-H1, <-H2.
  - done.
  - intros [H1 H2]. by rewrite reads_app, written_app, H1, H2.
  - done.
  - intros [H1 H2]. rewrite reads_app, written_app, H1, H2. cbn. rewrite decide_True by done. split_and!; [done|lia|done].
  - done.
  - intros (H1 & H2 & H3). rewrite reads_app, written_app, H3. cbn. rewrite decide_True, app_nil_r by done.
    rewrite length_app, H1. apply read_length in Hrd. split_and!; [done|lia|done].
  - done.
  - intros (H1 & H2 & H3) _. split; [lia|done].
  - intros H1. split; [apply elem_of_app; right; by apply list_elem_of_singleton|]. rewrite reads_app, written_app. cbn. by rewrite !app_nil_r.
Qed.

(** A round trip that reports success is one. Whatever else goes on in the
    session, when echoRoundTrip returns without an error it has written the
    message to a stream of its own as one chunk, has read exactly as many bytes
    as the message has, never asking for more, and has closed the stream; when
    it fails after it got the stream, it has closed it too. *)
Theorem echo_round_trip role config msg t r err :
  fits_ids role config → echo_run role config msg t → et_pc t = EReturned r err →
  match r with
  | None => err = true
  | Some r =>
      LClose r ∈ et_hist t ∧
      (err = false → written r (et_hist t) = [msg] ∧ length (reads r (et_hist t)) = length msg)
  end.
Proof.
  intros Hfit Hrun Hpc.
  assert (reachable role config (et_hist t) (et_mux t) ∧ echo_inv msg t) as [_ I].
  { clear Hpc. induction Hrun as [es m Hr|t t' _ [IHr IHi] Hs]; [done|].
    split; [by eapply echo_step_session|by eapply echo_step_inv]. }
  unfold echo_inv in I. rewrite Hpc in I. destruct r as [r|]; [|done]. destruct I as [I1 I2]. split; [done|].
  intros E. by destruct (I2 E).
Qed.

(** ** The forwarder of the test *)

(** A goroutine of [func startAgentForwarder(ctx, agentMux, echoAddr)], from its
    dial on; [None] is a failed dial, after which it returns with the stream
    neither closed nor reset. *)
Record TestForward := mkTestForward {
  tf_pump : Pump;
  tf_done : nat;                   (* chan struct{}, 2 *)
  tf_ctx : bool;
  tf_returned : bool
}.

Definition test_dialed (dial : option Conn) (s : StreamSession) : option TestForward :=
  match dial with Some c => Some (mkTestForward (new_pump s c) 0 false false) | None => None end.

(** The end of a copy: [done <- struct{}{}]. *)
Definition test_local_end (f : TestForward) (err : bool) : TestForward :=
  let p := tf_pump f in
  mkTestForward (mkPump (p_stream p) (p_conn p) (CopyDone err) (p_toStream p)) (S (tf_done f)) (tf_ctx f) (tf_returned f).
Definition test_stream_end (f : TestForward) (err : bool) : TestForward :=
  let p := tf_pump f in
  mkTestForward (mkPump (p_stream p) (p_conn p) (p_toConn p) (CopyDone err)) (S (tf_done f)) (tf_ctx f) (tf_returned f).

(** The select, and the deferred calls: s.Close(), then local.Close(). *)
Definition test_return (f : TestForward) : option TestForward :=
  let p := tf_pump f in
  if negb (tf_returned f) && (tf_ctx f || bool_decide (0 < tf_done f)%nat)
  then Some (mkTestForward (mkPump (Stream.Close (p_stream p)).1 (conn_Close (p_conn p)) (p_toConn p) (p_toStream p))
               (tf_done f) (tf_ctx f) true)
  else None.

Definition tf_set (p : Pump) (f : TestForward) : TestForward := mkTestForward p (tf_done f) (tf_ctx f) (tf_returned f).

Inductive tf_step : TestForward → list plabel → TestForward → Prop :=
| tf_copy f l p : copy_step (tf_pump f) l p → tf_step f [l] (tf_set p f)
| tf_local f err : p_toConn (tf_pump f) = CopyReturned err → tf_step f [] (test_local_end f err)
| tf_stream f err : p_toStream (tf_pump f) = CopyReturned err → tf_step f [] (test_stream_end f err)
| tf_return f f' : test_return f = Some f' → tf_step f [PStream SClose] f'
| tf_env f l p : env_step (tf_pump f) l p → tf_step f [l] (tf_set p f)
| tf_cancel f : tf_step f [] (mkTestForward (tf_pump f) (tf_done f) true (tf_returned f)).

Inductive tf_steps : TestForward → list plabel → TestForward → Prop :=
| tf_steps_nil f : tf_steps f [] f
| tf_steps_snoc f ls f1 l f2 : tf_steps f ls f1 → tf_step f1 l f2 → tf_steps f (ls ++ l) f2.

Record tf_inv (id : Z) (cfg : StreamConfig) (payload : list byte) (ls : list plabel) (f : TestForward) : Prop := {
  tfi_pump : pump_inv ls (opened id cfg payload) (tf_pump f);
  tfi_returned : tf_returned f = true →
    c_closed (p_conn (tf_pump f)) = true ∧ isWriteClosed (p_stream (tf_pump f)) = true
}.

Lemma tf_step_inv id cfg payload ls f l f' :
  tf_inv id cfg payload ls f → tf_step f l f' → tf_inv id cfg payload (ls ++ l) f'.
Proof.
  intros [I1 I2] Hs. destruct Hs as [f l p Hs|f err E|f err E|f f' E|f l p Hs|f]; rewrite ?app_nil_r.
  - destruct (copy_step_closed _ _ _ Hs) as (C1 & C2 & C3). split; cbn; [by eapply copy_step_inv|naive_solver].
  - destruct f as [[s c q1 q2] d ctx ret]. cbn in *. subst. split; [|done]. destruct I1. split; [done|by eapply flow_inv_same|done].
  - destruct f as [[s c q1 q2] d ctx ret]. cbn in *. subst. split; [|done]. destruct I1. split; [done|by eapply flow_inv_same|done].
  - pose proof (si_live _ (pump_inv_live _ _ _ _ _ I1)) as Hl. unfold test_return in E. case_match; [|done].
    destruct f as [[s c q1 q2] d ctx ret]. simplify_eq/=. split; cbn.
    + eapply (pump_inv_quiet _ _ s); [by eapply pump_inv_conn|done|by apply sstep_close].
    + intros _. split; [done|by apply Close_write_closed].
  - destruct (env_step_closed _ _ _ Hs) as (C1 & C2 & C3). split; cbn; [by eapply env_step_inv|rewrite C1; naive_solver].
  - by split.
Qed.

(** The test's forwarder copies faithfully in both directions, and leaves the
    connection closed and its side of the stream closed when it returns, which
    it can as soon as either direction has ended or the context is done. *)
Theorem test_forward_copies id cfg payload f0 ls f :
  test_dialed (Some new_conn) (opened id cfg payload) = Some f0 → tf_steps f0 ls f →
  c_out (p_conn (tf_pump f)) `prefix_of` bytes_read (stream_events ls) ∧
  mjoin (chunks_written (stream_events ls)) `prefix_of` conn_received ls ∧
  (tf_returned f = true → c_closed (p_conn (tf_pump f)) = true ∧ isWriteClosed (p_stream (tf_pump f)) = true) ∧
  (tf_ctx f = true ∨ (0 < tf_done f)%nat → tf_returned f = true ∨ is_Some (test_return f)).
Proof.
  intros [= <-] Hs.
  assert (tf_inv id cfg payload ls f) as [[_ I _] R].
  { remember (mkTestForward _ _ _ _) as f0. induction Hs; subst; [split; [apply new_pump_inv|done]|]. eapply tf_step_inv; eauto. }
  split_and!; [by apply flow_toConn|by eapply flow_toStream|done|].
  intros Hor. unfold test_return. destruct (tf_returned f); [by left|right].
  replace (tf_ctx f || bool_decide (0 < tf_done f)%nat) with true; [done|]. symmetry.
  destruct Hor as [->|?]; [done|]. by rewrite bool_decide_eq_true_2, orb_true_r.
Qed.

(** ** The echo servers *)

(** A goroutine of an echo server: io.Copy(conn, conn), then, in
    [scripts/echoserver], the counter, then the close. *)
Inductive EchoState := EchoCopy (q : CopyPC) | EchoUncounted | EchoClosed.

Record EchoConn := mkEchoConn { ek_conn : Conn; ek_state : EchoState }.

Inductive ek_step : EchoConn → list plabel → EchoConn → Prop :=
| ek_read c n p c' :
    (0 < n)%nat → conn_Read c n = ConnData p c' →
    ek_step (mkEchoConn c (EchoCopy CopyRead)) [PConnRead p] (mkEchoConn c' (EchoCopy (CopyWrite p)))
| ek_eof c n :
    conn_Read c n = ConnEOF →
    ek_step (mkEchoConn c (EchoCopy CopyRead)) [] (mkEchoConn c (EchoCopy (CopyReturned false)))
| ek_read_err c n :
    conn_Read c n = ConnErr →
    ek_step (mkEchoConn c (EchoCopy CopyRead)) [] (mkEchoConn c (EchoCopy (CopyReturned true)))
| ek_write c p c' :
    conn_Write c p = Some c' →
    ek_step (mkEchoConn c (EchoCopy (CopyWrite p))) [PConnWrite p] (mkEchoConn c' (EchoCopy CopyRead))
| ek_write_err c p done :
    conn_Write c p = None → done `prefix_of` p →
    ek_step (mkEchoConn c (EchoCopy (CopyWrite p))) [PConnWrite done]
      (mkEchoConn (conn_wrote done c) (EchoCopy (CopyReturned true)))
| ek_recv c st bytes :
    c_eof c = false → ek_step (mkEchoConn c st) [PRecv bytes] (mkEchoConn (conn_recv bytes c) st)
| ek_recv_eof c st : ek_step (mkEchoConn c st) [] (mkEchoConn (conn_recv_eof c) st)
| ek_fault c st reading : ek_step (mkEchoConn c st) [] (mkEchoConn (conn_fault reading c) st).

(** [func main()] of [scripts/echoserver]: the counters and the goroutines, by
    the order in which their connections were accepted. *)
Record EchoServer := mkEchoServer { es_active : Z; es_total : Z; es_conns : list (EchoConn * list plabel) }.

Definition new_server : EchoServer := mkEchoServer 0 0 [].

(** Which goroutines are still counted. *)
Definition counted (k : EchoConn) : bool := match ek_state k with EchoCopy _ => true | _ => false end.

Inductive server_step : EchoServer → EchoServer → Prop :=
| server_accept_err s : server_step s s
| server_accept s :
    server_step s (mkEchoServer (int64 (es_active s + 1)) (int64 (es_total s + 1))
                     (es_conns s ++ [(mkEchoConn new_conn (EchoCopy CopyRead), [])]))
| server_copy s i k ls l k' :
    es_conns s !! i = Some (k, ls) → ek_step k l k' →
    server_step s (mkEchoServer (es_active s) (es_total s) (<[i := (k', ls ++ l)]> (es_conns s)))
| server_uncount s i c err ls :
    es_conns s !! i = Some (mkEchoConn c (EchoCopy (CopyReturned err)), ls) →
    server_step s (mkEchoServer (int64 (es_active s - 1)) (es_total s) (<[i := (mkEchoConn c EchoUncounted, ls)]> (es_conns s)))
| server_close s i c ls :
    es_conns s !! i = Some (mkEchoConn c EchoUncounted, ls) →
    server_step s (mkEchoServer (es_active s) (es_total s) (<[i := (mkEchoConn (conn_Close c) EchoClosed, ls)]> (es_conns s))).

Inductive server_run : EchoServer → Prop :=
| server_new : server_run new_server
| server_next s s' : server_run s → server_step s s' → server_run s'.

(** What a connection has been sent back. *)
Definition ek_hand (st : EchoState) : list byte := match st with EchoCopy q => in_hand q | _ => [] end.
Definition ek_over (st : EchoState) : bool := match st with EchoCopy q => returned q | _ => true end.

Definition ek_inv (x : EchoConn * list plabel) : Prop :=
  let '(k, ls) := x in
  c_out (ek_conn k) = conn_written ls ∧ conn_read ls ++ c_in (ek_conn k) = conn_received ls ∧
  ∃ lost, conn_written ls ++ ek_hand (ek_state k) ++ lost = conn_read ls ∧ (ek_over (ek_state k) = false → lost = []).

Lemma ek_step_inv k ls l k' : ek_inv (k, ls) → ek_step k l k' → ek_inv (k', ls ++ l).
Proof.
  intros (H1 & H2 & lost & H3 & H4) Hs. unfold ek_inv.
  destruct Hs as [c n p c' Hn (E1 & E2)%conn_Read_data|c n Hr|c n Hr|c p c' ->%conn_Write_Some|c p done Hf [rest ->]
    |c st bytes Hn|c st|c st reading]; cbn in *; autorewrite with history; cbn; rewrite ?app_nil_r.
  - split_and!; [congruence| |].
    + rewrite <-H2, <-E2. by rewrite (assoc_L (++)).
    + exists []. split; [|done]. rewrite <-H3, (H4 eq_refl), !app_nil_r. done.
  - split_and!; [done..|]. exists lost. by rewrite (H4 eq_refl) in *.
  - split_and!; [done..|]. exists lost. by rewrite (H4 eq_refl) in *.
  - split_and!; [by rewrite H1|done|]. exists []. split; [|done]. rewrite <-H3, (H4 eq_refl), !app_nil_r. done.
  - split_and!; [by rewrite H1|done|]. exists (rest ++ lost). split; [|done]. by rewrite <-H3, <-!(assoc_L (++)).
  - split_and!; [done| |by exists lost]. by rewrite (assoc_L (++)), H2.
  - split_and!; [done..|]. by exists lost.
  - split_and!; [done..|]. by exists lost.
Qed.

Lemma ek_step_counted k l k' : ek_step k l k' → counted k' = counted k.
Proof. by intros []. Qed.

Definition alive (l : list (EchoConn * list plabel)) : nat := length (filter (λ x, counted x.1 = true) l).

Lemma alive_cons x l : alive (x :: l) = ((if counted x.1 then 1 else 0) + alive l)%nat.
Proof. unfold alive. rewrite filter_cons. case_decide as E; [by rewrite E|]. by destruct (counted x.1). Qed.

Lemma alive_insert l i k ls k' ls' :
  l !! i = Some (k, ls) →
  (alive (<[i := (k', ls')]> l) + (if counted k then 1 else 0) = alive l + (if counted k' then 1 else 0))%nat.
Proof.
  revert i. induction l as [|x l IH]; intros [|i] Hi; [done..| |]; cbn in Hi; simplify_eq.
  - change (<[0%nat := (k', ls')]> ((k, ls) :: l)) with ((k', ls') :: l). rewrite !alive_cons. cbn [fst]. lia.
  - change (<[S i := (k', ls')]> (x :: l)) with (x :: <[i := (k', ls')]> l). rewrite !alive_cons.
    specialize (IH _ Hi). lia.
Qed.

Definition server_inv (s : EchoServer) : Prop :=
  Forall ek_inv (es_conns s) ∧
  (zlen (es_conns s) < 2 ^ 63 → es_active s = Z.of_nat (alive (es_conns s)) ∧ es_total s = zlen (es_conns s)).

Lemma alive_le l : (alive l <= length l)%nat.
Proof. apply length_filter. Qed.

Lemma server_step_inv s s' : server_inv s → server_step s s' → server_inv s'.
Proof.
  intros [F N] Hs. destruct Hs as [s|s|s i k ls l k' Hi Hk|s i c err ls Hi|s i c ls Hi]; [done|..]; unfold server_inv; cbn [es_active es_total es_conns].
  - split; [apply Forall_app; split; [done|]; apply Forall_singleton; cbn; split_and!; [done..|]; by exists []|].
    rewrite length_app. cbn. intros Hl. destruct N as [-> ->]; [lia|]. pose proof (alive_le (es_conns s)).
    rewrite !int64_id by (unfold is_i64; lia). split; [|lia].
    unfold alive. rewrite filter_app, length_app, filter_cons_True by done. cbn. lia.
  - split; [apply Forall_insert; [done|]; eapply ek_step_inv, Hk; by eapply Forall_lookup_1 in Hi|].
    rewrite length_insert. intros Hl. destruct (N Hl) as [-> ->]. pose proof (alive_insert _ _ _ _ k' (ls ++ l) Hi) as Ha.
    rewrite (ek_step_counted _ _ _ Hk) in Ha. split; [destruct (counted k); lia|done].
  - assert (ek_inv (mkEchoConn c (EchoCopy (CopyReturned err)), ls)) as (K1 & K2 & lost & K3 & _) by (by eapply Forall_lookup_1 in Hi).
    split; [apply Forall_insert; [done|]; split_and!; [done..|]; by exists lost|].
    rewrite length_insert. intros Hl. destruct (N Hl) as [-> ->]. pose proof (alive_le (es_conns s)).
    pose proof (alive_insert _ _ _ _ (mkEchoConn c EchoUncounted) ls Hi) as Ha. cbn in Ha.
    rewrite int64_id by (unfold is_i64; lia). split; [lia|done].
  - assert (ek_inv (mkEchoConn c EchoUncounted, ls)) as (K1 & K2 & lost & K3 & _) by (by eapply Forall_lookup_1 in Hi).
    split; [apply Forall_insert; [done|]; split_and!; [done..|]; by exists lost|].
    rewrite length_insert. intros Hl. destruct (N Hl) as [-> ->].
    pose proof (alive_insert _ _ _ _ (mkEchoConn (conn_Close c) EchoClosed) ls Hi) as Ha. cbn in Ha. split; [lia|done].
Qed.

(** The echo server echoes: on every connection it writes back the bytes it was
    sent, in order, and all of those it has read while its copy runs and has
    nothing in hand. Its counters are the goroutines that run and the
    connections accepted, also after accepts that failed. *)
Theorem echo_server_echoes s i k ls :
  server_run s → es_conns s !! i = Some (k, ls) →
  c_out (ek_conn k) `prefix_of` conn_received ls ∧
  (ek_state k = EchoCopy CopyRead → c_out (ek_conn k) ++ c_in (ek_conn k) = conn_received ls) ∧
  (zlen (es_conns s) < 2 ^ 63 → es_active s = Z.of_nat (alive (es_conns s)) ∧ es_total s = zlen (es_conns s)).
Proof.
  intros Hr Hi. assert (server_inv s) as [F N] by (clear Hi; induction Hr; [done|by eapply server_step_inv]).
  destruct (Forall_lookup_1 _ _ _ _ F Hi) as (H1 & H2 & lost & H3 & H4). split_and!; [| |done].
  - rewrite H1, <-H2, <-H3, <-!(assoc_L (++)). by apply prefix_app_r.
  - intros E. rewrite E in *. rewrite H1, <-H2, <-H3, (H4 eq_refl). cbn. by rewrite app_nil_r.
Qed.

(** ** The other round trips *)

(** [func remoteTCPRoundTrip(ctx, addr, msg) error]: the results of the dial, of
    the write, and of the one Read, the bytes with whether it also said io.EOF
    or failed. *)
Inductive RemoteRead := RemoteBytes (n : nat) | RemoteEOF (n : nat) | RemoteErr (n : nat).
Inductive RemoteErrs := ErrDial | ErrRemoteWrite | ErrRemoteRead | ErrEmptyResponse.

Definition remoteTCPRoundTrip (dial write : bool) (read : RemoteRead) : result RemoteErrs unit :=
  if negb dial then Err ErrDial
  else if negb write then Err ErrRemoteWrite
  else match read with
       | RemoteErr _ => Err ErrRemoteRead
       | RemoteBytes n | RemoteEOF n => if bool_decide (n = 0%nat) then Err ErrEmptyResponse else Ok tt
       end.

(** The loops of [func runThroughput()]: what was sent, given which writes
    succeed, and what was received, given what the reads return. *)
Definition totalBytes : Z := 100 * 1024 * 1024.
Definition chunkSize : Z := 32 * 1024.

Fixpoint throughput_send (write : nat → bool) (fuel i : nat) (sent : Z) : option Z :=
  match fuel with
  | O => None
  | S fuel =>
      if bool_decide (sent < totalBytes) then
        if write i then throughput_send write fuel (S i) (sent + chunkSize) else Some sent
      else Some sent
  end.

Fixpoint throughput_receive (read : nat → option Z) (fuel i : nat) (total : Z) : option Z :=
  match fuel with
  | O => None
  | S fuel =>
      if bool_decide (total < totalBytes) then
        match read i with
        | Some n => throughput_receive read fuel (S i) (int64 (total + n))
        | None => Some total
        end
      else Some total
  end.

Lemma throughput_send_S write fuel i sent :
  throughput_send write (S fuel) i sent =
  if bool_decide (sent < totalBytes) then
    if write i then throughput_send write fuel (S i) (sent + chunkSize) else Some sent
  else Some sent.
Proof. reflexivity. Qed.

(** The writer ends after at most 3200 chunks, and has then sent exactly a
    hundred megabytes unless a write failed; the reader ends too when every
    read returns something, and never counts a chunk more than that. *)
Lemma throughput_send_spec write k i :
  (k <= 3200)%nat → ∃ sent,
    throughput_send write (S k) i (totalBytes - Z.of_nat k * chunkSize) = Some sent ∧
    totalBytes - Z.of_nat k * chunkSize <= sent ∧
    sent <= totalBytes ∧ ((∀ j, (i <= j < i + k)%nat → write j = true) → sent = totalBytes).
Proof.
  revert i. induction k as [|k IH]; intros i Hk; rewrite throughput_send_S.
  - rewrite bool_decide_eq_false_2 by lia. eexists. split; [done|]. split; [lia|]. split; [lia|]. intros _. lia.
  - rewrite bool_decide_eq_true_2 by (unfold chunkSize; lia). destruct (write i) eqn:Ew.
    + replace (totalBytes - Z.of_nat (S k) * chunkSize + chunkSize) with (totalBytes - Z.of_nat k * chunkSize) by lia.
      destruct (IH (S i) ltac:(lia)) as (sent & -> & H0 & H1 & H2). exists sent. split_and!; [done|unfold chunkSize in *; lia|done|].
      intros Hw. apply H2. intros j Hj. apply Hw. lia.
    + eexists. split; [done|]. split; [lia|]. split; [unfold chunkSize; lia|]. intros Hw. specialize (Hw i ltac:(lia)). congruence.
Qed.

Lemma throughput_receive_spec read fuel i total :
  (∀ j n, read j = Some n → 0 < n <= chunkSize) → 0 <= total <= totalBytes + chunkSize →
  (totalBytes - total < Z.of_nat fuel) → (0 < fuel)%nat →
  ∃ r, throughput_receive read fuel i total = Some r ∧ total <= r <= Z.max total (totalBytes + chunkSize - 1) ∧
    ((∀ j, is_Some (read j)) → totalBytes <= r).
Proof.
  intros Hread. revert i total. induction fuel as [|fuel IH]; intros i total Ht Hf Hp; [lia|]. cbn [throughput_receive].
  case_bool_decide as Hlt; [|eexists; split; [done|]; split; [lia|]; intros _; lia].
  destruct (read i) as [n|] eqn:Er.
  - pose proof (Hread _ _ Er) as Hn. assert (totalBytes + chunkSize < 2 ^ 62) by done.
    rewrite int64_id by (unfold is_i64; lia).
    destruct (IH (S i) (total + n) ltac:(lia) ltac:(lia) ltac:(lia)) as (r & -> & H1 & H2).
    exists r. split_and!; [done|lia|lia|done].
  - eexists. split; [done|]. split; [lia|]. intros Hall. destruct (Hall i). congruence.
Qed.

(** [func runThroughput()]: skipped, or given up without a stream, or the
    megabytes sent and received and the rate. The reader has sent its total on
    readDone before it is taken; [None] stands for a reader that does not end in
    [fuel] reads. *)
Inductive Throughput := Skipped | OpenFailed | Rates (sent received : Z) (mbps : spec_float).

Definition runThroughput (remoteAddr : string) (opened : bool) (write : nat → bool) (read : nat → option Z)
    (elapsed : Z) (fuel : nat) : option Throughput :=
  if bool_decide (remoteAddr ≠ "") then Some Skipped
  else if negb opened then Some OpenFailed
  else
    sent ← throughput_send write fuel 0 0;
    received ← throughput_receive read fuel 0 0;
    Some (Rates (Z.quot (Z.quot sent 1024) 1024) (Z.quot (Z.quot received 1024) 1024)
            (f64_div (f64_div (f64_div (f64_of_Z received) (Seconds elapsed)) (f64_of_Z 1024)) (f64_of_Z 1024))).

(** More fuel changes nothing. *)
Lemma throughput_send_more write fuel fuel' i sent r :
  throughput_send write fuel i sent = Some r → (fuel <= fuel')%nat → throughput_send write fuel' i sent = Some r.
Proof.
  revert fuel' i sent. induction fuel as [|fuel IH]; intros [|fuel'] i sent; try (done || lia).
  rewrite !throughput_send_S. repeat case_match; try done. intros Hr Hf. apply IH; [done|lia].
Qed.

Lemma megabytes n : 0 <= n → Z.quot (Z.quot n 1024) 1024 = n / (1024 * 1024).
Proof. intros Hn. rewrite Z.quot_quot, Z.quot_div_nonneg by lia. done. Qed.

(** The throughput benchmark ends: its writer makes at most 3200 writes, and its
    reader, when every read returns between one byte and a chunk or fails, as
    many as there are bytes. It reports at most a hundred megabytes of either,
    and exactly a hundred sent when no write failed and received when no read
    did; in remote mode it does not run. *)
Theorem throughput_ends write read elapsed :
  (∀ j n, read j = Some n → 0 < n <= chunkSize) →
  (∀ fuel, (fuel > Z.to_nat totalBytes)%nat → ∃ sent received mbps,
     runThroughput "" true write read elapsed fuel = Some (Rates sent received mbps) ∧
     0 <= sent <= 100 ∧ 0 <= received <= 100 ∧
     ((∀ j, (j < 3200)%nat → write j = true) → sent = 100) ∧ ((∀ j, is_Some (read j)) → received = 100)) ∧
  (∀ addr opened fuel, addr ≠ "" → runThroughput addr opened write read elapsed fuel = Some Skipped).
Proof.
  intros Hread. split.
  - intros fuel Hf. assert (totalBytes = 104857600) as Et by done. assert (chunkSize = 32768) as Ec by done.
    destruct (throughput_send_spec write 3200 0 ltac:(lia)) as (sent & Hs & H0 & H1 & H2).
    change (totalBytes - Z.of_nat 3200 * chunkSize) with 0 in Hs, H0.
    apply (throughput_send_more _ _ fuel) in Hs; [|lia].
    destruct (throughput_receive_spec read fuel 0 0 Hread ltac:(lia) ltac:(lia) ltac:(lia)) as (r & Hr & H3 & H4).
    unfold runThroughput. rewrite Hs, Hr. cbn [negb mbind option_bind]. rewrite bool_decide_eq_false_2 by (by intros []).
    do 3 eexists. split; [done|]. rewrite !megabytes by lia. split_and!.
    + apply Z.div_pos; lia.
    + apply Z.div_le_upper_bound; lia.
    + apply Z.div_pos; lia.
    + apply Z.lt_succ_r, Z.div_lt_upper_bound; lia.
    + intros Hw. rewrite H2, Et by (intros j Hj; apply Hw; lia). done.
    + intros Hall. specialize (H4 Hall). apply (Z.le_antisymm _ 100); [apply Z.lt_succ_r, Z.div_lt_upper_bound|apply Z.div_le_lower_bound]; lia.
  - intros addr opened fuel Ha. unfold runThroughput. by rewrite bool_decide_eq_true_2.
Qed.

(** The sessions of the tests have room for the streams the benchmarks open: the
    ID spaces suffice, and a round trip is refused a stream only when a hundred
    more are active than the level of concurrency asks for. *)
Lemma pair_capacity n role es m :
  0 <= n <= 2 ^ 30 → reachable role (pair_config n) es m →
  fits_ids role (pair_config n) ∧
  (∀ payload, OpenStream_begin m payload = Err ErrMaxStreamsExceeded → n + 100 <= NumStreams m).
Proof.
  intros Hn Hr. assert (fits_ids role (pair_config n)) as Hfit
    by (unfold fits_ids, start_id; cbn; destruct role; lia).
  split; [done|]. intros payload. unfold OpenStream_begin. destruct (m_goingAway m); [done|].
  rewrite (proj2 (reachable_setup _ _ _ _ Hr)). case_bool_decide as E; [intros _; cbn in E; lia|]. by repeat case_match.
Qed.

Lemma makePayload_spec size :
  length (makePayload size) = size ∧ ∀ i, (i < size)%nat → makePayload size !! i = Some (Zbyte (Z.of_nat i mod 256)).
Proof.
  unfold makePayload. rewrite length_fmap, length_seq. split; [done|]. intros i Hi.
  by rewrite list_lookup_fmap, lookup_seq_lt.
Qed.

(** ** A round trip

    The stream is opened and acknowledged, the message written, echoed in two
    frames and read, and the stream closed. *)

Definition trip_msg : list byte := makePayload 3.
Definition t1 : MuxSession := Eval vm_compute in (get_ok (O, m_new) (OpenStream_begin m_new [])).2.
Definition t2 : MuxSession := Eval vm_compute in handleFrame t1 (ack_frame 1).
Definition t3 : MuxSession := Eval vm_compute in OpenStream_acked t2 0.
Definition t4 : MuxSession := Eval vm_compute in write1 t3 0 trip_msg.
Definition t5 : MuxSession := Eval vm_compute in handleFrame t4 (data_frame 1 [x00; x01]).
Definition t6 : MuxSession := Eval vm_compute in read1 t5 0 3.
Definition t7 : MuxSession := Eval vm_compute in handleFrame t6 (data_frame 1 [x02]).
Definition t8 : MuxSession := Eval vm_compute in read1 t7 0 1.
Definition t9 : MuxSession := Eval vm_compute in StreamClose t8 0.

Definition trip_hist : list mlabel :=
  (((((((([] ++ [LOpen 0]) ++ [LFrame (ack_frame 1)]) ++ [LOpened 0]) ++ [LWrite 0 trip_msg]) ++
      [LFrame (data_frame 1 [x00; x01])]) ++ [LRead 0 [x00; x01]]) ++ [LFrame (data_frame 1 [x02])]) ++
    [LRead 0 [x02]]) ++ [LClose 0].

Ltac trip_frame := apply echo_session; [by apply mstep_frame|by split_and!].

Lemma trip_run :
  echo_run RoleRelay demo_config trip_msg (mkEchoTrip trip_hist t9 (EReturned (Some 0%nat) false)).
Proof.
  unfold trip_hist. eapply (echo_next _ _ _ (mkEchoTrip _ t8 (EClosing 0 false))); [|by apply echo_close].
  eapply (echo_next _ _ _ (mkEchoTrip _ t8 (EReading 0 3))); [|by apply echo_all].
  eapply (echo_next _ _ _ (mkEchoTrip _ t7 (EReading 0 2))); [|by eapply (echo_read _ _ _ 0 2 _ [x02]); [cbn; lia|vm_compute..]].
  eapply (echo_next _ _ _ (mkEchoTrip _ t6 (EReading 0 2))); [|trip_frame].
  eapply (echo_next _ _ _ (mkEchoTrip _ t5 (EReading 0 0))); [|by eapply (echo_read _ _ _ 0 0 _ [x00; x01]); [cbn; lia|vm_compute..]].
  eapply (echo_next _ _ _ (mkEchoTrip _ t4 (EReading 0 0))); [|trip_frame].
  eapply (echo_next _ _ _ (mkEchoTrip _ t3 (EWriting 0))); [|by eapply echo_write; vm_compute].
  eapply (echo_next _ _ _ (mkEchoTrip _ t2 (EOpening 0))).
  2:{ apply echo_opened, mstep_opened; [apply (bool_decide_unpack _); by vm_compute..|by vm_compute]. }
  eapply (echo_next _ _ _ (mkEchoTrip _ t1 (EOpening 0))).
  2:{ apply echo_session; [by apply mstep_frame|by split_and!]. }
  eapply (echo_next _ _ _ (mkEchoTrip [] m_new EStart)); [|by apply echo_open; vm_compute].
  apply echo_new. constructor.
Qed.

Lemma echo_round_trip_witness :
  written 0 trip_hist = [trip_msg] ∧ length (reads 0 trip_hist) = 3%nat.
Proof.
  destruct (echo_round_trip RoleRelay demo_config trip_msg _ (Some 0%nat) false demo_fits trip_run eq_refl) as [_ H].
  destruct (H eq_refl) as [H1 H2]. split; [exact H1|exact H2].
Defined.
